(* ===== verification/_CoqProject ===== *)
-Q . S2P
Prelude.v
Consts.v
Types.v
Aad.v
Primitives.v
Kdf.v
Aead.v
Keys.v
X3dh.v
Ratchet.v
RatchetSync.v
RatchetNet.v
RatchetHistory.v
Fingerprint.v
SqlDb.v
DbUsers.v
DbPrekeys.v
DbQueue.v
DbReceipts.v
DbTrace.v
DbLimits.v
ReceiptLife.v
Datetime.v
ServerWorld.v
ServerProcess.v
Handlers.v
HandlerFacts.v
Delivery.v
Drain.v
Ws.v
WsWriter.v
Schema.v
RelayLife.v
CryptoStore.v
CryptoMgr.v
CryptoMgrInv.v
CryptoMgrFacts.v
CryptoMgrRecv.v
CryptoMgrPrekeys.v
CryptoMgrLedger.v
CryptoMgrEntry.v
CryptoMgrOutbox.v
CryptoMgrCrash.v
CryptoMgrContact.v
ClientDb.v
Verification.v
ClientApp.v
ClientMain.v
ClientInput.v
ClientUi.v
ClientScreen.v
ClientNet.v
ClientAppInv.v
ClientAppRun.v
ClientIdentity.v
ClientAppSend.v
ClientServer.v
Directory.v
EndToEnd.v
Conversation.v
Introduction.v
ClientDemo.v
AppDemo.v
IntroDemo.v
