(* ===== verification/Prelude.v ===== *)
(** * CMP: a verified model of the end-to-end encrypted messenger

    CMP is a messenger of three Rust crates and a terminal client.
    [crates/protocol] has the wire types and limits; [crates/crypto] the
    cryptographic protocols (X3DH and the Double Ratchet) over primitives of
    other crates; [crates/server] the relay, which registers users, hands out
    pre-keys, queues ciphertexts and receipts in SQLite and pushes them to
    connected clients over WebSockets; [crates/client] the terminal client,
    with a cryptographic manager over a file of its own, a message database,
    an event loop and a network task.  This library models all four, up to the
    I/O at their edges, proves what each promises, and composes two clients
    with the relay between them.

    ** Files and what they model

    - [Prelude]: results, the state-and-error monad [rm] ([&mut S] with
      [Result]), machine integers, bytes, shared lemmas and tactics.
    - [Consts], [Types], [Aad]: [protocol/src/consts.rs], [types.rs],
      [messages.rs], [aad.rs].  [UserId_new] is [UserId::new].
    - [Primitives]: the primitives of third-party crates (X25519, Ed25519,
      HKDF, HMAC, AES-GCM, SHA-512) as one class of functions, with their
      documented laws as separate classes, and [Toy], a concrete instance that
      satisfies all of them, on which the witnesses compute.
    - [Kdf], [Aead], [Keys], [X3dh], [Ratchet], [Fingerprint]: the modules of
      [crypto/src] of the same names; [SessionState] is the session record and
      [encrypt], [decrypt], [skip_message_keys], [try_decrypt_inner] are the
      functions of [ratchet.rs], with the snapshot and rollback of [decrypt].
      Randomness ([RatchetKeyPair::generate]) is an argument.
    - [RatchetSync], [RatchetNet]: two sessions and a network that delays,
      reorders, drops and replays; [RatchetHistory]: one session under an
      arbitrary sequence of operations.
    - [SqlDb]: the tables of [server/src/db/schema.rs] and transactions;
      [DbUsers], [DbPrekeys], [DbQueue], [DbReceipts]: the modules of
      [server/src/db], one definition per operation.  [DbTrace] runs arbitrary
      sequences of these operations; [DbLimits] and [ReceiptLife] prove what
      holds of all of them.
    - [Schema]: [initialize] and the migrations of [schema.rs].
    - [ServerWorld]: the relay's whole state (database, connection registry,
      outbound channels) with [connection.rs]; [Handlers]: every handler of
      [handlers/mod.rs], [auth.rs], [message.rs], [prekey.rs];
      [Delivery]: what is delivered on login, and [Drain]: repeated logins;
      [Datetime]: the timestamp parser; [Ws]: the connection loop of [ws.rs] and
      the whole server as connections that take turns; [WsWriter]: the writer
      task of a connection and [finish_writer]; [ServerProcess]: the garbage
      collection task of [main.rs] and the order of timestamp texts;
      [HandlerFacts]: what the handlers guarantee; [RelayLife]: [main] and the
      relay process over its starts; [Directory]: the keys the relay hands out.
    - [CryptoStore]: the client's durable tables ([crypto_store.rs]), the
      outbox items ([crypto_outbox.rs]) and the stored documents;
      [CryptoMgr]: [CryptoManager] with every operation of [crypto_mgr.rs] and
      its modules ([crypto_mgr_decrypt.rs], [crypto_mgr_outbound.rs],
      [crypto_mgr_persistence.rs], [crypto_mgr_prekeys.rs], [crypto_replay.rs],
      [crypto_decode.rs]), rollbacks included.  [CryptoMgrInv] states that
      memory and file agree, [CryptoMgrFacts], [CryptoMgrRecv],
      [CryptoMgrPrekeys] prove it of each operation, [CryptoMgrLedger] tracks
      what is acknowledged, [CryptoMgrEntry] the entries of the replay ledger
      through the operations, [CryptoMgrOutbox] what stays in the outbox,
      [CryptoMgrCrash] runs arbitrary histories with
      failures and restarts, [CryptoMgrContact] composes two managers.
    - [ClientDb]: [db.rs], the message database; [Verification]:
      [verification.rs], with the abstract trust state that it implements.
    - [ClientApp]: [app.rs], [app_inbound.rs], [app_prekeys.rs],
      [status_bar.rs], with [App] and [World] (the application, its two files,
      the channel to the network task); [ClientInput]: [input.rs]; [ClientUi]:
      what [ui.rs] changes and shows, and [step], a turn of the loop of
      [app::run]; [ClientScreen]: the terminal modes and the reading position of
      [ui.rs]; [ClientNet]: [net.rs]; [ClientMain]: the user name of [main.rs].
    - [ClientAppInv]: the invariant of the application, kept by every handler;
      [ClientAppRun]: [boot] and the states reachable over any number of runs;
      [ClientIdentity]: the identity key file, and the program over its starts;
      [ClientAppSend]: the Enter key and reconnection; [ClientServer]: the
      client against the relay's handlers; [EndToEnd]: the relay's database,
      the recipient's client and the network as one system; [Conversation]:
      the same with the sender's client; [Introduction]: the first message
      between two strangers.  [ClientDemo], [AppDemo] and [IntroDemo]
      are concrete runs on which the theorems are instantiated.

    ** What the theorems show

    - The ratchet: whatever the network does, an undelivered message decrypts
      to what was sent ([ratchet_delivers]), failed operations leave no trace
      ([failed_operations_invisible]), sessions stay within their bounds
      ([session_bounded]), and a ciphertext is refused under another context or
      header that is read with the same message key
      ([ciphertext_binds_context]; the encoding of the context loses nothing,
      [aad_encode_injective]).
    - The handshake: both sides derive the same secret ([x3dh_agreement]).
    - Pre-keys: handed out once, claimed once, rate limited, rotated in order
      ([prekey_used_once], [fetch_rate_limited], [signed_prekey_rotation]), in
      every history of the database; and what is handed out was published by
      its owner ([bundle_is_published]).
    - Messages and receipts: a queued message is lost to nobody but its own
      recipient or the age limit (the lemma [message_stays_queued]), which is 30
      days exactly ([gc_deletes_the_old]), resending is idempotent ([resend_is_idempotent]), receipts follow a state machine
      ([receipts_refine_machine]), an upgrade loses nothing and is refused exactly
      while data of an old protocol is queued ([initialize_migrates]), and a relay process stays within its limits,
      those of both queues included, whatever its connections do and can be stopped and started again at any
      moment ([relay_sound]).
    - Handlers: who a connection acts as and how it got there
      ([authentication_sound], [request_acts_as_user],
      [registry_routes_to_owner]), what an answer
      means (the lemma [sent_means_accepted]), that login delivers everything,
      in order, in frames that fit ([queued_delivery_complete]), that finitely
      many logins empty a queue ([queue_drains]), and that what the handlers
      send is written in order ([writer_in_order]).
      The lemma [confirmed_id_swallows_message] is a case the code does not
      handle.
    - The client's manager: it can be killed at any moment and starts again
      with everything it had ([crash_safe]); within the retention of the
      ledger, a decrypted text is handed out, also after restarts, until it is
      confirmed stored, and copies are duplicates from then until the
      acknowledgement is confirmed ([handoff_until_confirmed]);
      an operation that fails changes nothing, the pruning of the ledger aside
      ([failed_operation_undone]).
    - The client application: what it acknowledges it has stored
      (the lemma [acked_means_stored]), Enter keeps the draft for a reason, or its text as a note or in the
      durable outbox ([enter_keeps_or_sends]),
      everything unsent is sent again after a reconnect ([reconnect_resends]),
      its state stays sound over any number of runs ([client_state_sound]), the
      reconnection loop waits after every attempt, doubling up to thirty seconds
      while attempts fail ([reconnects]).
    - History and trust: the queries compute the log of what was stored
      ([chat_history_is_log]); the tables represent for each peer the latest
      key and whether that very key was verified ([verification_refines_trust]),
      and the screen says so, verified or not with the number that both sides compute
      ([verification_screen]).
    - Starting the client: it has one identity whatever fails ([one_identity]),
      and runs for the user whose name was saved, outer spaces aside
      ([default_user_remembered]).
    - Clients and relay together: the first message between two strangers goes
      all the way ([first_message_arrives]); a message accepted by the relay is in its
      queue or in the recipient's database with a text decrypted from an envelope of its id and sender, whatever fails,
      unless its id was not its own there or the relay discarded it
      ([no_message_lost]), and from the sender's outbox on a message is in the
      outbox, rejected, or safe in that sense ([sent_message_kept]); registration leaves both with the same keys
      ([registration_agrees]), a registered client logs in ([login_succeeds]),
      a rejected key rotation converges in one round trip
      ([rotation_converges]).

    ** Choices

    - Cryptography is idealised only where a theorem needs it, through the law
      classes of [Primitives]; a theorem that does not mention a law class
      holds for any functions whatsoever.  [AeadAuth] (an opened ciphertext was
      sealed under the same key and associated data) is the symbolic reading of
      authenticity.
    - JSON, base64, UUID text and SQLite's clock and date functions are the
      parameters [Codecs] and [Env] of [ServerWorld]; every database call, read
      of the clock, random draw and channel send consults [Env] at a fresh
      tick, so a theorem about handlers holds for every pattern of faults, full
      channels and clock values.
    - A handler is not atomic: before each of its database calls other
      connections can have done anything to the database, which is the
      function [env_others] of [Env].  [at_call w] is the database the next
      call finds.  A theorem about handlers holds for every such function, or
      says what it asks of it: that it consists of operations of the relay
      ([others_relay]), publishes no foreign keys ([others_publish]), only adds
      messages ([arrivals_only]), leaves a user's rows in place ([others_spare]);
      [Alone] says that it does nothing, and is asked for where one login is
      followed by the next ([Drain]) and where the handler in question has a
      single call, so that what precedes the call can precede the handler
      ([Conversation]).  The registry and the outbound channels are changed
      under their lock in one step; between the awaits of one handler no other
      connection changes them in the model.  [DbTrace], [DbLimits] and
      [ReceiptLife] are about arbitrary sequences of database operations,
      which is all the interleaving the single database thread allows.
    - Which row [LIMIT 1] without [ORDER BY] returns is the parameter [SqlPick].
    - Loops with a bound in the code recurse on that bound
      ([deliver_loop] on [MAX_QUEUED_MESSAGES], [skip_loop] on the number of
      keys to skip, the fingerprint on [ITERATIONS]); loops over collections
      recurse on the collection.  [write_loop] takes the number of iterations
      the writer gets done in its second, and [logins] and [gc_task] the number
      of logins and ticks: arguments the theorems quantify over.  Fuel is used by [trim_is_empty], [trim_start],
      [trim_end] and [chunks]: the length of the text or list, of which every
      step takes at least one element.
    - The client's environment [ClientEnv] (store failures, clock, randomness,
      new ids) is indexed by a counter like [Env]; [AppEnv] is the monotonic
      clock and the JSON of a list of ids; [TextArea] is the editor widget.
      Every statement of the message database and every transaction of the
      manager's file can fail.  Documents are kept as trees, so the text of the
      client's JSON is not modelled.
    - A run of the client ends at any moment and the next starts on the same
      files; the relay and the user are any inputs whatsoever, with messages
      that parse ([parsed]).

    ** Not modelled

    Log output; the WebSocket transport and its upgrade; routing and signal
    handling of the relay; argument parsing; opening the client's databases and
    the permissions of directories and files; drawing, layout and wrapping of
    the terminal library; zeroisation of secrets; indices and pragmas; the
    traits of [crypto/src/store.rs], which nothing implements. *)
From stdpp Require Import base numbers list strings gmap.
From Stdlib Require Import Strings.Byte.
Local Open Scope Z_scope.

(** ** Results and the state-and-error monad

    [result E A] is Rust's [Result<A, E>].  [rm S E A] models a Rust function
    taking [&mut S] and returning [Result<A, E>]: the mutations made before an
    early [return Err(..)] or a failing [?] stay in the state. *)

Declare Scope cmp_scope.
Delimit Scope cmp_scope with cmp.

Inductive result (E A : Type) : Type :=
| Ok (a : A)
| Err (e : E).
Arguments Ok {E A} a.
Arguments Err {E A} e.

Definition is_err {E A} (r : result E A) : bool :=
  match r with Ok _ => false | Err _ => true end.

Definition map_err {E F A} (f : E -> F) (r : result E A) : result F A :=
  match r with Ok a => Ok a | Err e => Err (f e) end.

Definition ok_or {E A} (e : E) (o : option A) : result E A :=
  match o with Some a => Ok a | None => Err e end.

Notation "'let?' x ':=' m 'in' k" :=
  (match m with Ok x => k | Err e => Err e end)
  (at level 10, x pattern, m at level 100, k at level 200) : cmp_scope.

Definition rm (S E A : Type) : Type := S -> result E A * S.

Definition rm_ret {S E A} (a : A) : rm S E A := fun s => (Ok a, s).
Definition rm_fail {S E A} (e : E) : rm S E A := fun s => (Err e, s).
Definition rm_bind {S E A B} (m : rm S E A) (k : A -> rm S E B) : rm S E B :=
  fun s => match m s with
           | (Ok a, s') => k a s'
           | (Err e, s') => (Err e, s')
           end.
Definition rm_get {S E} : rm S E S := fun s => (Ok s, s).
Definition rm_put {S E} (s : S) : rm S E unit := fun _ => (Ok tt, s).
Definition rm_lift {S E A} (r : result E A) : rm S E A := fun s => (r, s).

Notation "'do!' x <- m ; k" := (rm_bind m (fun x => k))
  (at level 10, x pattern, m at level 100, k at level 200) : cmp_scope.
Notation "'run!' m ; k" := (rm_bind m (fun _ => k))
  (at level 10, m at level 100, k at level 200) : cmp_scope.

(** ** Machine integers

    A [u32], [u64] or [i64] is a [Z]; the width is written out where the
    source checks or saturates. *)

Definition u32_max : Z := 4294967295.
Definition u64_max : Z := 18446744073709551615.
Definition i64_max : Z := 9223372036854775807.
Definition u32 (x : Z) : Prop := 0 <= x <= u32_max.
Definition u64 (x : Z) : Prop := 0 <= x <= u64_max.

Definition checked_add (max a b : Z) : option Z :=
  if a + b <=? max then Some (a + b) else None.
Definition saturating_add (max a b : Z) : Z := Z.min max (a + b).
Definition saturating_sub (a b : Z) : Z := Z.max 0 (a - b).

Lemma checked_add_Some max a b c :
  checked_add max a b = Some c -> c = a + b /\ a + b <= max.
Proof. unfold checked_add. destruct (Z.leb_spec (a + b) max); naive_solver. Qed.

Lemma checked_add_fits max a b : a + b <= max -> checked_add max a b = Some (a + b).
Proof. intros H. unfold checked_add. apply Z.leb_le in H. by rewrite H. Qed.

Lemma checked_add_overflow max a b : max < a + b -> checked_add max a b = None.
Proof. intros H. unfold checked_add. destruct (Z.leb_spec (a + b) max); [lia|done]. Qed.

(** ** Bytes and big-endian encodings *)

Abbreviation bytes := (list byte).

Definition Z_of_byte (b : byte) : Z := Z.of_N (Byte.to_N b).
Definition byte_of_Z (z : Z) : byte :=
  match Byte.of_N (Z.to_N (z mod 256)) with Some b => b | None => x00 end.

Lemma Z_of_byte_range b : 0 <= Z_of_byte b < 256.
Proof. unfold Z_of_byte. pose proof (Byte.to_N_bounded b). lia. Qed.

Lemma Z_of_byte_of_Z z : Z_of_byte (byte_of_Z z) = z mod 256.
Proof.
  unfold Z_of_byte, byte_of_Z.
  pose proof (Z.mod_pos_bound z 256 ltac:(lia)) as Hb.
  destruct (Byte.of_N (Z.to_N (z mod 256))) as [b|] eqn:E.
  - apply Byte.to_of_N in E. rewrite E. lia.
  - apply Byte.of_N_None_iff in E. lia.
Qed.

Lemma byte_of_Z_of_byte b : byte_of_Z (Z_of_byte b) = b.
Proof.
  unfold byte_of_Z. rewrite Z.mod_small by apply Z_of_byte_range.
  unfold Z_of_byte. rewrite N2Z.id, Byte.of_to_N. done.
Qed.

#[export] Instance byte_eq_dec : EqDecision byte := Byte.byte_eq_dec.
#[export] Program Instance byte_countable : Countable byte :=
  inj_countable' Z_of_byte byte_of_Z _.
Next Obligation. apply byte_of_Z_of_byte. Qed.

(** [x.to_be_bytes()] for an [n]-byte unsigned integer. *)
Fixpoint be_bytes (n : nat) (z : Z) : bytes :=
  match n with
  | O => []
  | S n' => be_bytes n' (z / 256) ++ [byte_of_Z z]
  end.

Definition of_be_bytes (bs : bytes) : Z :=
  fold_left (fun acc b => acc * 256 + Z_of_byte b) bs 0.

Lemma length_be_bytes n z : length (be_bytes n z) = n.
Proof. revert z. induction n as [|n IH]; intros z; simpl; [done|]. rewrite length_app, IH. simpl. lia. Qed.

Lemma of_be_bytes_be_bytes n z :
  0 <= z < 256 ^ Z.of_nat n -> of_be_bytes (be_bytes n z) = z.
Proof.
  revert z. induction n as [|n IH]; intros z Hz.
  - simpl in *. unfold of_be_bytes. simpl. lia.
  - cbn [be_bytes]. unfold of_be_bytes in *. rewrite fold_left_app. cbn [fold_left].
    rewrite Nat2Z.inj_succ, Z.pow_succ_r in Hz by lia.
    rewrite IH by (split; [apply Z.div_pos; lia | apply Z.div_lt_upper_bound; lia]).
    rewrite Z_of_byte_of_Z. pose proof (Z.div_mod z 256). lia.
Qed.

Lemma be_bytes_inj n x y :
  0 <= x < 256 ^ Z.of_nat n -> 0 <= y < 256 ^ Z.of_nat n ->
  be_bytes n x = be_bytes n y -> x = y.
Proof.
  intros Hx Hy E. rewrite <- (of_be_bytes_be_bytes n x Hx), <- (of_be_bytes_be_bytes n y Hy).
  by rewrite E.
Qed.

Lemma be_bytes_u32_inj x y : u32 x -> u32 y -> be_bytes 4 x = be_bytes 4 y -> x = y.
Proof. unfold u32, u32_max. intros. eapply be_bytes_inj; eauto; simpl; lia. Qed.

(** ** Strings

    A Rust [String] is its UTF-8 byte sequence, kept in a [string]. *)

Definition str_bytes (s : string) : bytes := String.list_byte_of_string s.
Definition str_len (s : string) : Z := Z.of_nat (String.length s).

(** ** Automation *)

Create HintDb cmp.
#[export] Hint Resolve Z_of_byte_range : cmp.
Create Rewrite HintDb cmp.
#[export] Hint Rewrite length_be_bytes : cmp.

(** Split every [match]/[if] of the goal or of a hypothesis on its scrutinee. *)
Ltac break_match :=
  match goal with
  | |- context [match ?x with _ => _ end] => destruct x eqn:?
  | H : context [match ?x with _ => _ end] |- _ => destruct x eqn:?
  end.

(** Lemmas on lists that several components share. *)
Lemma app_inj_len {A} (l1 l2 k1 k2 : list A) :
  length l1 = length k1 -> l1 ++ l2 = k1 ++ k2 -> l1 = k1 /\ l2 = k2.
Proof. intros. by apply app_inj_1. Qed.

Lemma NoDup_length_le {A} (l k : list A) :
  NoDup l -> (forall x, x ∈ l -> x ∈ k) -> (length l <= length k)%nat.
Proof. intros Hl Hin. by apply submseteq_length, NoDup_submseteq. Qed.

(** Unfold the state-and-error monad. *)
Ltac rm_unfold := unfold rm_bind, rm_get, rm_put, rm_lift, rm_ret, rm_fail.
Tactic Notation "rm_unfold" "in" hyp(H) :=
  unfold rm_bind, rm_get, rm_put, rm_lift, rm_ret, rm_fail in H.

Lemma filter_all {A} (P : A -> Prop) `{!forall x, Decision (P x)} (l : list A) :
  (forall x, x ∈ l -> P x) -> filter P l = l.
Proof.
  induction l as [|x l IH]; intros Hl; [done|].
  rewrite filter_cons_True by (apply Hl; by left). f_equal. apply IH. intros y Hy. apply Hl. by right.
Qed.

Lemma filter_length_mono {A} (P Q : A -> Prop)
    `{!forall x, Decision (P x), !forall x, Decision (Q x)} (l : list A) :
  (length (filter P (filter Q l)) <= length (filter P l))%nat.
Proof.
  induction l as [|x l IH]; [done|]. rewrite (filter_cons Q), (filter_cons P).
  destruct (decide (Q x)); [rewrite filter_cons|]; destruct (decide (P x)); simpl; lia.
Qed.
