(* ===== verification/Consts.v ===== *)
(** * Protocol constants ([crates/protocol/src/consts.rs])

    The limits shared by the client and the relay.  [usize] and [u64] values
    are [Z]. *)
From stdpp Require Import base numbers.
From S2P Require Import Prelude.
Local Open Scope Z_scope.

Definition PROTOCOL_VERSION : Z := 2.
Definition MAX_PREKEYS_PER_UPLOAD : Z := 200.
Definition PREKEY_TARGET : Z := 100.
Definition MAX_PREKEYS_PER_USER : Z := 200.
Definition ONE_TIME_PREKEY_PUBLIC_RETENTION_SECS : Z := 30 * 24 * 60 * 60.
Definition ONE_TIME_PREKEY_PRIVATE_RETENTION_SECS : Z := 61 * 24 * 60 * 60.
Definition ONE_TIME_PREKEY_RESERVATION_SECS : Z := 24 * 60 * 60.
Definition SIGNED_PREKEY_ROTATION_SECS : Z := 30 * 24 * 60 * 60.
Definition MAX_ACK_BATCH : Z := 1000.
Definition MAX_QUEUED_MESSAGES : Z := 1000.
Definition MAX_QUEUED_MESSAGES_PER_PAGE : Z := 64.
Definition MAX_CIPHERTEXT_BYTES : Z := 512 * 1024.
Definition MAX_QUEUED_PAGE_BYTES : Z := MAX_CIPHERTEXT_BYTES + 16 * 1024.
Definition MAX_QUEUE_PER_USER : Z := 10000.
Definition MAX_RECEIPT_BATCH : Z := 100.
Definition MAX_PENDING_OUTBOUND_ITEMS : Z := 1000.
Definition MAX_PENDING_OUTBOUND_BYTES : Z := 64 * 1024 * 1024.
Definition MAX_PROCESSED_MESSAGES : Z := 10000.
