(* ===== verification/Types.v ===== *)
(** * Wire types ([crates/protocol/src/types.rs], [messages.rs])

    User and message identifiers, encrypted envelopes, pre-key bundles and the
    two message enums, with the validation that [UserId::new] performs. *)
From stdpp Require Import base numbers list strings gmap.
From S2P Require Import Prelude.
Local Open Scope Z_scope.
Local Open Scope cmp_scope.

(** ** [UserId] *)

Record UserId := mkUserId { as_str : string }.

#[export] Instance UserId_eq_dec : EqDecision UserId.
Proof. solve_decision. Defined.

(** Drop one leading Unicode white-space scalar value from a UTF-8 sequence
    ([char::is_whitespace], as used by [str::trim]). *)
Definition strip_whitespace (bs : list Z) : option (list Z) :=
  match bs with
  | c :: r =>
      if ((9 <=? c) && (c <=? 13)) || (c =? 32) then Some r
      else match r with
      | d :: r2 =>
          if (c =? 194) && ((d =? 133) || (d =? 160)) then Some r2
          else match r2 with
          | e :: r3 =>
              if ((c =? 225) && (d =? 154) && (e =? 128))
                 || ((c =? 226) && (d =? 128) && (128 <=? e) && (e <=? 138))
                 || ((c =? 226) && (d =? 128) && ((e =? 168) || (e =? 169) || (e =? 175)))
                 || ((c =? 226) && (d =? 129) && (e =? 159))
                 || ((c =? 227) && (d =? 128) && (e =? 128))
              then Some r3 else None
          | [] => None
          end
      | [] => None
      end
  | [] => None
  end.

(** [s.trim().is_empty()]: the text is a sequence of white-space scalars. Each
    step drops at least one byte, so [length bs] steps are enough. *)
Fixpoint trim_is_empty (fuel : nat) (bs : list Z) : bool :=
  match bs with
  | [] => true
  | _ => match fuel with
         | O => false
         | S f => match strip_whitespace bs with
                  | Some r => trim_is_empty f r
                  | None => false
                  end
         end
  end.

(** [s.contains("..")] *)
Fixpoint contains_dotdot (bs : list Z) : bool :=
  match bs with
  | c :: ((d :: _) as r) => ((c =? 46) && (d =? 46)) || contains_dotdot r
  | _ => false
  end.

Definition codes (s : string) : list Z := Z_of_byte <$> str_bytes s.

Definition is_ascii (bs : list Z) : bool := forallb (fun c => c <? 128) bs.
Definition is_ascii_control (c : Z) : bool := (c <? 32) || (c =? 127).
Definition contains_code (x : Z) (bs : list Z) : bool := existsb (Z.eqb x) bs.

Definition UserId_new (id : string) : result string UserId :=
  let bs := codes id in
  if trim_is_empty (length bs) bs then Err "user id cannot be empty or whitespace-only"%string
  else if 128 <? Z.of_nat (length bs) then Err "user id exceeds 128 bytes"%string
  else if negb (is_ascii bs) then Err "user id must be ASCII"%string
  else if existsb is_ascii_control bs then Err "user id contains control characters"%string
  else if contains_code 47 bs || contains_code 92 bs || contains_dotdot bs
  then Err "user id contains invalid characters"%string
  else Ok (mkUserId id).

(** ** Identifiers and envelopes *)

(** A 128-bit UUID; its text form is a parameter of the model (the [uuid]
    crate). *)
Record MessageId := mkMessageId { uuid : Z }.

#[export] Instance MessageId_eq_dec : EqDecision MessageId.
Proof. solve_decision. Defined.

Record RatchetHeader := mkRatchetHeader {
  ratchet_key : string;
  previous_chain_length : Z;
  message_number : Z;
}.

Inductive MessageHeader :=
| HPreKey (sender_identity_key sender_ephemeral_key : string)
    (recipient_signed_prekey_id : Z) (recipient_one_time_prekey_id : option Z)
    (ratchet : RatchetHeader)
| HRatchet (ratchet : RatchetHeader).

Record EncryptedEnvelope := mkEnvelope {
  version : Z;
  header : MessageHeader;
  ciphertext : string;
}.

Record OneTimePreKey := mkOneTimePreKey { key_id : Z; public_key : string }.

Record PreKeyBundle := mkPreKeyBundle {
  identity_key : string;
  signed_prekey : string;
  signed_prekey_id : Z;
  signed_prekey_signature : string;
  one_time_prekey : option OneTimePreKey;
}.

Record InboundMessage := mkInbound {
  im_message_id : MessageId;
  im_sender_id : UserId;
  im_envelope : EncryptedEnvelope;
  im_timestamp : Z;
}.

(** ** The message enums *)

Inductive ClientMessage :=
| Register (user_id : UserId) (bundle : PreKeyBundle) (one_time_prekeys : list OneTimePreKey)
| AuthChallenge (user_id : UserId)
| AuthResponse (signature : string)
| UploadPreKeys (upload_id : MessageId) (prekeys : list OneTimePreKey)
| RotateSignedPreKey (rotation_id : MessageId) (key_id : Z) (public_key signature : string)
| FetchPreKeyBundle (target_user_id : UserId)
| SendMessage (recipient_id : UserId) (message_id : MessageId) (envelope : EncryptedEnvelope)
| Ack (ack_id : MessageId) (message_ids : list MessageId)
| AckMessageSent (message_ids : list MessageId)
| Typing (recipient_id : UserId)
| SendReadReceipt (recipient_id : UserId) (receipt_id : MessageId) (envelope : EncryptedEnvelope)
| AckReadReceipt (ack_id : MessageId) (receipt_ids : list MessageId)
| AckReadReceiptSent (receipt_ids : list MessageId).

Inductive ServerMessage :=
| Challenge (nonce : string) (timestamp : Z) (server_id : string)
| AuthSuccess
| AuthFailure (reason : string)
| PreKeyBundleResponse (user_id : UserId) (bundle : PreKeyBundle)
| IncomingMessage (inbound : InboundMessage)
| QueuedMessages (messages : list InboundMessage)
| MessageSent (message_id : MessageId)
| MessageRejected (message_id : MessageId) (reason : string)
| AckSuccess (ack_id : MessageId) (message_ids : list MessageId)
| ReadReceiptSent (receipt_id : MessageId)
| Success
| PreKeyLow (remaining : Z)
| PreKeysUploaded (upload_id : MessageId) (accepted : bool) (remaining : Z)
| SignedPreKeyRotated (rotation_id : MessageId) (accepted previously_accepted : bool)
    (current_key_id : Z)
| ErrorMsg (code : Z) (message : string)
| PeerTyping (sender_id : UserId)
| MessageDelivered (message_ids : list MessageId)
| IncomingReadReceipt (sender_id : UserId) (receipt_id : MessageId)
    (envelope : EncryptedEnvelope).

(** ** What [UserId::new] accepts *)

Definition printable_ascii (c : Z) : bool := (32 <=? c) && (c <=? 126).

(** The strings [UserId::new] accepts. *)
Definition valid_user_id (s : string) : bool :=
  let bs := codes s in
  (Z.of_nat (length bs) <=? 128) && forallb printable_ascii bs
  && existsb (fun c => negb (c =? 32)) bs
  && negb (contains_code 47 bs) && negb (contains_code 92 bs) && negb (contains_dotdot bs).

Lemma codes_nonneg s c : In c (codes s) -> 0 <= c < 256.
Proof.
  unfold codes. rewrite <- list_elem_of_In, list_elem_of_fmap.
  intros (b & -> & _). apply Z_of_byte_range.
Qed.

Lemma trim_is_empty_spaces fuel bs :
  forallb (fun c => c =? 32) bs = true -> (length bs <= fuel)%nat ->
  trim_is_empty fuel bs = true.
Proof.
  revert fuel. induction bs as [|c bs IH]; intros fuel Hall Hlen; [by destruct fuel|].
  simpl in *. apply andb_prop in Hall as [Hc Hall].
  destruct fuel as [|fuel]; [lia|]. simpl. rewrite Hc, orb_true_r. apply IH; [done|lia].
Qed.

Lemma trim_is_empty_printable fuel bs :
  forallb printable_ascii bs = true -> trim_is_empty fuel bs = true ->
  forallb (fun c => c =? 32) bs = true.
Proof.
  revert fuel. induction bs as [|c bs IH]; intros fuel Hp Ht; [done|].
  simpl in Hp. apply andb_prop in Hp as [Hc Hp]. unfold printable_ascii in Hc.
  destruct fuel as [|fuel]; [done|]. simpl in Ht.
  destruct (Z.eqb_spec c 32) as [->|Hne].
  - simpl in *. eauto.
  - exfalso. apply andb_prop in Hc as [H1 H2]. apply Z.leb_le in H1, H2.
    assert (c <> 194 /\ c <> 225 /\ c <> 226 /\ c <> 227) as (?&?&?&?) by lia.
    replace (c <=? 13) with false in Ht by (symmetry; apply Z.leb_gt; lia).
    rewrite andb_false_r in Ht. simpl in Ht.
    destruct bs as [|d bs]; [done|].
    replace (c =? 194) with false in Ht by (symmetry; by apply Z.eqb_neq).
    replace (c =? 225) with false in Ht by (symmetry; by apply Z.eqb_neq).
    replace (c =? 226) with false in Ht by (symmetry; by apply Z.eqb_neq).
    replace (c =? 227) with false in Ht by (symmetry; by apply Z.eqb_neq).
    simpl in Ht. by destruct bs.
Qed.

Lemma printable_split bs :
  forallb (fun c => (0 <=? c) && (c <? 256)) bs = true ->
  forallb printable_ascii bs = is_ascii bs && negb (existsb is_ascii_control bs).
Proof.
  unfold is_ascii, printable_ascii, is_ascii_control.
  induction bs as [|c bs IH]; [done|]. simpl. intros [Hc Hr]%andb_prop.
  rewrite IH by done. apply andb_prop in Hc as [H1 H2].
  apply Z.leb_le in H1. apply Z.ltb_lt in H2.
  destruct (Z.leb_spec 32 c), (Z.leb_spec c 126), (Z.ltb_spec c 128), (Z.ltb_spec c 32),
    (Z.eqb_spec c 127); simpl; try lia; try done.
  all: rewrite ?andb_false_r; try done.
Qed.

Lemma forallb_negb_existsb {A} (p : A -> bool) l :
  existsb (fun x => negb (p x)) l = negb (forallb p l).
Proof. induction l as [|x l IH]; [done|]. simpl. rewrite IH. by destruct (p x). Qed.

Lemma UserId_new_valid s u :
  UserId_new s = Ok u <-> valid_user_id s = true /\ u = mkUserId s.
Proof.
  unfold UserId_new, valid_user_id.
  assert (forallb (fun c => (0 <=? c) && (c <? 256)) (codes s) = true) as Hr.
  { apply forallb_forall. intros c Hc%codes_nonneg. apply andb_true_intro.
    rewrite Z.leb_le, Z.ltb_lt. done. }
  rewrite (printable_split _ Hr), (forallb_negb_existsb (fun c => c =? 32)).
  pose proof (printable_split _ Hr) as Hps.
  set (bs := codes s) in *.
  destruct (forallb (fun c => c =? 32) bs) eqn:Hsp.
  - rewrite trim_is_empty_spaces by done. simpl. rewrite !andb_false_r. naive_solver.
  - destruct (trim_is_empty (length bs) bs) eqn:Ht.
    + assert (forallb printable_ascii bs = false) as Hpf.
      { apply not_true_is_false. intros Hp.
        by rewrite (trim_is_empty_printable _ _ Hp Ht) in Hsp. }
      rewrite <- Hps, Hpf, andb_false_r. naive_solver.
    + rewrite Z.ltb_antisym.
      destruct (Z.of_nat (length bs) <=? 128); simpl; [|naive_solver].
      destruct (is_ascii bs); simpl; [|naive_solver].
      destruct (existsb is_ascii_control bs); simpl; [naive_solver|].
      destruct (contains_code 47 bs), (contains_code 92 bs), (contains_dotdot bs);
        simpl; naive_solver.
Qed.

(** C39: [UserId::new] succeeds exactly on the valid identifiers, returning the
    string unchanged: printable ASCII of at most 128 bytes, not only spaces,
    with no path separator and no [..]. *)
Theorem UserId_new_spec s u :
  UserId_new s = Ok u <-> valid_user_id s = true /\ u = mkUserId s.
Proof. apply UserId_new_valid. Qed.
