(* ===== verification/Aad.v ===== *)
(** * Envelope associated data ([crates/protocol/src/aad.rs])

    The byte-exact context that is authenticated with every ciphertext, and
    the proof that the encoding is injective: two envelopes have the same
    context only when every field agrees. *)
From stdpp Require Import base numbers list strings.
From Stdlib Require Import Strings.Byte.
From S2P Require Import Prelude Consts.
Local Open Scope Z_scope.

Definition DOMAIN : bytes := str_bytes "CMP_ENVELOPE_AAD".
Definition PREKEY_HEADER : byte := x01.
Definition RATCHET_HEADER : byte := x02.

Definition prefix (version : Z) (header_type : byte) : bytes :=
  DOMAIN ++ be_bytes 4 version ++ [header_type].

Definition ratchet (version : Z) : bytes := prefix version RATCHET_HEADER.

Definition prekey (version : Z) (sender_identity_key sender_ephemeral_key : bytes)
    (recipient_signed_prekey_id : Z) (recipient_one_time_prekey_id : option Z) : bytes :=
  prefix version PREKEY_HEADER
  ++ sender_identity_key
  ++ sender_ephemeral_key
  ++ be_bytes 4 recipient_signed_prekey_id
  ++ match recipient_one_time_prekey_id with
     | Some key_id => [x01] ++ be_bytes 4 key_id
     | None => [x00] ++ be_bytes 4 0
     end.

(** The fields an envelope binds, as the sender and the receiver name them. *)
Inductive context :=
| CRatchet (version : Z)
| CPreKey (version : Z) (ik ek : bytes) (spk : Z) (opk : option Z).

Definition encode (c : context) : bytes :=
  match c with
  | CRatchet v => ratchet v
  | CPreKey v ik ek spk opk => prekey v ik ek spk opk
  end.

Definition context_wf (c : context) : Prop :=
  match c with
  | CRatchet v => u32 v
  | CPreKey v ik ek spk opk =>
      u32 v /\ length ik = 32%nat /\ length ek = 32%nat /\ u32 spk
      /\ match opk with Some k => u32 k | None => True end
  end.

Lemma length_prefix v h : length (prefix v h) = 21%nat.
Proof. unfold prefix. rewrite !length_app, length_be_bytes. done. Qed.

Lemma prefix_inj v h v' h' r r' :
  u32 v -> u32 v' -> prefix v h ++ r = prefix v' h' ++ r' -> v = v' /\ h = h' /\ r = r'.
Proof.
  intros Hv Hv' E. apply app_inj_len in E as [E ->]; [|by rewrite !length_prefix].
  unfold prefix in E. apply app_inv_head in E.
  apply app_inj_len in E as [E Eh]; [|by rewrite !length_be_bytes].
  apply be_bytes_u32_inj in E; [|done..]. naive_solver.
Qed.

Lemma opk_suffix_inj o o' :
  match o with Some k => u32 k | None => True end ->
  match o' with Some k => u32 k | None => True end ->
  match o with Some k => [x01] ++ be_bytes 4 k | None => [x00] ++ be_bytes 4 0 end
  = match o' with Some k => [x01] ++ be_bytes 4 k | None => [x00] ++ be_bytes 4 0 end ->
  o = o'.
Proof.
  intros H H' E. destruct o as [k|], o' as [k'|]; cbn [app] in E;
    try (by inversion E); try done.
  f_equal. apply be_bytes_u32_inj; [done..|]. exact (f_equal tail E).
Qed.

Lemma prekey_inj v ik ek spk opk v' ik' ek' spk' opk' :
  context_wf (CPreKey v ik ek spk opk) -> context_wf (CPreKey v' ik' ek' spk' opk') ->
  prekey v ik ek spk opk = prekey v' ik' ek' spk' opk' ->
  CPreKey v ik ek spk opk = CPreKey v' ik' ek' spk' opk'.
Proof.
  intros (Hv & Hik & Hek & Hs & Ho) (Hv' & Hik' & Hek' & Hs' & Ho') E. unfold prekey in E.
  apply prefix_inj in E as (-> & _ & E); [|done..].
  apply app_inj_len in E as [-> E]; [|congruence].
  apply app_inj_len in E as [-> E]; [|congruence].
  apply app_inj_len in E as [E E']; [|by rewrite !length_be_bytes].
  apply be_bytes_u32_inj in E as ->; [|done..].
  apply opk_suffix_inj in E' as ->; done.
Qed.

Lemma length_encode c :
  context_wf c -> length (encode c) = match c with CRatchet _ => 21 | CPreKey _ _ _ _ _ => 94 end%nat.
Proof.
  destruct c as [v|v ik ek spk opk]; unfold encode; [intros _; apply (length_prefix v)|].
  intros (_ & Hik & Hek & _). unfold prekey.
  rewrite !length_app, length_prefix, Hik, Hek, length_be_bytes. by destruct opk.
Qed.

(** C35: Two well-formed envelope contexts with the same encoding are the same
    context: the version, the header type, both sender keys, the signed
    pre-key id and the presence and value of the one-time pre-key id are all
    bound. *)
Theorem aad_encode_injective c c' :
  context_wf c -> context_wf c' -> encode c = encode c' -> c = c'.
Proof.
  intros H H' E.
  pose proof (f_equal length E) as Hl.
  rewrite (length_encode c H), (length_encode c' H') in Hl.
  destruct c as [v|v ik ek spk opk], c' as [v'|v' ik' ek' spk' opk']; try discriminate Hl.
  - simpl in *. unfold ratchet in E.
    pose proof (prefix_inj v RATCHET_HEADER v' RATCHET_HEADER [] []) as Hp.
    rewrite !app_nil_r in Hp. destruct (Hp H H' E) as [-> _]. done.
  - by apply prekey_inj.
Qed.

Lemma aad_encode_injective_witness :
  CPreKey 2 (repeat x01 32) (repeat x02 32) 3 (Some 4)
  = CPreKey 2 (repeat x01 32) (repeat x02 32) 3 (Some 4).
Proof.
  apply (aad_encode_injective
    (CPreKey 2 (repeat x01 32) (repeat x02 32) 3 (Some 4))
    (CPreKey 2 (repeat x01 32) (repeat x02 32) 3 (Some 4))).
  - unfold context_wf, u32, u32_max. repeat split; simpl; lia.
  - unfold context_wf, u32, u32_max. repeat split; simpl; lia.
  - reflexivity.
Defined.
