(* ===== verification/Primitives.v ===== *)
(** * Cryptographic primitives: the interface the crypto crate relies on

    X25519, Ed25519, HKDF-SHA-256, HMAC-SHA-256, AES-256-GCM and SHA-2 come
    from third-party crates.  They are the fields of [CryptoPrims]; what the
    code relies on is stated by the law classes below, each of them a
    documented property of the primitive.  [Toy] instantiates all of them with
    executable functions, so that no theorem rests on contradictory laws. *)
From stdpp Require Import base numbers list strings.
From Stdlib Require Import Strings.Byte.
From S2P Require Import Prelude.
Local Open Scope Z_scope.

Class CryptoPrims := {
  (** X25519: public key of a secret, Diffie-Hellman of a secret and a public key. *)
  x25519_public : bytes -> bytes;
  x25519_dh : bytes -> bytes -> bytes;
  (** Ed25519: public key of a seed, signing, verification, point validation. *)
  ed25519_public : bytes -> bytes;
  ed25519_sign : bytes -> bytes -> bytes;
  ed25519_verify : bytes -> bytes -> bytes -> bool;
  ed25519_from_bytes : bytes -> bool;
  (** Ed25519 to X25519: [to_scalar_bytes] of a seed, [to_montgomery] of a key. *)
  ed25519_scalar : bytes -> bytes;
  ed25519_montgomery : bytes -> bytes;
  (** HKDF-SHA-256: salt, input key material, info, output length. *)
  hkdf_sha256 : bytes -> bytes -> bytes -> nat -> option bytes;
  (** HMAC-SHA-256: key, data ([None] when the key is refused). *)
  hmac_sha256_mac : bytes -> bytes -> option bytes;
  (** AES-256-GCM: key check, then key, nonce, associated data, message. *)
  aes_key_ok : bytes -> bool;
  aes_gcm_encrypt : bytes -> bytes -> bytes -> bytes -> option bytes;
  aes_gcm_decrypt : bytes -> bytes -> bytes -> bytes -> option bytes;
  sha512 : bytes -> bytes;
}.

(** Diffie-Hellman agreement. *)
Class DhLaws `{CryptoPrims} : Prop := {
  dh_comm a b : x25519_dh a (x25519_public b) = x25519_dh b (x25519_public a);
}.

(** The two Ed25519-to-X25519 conversions agree, and a signature verifies
    under the public key of its seed. *)
Class IdentityLaws `{CryptoPrims} : Prop := {
  identity_conversion s :
    x25519_public (ed25519_scalar s) = ed25519_montgomery (ed25519_public s);
  sign_verifies s m : ed25519_verify (ed25519_public s) m (ed25519_sign s m) = true;
}.

(** HMAC accepts every key and returns 32 bytes; HKDF-SHA-256 succeeds up to
    255 blocks of 32 bytes and returns what was asked for. *)
Class KdfLaws `{CryptoPrims} : Prop := {
  hmac_total k d : exists m, hmac_sha256_mac k d = Some m /\ length m = 32%nat;
  hkdf_total s i f n :
    Z.of_nat n <= 8160 -> exists o, hkdf_sha256 s i f n = Some o /\ length o = n;
}.

(** AES-256-GCM takes 32-byte keys, and opening a sealed message under the
    same key, nonce and associated data gives the plaintext back. *)
Class AeadLaws `{CryptoPrims} : Prop := {
  aes_key_32 k : length k = 32%nat -> aes_key_ok k = true;
  gcm_roundtrip k n a p c :
    aes_gcm_encrypt k n a p = Some c -> aes_gcm_decrypt k n a c = Some p;
}.

(** Authenticity of the associated data: under one key and nonce a ciphertext
    opens with the associated data it was sealed with and with no other. *)
Class AeadAuth `{CryptoPrims} : Prop := {
  gcm_auth k n a p c a' p' :
    aes_gcm_decrypt k n a c = Some p -> aes_gcm_decrypt k n a' c = Some p' -> a' = a;
}.

(** SHA-512 returns 64 bytes. *)
Class Sha512Laws `{CryptoPrims} : Prop := {
  length_sha512 m : length (sha512 m) = 64%nat;
}.

(** Ed25519 signatures have 64 bytes. *)
Class SignatureLaws `{CryptoPrims} : Prop := {
  length_sign s m : length (ed25519_sign s m) = 64%nat;
}.

(** Public keys of 32-byte secrets have 32 bytes, and are points that
    [VerifyingKey::from_bytes] accepts. *)
Class PublicKeyLaws `{CryptoPrims} : Prop := {
  x25519_public_32 s : length s = 32%nat -> length (x25519_public s) = 32%nat;
  ed25519_public_32 s : length s = 32%nat -> length (ed25519_public s) = 32%nat;
  ed25519_public_valid s : length s = 32%nat -> ed25519_from_bytes (ed25519_public s) = true;
}.

(** ** An executable instance *)

Module Toy.

Definition pad (n : nat) (l : bytes) : bytes := take n (l ++ repeat x00 n).

Lemma length_pad n l : length (pad n l) = n.
Proof. unfold pad. rewrite length_take, length_app, repeat_length. lia. Qed.

Fixpoint byte_add (a b : bytes) : bytes :=
  match a, b with
  | x :: a', y :: b' => byte_of_Z (Z_of_byte x + Z_of_byte y) :: byte_add a' b'
  | _, _ => []
  end.

Lemma byte_add_comm a b : byte_add a b = byte_add b a.
Proof.
  revert b. induction a as [|x a IH]; intros [|y b]; simpl; try done.
  by rewrite IH, Z.add_comm.
Qed.

(** A self-delimiting copy of [l]. *)
Definition tag (l : bytes) : bytes := repeat x01 (length l) ++ x00 :: l.

Lemma repeat_delim_inj n m (r r' : bytes) :
  repeat x01 n ++ x00 :: r = repeat x01 m ++ x00 :: r' -> n = m /\ r = r'.
Proof.
  revert m. induction n as [|n IH]; intros [|m] E; simpl in E; simplify_eq; [done|].
  apply IH in E as [-> ->]. done.
Qed.

Lemma tag_inj l l' r r' : tag l ++ r = tag l' ++ r' -> l = l' /\ r = r'.
Proof.
  unfold tag. rewrite <- !app_assoc. simpl. intros [Hn E]%repeat_delim_inj.
  by apply app_inj_len.
Qed.

Definition seal (k n a p : bytes) : option bytes := Some (tag k ++ tag a ++ p).

Definition open (k n a c : bytes) : option bytes :=
  let h := tag k ++ tag a in
  if decide (take (length h) c = h) then Some (drop (length h) c) else None.

#[export] Instance prims : CryptoPrims := {|
  x25519_public s := s;
  x25519_dh a b := byte_add a b;
  ed25519_public s := s;
  ed25519_sign s m := pad 64 (s ++ m);
  ed25519_verify pk m sig := bool_decide (sig = pad 64 (pk ++ m));
  ed25519_from_bytes pk := bool_decide (length pk = 32%nat);
  ed25519_scalar s := s;
  ed25519_montgomery pk := pk;
  hkdf_sha256 s i f n := if decide (Z.of_nat n <= 8160) then Some (pad n (byte_add s (i ++ repeat x00 64) ++ f)) else None;
  hmac_sha256_mac k d := Some (pad 32 (d ++ k));
  aes_key_ok k := bool_decide (length k = 32%nat);
  aes_gcm_encrypt := seal;
  aes_gcm_decrypt := open;
  sha512 m := pad 64 (rev m);
|}.

#[export] Instance dh_laws : DhLaws.
Proof. constructor. intros. apply byte_add_comm. Qed.

#[export] Instance identity_laws : IdentityLaws.
Proof. constructor; intros; simpl; [done|]. by apply bool_decide_eq_true. Qed.

#[export] Instance kdf_laws : KdfLaws.
Proof.
  constructor; intros; simpl.
  - eexists; split; [done|]. apply length_pad.
  - rewrite decide_True by done. eexists; split; [done|]. apply length_pad.
Qed.

#[export] Instance aead_laws : AeadLaws.
Proof.
  constructor; simpl.
  - intros k Hk. by apply bool_decide_eq_true.
  - intros k n a p c [= <-]. unfold open. rewrite app_assoc.
    rewrite take_app_length, drop_app_length, decide_True; done.
Qed.

#[export] Instance aead_auth : AeadAuth.
Proof.
  constructor; simpl. intros k n a p c a' p'. unfold open.
  repeat case_decide; try done. intros _ _.
  rewrite <- (take_drop (length (tag k ++ tag a)) c) in H0.
  pose proof (take_drop (length (tag k ++ tag a)) c) as Hc.
  pose proof (take_drop (length (tag k ++ tag a')) c) as Hc'.
  rewrite take_drop in H0. rewrite H in Hc. rewrite H0, <- Hc, <- !app_assoc in Hc'.
  apply tag_inj in Hc' as [_ Hc']. by apply tag_inj in Hc' as [-> _].
Qed.

#[export] Instance sha512_laws : Sha512Laws.
Proof. constructor. intros. apply length_pad. Qed.

#[export] Instance signature_laws : SignatureLaws.
Proof. constructor. intros. apply length_pad. Qed.

#[export] Instance public_key_laws : PublicKeyLaws.
Proof. constructor; intros s Hs; simpl; [done..|]. by apply bool_decide_eq_true. Qed.

End Toy.
