(* ===== verification/Kdf.v ===== *)
(** * Key derivation ([crates/crypto/src/kdf.rs], [error.rs])

    The HKDF and HMAC based derivations of root, chain and message keys. *)
From stdpp Require Import base numbers list strings.
From Stdlib Require Import Strings.Byte.
From S2P Require Import Prelude Primitives.
Local Open Scope Z_scope.
Local Open Scope cmp_scope.

Inductive CryptoError :=
| InvalidSignature
| InvalidBundle (reason : string)
| EncryptionFailed
| DecryptionFailed
| NoSession
| SkippedKeyLimitExceeded
| KdfFailure
| MessageCounterExhausted.

Definition HKDF_INFO_RATCHET : bytes := str_bytes "CMP_RATCHET".
Definition HKDF_INFO_MSG_KEY : bytes := str_bytes "CMP_MsgKey".
Definition HKDF_INFO_X3DH : bytes := str_bytes "CMP_X3DH".

Record RootKeyOutput := mkRootKeyOutput { rk_root_key : bytes; rk_chain_key : bytes }.
Record ChainKeyOutput := mkChainKeyOutput { ck_chain_key : bytes; ck_message_key : bytes }.
Record MessageKeys := mkMessageKeys { aes_key : bytes; nonce : bytes }.

Section Kdf.
Context `{CryptoPrims}.

(** [out] is a buffer of [n] bytes. *)
Definition hkdf_expand (salt ikm info : bytes) (n : nat) : result CryptoError bytes :=
  ok_or KdfFailure (hkdf_sha256 salt ikm info n).

Definition kdf_rk (root_key dh_output : bytes) : result CryptoError RootKeyOutput :=
  let? output := hkdf_expand root_key dh_output HKDF_INFO_RATCHET 64 in
  Ok (mkRootKeyOutput (take 32 output) (drop 32 output)).

Definition hmac_sha256 (key data : bytes) : result CryptoError bytes :=
  ok_or KdfFailure (hmac_sha256_mac key data).

Definition kdf_ck (chain_key : bytes) : result CryptoError ChainKeyOutput :=
  let? message_key := hmac_sha256 chain_key [x01] in
  let? new_chain_key := hmac_sha256 chain_key [x02] in
  Ok (mkChainKeyOutput new_chain_key message_key).

Definition derive_message_keys (message_key : bytes) : result CryptoError MessageKeys :=
  let? output := hkdf_expand (repeat x00 32) message_key HKDF_INFO_MSG_KEY 44 in
  Ok (mkMessageKeys (take 32 output) (take 12 (drop 32 output))).

Context `{!KdfLaws}.

Lemma hkdf_expand_ok salt ikm info n :
  Z.of_nat n <= 8160 -> exists o, hkdf_expand salt ikm info n = Ok o /\ length o = n.
Proof.
  intros Hn. destruct (hkdf_total salt ikm info n Hn) as (o & E & Hl).
  exists o. unfold hkdf_expand. by rewrite E.
Qed.

Lemma kdf_rk_ok rk dh :
  exists o, kdf_rk rk dh = Ok o
    /\ length (rk_root_key o) = 32%nat /\ length (rk_chain_key o) = 32%nat.
Proof.
  destruct (hkdf_expand_ok rk dh HKDF_INFO_RATCHET 64) as (o & E & Hl); [lia|].
  unfold kdf_rk. rewrite E. eexists; split; [done|]; simpl.
  rewrite length_take, length_drop. lia.
Qed.

Lemma hmac_sha256_ok k d : exists m, hmac_sha256 k d = Ok m /\ length m = 32%nat.
Proof.
  destruct (hmac_total k d) as (m & E & Hl). exists m. unfold hmac_sha256. by rewrite E.
Qed.

Lemma kdf_ck_ok ck :
  exists o, kdf_ck ck = Ok o
    /\ length (ck_chain_key o) = 32%nat /\ length (ck_message_key o) = 32%nat.
Proof.
  destruct (hmac_sha256_ok ck [x01]) as (m & E1 & ?), (hmac_sha256_ok ck [x02]) as (c & E2 & ?).
  unfold kdf_ck. rewrite E1, E2. by eexists.
Qed.

(** The key and nonce of AES-GCM have the widths the cipher expects. *)
Lemma derive_message_keys_ok mk :
  exists k, derive_message_keys mk = Ok k
    /\ length (aes_key k) = 32%nat /\ length (nonce k) = 12%nat.
Proof.
  destruct (hkdf_expand_ok (repeat x00 32) mk HKDF_INFO_MSG_KEY 44) as (o & E & Hl); [lia|].
  unfold derive_message_keys. rewrite E. eexists; split; [done|]; simpl.
  rewrite !length_take, length_drop. lia.
Qed.
End Kdf.
