(* ===== verification/Aead.v ===== *)
(** * Authenticated encryption ([crates/crypto/src/aead.rs])

    AES-256-GCM under a key and nonce derived from a one-use message key. *)
From stdpp Require Import base numbers list strings.
From S2P Require Import Prelude Primitives Kdf.
Local Open Scope Z_scope.
Local Open Scope cmp_scope.

Section Aead.
Context `{CryptoPrims}.

(** The cipher is its key. *)
Definition prepare_cipher (message_key : bytes) : result CryptoError (bytes * bytes) :=
  let? keys := derive_message_keys message_key in
  if aes_key_ok (aes_key keys) then Ok (aes_key keys, nonce keys) else Err EncryptionFailed.

Definition encrypt (message_key plaintext aad : bytes) : result CryptoError bytes :=
  let? (cipher, nonce) := prepare_cipher message_key in
  ok_or EncryptionFailed (aes_gcm_encrypt cipher nonce aad plaintext).

Definition decrypt (message_key ciphertext aad : bytes) : result CryptoError bytes :=
  let? (cipher, nonce) := prepare_cipher message_key in
  ok_or DecryptionFailed (aes_gcm_decrypt cipher nonce aad ciphertext).

(** Sealing then opening under the same message key and associated data
    gives the plaintext back. *)
Lemma decrypt_encrypt `{!AeadLaws} mk p aad c :
  encrypt mk p aad = Ok c -> decrypt mk c aad = Ok p.
Proof.
  unfold encrypt, decrypt. destruct (prepare_cipher mk) as [[k n]|]; [|done].
  destruct (aes_gcm_encrypt k n aad p) as [c'|] eqn:E; simpl; [|done].
  intros [= <-]. by rewrite (gcm_roundtrip _ _ _ _ _ E).
Qed.

(** Under the laws of HKDF the key always has the width AES-256 takes, so
    preparing the cipher cannot fail. *)
Lemma prepare_cipher_ok `{!KdfLaws, !AeadLaws} mk :
  exists k, derive_message_keys mk = Ok k /\ prepare_cipher mk = Ok (aes_key k, nonce k).
Proof.
  destruct (derive_message_keys_ok mk) as (k & E & Hk & _). exists k. split; [done|].
  unfold prepare_cipher. rewrite E, aes_key_32; done.
Qed.

(** Under one message key a ciphertext opens in one context only. *)
Lemma decrypt_auth `{!AeadAuth} mk c aad p aad' p' :
  decrypt mk c aad = Ok p -> decrypt mk c aad' = Ok p' -> aad' = aad.
Proof.
  unfold decrypt. destruct (prepare_cipher mk) as [[k n]|]; [|done].
  destruct (aes_gcm_decrypt k n aad c) eqn:E; simpl; [|done].
  destruct (aes_gcm_decrypt k n aad' c) eqn:E'; simpl; [|done].
  intros _ _. by eapply gcm_auth.
Qed.
End Aead.
