(* ===== verification/Keys.v ===== *)
(** * Key material ([crates/crypto/src/keys.rs])

    Identity, signed, one-time, ephemeral and ratchet key pairs.  Secrets and
    public keys are byte strings; the operating system's randomness is an
    argument of every [generate]. *)
From stdpp Require Import base numbers list strings.
From S2P Require Import Prelude Primitives Kdf.
Local Open Scope Z_scope.
Local Open Scope cmp_scope.

Record IdentityKeyPair := mkIdentityKeyPair { signing_key : bytes }.

Record SignedPreKey := mkSignedPreKey {
  spk_key_id : Z;
  spk_secret : bytes;
  spk_public : bytes;
  spk_signature : bytes;
}.

Record OneTimePreKey := mkOneTimePreKey {
  opk_key_id : Z;
  opk_secret : bytes;
  opk_public : bytes;
}.

Record EphemeralKeyPair := mkEphemeralKeyPair { eph_secret : bytes; eph_public : bytes }.

Record RatchetKeyPair := mkRatchetKeyPair { secret_bytes : bytes; public_bytes : bytes }.

Section Keys.
Context `{CryptoPrims}.

(** [ZeroizingStaticSecret]: the secret is its bytes. *)
Definition diffie_hellman (secret their_public : bytes) : bytes :=
  x25519_dh secret their_public.
Definition to_public (secret : bytes) : bytes := x25519_public secret.

Definition IdentityKeyPair_generate (rng : bytes) : IdentityKeyPair := mkIdentityKeyPair rng.
Definition IdentityKeyPair_from_bytes (b : bytes) : IdentityKeyPair := mkIdentityKeyPair b.
Definition verifying_key (i : IdentityKeyPair) : bytes := ed25519_public (signing_key i).
Definition to_x25519_secret (i : IdentityKeyPair) : bytes := ed25519_scalar (signing_key i).
Definition verifying_key_to_x25519 (vk : bytes) : bytes := ed25519_montgomery vk.
Definition to_x25519_public (i : IdentityKeyPair) : bytes :=
  verifying_key_to_x25519 (verifying_key i).
Definition IdentityKeyPair_to_bytes (i : IdentityKeyPair) : bytes := signing_key i.

Definition SignedPreKey_generate (key_id : Z) (identity : IdentityKeyPair) (rng : bytes)
  : SignedPreKey :=
  let secret := rng in
  let public := to_public secret in
  let signature := ed25519_sign (signing_key identity) public in
  mkSignedPreKey key_id secret public signature.

Definition SignedPreKey_from_parts (key_id : Z) (secret public signature : bytes)
  : SignedPreKey := mkSignedPreKey key_id secret public signature.

Definition SignedPreKey_verify (spk : SignedPreKey) (identity_key : bytes)
  : result CryptoError unit :=
  if ed25519_verify identity_key (spk_public spk) (spk_signature spk)
  then Ok tt else Err InvalidSignature.

Definition OneTimePreKey_generate (key_id : Z) (rng : bytes) : OneTimePreKey :=
  let secret := rng in
  mkOneTimePreKey key_id secret (to_public secret).

Definition OneTimePreKey_from_parts (key_id : Z) (secret public : bytes) : OneTimePreKey :=
  mkOneTimePreKey key_id secret public.

(** [(start_id..end).map(OneTimePreKey::generate)]; [rng i] is the randomness
    drawn for the [i]-th key. *)
Definition generate_one_time_prekeys (start_id count : Z) (rng : nat -> bytes)
  : result CryptoError (list OneTimePreKey) :=
  let? end_ := ok_or (InvalidBundle "pre-key ID range overflow")
                     (checked_add u32_max start_id count) in
  Ok ((fun i : nat => OneTimePreKey_generate (start_id + Z.of_nat i) (rng i))
        <$> seq 0 (Z.to_nat (end_ - start_id))).

Definition EphemeralKeyPair_generate (rng : bytes) : EphemeralKeyPair :=
  let secret := rng in
  mkEphemeralKeyPair secret (to_public secret).

Definition RatchetKeyPair_from_bytes (secret public : bytes) : RatchetKeyPair :=
  mkRatchetKeyPair secret public.

Definition RatchetKeyPair_generate (rng : bytes) : RatchetKeyPair :=
  let secret := rng in
  mkRatchetKeyPair secret (to_public secret).

Definition to_secret (kp : RatchetKeyPair) : bytes := secret_bytes kp.
Definition RatchetKeyPair_to_public (kp : RatchetKeyPair) : bytes := public_bytes kp.

(** Well-formed key pairs: the public half belongs to the secret. *)
Definition opk_wf (k : OneTimePreKey) : Prop := opk_public k = x25519_public (opk_secret k).
Definition spk_wf (identity : IdentityKeyPair) (k : SignedPreKey) : Prop :=
  spk_public k = x25519_public (spk_secret k)
  /\ SignedPreKey_verify k (verifying_key identity) = Ok tt.

Lemma spk_generate_wf `{!IdentityLaws} id ik rng :
  spk_wf ik (SignedPreKey_generate id ik rng).
Proof.
  split; [done|]. unfold SignedPreKey_verify, SignedPreKey_generate, verifying_key. simpl.
  by rewrite sign_verifies.
Qed.

Lemma to_x25519_public_secret `{!IdentityLaws} i :
  to_x25519_public i = x25519_public (to_x25519_secret i).
Proof. symmetry. apply identity_conversion. Qed.

(** A batch of one-time pre-keys has consecutive [u32] identifiers starting
    at [start_id], each key's public half belonging to its secret; a range
    past [u32::MAX] is refused and nothing is generated. *)
Lemma generate_one_time_prekeys_spec start_id count rng :
  0 <= start_id -> 0 <= count ->
  match generate_one_time_prekeys start_id count rng with
  | Ok ks =>
      start_id + count <= u32_max
      /\ length ks = Z.to_nat count
      /\ Forall opk_wf ks
      /\ forall i k, ks !! i = Some k ->
           opk_key_id k = start_id + Z.of_nat i /\ u32 (opk_key_id k)
  | Err e => u32_max < start_id + count /\ e = InvalidBundle "pre-key ID range overflow"
  end.
Proof.
  intros Hs Hc. unfold generate_one_time_prekeys.
  destruct (Z.le_gt_cases (start_id + count) u32_max) as [Hle|Hgt].
  - rewrite checked_add_fits by done. simpl. split; [done|].
    rewrite length_fmap, length_seq. split; [f_equal; lia|]. split.
    + apply Forall_fmap, Forall_true. done.
    + intros i k Hk. apply list_lookup_fmap_Some in Hk as (j & -> & Hj).
      apply lookup_seq in Hj as [-> Hlt]. simpl. unfold u32. lia.
  - rewrite checked_add_overflow by lia. simpl. split; [lia|done].
Qed.
End Keys.

Lemma generate_one_time_prekeys_witness :
  exists ks, @generate_one_time_prekeys Toy.prims 10 5 (fun _ => []) = Ok ks
    /\ length ks = 5%nat.
Proof.
  pose proof (@generate_one_time_prekeys_spec Toy.prims 10 5 (fun _ => []) ltac:(lia) ltac:(lia)) as S.
  destruct (@generate_one_time_prekeys Toy.prims 10 5 (fun _ => [])) as [ks|e] eqn:E.
  - exists ks. split; [reflexivity|]. destruct S as (_ & Hl & _). exact Hl.
  - destruct S as [S _]. exfalso. unfold u32_max in S. lia.
Defined.
