(* ===== verification/X3dh.v ===== *)
(** * X3DH key agreement ([crates/crypto/src/x3dh.rs])

    The initiator's and the responder's derivations of the shared secret, and
    the proof that they agree. *)
From stdpp Require Import base numbers list strings.
From Stdlib Require Import Strings.Byte.
From S2P Require Import Prelude Primitives Kdf Keys.
Local Open Scope Z_scope.
Local Open Scope cmp_scope.

Definition X3DH_DOMAIN_SEPARATOR : bytes := repeat xff 32.
Definition X3DH_SALT : bytes := repeat x00 32.

Record X3dhInitResult := mkX3dhInitResult { shared_secret : bytes; ephemeral_public : bytes }.

Record PeerPreKeyBundle := mkPeerPreKeyBundle {
  pb_identity_key : bytes;
  pb_signed_prekey : bytes;
  pb_signed_prekey_id : Z;
  pb_signed_prekey_signature : bytes;
  pb_one_time_prekey : option (Z * bytes);
}.

Section X3dh.
Context `{CryptoPrims}.

Definition derive_x3dh_secret (dh1 dh2 dh3 : bytes) (dh4 : option bytes)
  : result CryptoError bytes :=
  let ikm := X3DH_DOMAIN_SEPARATOR ++ dh1 ++ dh2 ++ dh3
             ++ match dh4 with Some dh4_bytes => dh4_bytes | None => [] end in
  hkdf_expand X3DH_SALT ikm HKDF_INFO_X3DH 32.

Definition alice_initiate (alice_identity : IdentityKeyPair) (bob_bundle : PeerPreKeyBundle)
    (rng : bytes) : result CryptoError X3dhInitResult :=
  if negb (ed25519_verify (pb_identity_key bob_bundle) (pb_signed_prekey bob_bundle)
             (pb_signed_prekey_signature bob_bundle))
  then Err InvalidSignature
  else
    let ephemeral := EphemeralKeyPair_generate rng in
    let alice_x25519_secret := to_x25519_secret alice_identity in
    let bob_x25519_identity := verifying_key_to_x25519 (pb_identity_key bob_bundle) in
    let dh1 := diffie_hellman alice_x25519_secret (pb_signed_prekey bob_bundle) in
    let dh2 := diffie_hellman (eph_secret ephemeral) bob_x25519_identity in
    let dh3 := diffie_hellman (eph_secret ephemeral) (pb_signed_prekey bob_bundle) in
    let dh4 := (fun '(_, opk) => diffie_hellman (eph_secret ephemeral) opk)
                 <$> pb_one_time_prekey bob_bundle in
    let? shared_secret := derive_x3dh_secret dh1 dh2 dh3 dh4 in
    Ok (mkX3dhInitResult shared_secret (eph_public ephemeral)).

Definition bob_respond (bob_identity : IdentityKeyPair) (bob_signed_prekey : SignedPreKey)
    (bob_one_time_prekey : option OneTimePreKey)
    (alice_identity_key alice_ephemeral_key : bytes) : result CryptoError bytes :=
  let alice_x25519_identity := verifying_key_to_x25519 alice_identity_key in
  let bob_x25519_secret := to_x25519_secret bob_identity in
  let dh1 := diffie_hellman (spk_secret bob_signed_prekey) alice_x25519_identity in
  let dh2 := diffie_hellman bob_x25519_secret alice_ephemeral_key in
  let dh3 := diffie_hellman (spk_secret bob_signed_prekey) alice_ephemeral_key in
  let dh4 := (fun pk => diffie_hellman (opk_secret pk) alice_ephemeral_key)
               <$> bob_one_time_prekey in
  derive_x3dh_secret dh1 dh2 dh3 dh4.

(** The bundle the relay hands out for Bob's keys. *)
Definition bundle_of (bob : IdentityKeyPair) (spk : SignedPreKey) (opk : option OneTimePreKey)
  : PeerPreKeyBundle :=
  mkPeerPreKeyBundle (verifying_key bob) (spk_public spk) (spk_key_id spk) (spk_signature spk)
    ((fun k => (opk_key_id k, opk_public k)) <$> opk).

Lemma alice_bad_signature alice b rng :
  ed25519_verify (pb_identity_key b) (pb_signed_prekey b) (pb_signed_prekey_signature b) = false ->
  alice_initiate alice b rng = Err InvalidSignature.
Proof. intros E. unfold alice_initiate. by rewrite E. Qed.

Context `{!DhLaws, !IdentityLaws, !KdfLaws}.

Lemma x3dh_agree alice bob spk opk rng :
  spk_wf bob spk -> (forall k, opk = Some k -> opk_wf k) ->
  exists r, alice_initiate alice (bundle_of bob spk opk) rng = Ok r
    /\ bob_respond bob spk opk (verifying_key alice) (ephemeral_public r)
       = Ok (shared_secret r)
    /\ length (shared_secret r) = 32%nat.
Proof.
  intros [Hpub Hver] Hopk. unfold alice_initiate, bundle_of. simpl.
  unfold SignedPreKey_verify in Hver.
  destruct (ed25519_verify _ _ _); [|done]. simpl.
  match goal with |- context [derive_x3dh_secret ?a ?b ?c ?d] =>
    set (dh1 := a); set (dh2 := b); set (dh3 := c); set (dh4 := d) end.
  destruct (hkdf_expand_ok X3DH_SALT
    (X3DH_DOMAIN_SEPARATOR ++ dh1 ++ dh2 ++ dh3
      ++ match dh4 with Some x => x | None => [] end) HKDF_INFO_X3DH 32)
    as (o & E & Hl); [lia|].
  exists (mkX3dhInitResult o (x25519_public rng)).
  unfold derive_x3dh_secret at 1. rewrite E. split; [done|]. split; [|done].
  simpl. rewrite <- E. unfold bob_respond. simpl.
  fold (to_x25519_public alice). rewrite to_x25519_public_secret.
  replace (diffie_hellman (spk_secret spk) (x25519_public (to_x25519_secret alice))) with dh1
    by (unfold dh1, diffie_hellman; rewrite Hpub; apply dh_comm).
  replace (diffie_hellman (to_x25519_secret bob) (x25519_public rng)) with dh2.
  2:{ unfold dh2, diffie_hellman. fold (to_x25519_public bob).
      rewrite to_x25519_public_secret. apply dh_comm. }
  replace (diffie_hellman (spk_secret spk) (x25519_public rng)) with dh3
    by (unfold dh3, diffie_hellman; rewrite Hpub; apply dh_comm).
  replace ((fun pk => diffie_hellman (opk_secret pk) (x25519_public rng)) <$> opk) with dh4; [done|].
  unfold dh4. destruct opk as [k|]; [|done]. simpl. f_equal.
  unfold diffie_hellman. rewrite (Hopk k eq_refl). apply dh_comm.
Qed.

(** C22: Against the bundle of well-formed pre-keys, with or without a one-time
    pre-key, the initiator always succeeds, and the responder derives the
    same 32-byte secret from the initiator's public keys. *)
Theorem x3dh_agreement alice bob spk opk rng :
  spk_wf bob spk -> (forall k, opk = Some k -> opk_wf k) ->
  exists r, alice_initiate alice (bundle_of bob spk opk) rng = Ok r
    /\ bob_respond bob spk opk (verifying_key alice) (ephemeral_public r)
       = Ok (shared_secret r)
    /\ length (shared_secret r) = 32%nat.
Proof. apply x3dh_agree. Qed.
End X3dh.

Lemma x3dh_agreement_witness :
  let bob := mkIdentityKeyPair (repeat x05 32) in
  let spk := @SignedPreKey_generate Toy.prims 0 bob (repeat x07 32) in
  let opk := Some (@OneTimePreKey_generate Toy.prims 9 (repeat x08 32)) in
  exists r, @alice_initiate Toy.prims (mkIdentityKeyPair (repeat x03 32))
              (@bundle_of Toy.prims bob spk opk) (repeat x04 32) = Ok r
    /\ @bob_respond Toy.prims bob spk opk
         (@verifying_key Toy.prims (mkIdentityKeyPair (repeat x03 32))) (ephemeral_public r)
       = Ok (shared_secret r)
    /\ length (shared_secret r) = 32%nat.
Proof.
  intros bob spk opk. apply (@x3dh_agreement Toy.prims Toy.dh_laws Toy.identity_laws Toy.kdf_laws).
  - apply (@spk_generate_wf Toy.prims Toy.identity_laws).
  - intros k [= <-]. reflexivity.
Defined.
