(* ===== verification/Ratchet.v ===== *)
(** * The Double Ratchet ([crates/crypto/src/ratchet.rs])

    Session state, encryption, decryption with skipped-key storage and
    rollback, and the serialised form of the skipped keys.  A function that
    takes [&mut SessionState] is a computation of [rm SessionState]; the fresh
    ratchet secret a Diffie-Hellman step draws is an argument.

    The theorems of this file hold for arbitrary, possibly hostile, inputs;
    [RatchetSync] proves the two-party correctness. *)
From stdpp Require Import base numbers list strings gmap.
From S2P Require Import Prelude Primitives Kdf Aead Keys.
Local Open Scope Z_scope.
Local Open Scope cmp_scope.

Definition MAX_SKIP : Z := 1000.

Record RatchetHeader := mkHeader {
  ratchet_key : bytes;
  previous_chain_length : Z;
  message_number : Z;
}.

Definition to_aad (h : RatchetHeader) : bytes :=
  ratchet_key h ++ be_bytes 4 (previous_chain_length h) ++ be_bytes 4 (message_number h).

Definition authenticated_data (envelope_aad : bytes) (header : RatchetHeader) : bytes :=
  envelope_aad ++ to_aad header.

Record RatchetMessage := mkRatchetMessage { header : RatchetHeader; ciphertext : bytes }.

Abbreviation SkippedKeysMap := (gmap (bytes * Z) bytes).

Record SessionState := mkSession {
  root_key : bytes;
  our_ratchet : RatchetKeyPair;
  their_ratchet_key : option bytes;
  sending_chain_key : option bytes;
  receiving_chain_key : option bytes;
  send_count : Z;
  recv_count : Z;
  previous_send_count : Z;
  skipped : SkippedKeysMap;
}.

Definition set_skipped (m : SkippedKeysMap) (s : SessionState) : SessionState :=
  mkSession (root_key s) (our_ratchet s) (their_ratchet_key s) (sending_chain_key s)
    (receiving_chain_key s) (send_count s) (recv_count s) (previous_send_count s) m.
Definition set_receiving (ck : option bytes) (s : SessionState) : SessionState :=
  mkSession (root_key s) (our_ratchet s) (their_ratchet_key s) (sending_chain_key s)
    ck (send_count s) (recv_count s) (previous_send_count s) (skipped s).
Definition set_sent (ck : option bytes) (n : Z) (s : SessionState) : SessionState :=
  mkSession (root_key s) (our_ratchet s) (their_ratchet_key s) ck
    (receiving_chain_key s) n (recv_count s) (previous_send_count s) (skipped s).
Definition set_recv_count (n : Z) (s : SessionState) : SessionState :=
  mkSession (root_key s) (our_ratchet s) (their_ratchet_key s) (sending_chain_key s)
    (receiving_chain_key s) (send_count s) n (previous_send_count s) (skipped s).

Section Ratchet.
Context `{CryptoPrims}.

Definition initialize_alice (shared_secret bob_ratchet_public rng : bytes)
  : result CryptoError SessionState :=
  let our_ratchet := RatchetKeyPair_generate rng in
  let our_secret := to_secret our_ratchet in
  let dh_output := diffie_hellman our_secret bob_ratchet_public in
  let? rk_out := kdf_rk shared_secret dh_output in
  Ok (mkSession (rk_root_key rk_out) our_ratchet (Some bob_ratchet_public)
        (Some (rk_chain_key rk_out)) None 0 0 0 ∅).

Definition initialize_bob (shared_secret : bytes) (bob_ratchet : RatchetKeyPair)
  : SessionState :=
  mkSession shared_secret bob_ratchet None None None 0 0 0 ∅.

Definition encrypt (plaintext envelope_aad : bytes)
  : rm SessionState CryptoError RatchetMessage :=
  do! state <- rm_get;
  do! new_send_count <-
    rm_lift (ok_or MessageCounterExhausted (checked_add u32_max (send_count state) 1));
  do! chain_key <- rm_lift (ok_or NoSession (sending_chain_key state));
  do! ck_out <- rm_lift (kdf_ck chain_key);
  let header := mkHeader (public_bytes (our_ratchet state)) (previous_send_count state)
                  (send_count state) in
  let aad := authenticated_data envelope_aad header in
  do! ciphertext <- rm_lift (Aead.encrypt (ck_message_key ck_out) plaintext aad);
  run! rm_put (set_sent (Some (ck_chain_key ck_out)) new_send_count state);
  rm_ret (mkRatchetMessage header ciphertext).

(** The loop [for i in current..until] of [skip_message_keys], for [n]
    iterations from [i]; returns the advanced chain key. *)
Fixpoint skip_loop (n : nat) (their_key : bytes) (i : Z) (chain_key : bytes)
  : rm SessionState CryptoError bytes :=
  match n with
  | O => rm_ret chain_key
  | S n' =>
      do! ck_out <- rm_lift (kdf_ck chain_key);
      do! state <- rm_get;
      run! rm_put (set_skipped (<[(their_key, i) := ck_message_key ck_out]> (skipped state)) state);
      skip_loop n' their_key (i + 1) (ck_chain_key ck_out)
  end.

Definition skip_message_keys (current until : Z) : rm SessionState CryptoError unit :=
  if until <=? current then rm_ret tt
  else
    let to_skip := until - current in
    do! state <- rm_get;
    let total := to_skip + Z.of_nat (size (skipped state)) in
    if MAX_SKIP <? total then rm_fail SkippedKeyLimitExceeded
    else
      match their_ratchet_key state with
      | None => rm_ret tt
      | Some their_key =>
          match receiving_chain_key state with
          | None => rm_ret tt
          | Some chain_key =>
              do! chain_key <- skip_loop (Z.to_nat to_skip) their_key current chain_key;
              do! state <- rm_get;
              rm_put (set_receiving (Some chain_key) state)
          end
      end.

(** The Diffie-Hellman ratchet step of [try_decrypt_inner]. *)
Definition dh_step (fresh : bytes) (header : RatchetHeader) : rm SessionState CryptoError unit :=
  do! state <- rm_get;
  run! match receiving_chain_key state with
       | Some _ => skip_message_keys (recv_count state) (previous_chain_length header)
       | None => rm_ret tt
       end;
  do! state <- rm_get;
  let their_public := ratchet_key header in
  let our_secret := to_secret (our_ratchet state) in
  let dh_output := diffie_hellman our_secret their_public in
  do! rk_out <- rm_lift (kdf_rk (root_key state) dh_output);
  let state1 := mkSession (rk_root_key rk_out) (RatchetKeyPair_generate fresh)
                  (Some (ratchet_key header)) (sending_chain_key state)
                  (Some (rk_chain_key rk_out)) 0 0 (send_count state) (skipped state) in
  run! rm_put state1;
  let new_secret := to_secret (our_ratchet state1) in
  let dh_output2 := diffie_hellman new_secret their_public in
  do! rk_out2 <- rm_lift (kdf_rk (root_key state1) dh_output2);
  rm_put (mkSession (rk_root_key rk_out2) (our_ratchet state1) (their_ratchet_key state1)
            (Some (rk_chain_key rk_out2)) (receiving_chain_key state1) (send_count state1)
            (recv_count state1) (previous_send_count state1) (skipped state1)).

Definition try_decrypt_inner (fresh : bytes) (header : RatchetHeader)
    (ciphertext envelope_aad : bytes) : rm SessionState CryptoError bytes :=
  do! state <- rm_get;
  let need_dh_step :=
    negb (bool_decide (their_ratchet_key state = Some (ratchet_key header))) in
  run! (if need_dh_step then dh_step fresh header else rm_ret tt);
  do! state <- rm_get;
  run! skip_message_keys (recv_count state) (message_number header);
  do! state <- rm_get;
  do! chain_key <- rm_lift (ok_or NoSession (receiving_chain_key state));
  do! ck_out <- rm_lift (kdf_ck chain_key);
  let aad := authenticated_data envelope_aad header in
  do! plaintext <- rm_lift (Aead.decrypt (ck_message_key ck_out) ciphertext aad);
  let state := set_receiving (Some (ck_chain_key ck_out)) state in
  run! rm_put state;
  do! n <- rm_lift (ok_or MessageCounterExhausted
                     (checked_add u32_max (message_number header) 1));
  run! rm_put (set_recv_count n state);
  rm_ret plaintext.

Definition decrypt (fresh : bytes) (header : RatchetHeader) (ciphertext envelope_aad : bytes)
  : rm SessionState CryptoError bytes := fun state =>
  let skip_key := (ratchet_key header, message_number header) in
  match skipped state !! skip_key with
  | Some message_key =>
      let state' := set_skipped (delete skip_key (skipped state)) state in
      let aad := authenticated_data envelope_aad header in
      let result := Aead.decrypt message_key ciphertext aad in
      if is_err result
      then (result, set_skipped (<[skip_key := message_key]> (skipped state')) state')
      else (result, state')
  | None =>
      let snapshot := state in
      let '(result, state') := try_decrypt_inner fresh header ciphertext envelope_aad state in
      if is_err result then (result, snapshot) else (result, state')
  end.
End Ratchet.

(** ** The serialised skipped keys *)

Record Entry := mkEntry { e_ratchet_key : bytes; e_message_number : Z; e_message_key : bytes }.

Definition serialize (m : SkippedKeysMap) : list Entry :=
  (fun '((rk, mn), mk) => mkEntry rk mn mk) <$> map_to_list m.

(** [collect] into a [HashMap]: a later entry replaces an earlier one. *)
Definition deserialize (entries : list Entry) : result string SkippedKeysMap :=
  if MAX_SKIP <? Z.of_nat (length entries) then Err "skipped key count exceeds MAX_SKIP"%string
  else Ok (fold_left (fun m e => <[(e_ratchet_key e, e_message_number e) := e_message_key e]> m)
             entries ∅).

(** ** Invariant

    The counters fit in a [u32], chain keys are 32 bytes and at most
    [MAX_SKIP] message keys are stored. *)
Definition key32 (k : bytes) : Prop := length k = 32%nat.
Definition okey32 (k : option bytes) : Prop := match k with Some k => key32 k | None => True end.

Record session_wf (s : SessionState) : Prop := {
  wf_root : key32 (root_key s);
  wf_sending : okey32 (sending_chain_key s);
  wf_receiving : okey32 (receiving_chain_key s);
  wf_send_count : u32 (send_count s);
  wf_recv_count : u32 (recv_count s);
  wf_previous : u32 (previous_send_count s);
  wf_skipped_size : Z.of_nat (size (skipped s)) <= MAX_SKIP;
  wf_skipped_keys : map_Forall (fun _ k => key32 k) (skipped s);
}.

(** ** Rollback *)

Section Rollback.
Context `{CryptoPrims}.

Lemma set_skipped_id s : set_skipped (skipped s) s = s.
Proof. by destruct s. Qed.

(** A decryption that reports an error, whatever the header, ciphertext,
    context and fresh key, leaves the session exactly as it was: a forged
    message cannot corrupt a session. *)
Lemma decrypt_error_keeps_session fresh h ct aad s e s' :
  decrypt fresh h ct aad s = (Err e, s') -> s' = s.
Proof.
  unfold decrypt. destruct (skipped s !! _) as [mk|] eqn:Hk.
  - destruct (Aead.decrypt mk ct _) as [p|e'] eqn:D; simpl; [done|]. intros [= <- <-].
    unfold set_skipped at 1. simpl. rewrite insert_delete_id by done. by destruct s.
  - destruct (try_decrypt_inner _ _ _ _ s) as [[p|e'] s1]; simpl; naive_solver.
Qed.

(** A failing encryption leaves the session unchanged; a succeeding one
    advances the sending chain by one step, numbers the message with the
    old counter and touches nothing else. *)
Lemma encrypt_spec pt aad s :
  match encrypt pt aad s with
  | (Err e, s') =>
      s' = s /\ (send_count s = u32_max -> e = MessageCounterExhausted)
  | (Ok m, s') =>
      exists ck o, sending_chain_key s = Some ck /\ kdf_ck ck = Ok o
        /\ s' = set_sent (Some (ck_chain_key o)) (send_count s + 1) s
        /\ send_count s + 1 <= u32_max
        /\ header m = mkHeader (public_bytes (our_ratchet s)) (previous_send_count s)
                        (send_count s)
        /\ Aead.encrypt (ck_message_key o) pt (authenticated_data aad (header m))
           = Ok (ciphertext m)
  end.
Proof.
  unfold encrypt, rm_bind, rm_get, rm_lift, rm_put, rm_ret.
  destruct (checked_add u32_max (send_count s) 1) as [n|] eqn:Hn; simpl; [|done].
  apply checked_add_Some in Hn as [-> Hle].
  destruct (sending_chain_key s) as [ck|] eqn:Hck; simpl; [|split; [done|lia]].
  destruct (kdf_ck ck) as [o|e] eqn:Ho; simpl; [|split; [done|lia]].
  destruct (Aead.encrypt _ _ _) as [c|e] eqn:Hc; simpl; [|split; [done|lia]].
  eauto 10.
Qed.
End Rollback.

(** ** Chains

    Under the laws of HMAC a chain key always has a successor and a message
    key; [ck_iter ck n] is the chain key after [n] steps and [mk_at ck n] the
    [n]-th message key. *)

Section Chains.
Context `{CryptoPrims}.

Definition ck_next (ck : bytes) : bytes :=
  match kdf_ck ck with Ok o => ck_chain_key o | Err _ => [] end.
Definition ck_mk (ck : bytes) : bytes :=
  match kdf_ck ck with Ok o => ck_message_key o | Err _ => [] end.
Fixpoint ck_iter (n : nat) (ck : bytes) : bytes :=
  match n with O => ck | S n' => ck_iter n' (ck_next ck) end.
Definition mk_at (ck : bytes) (n : nat) : bytes := ck_mk (ck_iter n ck).

(** The map after storing [n] message keys of a chain from index [i]. *)
Fixpoint skip_map (n : nat) (tk : bytes) (i : Z) (ck : bytes) (m : SkippedKeysMap)
  : SkippedKeysMap :=
  match n with
  | O => m
  | S n' => skip_map n' tk (i + 1) (ck_next ck) (<[(tk, i) := ck_mk ck]> m)
  end.

Context `{!KdfLaws}.

Lemma kdf_ck_eq ck : kdf_ck ck = Ok (mkChainKeyOutput (ck_next ck) (ck_mk ck)).
Proof.
  unfold ck_next, ck_mk. destruct (kdf_ck_ok ck) as ([c m] & E & _). by rewrite E.
Qed.

Lemma ck_next_32 ck : key32 (ck_next ck).
Proof. unfold ck_next. destruct (kdf_ck_ok ck) as (o & E & ? & _). by rewrite E. Qed.
Lemma ck_mk_32 ck : key32 (ck_mk ck).
Proof. unfold ck_mk. destruct (kdf_ck_ok ck) as (o & E & _ & ?). by rewrite E. Qed.

Lemma ck_iter_32 n ck : key32 ck -> key32 (ck_iter n ck).
Proof. revert ck. induction n as [|n IH]; intros ck Hck; simpl; [done|]. apply IH, ck_next_32. Qed.

Lemma ck_iter_add n m ck : ck_iter (n + m) ck = ck_iter m (ck_iter n ck).
Proof. revert ck. induction n as [|n IH]; intros ck; simpl; [done|]. apply IH. Qed.

Lemma ck_iter_S n ck : ck_iter (S n) ck = ck_next (ck_iter n ck).
Proof. replace (S n) with (n + 1)%nat by lia. by rewrite ck_iter_add. Qed.

Lemma skip_loop_eq n tk i ck s :
  skip_loop n tk i ck s
  = (Ok (ck_iter n ck), set_skipped (skip_map n tk i ck (skipped s)) s).
Proof.
  revert i ck s. induction n as [|n IH]; intros i ck s; simpl.
  - unfold rm_ret. by rewrite set_skipped_id.
  - unfold rm_bind, rm_lift, rm_get, rm_put. rewrite kdf_ck_eq. simpl. by rewrite IH.
Qed.

Lemma skip_map_lookup n tk i ck m k j :
  skip_map n tk i ck m !! (k, j)
  = if decide (k = tk /\ i <= j < i + Z.of_nat n)
    then Some (mk_at ck (Z.to_nat (j - i))) else m !! (k, j).
Proof.
  revert i ck m. induction n as [|n IH]; intros i ck m; cbn [skip_map].
  - rewrite decide_False by (intros []; lia). done.
  - rewrite IH. destruct (decide (k = tk)) as [->|Hk].
    2:{ rewrite !decide_False by naive_solver. rewrite lookup_insert_ne by naive_solver. done. }
    destruct (decide (j = i)) as [->|Hj].
    + rewrite decide_False by (intros []; lia). rewrite decide_True by (split; [done|lia]).
      rewrite lookup_insert_eq. replace (Z.to_nat (i - i)) with 0%nat by lia. done.
    + rewrite lookup_insert_ne by naive_solver.
      destruct (decide (i + 1 <= j < i + 1 + Z.of_nat n)).
      * rewrite !decide_True by (split; [done|lia]). f_equal.
        replace (Z.to_nat (j - i)) with (S (Z.to_nat (j - (i + 1)))) by lia. done.
      * rewrite !decide_False by (intros []; lia). done.
Qed.

Lemma skip_map_size n tk i ck m :
  (size (skip_map n tk i ck m) <= n + size m)%nat.
Proof.
  revert i ck m. induction n as [|n IH]; intros i ck m; simpl; [lia|].
  etrans; [apply IH|]. rewrite map_size_insert. destruct (m !! (tk, i)); simpl; lia.
Qed.

Lemma skip_map_keys n tk i ck m :
  map_Forall (fun _ k => key32 k) m -> map_Forall (fun _ k => key32 k) (skip_map n tk i ck m).
Proof.
  revert i ck m. induction n as [|n IH]; intros i ck m Hm; simpl; [done|].
  apply IH. apply map_Forall_insert_2; [apply ck_mk_32|done].
Qed.

Lemma skip_message_keys_eq c u s :
  skip_message_keys c u s =
  if u <=? c then (Ok tt, s)
  else if MAX_SKIP <? u - c + Z.of_nat (size (skipped s)) then (Err SkippedKeyLimitExceeded, s)
  else match their_ratchet_key s, receiving_chain_key s with
       | Some tk, Some ck =>
           (Ok tt, set_receiving (Some (ck_iter (Z.to_nat (u - c)) ck))
                     (set_skipped (skip_map (Z.to_nat (u - c)) tk c ck (skipped s)) s))
       | _, _ => (Ok tt, s)
       end.
Proof.
  unfold skip_message_keys, rm_bind, rm_get, rm_fail, rm_put, rm_ret.
  destruct (u <=? c); [done|]. destruct (MAX_SKIP <? _); [done|].
  destruct (their_ratchet_key s); [|done]. destruct (receiving_chain_key s); [|done].
  by rewrite skip_loop_eq.
Qed.

Definition rk_root (rk dh : bytes) : bytes :=
  match kdf_rk rk dh with Ok o => rk_root_key o | Err _ => [] end.
Definition rk_chain (rk dh : bytes) : bytes :=
  match kdf_rk rk dh with Ok o => rk_chain_key o | Err _ => [] end.

Lemma kdf_rk_eq rk dh : kdf_rk rk dh = Ok (mkRootKeyOutput (rk_root rk dh) (rk_chain rk dh)).
Proof. unfold rk_root, rk_chain. destruct (kdf_rk_ok rk dh) as ([r c] & E & _). by rewrite E. Qed.

Lemma rk_root_32 rk dh : key32 (rk_root rk dh).
Proof. unfold rk_root. destruct (kdf_rk_ok rk dh) as (o & E & ? & _). by rewrite E. Qed.
Lemma rk_chain_32 rk dh : key32 (rk_chain rk dh).
Proof. unfold rk_chain. destruct (kdf_rk_ok rk dh) as (o & E & _ & ?). by rewrite E. Qed.

(** The state a Diffie-Hellman step reaches from [s] on the peer key [pk]. *)
Definition dh_state (fresh pk : bytes) (s : SessionState) : SessionState :=
  let dh1 := x25519_dh (secret_bytes (our_ratchet s)) pk in
  let root1 := rk_root (root_key s) dh1 in
  let dh2 := x25519_dh fresh pk in
  mkSession (rk_root root1 dh2) (RatchetKeyPair_generate fresh) (Some pk)
    (Some (rk_chain root1 dh2)) (Some (rk_chain (root_key s) dh1)) 0 0 (send_count s) (skipped s).

Lemma dh_step_eq fresh h s :
  dh_step fresh h s =
  match (match receiving_chain_key s with
         | Some _ => skip_message_keys (recv_count s) (previous_chain_length h) s
         | None => (Ok tt, s)
         end) with
  | (Err e, s1) => (Err e, s1)
  | (Ok _, s1) => (Ok tt, dh_state fresh (ratchet_key h) s1)
  end.
Proof.
  unfold dh_step, rm_bind, rm_get, rm_lift, rm_put, rm_ret.
  destruct (receiving_chain_key s).
  - destruct (skip_message_keys _ _ s) as [[]]; [|done]. by rewrite !kdf_rk_eq.
  - by rewrite !kdf_rk_eq.
Qed.

Lemma try_decrypt_inner_eq fresh h ct aad s :
  try_decrypt_inner fresh h ct aad s =
  match (if bool_decide (their_ratchet_key s = Some (ratchet_key h)) then (Ok tt, s)
         else dh_step fresh h s) with
  | (Err e, s1) => (Err e, s1)
  | (Ok _, s1) =>
      match skip_message_keys (recv_count s1) (message_number h) s1 with
      | (Err e, s2) => (Err e, s2)
      | (Ok _, s2) =>
          match receiving_chain_key s2 with
          | None => (Err NoSession, s2)
          | Some ck =>
              match Aead.decrypt (ck_mk ck) ct (authenticated_data aad h) with
              | Err e => (Err e, s2)
              | Ok p =>
                  match checked_add u32_max (message_number h) 1 with
                  | None => (Err MessageCounterExhausted, set_receiving (Some (ck_next ck)) s2)
                  | Some n => (Ok p, set_recv_count n (set_receiving (Some (ck_next ck)) s2))
                  end
              end
          end
      end
  end.
Proof.
  unfold try_decrypt_inner, rm_bind, rm_get, rm_lift, rm_put, rm_ret.
  destruct (bool_decide _); simpl; [|destruct (dh_step fresh h s) as [[] s1]; [|done]].
  all: destruct (skip_message_keys _ _ _) as [[] s2]; [|done].
  all: destruct (receiving_chain_key s2); [|done]; simpl; rewrite kdf_ck_eq; simpl.
  all: destruct (Aead.decrypt _ _ _); [|done]; by destruct (checked_add _ _ _).
Qed.
End Chains.

(** ** The invariant is preserved *)

Section Invariant.
Context `{CryptoPrims, !KdfLaws}.

Definition header_u32 (h : RatchetHeader) : Prop :=
  u32 (previous_chain_length h) /\ u32 (message_number h).

Lemma skip_wf c u s r s' :
  session_wf s -> skip_message_keys c u s = (r, s') -> session_wf s'.
Proof.
  intros W. rewrite skip_message_keys_eq.
  destruct (Z.leb_spec u c); [naive_solver|].
  destruct (Z.ltb_spec MAX_SKIP (u - c + Z.of_nat (size (skipped s)))); [naive_solver|].
  destruct (their_ratchet_key s) as [tk|]; [|naive_solver].
  destruct (receiving_chain_key s) as [ck|] eqn:Hck; [|naive_solver].
  intros [= <- <-]. destruct W. rewrite Hck in *. split; simpl; try done.
  - by apply ck_iter_32.
  - pose proof (skip_map_size (Z.to_nat (u - c)) tk c ck (skipped s)). lia.
  - by apply skip_map_keys.
Qed.

Lemma dh_step_wf fresh h s s' :
  session_wf s -> dh_step fresh h s = (Ok tt, s') -> session_wf s'.
Proof.
  intros W. rewrite dh_step_eq.
  destruct (match receiving_chain_key s with Some _ => _ | None => _ end) as [[]s1] eqn:E; [|done].
  assert (session_wf s1) as [].
  { destruct (receiving_chain_key s); [by eapply skip_wf|naive_solver]. }
  intros [= <-]. split; simpl; try done; unfold u32, u32_max; try lia;
    auto using rk_root_32, rk_chain_32.
Qed.

Lemma try_decrypt_inner_wf fresh h ct aad s p s' :
  session_wf s -> header_u32 h -> try_decrypt_inner fresh h ct aad s = (Ok p, s') ->
  session_wf s'.
Proof.
  intros W [_ Hn]. rewrite try_decrypt_inner_eq.
  destruct (if bool_decide _ then _ else _) as [[[]|]s1] eqn:E; [|done].
  assert (session_wf s1) as W1.
  { destruct (bool_decide _); [naive_solver|by eapply dh_step_wf]. }
  destruct (skip_message_keys _ _ s1) as [[[]|]s2] eqn:E2; [|done].
  assert (session_wf s2) as [] by (by eapply skip_wf).
  destruct (receiving_chain_key s2); [|done]. destruct (Aead.decrypt _ _ _); [|done].
  destruct (checked_add u32_max (message_number h) 1) as [n|] eqn:Hc; [|done].
  apply checked_add_Some in Hc as [-> Hle]. intros [= _ <-].
  split; simpl; try done; [apply ck_next_32|]. unfold u32 in *. lia.
Qed.

(** No sequence of encryptions and decryptions, even of hostile messages,
    makes a session store more than [MAX_SKIP] keys, hold a key of the wrong
    width or overflow a counter. *)
Lemma session_wf_preserved s pt aad fresh h ct :
  session_wf s -> header_u32 h ->
  session_wf (snd (encrypt pt aad s)) /\ session_wf (snd (decrypt fresh h ct aad s)).
Proof.
  intros W Hh. split.
  - pose proof (encrypt_spec pt aad s) as S.
    destruct (encrypt pt aad s) as [[m|e] s'] eqn:E; simpl; [|by destruct S as [-> _]].
    destruct S as (ck & o & Hck & Ho & -> & Hle & _).
    rewrite kdf_ck_eq in Ho. injection Ho as <-.
    destruct W. split; simpl; try done; [apply ck_next_32|]. unfold u32 in *. lia.
  - destruct (decrypt fresh h ct aad s) as [[p|e] s'] eqn:E; simpl;
      [|by rewrite (decrypt_error_keeps_session _ _ _ _ _ _ _ E)].
    unfold decrypt in E. destruct (skipped s !! _) as [mk|] eqn:Hk.
    + destruct (Aead.decrypt mk ct _); simpl in E; [|done]. injection E as _ <-.
      destruct W. split; simpl; try done.
      * rewrite map_size_delete, Hk. simpl. lia.
      * by apply map_Forall_delete.
    + destruct (try_decrypt_inner _ _ _ _ s) as [[p'|] s1] eqn:T; simpl in E; [|done].
      injection E as _ <-. by eapply try_decrypt_inner_wf.
Qed.

Lemma initialize_alice_ok ss pub rng :
  exists s, initialize_alice ss pub rng = Ok s /\ session_wf s.
Proof.
  unfold initialize_alice.
  destruct (kdf_rk_ok ss (diffie_hellman (to_secret (RatchetKeyPair_generate rng)) pub))
    as (o & -> & ? & ?).
  eexists; split; [done|]. split; simpl; try done; unfold u32, u32_max; lia.
Qed.

Lemma initialize_bob_wf ss kp : key32 ss -> session_wf (initialize_bob ss kp).
Proof.
  intros Hs. split; simpl; try done; unfold u32, u32_max; lia.
Qed.

(** A message whose number is further ahead of the receiving chain than the
    free room in the skipped-key store is refused with
    [SkippedKeyLimitExceeded] before any key is derived. *)
Lemma decrypt_skip_limit fresh h ct aad s :
  skipped s !! (ratchet_key h, message_number h) = None ->
  their_ratchet_key s = Some (ratchet_key h) ->
  recv_count s < message_number h ->
  MAX_SKIP < message_number h - recv_count s + Z.of_nat (size (skipped s)) ->
  decrypt fresh h ct aad s = (Err SkippedKeyLimitExceeded, s).
Proof.
  intros Hk Ht Hlt Hm. unfold decrypt. rewrite Hk. unfold try_decrypt_inner, rm_bind, rm_get.
  rewrite Ht, bool_decide_eq_true_2 by done. simpl.
  rewrite skip_message_keys_eq.
  destruct (Z.leb_spec (message_number h) (recv_count s)); [lia|].
  destruct (Z.ltb_spec MAX_SKIP (message_number h - recv_count s + Z.of_nat (size (skipped s))));
    [done|lia].
Qed.
End Invariant.

(** ** Serialisation of the skipped keys *)

Lemma deserialize_fold_lookup (l : list ((bytes * Z) * bytes)) (m0 : SkippedKeysMap) :
  NoDup l.*1 -> (forall k, k ∈ l.*1 -> m0 !! k = None) ->
  fold_left (fun m e => <[(e_ratchet_key e, e_message_number e) := e_message_key e]> m)
    ((fun '((rk, mn), mk) => mkEntry rk mn mk) <$> l) m0
  = list_to_map l ∪ m0.
Proof.
  revert m0. induction l as [|[[rk mn] mk] l IH]; intros m0 Hnd Hm0; simpl.
  - by rewrite (left_id_L ∅ (∪)).
  - apply NoDup_cons in Hnd as [Hni Hnd]. rewrite IH; [|done|].
    + rewrite <- insert_union_l, <- insert_union_r; [done|].
      by apply not_elem_of_list_to_map_1.
    + intros k Hk. simpl in Hni. rewrite lookup_insert_ne by (intros Heq; subst k; done).
      apply Hm0. by constructor.
Qed.

Lemma deserialize_serialize (m : SkippedKeysMap) :
  Z.of_nat (size m) <= MAX_SKIP -> deserialize (serialize m) = Ok m.
Proof.
  intros Hm. unfold deserialize, serialize. rewrite length_fmap, length_map_to_list.
  destruct (Z.ltb_spec MAX_SKIP (Z.of_nat (size m))); [lia|]. f_equal.
  rewrite deserialize_fold_lookup.
  - rewrite list_to_map_to_list. apply (right_id_L ∅ (∪)).
  - apply NoDup_fst_map_to_list.
  - intros k _. apply lookup_empty.
Qed.

(** No stored form of any length makes a session hold more than [MAX_SKIP]
    keys. *)
Lemma deserialize_bound es m : deserialize es = Ok m -> Z.of_nat (size m) <= MAX_SKIP.
Proof.
  unfold deserialize. destruct (Z.ltb_spec MAX_SKIP (Z.of_nat (length es))); [done|].
  intros [= <-].
  assert (forall m0 : SkippedKeysMap,
    (size (fold_left (fun m e => <[(e_ratchet_key e, e_message_number e) := e_message_key e]> m) es m0)
     <= length es + size m0)%nat) as Hs.
  { clear. induction es as [|e es IH]; intros m0; simpl; [lia|].
    etrans; [apply IH|]. rewrite map_size_insert. destruct (m0 !! _); simpl; lia. }
  specialize (Hs ∅). rewrite map_size_empty in Hs. lia.
Qed.

(** The skipped keys survive persistence: reading back what was written
    gives the same map for every map within the limit, and a stored form
    beyond the limit, whoever wrote it, is refused. *)
Lemma skipped_keys_roundtrip (m : SkippedKeysMap) (es : list Entry) :
  (if Z.of_nat (size m) <=? MAX_SKIP then deserialize (serialize m) = Ok m
   else is_err (deserialize (serialize m)) = true)
  /\ (MAX_SKIP < Z.of_nat (length es) -> is_err (deserialize es) = true)
  /\ (forall m', deserialize es = Ok m' -> Z.of_nat (size m') <= MAX_SKIP).
Proof.
  split; [|split; [|apply deserialize_bound]].
  - destruct (Z.leb_spec (Z.of_nat (size m)) MAX_SKIP); [by apply deserialize_serialize|].
    unfold deserialize, serialize. rewrite length_fmap, length_map_to_list.
    by destruct (Z.ltb_spec MAX_SKIP (Z.of_nat (size m))); [|lia].
  - intros Hl. unfold deserialize. by rewrite (proj2 (Z.ltb_lt _ _) Hl).
Qed.

Lemma skipped_keys_roundtrip_witness :
  deserialize (serialize {[ ([Byte.x01], 7) := [Byte.x02] ]}) = Ok {[ ([Byte.x01], 7) := [Byte.x02] ]}
  /\ is_err (deserialize (repeat (mkEntry [] 0 []) 1001)) = true.
Proof.
  split.
  - exact (proj1 (skipped_keys_roundtrip {[ ([Byte.x01], 7) := [Byte.x02] ]} [])).
  - apply (skipped_keys_roundtrip ∅). vm_compute. reflexivity.
Defined.
