(* ===== verification/RatchetNet.v ===== *)
(** * Two parties over an unreliable network

    A step relation over the two sessions of a conversation: sending, delivery
    of any message that was sent and not yet delivered, in any order, and the
    rejection of arbitrary input.  Its invariant is the ghost description of
    [RatchetSync]; the theorem is that every sent message can still be read. *)
From stdpp Require Import base numbers list strings gmap.
From Stdlib Require Import Strings.Byte.
From S2P Require Import Prelude Primitives Kdf Aead Keys Ratchet RatchetSync.
Local Open Scope Z_scope.
Local Open Scope cmp_scope.

(** ** Parties and states *)

Inductive side := SideAlice | SideBob.
#[export] Instance side_eq_dec : EqDecision side.
Proof. solve_decision. Defined.

Definition other (sd : side) : side :=
  match sd with SideAlice => SideBob | SideBob => SideAlice end.

(** A message that was sent: its sender, the wire form, the envelope context
    it was sealed for and its plaintext. *)
Record Sent := mkSent {
  s_from : side; s_msg : RatchetMessage; s_aad : bytes; s_plain : bytes;
}.

Record sys := mkSys {
  alice : SessionState;
  bob : SessionState;
  log : list Sent;
  delivered : gset (bytes * Z);
  used : list bytes;
}.

Definition sess (s : sys) (sd : side) : SessionState :=
  match sd with SideAlice => alice s | SideBob => bob s end.
Definition set_sess (sd : side) (st : SessionState) (s : sys) : sys :=
  match sd with
  | SideAlice => mkSys st (bob s) (log s) (delivered s) (used s)
  | SideBob => mkSys (alice s) st (log s) (delivered s) (used s)
  end.
Definition msg_id (m : RatchetMessage) : bytes * Z :=
  (ratchet_key (header m), message_number (header m)).

Lemma sess_set sd sd' st s :
  sess (set_sess sd st s) sd' = if decide (sd' = sd) then st else sess s sd'.
Proof. by destruct sd, sd'. Qed.
Lemma log_set sd st s : log (set_sess sd st s) = log s.
Proof. by destruct sd. Qed.
Lemma delivered_set sd st s : delivered (set_sess sd st s) = delivered s.
Proof. by destruct sd. Qed.
Lemma used_set sd st s : used (set_sess sd st s) = used s.
Proof. by destruct sd. Qed.
#[export] Hint Rewrite sess_set log_set delivered_set used_set : cmp.

Section Network.
Context `{CryptoPrims}.

Definition sys_sent (sd : side) (m : RatchetMessage) (aad pt : bytes) (st : SessionState)
    (s : sys) : sys :=
  set_sess sd st (mkSys (alice s) (bob s) (mkSent sd m aad pt :: log s) (delivered s) (used s)).
Definition sys_received (sd : side) (m : RatchetMessage) (fresh : bytes) (st : SessionState)
    (s : sys) : sys :=
  set_sess sd st (mkSys (alice s) (bob s) (log s) ({[msg_id m]} ∪ delivered s)
    (x25519_public fresh :: used s)).

(** One step of a conversation.  The network may delay, reorder and drop
    messages and hand a party arbitrary input; input a party accepts is a
    message its peer sent that it has not accepted before.  A fresh ratchet
    key is one no party used before. *)
Inductive step (s : sys) : sys -> Prop :=
| step_send sd pt aad m st :
    Ratchet.encrypt pt aad (sess s sd) = (Ok m, st) ->
    step s (sys_sent sd m aad pt st s)
| step_receive sd fresh e p st :
    e ∈ log s -> s_from e = other sd -> msg_id (s_msg e) ∉ delivered s ->
    x25519_public fresh ∉ used s ->
    Ratchet.decrypt fresh (header (s_msg e)) (ciphertext (s_msg e)) (s_aad e) (sess s sd)
      = (Ok p, st) ->
    step s (sys_received sd (s_msg e) fresh st s)
| step_reject sd fresh h ct aad e st :
    Ratchet.decrypt fresh h ct aad (sess s sd) = (Err e, st) ->
    step s (set_sess sd st s).

(** The sessions X3DH sets up: Alice's first ratchet key is [rng], Bob's is
    his signed pre-key [spk]. *)
Inductive reachable (SK spk rng : bytes) : sys -> Prop :=
| reach_init a :
    key32 SK -> initialize_alice SK (x25519_public spk) rng = Ok a ->
    x25519_public rng <> x25519_public spk ->
    reachable SK spk rng
      (mkSys a (initialize_bob SK (RatchetKeyPair_generate spk)) [] ∅
         [x25519_public rng; x25519_public spk])
| reach_step s s' : reachable SK spk rng s -> step s s' -> reachable SK spk rng s'.
End Network.

(** ** The ghost description is stable *)

Section Stability.
Context `{CryptoPrims, !DhLaws, !KdfLaws, !AeadLaws}.
Context (SK : bytes).

Definition bump (sent : nat -> Z) (n k : nat) : Z := if decide (k = n) then sent n + 1 else sent k.

Lemma bump_prev sent n m : m <> Datatypes.S (Datatypes.S n) ->
  sent_prev (bump sent n) m = sent_prev sent m.
Proof. intros Hm. destruct m as [|[|m]]; simpl; try done. unfold bump. case_decide; [lia|done]. Qed.

(** Sending on node [n] does not disturb the party at a neighbouring node. *)
Lemma party_bump_other S sent D n m st :
  party_inv SK S sent D m st -> n = Datatypes.S m \/ m = Datatypes.S n ->
  party_inv SK S (bump sent n) D m st.
Proof.
  intros P Hnm.
  assert (forall j, (j < m)%nat ->
    bound (bump sent n) (recv_count st) m j = bound sent (recv_count st) m j) as Hb.
  { intros j Hj. unfold bound, bump. repeat case_decide; subst; try done; lia. }
  assert (bump sent n m = sent m) as Hm by (unfold bump; case_decide; [lia|done]).
  destruct P. split; try done.
  - by rewrite Hm.
  - by rewrite Hm.
  - rewrite bump_prev by lia. done.
  - destruct m as [|m]; simpl in *; [done|]. destruct m as [|m].
    all: simpl in *; unfold bump; case_decide; subst; lia.
  - intros j i Hj. rewrite pi_skipped by done. apply decide_ext. unfold stored.
    split; intros (Hr & Hp & Hi & HD); rewrite Hb in * by lia; done.
  - intros j i Hj Hp Hi HD. destruct (pi_delivered j i Hj Hp Hi HD) as [? ?].
    by rewrite Hb.
Qed.

(** The sender advances its own chain. *)
Lemma party_bump_self S sent D n st ck :
  party_inv SK S sent D n st -> sending_chain_key st = Some ck -> 0 <= sent n ->
  party_inv SK S (bump sent n) D n (set_sent (Some (ck_next ck)) (sent n + 1) st).
Proof.
  intros P Hck Hs.
  assert (forall j, (j < n)%nat ->
    bound (bump sent n) (recv_count st) n j = bound sent (recv_count st) n j) as Hb.
  { intros j Hj. unfold bound, bump. repeat case_decide; subst; try done; lia. }
  assert (bump sent n n = sent n + 1) as Hn by (unfold bump; by rewrite decide_True).
  destruct P. split; simpl; try done.
  - rewrite Hn. rewrite Hck in pi_sending. destruct n as [|n]; [done|].
    injection pi_sending as ->. rewrite <- ck_iter_S. do 2 f_equal. lia.
  - by rewrite bump_prev by lia.
  - destruct n as [|[|n]]; simpl in *; unfold bump; try case_decide; subst; lia.
  - intros j i Hj. rewrite pi_skipped by done. apply decide_ext. unfold stored.
    split; intros (Hr & Hp & Hi & HD); rewrite Hb in * by lia; done.
  - intros j i Hj Hp Hi HD. destruct (pi_delivered j i Hj Hp Hi HD) as [? ?].
    by rewrite Hb.
Qed.

(** The message the party at node [n] has just sent. *)
Lemma msg_sent S sent D n st pt aad m st' :
  party_inv SK S sent D n st -> 0 <= sent n ->
  Ratchet.encrypt pt aad st = (Ok m, st') ->
  msg_ok SK S (bump sent n) n (sent n) m aad pt
  /\ party_inv SK S (bump sent n) D n st' /\ sent n + 1 <= u32_max.
Proof.
  intros P Hs E. pose proof (encrypt_spec pt aad st) as Hspec. rewrite E in Hspec.
  destruct Hspec as (ck & o & Hck & Ho & -> & Hle & Hh & Hct).
  rewrite kdf_ck_eq in Ho. injection Ho as <-. cbn [ck_chain_key ck_message_key] in *.
  rewrite (pi_send_count _ _ _ _ _ _ P) in *.
  split; [|split; [by apply party_bump_self|lia]].
  pose proof (pi_sending _ _ _ _ _ _ P) as Hch. rewrite Hck in Hch.
  destruct P. destruct n as [|n]; [done|]. injection Hch as Hch. split.
  - lia.
  - unfold bump. rewrite decide_True by done. lia.
  - rewrite Hh, pi_our, pi_prev, bump_prev by lia. done.
  - unfold mk_at. cbn [chain]. rewrite <- Hch. done.
Qed.

Lemma msg_bump S sent n j i m aad pt :
  msg_ok SK S sent j i m aad pt -> (length S <= Datatypes.S (Datatypes.S n))%nat ->
  msg_ok SK S (bump sent n) j i m aad pt.
Proof.
  intros [] Hl. split; try done.
  - unfold bump. case_decide; subst; lia.
  - rewrite bump_prev by lia. done.
Qed.

Lemma wf_bump S sent n :
  wf_sent S sent -> (1 <= n < length S)%nat -> sent n + 1 <= u32_max -> wf_sent S (bump sent n).
Proof.
  intros (Hb & Hz & Hout) Hn Hle. unfold wf_sent, bump. repeat split.
  - case_decide; [pose proof (Hb n); lia|apply Hb].
  - case_decide; [pose proof (Hb n); lia|apply Hb].
  - case_decide; [lia|done].
  - intros j Hj. case_decide; [lia|auto].
Qed.

(** A new node at the end. *)
Lemma party_new_node S sent D n st fresh :
  party_inv SK S sent D n st -> x25519_public fresh ∉ x25519_public <$> S ->
  (forall k i, (k, i) ∈ D -> k ∈ x25519_public <$> S) ->
  party_inv SK (S ++ [fresh]) sent D n st.
Proof.
  intros P Hfr HD. pose proof (pi_len _ _ _ _ _ _ P) as Hn.
  assert (forall j, (j < length (S ++ [fresh]))%nat ->
    (j < length S)%nat \/ j = length S /\ pub (S ++ [fresh]) j = x25519_public fresh) as Hcase.
  { intros j Hj. rewrite length_app in Hj. simpl in Hj.
    destruct (decide (j = length S)) as [->|]; [right|left; lia]. split; [done|].
    unfold pub, sec. rewrite app_nth2, Nat.sub_diag by lia. done. }
  destruct P. split; try done.
  - rewrite length_app. lia.
  - by rewrite root_app.
  - by rewrite sec_app, pub_app.
  - destruct n; [done|]. rewrite pub_app by lia. done.
  - destruct n; [done|]. rewrite chain_app by lia. done.
  - destruct n as [|[|n]]; [done..|]. rewrite chain_app by lia. done.
  - intros j i Hj. destruct (Hcase j Hj) as [Hl|[-> Hp]].
    + rewrite (pub_app S), (chain_app SK S), pi_skipped by done. apply decide_ext.
      unfold stored. by rewrite pub_app.
    + rewrite Hp, pi_foreign by done. rewrite decide_False; [done|]. unfold stored. lia.
  - intros k i Hk. rewrite fmap_app, not_elem_of_app in Hk.
    apply pi_foreign. apply Hk.
  - intros j i Hj Hp Hi Hin. destruct (Hcase j Hj) as [Hl|[-> Hp']].
    + rewrite pub_app in Hin by done. by apply pi_delivered.
    + rewrite Hp' in Hin. by apply HD in Hin.
Qed.

Lemma msg_new_node S sent j i m aad pt fresh :
  msg_ok SK S sent j i m aad pt -> msg_ok SK (S ++ [fresh]) sent j i m aad pt.
Proof.
  intros []. split; try done.
  - rewrite length_app. lia.
  - rewrite pub_app by lia. done.
  - rewrite chain_app by lia. done.
Qed.

(** A message the party itself sent was delivered to its peer. *)
Lemma party_own_delivered S sent D n st j i :
  NoDup (x25519_public <$> S) ->
  party_inv SK S sent D n st -> (j < length S)%nat -> ¬ peer_node n j ->
  party_inv SK S sent ({[(pub S j, i)]} ∪ D) n st.
Proof.
  intros Hnd P Hj Hp.
  assert (forall j' i', (j' < length S)%nat -> peer_node n j' ->
    (pub S j', i') <> (pub S j, i)) as Hne.
  { intros j' i' Hj' Hp' [= E _]. apply pub_inj in E as ->; done. }
  destruct P. split; try done.
  - intros j' i' Hj'. rewrite pi_skipped by done. apply decide_ext. unfold stored.
    rewrite not_elem_of_union, not_elem_of_singleton. split.
    + intros (Hr & Hp' & Hi & HD).
      split; [done|]. split; [done|]. split; [done|]. split; [by apply Hne|done].
    + intros (Hr & Hp' & Hi & _ & HD). done.
  - intros j' i' Hj' Hp' Hi' [E%elem_of_singleton|]%elem_of_union; [|by apply pi_delivered].
    by apply Hne in E.
Qed.
End Stability.

(** ** A decryption that succeeds had room *)

Section Room.
Context `{CryptoPrims, !DhLaws, !KdfLaws, !AeadLaws}.
Context (SK : bytes).

Lemma skip_map_size_eq (n : nat) (tk : bytes) (i : Z) (ck : bytes) (m : SkippedKeysMap) :
  (forall x, i <= x -> m !! (tk, x) = None) ->
  size (skip_map n tk i ck m) = (n + size m)%nat.
Proof.
  revert i ck m. induction n as [|n IH]; intros i ck m Hm; simpl; [done|].
  rewrite IH.
  - rewrite map_size_insert_None by (apply Hm; lia). lia.
  - intros x Hx. rewrite lookup_insert_ne by (intros [= ->]; lia). apply Hm. lia.
Qed.

Lemma skip_ok_room c u s s' :
  skip_message_keys c u s = (Ok tt, s') -> Z.of_nat (size (skipped s)) <= MAX_SKIP ->
  Z.max 0 (u - c) + Z.of_nat (size (skipped s)) <= MAX_SKIP.
Proof.
  rewrite skip_message_keys_eq. intros E Hs. destruct (Z.leb_spec u c); [lia|].
  destruct (Z.ltb_spec MAX_SKIP (u - c + Z.of_nat (size (skipped s)))); [done|lia].
Qed.

Lemma decrypt_current_room S sent D n st fresh h ct aad p st' :
  party_inv SK S sent D n st -> Z.of_nat (size (skipped st)) <= MAX_SKIP ->
  skipped st !! (ratchet_key h, message_number h) = None ->
  their_ratchet_key st = Some (ratchet_key h) ->
  Ratchet.decrypt fresh h ct aad st = (Ok p, st') -> room st h.
Proof.
  intros P Hs Hk Ht E. unfold Ratchet.decrypt in E. rewrite Hk, try_decrypt_inner_eq in E.
  rewrite Ht, bool_decide_eq_true_2 in E by done.
  destruct (skip_message_keys _ _ st) as [[[]|] s2] eqn:Hsk; [|done].
  unfold room, demand. rewrite decide_True by done. by eapply skip_ok_room.
Qed.

Lemma decrypt_new_room S sent D n st fresh h ct aad p st' :
  NoDup (x25519_public <$> S) ->
  party_inv SK S sent D n st -> Z.of_nat (size (skipped st)) <= MAX_SKIP ->
  skipped st !! (ratchet_key h, message_number h) = None ->
  their_ratchet_key st <> Some (ratchet_key h) ->
  Ratchet.decrypt fresh h ct aad st = (Ok p, st') -> room st h.
Proof.
  intros Hnd P Hs Hk Ht E. unfold Ratchet.decrypt in E. rewrite Hk, try_decrypt_inner_eq in E.
  rewrite bool_decide_eq_false_2, dh_step_eq in E by done.
  destruct (match receiving_chain_key st with Some _ => _ | None => _ end)
    as [[[]|] s1] eqn:E1; [|done].
  destruct (skip_message_keys _ _ (dh_state _ _ _)) as [[[]|] s2] eqn:E2; [|done].
  unfold room, demand. rewrite decide_False by done.
  destruct (receiving_chain_key st) as [ck|] eqn:Hr.
  2:{ injection E1 as <-. apply skip_ok_room in E2; simpl in *; lia. }
  pose proof (skip_ok_room _ _ _ _ E1 Hs) as R1.
  assert (Z.of_nat (size (skipped s1))
          = Z.max 0 (previous_chain_length h - recv_count st) + Z.of_nat (size (skipped st))) as Hz.
  { rewrite skip_message_keys_eq in E1. destruct (Z.leb_spec (previous_chain_length h) (recv_count st)).
    { injection E1 as <-. lia. }
    destruct (Z.ltb_spec MAX_SKIP (previous_chain_length h - recv_count st + Z.of_nat (size (skipped st)))); [done|].
    destruct P. rewrite pi_their, Hr in E1. rewrite Hr in pi_receiving.
    destruct n as [|[|n]]; [done..|]. injection E1 as <-. cbn [skipped set_receiving set_skipped].
    rewrite skip_map_size_eq; [lia|]. intros x Hx. rewrite pi_skipped by lia.
    rewrite decide_False; [done|]. unfold stored, bound. rewrite decide_True by done. lia. }
  apply skip_ok_room in E2; simpl in *; lia.
Qed.
End Room.

(** ** The system invariant *)

Definition side_of (n : nat) : side := if Nat.odd n then SideAlice else SideBob.

(** The node of a party when the newest but one node is [n]. *)
Definition node (n : nat) (sd : side) : nat :=
  if decide (side_of n = sd) then n else Datatypes.S n.

Lemma side_of_S n : side_of (Datatypes.S n) = other (side_of n).
Proof. unfold side_of. rewrite Nat.odd_succ, <- Nat.negb_odd. by destruct (Nat.odd n). Qed.
Lemma other_ne sd : other sd <> sd.
Proof. by destruct sd. Qed.
Lemma other_cases sd sd' : sd' = sd \/ sd' = other sd.
Proof. destruct sd, sd'; auto. Qed.

Lemma node_side n sd : side_of (node n sd) = sd.
Proof.
  unfold node. case_decide as E; [done|]. rewrite side_of_S.
  by destruct (side_of n), sd.
Qed.
Lemma node_S n sd : node n sd = n -> node (Datatypes.S n) sd = Datatypes.S (Datatypes.S n).
Proof.
  unfold node. rewrite side_of_S. repeat case_decide; try lia. intros _. subst.
  by destruct (other_ne (side_of n)).
Qed.
Lemma node_S_other n sd : node n sd = n ->
  node n (other sd) = Datatypes.S n /\ node (Datatypes.S n) (other sd) = Datatypes.S n.
Proof.
  unfold node. rewrite side_of_S. case_decide as E; [|lia]. rewrite E. intros _.
  rewrite decide_False by (by destruct sd). by rewrite decide_True.
Qed.
Lemma node_range n sd : node n sd = n \/ node n sd = Datatypes.S n.
Proof. unfold node. case_decide; auto. Qed.
Lemma node_neighbour n sd :
  node n sd = Datatypes.S (node n (other sd)) \/ node n (other sd) = Datatypes.S (node n sd).
Proof. unfold node. destruct (side_of n), sd; simpl; auto. Qed.

Lemma peer_side n j : peer_node n j <-> side_of j = other (side_of n).
Proof.
  unfold peer_node, side_of. rewrite Nat.odd_add.
  destruct (Nat.odd n), (Nat.odd j); simpl; naive_solver.
Qed.

Section System.
Context `{CryptoPrims, !DhLaws, !KdfLaws, !AeadLaws}.
Context (SK : bytes).

Record sys_inv (S : list bytes) (sent : nat -> Z) (n : nat) (s : sys) : Prop := {
  si_len : length S = Datatypes.S (Datatypes.S n);
  si_nodup : NoDup (x25519_public <$> S);
  si_sent : wf_sent S sent;
  si_party sd : party_inv SK S sent (delivered s) (node n sd) (sess s sd);
  si_wf sd : session_wf (sess s sd);
  si_log e : e ∈ log s -> exists j i,
    msg_ok SK S sent j i (s_msg e) (s_aad e) (s_plain e) /\ side_of j = s_from e;
  si_delivered k i : (k, i) ∈ delivered s -> k ∈ x25519_public <$> S;
  si_used k : k ∈ x25519_public <$> S -> k ∈ used s;
}.

Lemma init_inv spk rng a :
  key32 SK -> initialize_alice SK (x25519_public spk) rng = Ok a ->
  x25519_public rng <> x25519_public spk ->
  sys_inv [spk; rng] (fun _ => 0) 0
    (mkSys a (initialize_bob SK (RatchetKeyPair_generate spk)) [] ∅
       [x25519_public rng; x25519_public spk]).
Proof.
  intros HSK Ha Hne.
  assert (session_wf a) as Wa.
  { destruct (initialize_alice_ok SK (x25519_public spk) rng) as (a' & E & W).
    rewrite E in Ha. by injection Ha as <-. }
  assert (forall j i, (j < 2)%nat -> ¬ stored [spk; rng] (fun _ => 0) ∅ 0 1 j i) as Hs1.
  { unfold stored. lia. }
  split; simpl; try done.
  - apply NoDup_cons. split; [set_solver|]. apply NoDup_cons. split; [set_solver|].
    by apply NoDup_nil.
  - intros [|]; simpl.
    + unfold initialize_alice in Ha. simpl in Ha. unfold diffie_hellman in Ha.
      rewrite kdf_rk_eq in Ha. injection Ha as <-. change (node 0 SideAlice) with 1%nat.
      split; simpl; try done; try lia.
      intros j i Hj. by rewrite decide_False by auto.
    + change (node 0 SideBob) with 0%nat. split; simpl; try done; try lia.
      intros j i Hj. rewrite decide_False; [done|]. unfold stored. lia.
  - intros [|]; simpl; [done|]. by apply initialize_bob_wf.
  - intros e He. set_solver.
  - set_solver.
Qed.

Lemma send_inv S sent n s sd pt aad m st :
  sys_inv S sent n s -> Ratchet.encrypt pt aad (sess s sd) = (Ok m, st) ->
  sys_inv S (bump sent (node n sd)) n (sys_sent sd m aad pt st s).
Proof.
  intros I E. pose proof (si_sent _ _ _ _ I) as (Hb & _). 
  destruct (msg_sent SK S sent (delivered s) (node n sd) (sess s sd) pt aad m st)
    as (M & P & Hle); [apply I|apply Hb|done|].
  pose proof (si_wf _ _ _ _ I sd) as Wst.
  pose proof (session_wf_preserved (sess s sd) pt aad [] (mkHeader [] 0 0) [] Wst) as [W _].
  { split; unfold u32, u32_max; simpl; lia. }
  rewrite E in W. simpl in W.
  pose proof (mo_node _ _ _ _ _ _ _ _ M) as Hn1. pose proof (node_range n sd) as Hnr.
  unfold sys_sent. split; rewrite ?log_set, ?delivered_set, ?used_set; simpl; try apply I.
  - apply wf_bump; [apply I|lia|lia].
  - intros sd'. rewrite sess_set. case_decide as Hd; [by subst|].
    assert (sd' = other sd) as -> by (by destruct (other_cases sd sd')).
    replace (sess _ (other sd)) with (sess s (other sd)) by (by destruct sd).
    apply party_bump_other; [apply I|]. destruct (node_neighbour n sd); lia.
  - intros sd'. rewrite sess_set. case_decide; [done|].
    replace (sess _ sd') with (sess s sd') by (by destruct sd'). apply I.
  - intros e [->|He]%elem_of_cons; simpl.
    + exists (node n sd), (sent (node n sd)). split; [done|apply node_side].
    + destruct (si_log _ _ _ _ I e He) as (j & i & Mj & Hj). exists j, i.
      split; [|done]. apply msg_bump; [done|]. rewrite (si_len _ _ _ _ I). lia.
Qed.

(** What a sent, undelivered message is to its receiver: a stored key, a
    message at or ahead of the current chain, or the start of a new chain. *)
Lemma classify S sent n s sd j i k :
  sys_inv S sent n s -> (1 <= j < length S)%nat -> 0 <= i < sent j -> side_of j = other sd ->
  (pub S j, i) ∉ delivered s -> k = node n sd ->
  stored S sent (delivered s) (recv_count (sess s sd)) k j i
  \/ (exists k', k = Datatypes.S (Datatypes.S k') /\ j = Datatypes.S k'
       /\ recv_count (sess s sd) <= i)
  \/ (j = Datatypes.S k /\ k = n).
Proof.
  intros I Hj Hi Hsd HD ->. pose proof (si_len _ _ _ _ I) as Hl.
  assert (peer_node (node n sd) j) as Hp by (apply peer_side; by rewrite node_side).
  pose proof (peer_node_irrefl _ _ Hp) as Hne. pose proof (node_range n sd) as Hr.
  destruct (decide (j < node n sd)%nat) as [Hlt|]; [|right; right; lia].
  destruct (decide (Datatypes.S j = node n sd)) as [E|Hnj].
  - destruct (decide (recv_count (sess s sd) <= i)).
    + right. left. destruct j as [|j']; [lia|]. exists j'. lia.
    + left. unfold stored, bound. rewrite decide_True by done. split; [lia|]. split; [done|].
      split; [lia|done].
  - left. unfold stored, bound. rewrite decide_False by done. split; [lia|]. done.
Qed.

(** Receiving on an existing node. *)
Lemma receive_same_inv S sent n s sd m fresh st j i aad pt :
  sys_inv S sent n s -> msg_ok SK S sent j i m aad pt -> side_of j = other sd ->
  session_wf st ->
  party_inv SK S sent ({[(pub S j, i)]} ∪ delivered s) (node n sd) st ->
  sys_inv S sent n (sys_received sd m fresh st s).
Proof.
  intros I M Hsd W P. destruct M as [Hn Hi Hh Hct].
  assert (msg_id m = (pub S j, i)) as Hid by (unfold msg_id; by rewrite Hh).
  unfold sys_received. rewrite Hid.
  split; rewrite ?log_set, ?delivered_set, ?used_set; simpl; try apply I.
  - intros sd'. rewrite sess_set. case_decide as Hd; [by subst|].
    assert (sd' = other sd) as -> by (by destruct (other_cases sd sd')).
    replace (sess _ (other sd)) with (sess s (other sd)) by (by destruct sd).
    apply party_own_delivered; [apply I|apply I|lia|].
    rewrite peer_side, node_side, Hsd. by destruct sd.
  - intros sd'. rewrite sess_set. case_decide; [done|].
    replace (sess _ sd') with (sess s sd') by (by destruct sd'). apply I.
  - intros k x [[= -> ->]%elem_of_singleton|Hin]%elem_of_union; [apply pub_elem; lia|].
    by eapply si_delivered.
  - intros k Hk. apply elem_of_cons. right. by apply I.
Qed.

(** Receiving on a new node. *)
Lemma receive_new_inv S sent n s sd m fresh st i aad pt :
  sys_inv S sent n s -> msg_ok SK S sent (Datatypes.S n) i m aad pt -> node n sd = n ->
  session_wf st -> x25519_public fresh ∉ x25519_public <$> S ->
  party_inv SK (S ++ [fresh]) sent ({[(pub S (Datatypes.S n), i)]} ∪ delivered s)
    (Datatypes.S (Datatypes.S n)) st ->
  sys_inv (S ++ [fresh]) sent (Datatypes.S n) (sys_received sd m fresh st s).
Proof.
  intros I M Hnode W Hfr P. pose proof (si_len _ _ _ _ I) as Hl.
  destruct (node_S_other n sd Hnode) as [Ho Ho'].
  assert (msg_id m = (pub S (Datatypes.S n), i)) as Hid.
  { unfold msg_id. by rewrite (mo_header _ _ _ _ _ _ _ _ M). }
  assert (HD : forall k x, (k, x) ∈ {[(pub S (Datatypes.S n), i)]} ∪ delivered s ->
    k ∈ x25519_public <$> S).
  { intros k x [[= -> ->]%elem_of_singleton|Hin]%elem_of_union; [apply pub_elem; lia|].
    by eapply si_delivered. }
  unfold sys_received. rewrite Hid.
  split; rewrite ?log_set, ?delivered_set, ?used_set; simpl.
  - rewrite length_app. simpl. lia.
  - rewrite fmap_app. apply NoDup_app. split; [apply I|]. split; [set_solver|apply NoDup_singleton].
  - destruct (si_sent _ _ _ _ I) as (? & ? & Hout). split; [done|]. split; [done|].
    intros j Hj. rewrite length_app in Hj. apply Hout. lia.
  - intros sd'. rewrite sess_set. case_decide as Hd; [subst; by rewrite node_S|].
    assert (sd' = other sd) as -> by (by destruct (other_cases sd sd')).
    replace (sess _ (other sd)) with (sess s (other sd)) by (by destruct sd).
    pose proof (si_party _ _ _ _ I (other sd)) as Po. rewrite Ho in Po.
    rewrite Ho'. apply party_new_node; [|done|done].
    apply party_own_delivered; [apply I|done|lia|].
    intros Hp. by apply peer_node_irrefl in Hp.
  - intros sd'. rewrite sess_set. case_decide; [done|].
    replace (sess _ sd') with (sess s sd') by (by destruct sd'). apply I.
  - intros e He. destruct (si_log _ _ _ _ I e He) as (j & x & Mj & Hj). exists j, x.
    split; [by apply msg_new_node|done].
  - intros k x Hin. rewrite fmap_app. apply elem_of_app. left. by eapply HD.
  - intros k Hk. rewrite fmap_app in Hk. apply elem_of_app in Hk as [Hk|Hk].
    + apply elem_of_cons. right. by apply I.
    + simpl in Hk. apply list_elem_of_singleton in Hk as ->. by left.
Qed.

(** Delivery: with room, or when the decryption did succeed, the receiver
    reads the plaintext that was sent, and the invariant is kept. *)
Lemma receive S sent n s sd e fresh :
  sys_inv S sent n s -> e ∈ log s -> s_from e = other sd ->
  msg_id (s_msg e) ∉ delivered s -> x25519_public fresh ∉ used s ->
  let h := header (s_msg e) in
  let run := Ratchet.decrypt fresh h (ciphertext (s_msg e)) (s_aad e) (sess s sd) in
  room (sess s sd) h \/ (exists p st, run = (Ok p, st)) ->
  exists st S' n', run = (Ok (s_plain e), st)
    /\ sys_inv S' sent n' (sys_received sd (s_msg e) fresh st s).
Proof.
  intros I He Hfrom HD Hfr h run Hroom.
  destruct (si_log _ _ _ _ I e He) as (j & i & M & Hj). rewrite Hfrom in Hj.
  pose proof (si_party _ _ _ _ I sd) as P. pose proof (si_wf _ _ _ _ I sd) as W.
  assert (x25519_public fresh ∉ x25519_public <$> S) as HfrS by (intros Hin; by apply Hfr, I).
  pose proof (mo_header _ _ _ _ _ _ _ _ M) as Hh. pose proof (mo_index _ _ _ _ _ _ _ _ M) as Hi.
  pose proof (mo_node _ _ _ _ _ _ _ _ M) as Hjn. destruct (si_sent _ _ _ _ I) as (Hb & Hz & Hout).
  assert (msg_id (s_msg e) = (pub S j, i)) as Hid by (unfold msg_id; by rewrite Hh).
  rewrite Hid in HD.
  assert (Hwf : forall st, run = (Ok (s_plain e), st) -> session_wf st).
  { intros st E. pose proof (session_wf_preserved (sess s sd) [] (s_aad e) fresh h
      (ciphertext (s_msg e)) W) as [_ W']; [|fold run in W'; by rewrite E in W'].
    unfold h. rewrite Hh. split; simpl; unfold u32.
    - destruct j as [|[|j]]; simpl; [unfold u32_max; lia..|apply Hb].
    - pose proof (Hb j). lia. }
  destruct (classify S sent n s sd j i (node n sd) I Hjn Hi Hj HD eq_refl)
    as [Hst|[(k & Hk & -> & Hle)|[-> Hk]]].
  - destruct (deliver_stored SK S sent (delivered s) (si_nodup _ _ _ _ I)
      (si_sent _ _ _ _ I) (node n sd) j i (s_msg e) (s_aad e) (s_plain e) (sess s sd) fresh P M Hst) as (st & E & P').
    exists st, S, n. split; [done|]. eapply receive_same_inv; eauto.
  - assert (room (sess s sd) h) as R.
    { destruct Hroom as [|(p & st & E)]; [done|]. eapply decrypt_current_room; [exact P| | | |exact E].
      - apply W.
      - unfold h. rewrite Hh. simpl. rewrite (pi_skipped _ _ _ _ _ _ P) by lia.
        rewrite decide_False; [done|]. unfold stored, bound. rewrite decide_True by lia. lia.
      - unfold h. rewrite Hh. rewrite (pi_their _ _ _ _ _ _ P), Hk. done. }
    rewrite Hk in P.
    destruct (deliver_current SK S sent (delivered s) (si_nodup _ _ _ _ I) (si_sent _ _ _ _ I)
      k i (s_msg e) (s_aad e) (s_plain e) (sess s sd) fresh P M Hle R) as (st & E & P').
    exists st, S, n. split; [done|]. rewrite <- Hk in P'. eapply receive_same_inv; eauto.
  - rewrite Hk in *. pose proof (si_len _ _ _ _ I) as Hl.
    assert (room (sess s sd) h) as R.
    { destruct Hroom as [|(p & st & E)]; [done|].
      eapply decrypt_new_room; [apply I|exact P| | | |exact E].
      - apply W.
      - unfold h. rewrite Hh. simpl. rewrite (pi_skipped _ _ _ _ _ _ P) by lia.
        rewrite decide_False; [done|]. unfold stored. lia.
      - unfold h. rewrite Hh, (pi_their _ _ _ _ _ _ P). destruct n as [|n']; [done|]. simpl.
        intros [= Eq]. apply pub_inj in Eq; [lia|apply I|lia|lia]. }
    destruct (deliver_new SK S sent (delivered s) (si_nodup _ _ _ _ I) (si_sent _ _ _ _ I)
      n i (s_msg e) (s_aad e) (s_plain e) (sess s sd) fresh Hl P M R HfrS) as (st & E & P').
    exists st, (S ++ [fresh]), (Datatypes.S n). split; [done|]. eapply receive_new_inv; eauto.
Qed.
End System.

(** ** Delivery *)

Section Delivers.
Context `{CryptoPrims, !DhLaws, !KdfLaws, !AeadLaws}.

Lemma reachable_inv SK spk rng s :
  reachable SK spk rng s -> exists S sent n, sys_inv SK S sent n s.
Proof.
  induction 1 as [a HSK Ha Hne|s s' Hr (S & sent & n & I) Hs].
  - eexists _, _, _. by eapply init_inv.
  - destruct Hs as [sd pt aad m st E|sd fresh e p st He Hfrom HD Hfr E|sd fresh h ct aad e st E].
    + eexists _, _, _. by eapply send_inv.
    + destruct (receive SK S sent n s sd e fresh I He Hfrom HD Hfr) as (st' & S' & n' & E' & I').
      { right. eauto. }
      rewrite E in E'. injection E' as -> ->. eauto.
    + apply decrypt_error_keeps_session in E as ->. exists S, sent, n.
      replace (set_sess sd (sess s sd) s) with s; [done|]. by destruct sd, s.
Qed.

(** C1: Every message that was sent can be read.  After any sequence of sends,
    out-of-order deliveries, losses and rejected forgeries, a message that
    is still undelivered decrypts to exactly the plaintext that was sent,
    provided the skipped-key store has room for the keys it would skip; and
    whatever an accepted message decrypts to is the plaintext that was sent. *)
Theorem ratchet_delivers SK spk rng s sd e fresh :
  reachable SK spk rng s -> e ∈ log s -> s_from e = other sd ->
  msg_id (s_msg e) ∉ delivered s -> x25519_public fresh ∉ used s ->
  let h := header (s_msg e) in
  let run := Ratchet.decrypt fresh h (ciphertext (s_msg e)) (s_aad e) (sess s sd) in
  (room (sess s sd) h -> exists st, run = (Ok (s_plain e), st))
  /\ (forall p st, run = (Ok p, st) -> p = s_plain e).
Proof.
  intros Hr He Hf HD Hfr h run. destruct (reachable_inv _ _ _ _ Hr) as (S & sent & n & I).
  pose proof (receive SK S sent n s sd e fresh I He Hf HD Hfr) as R. cbv zeta in R. fold h run in R.
  split.
  - intros Hroom. destruct R as (st & _ & _ & E & _); [by left|]. eauto.
  - intros p st E. destruct R as (st' & _ & _ & E' & _); [eauto|]. congruence.
Qed.
End Delivers.

(** ** Context binding *)

Section Binding.
Context `{CryptoPrims, !KdfLaws, !AeadAuth}.

Lemma authenticated_data_inj aad h aad' h' :
  length (ratchet_key h) = 32%nat -> length (ratchet_key h') = 32%nat ->
  header_u32 h -> header_u32 h' ->
  authenticated_data aad h = authenticated_data aad' h' -> aad = aad' /\ h = h'.
Proof.
  intros Hk Hk' [Hp Hn] [Hp' Hn'] E. unfold authenticated_data, to_aad in E.
  apply app_inj_2 in E as [-> E].
  2:{ rewrite !length_app, !length_be_bytes. lia. }
  apply app_inj_len in E as [Er E]; [|lia].
  apply app_inj_len in E as [Ep En]; [|by rewrite !length_be_bytes].
  apply be_bytes_u32_inj in Ep; [|done..]. apply be_bytes_u32_inj in En; [|done..].
  destruct h, h'. simpl in *. by subst.
Qed.

(** The key with which a session reads the message [n] under the ratchet key
    [rk]: a stored one, the one at [n] on the current chain, or the one at [n]
    on the chain that a Diffie-Hellman step on [rk] begins. *)
Definition message_key (s : SessionState) (rk : bytes) (n : Z) : bytes :=
  match skipped s !! (rk, n) with
  | Some k => k
  | None =>
      if bool_decide (their_ratchet_key s = Some rk)
      then mk_at (default [] (receiving_chain_key s)) (Z.to_nat (n - recv_count s))
      else mk_at (rk_chain (root_key s) (x25519_dh (secret_bytes (our_ratchet s)) rk)) (Z.to_nat n)
  end.

Lemma skip_chain c u s s' tk ck ck' :
  skip_message_keys c u s = (Ok tt, s') -> their_ratchet_key s = Some tk ->
  receiving_chain_key s = Some ck -> receiving_chain_key s' = Some ck' ->
  ck' = ck_iter (Z.to_nat (u - c)) ck.
Proof.
  rewrite skip_message_keys_eq. intros E Et Ec. destruct (Z.leb_spec u c).
  - injection E as <-. rewrite Ec. intros [= <-]. by replace (Z.to_nat (u - c)) with 0%nat by lia.
  - destruct (MAX_SKIP <? _); [done|]. rewrite Et, Ec in E. injection E as <-. by intros [= <-].
Qed.

(** Skipping leaves what a Diffie-Hellman step starts from. *)
Lemma skip_root c u s r s' :
  skip_message_keys c u s = (r, s') -> root_key s' = root_key s /\ our_ratchet s' = our_ratchet s.
Proof. rewrite skip_message_keys_eq. intros E. repeat case_match; by simplify_eq. Qed.

Lemma accepted_key fresh h ct aad s p s1 :
  Ratchet.decrypt fresh h ct aad s = (Ok p, s1) ->
  Aead.decrypt (message_key s (ratchet_key h) (message_number h)) ct (authenticated_data aad h) = Ok p.
Proof.
  unfold Ratchet.decrypt, message_key. destruct (skipped s !! _) as [k|].
  { destruct (Aead.decrypt k ct _); simpl; [naive_solver|done]. }
  rewrite try_decrypt_inner_eq. case_bool_decide as Hb; [|rewrite dh_step_eq;
    destruct (match receiving_chain_key s with Some _ => _ | None => _ end) as [[[]|] s0] eqn:E0; [|done]].
  all: match goal with |- context [skip_message_keys (recv_count ?x) _ ?x] => set (sx := x) end;
    destruct (skip_message_keys _ _ sx) as [[[]|] s2] eqn:E2; [|done];
    destruct (receiving_chain_key s2) as [ck'|] eqn:Hck; [|done];
    destruct (Aead.decrypt (ck_mk ck') ct _) as [p'|] eqn:Ed; [|done];
    destruct (checked_add _ _ _); [|done]; simpl; intros [= <- <-]; rewrite <- Ed; do 2 f_equal; unfold mk_at; f_equal.
  - destruct (receiving_chain_key s) as [ck|] eqn:Hc.
    + subst sx. rewrite Hc. symmetry. exact (skip_chain _ _ s s2 _ ck ck' E2 Hb Hc Hck).
    + subst sx. rewrite skip_message_keys_eq, Hb, Hc in E2. repeat case_match; simplify_eq; congruence.
  - assert (root_key s0 = root_key s /\ our_ratchet s0 = our_ratchet s) as [Er Eo]
      by (destruct (receiving_chain_key s); [by eapply skip_root|naive_solver]).
    symmetry. erewrite (skip_chain _ _ sx s2 _ _ ck' E2); [|done|done|done]. subst sx. cbn.
    by rewrite Er, Eo, Z.sub_0_r.
Qed.

(** C30: A ciphertext is bound to its context.  Whatever state the receiver is in,
    take a ciphertext it would accept, on the current chain, on a new chain (the
    first message of a session included) or with a stored key.  Under another
    envelope context (protocol version, header type, pre-key handshake) or
    another header it is refused, and the session left alone, whenever the
    session reads that header with the same message key; it does so for every
    header with the same ratchet key and message number, so the chain length
    cannot be changed either. *)
Theorem ciphertext_binds_context s fresh fresh' h h' ct aad aad' p s1 :
  message_key s (ratchet_key h') (message_number h') = message_key s (ratchet_key h) (message_number h) ->
  length (ratchet_key h) = 32%nat -> length (ratchet_key h') = 32%nat -> header_u32 h -> header_u32 h' ->
  Ratchet.decrypt fresh h ct aad s = (Ok p, s1) ->
  (aad', h') <> (aad, h) ->
  exists e, Ratchet.decrypt fresh' h' ct aad' s = (Err e, s).
Proof.
  intros Ek Hl Hl' Hu Hu' D Hne.
  destruct (Ratchet.decrypt fresh' h' ct aad' s) as [[p'|e] s2] eqn:D'.
  - apply accepted_key in D, D'. rewrite Ek in D'. exfalso. apply Hne.
    pose proof (Aead.decrypt_auth _ _ _ _ _ _ D' D) as E.
    by apply authenticated_data_inj in E as [-> ->].
  - exists e. by rewrite (decrypt_error_keeps_session _ _ _ _ _ _ _ D').
Qed.
End Binding.

(** ** A concrete conversation

    Alice sends two messages, Bob receives the second first. *)

Module Demo.
#[local] Existing Instance Toy.prims.
#[local] Existing Instance Toy.dh_laws.
#[local] Existing Instance Toy.kdf_laws.
#[local] Existing Instance Toy.aead_laws.
#[local] Existing Instance Toy.aead_auth.

Definition SK : bytes := repeat x09 32.
Definition spk : bytes := repeat x07 32.
Definition rng : bytes := repeat x05 32.
Definition fresh1 : bytes := repeat x0b 32.
Definition fresh2 : bytes := repeat x0d 32.

Definition session_or (r : result CryptoError SessionState) : SessionState :=
  match r with Ok s => s | Err _ => initialize_bob [] (mkRatchetKeyPair [] []) end.
Definition msg_or (r : result CryptoError RatchetMessage) : RatchetMessage :=
  match r with Ok m => m | Err _ => mkRatchetMessage (mkHeader [] 0 0) [] end.

Definition a0 : SessionState := session_or (initialize_alice SK (x25519_public spk) rng).
Definition s0 : sys :=
  mkSys a0 (initialize_bob SK (RatchetKeyPair_generate spk)) [] ∅
    [x25519_public rng; x25519_public spk].
Definition send1 := Ratchet.encrypt [x61] [x01] a0.
Definition m1 : RatchetMessage := msg_or (fst send1).
Definition s1 : sys := sys_sent SideAlice m1 [x01] [x61] (snd send1) s0.
Definition send2 := Ratchet.encrypt [x62] [x02] (alice s1).
Definition m2 : RatchetMessage := msg_or (fst send2).
Definition s2 : sys := sys_sent SideAlice m2 [x02] [x62] (snd send2) s1.
Definition recv2 := Ratchet.decrypt fresh1 (header m2) (ciphertext m2) [x02] (bob s2).
Definition s3 : sys := sys_received SideBob m2 fresh1 (snd recv2) s2.

Lemma s3_reachable : reachable SK spk rng s3.
Proof.
  eapply reach_step; [eapply reach_step; [eapply reach_step; [apply reach_init with (a := a0)|]|]|].
  - reflexivity.
  - vm_compute. reflexivity.
  - intros E. vm_compute in E. discriminate.
  - apply (step_send s0 SideAlice [x61] [x01] m1 (snd send1)). vm_compute. reflexivity.
  - apply (step_send s1 SideAlice [x62] [x02] m2 (snd send2)). vm_compute. reflexivity.
  - apply (step_receive s2 SideBob fresh1 (mkSent SideAlice m2 [x02] [x62]) [x62] (snd recv2)).
    + left.
    + reflexivity.
    + apply not_elem_of_empty.
    + apply (bool_decide_unpack _). vm_compute. exact I.
    + vm_compute. reflexivity.
Qed.

(** The first message, overtaken by the second, is still readable. *)
Lemma ratchet_delivers_witness :
  exists st, Ratchet.decrypt fresh2 (header m1) (ciphertext m1) [x01] (sess s3 SideBob)
             = (Ok [x61], st).
Proof.
  apply (ratchet_delivers SK spk rng s3 SideBob (mkSent SideAlice m1 [x01] [x61]) fresh2).
  - exact s3_reachable.
  - right. left.
  - reflexivity.
  - apply (bool_decide_unpack _). vm_compute. exact I.
  - apply (bool_decide_unpack _). vm_compute. exact I.
  - vm_compute. discriminate.
Defined.

(** The same ciphertext in another context is refused: with a stored key, and as
    the first message of a session. *)
Lemma ciphertext_binds_context_witness :
  (exists e, Ratchet.decrypt fresh2 (header m1) (ciphertext m1) [x02] (sess s3 SideBob)
            = (Err e, sess s3 SideBob))
  /\ exists e, Ratchet.decrypt fresh2 (header m2) (ciphertext m2) [x01] (bob s2) = (Err e, bob s2).
Proof.
  split.
  - apply (ciphertext_binds_context (sess s3 SideBob) fresh2 fresh2 (header m1) (header m1)
      (ciphertext m1) [x01] [x02] [x61]
      (snd (Ratchet.decrypt fresh2 (header m1) (ciphertext m1) [x01] (sess s3 SideBob)))).
    1-3: reflexivity.
    1-2: split; split; vm_compute; discriminate.
    + vm_compute. reflexivity.
    + discriminate.
  - apply (ciphertext_binds_context (bob s2) fresh1 fresh2 (header m2) (header m2)
      (ciphertext m2) [x02] [x01] [x62] (snd recv2)).
    1-3: reflexivity.
    1-2: split; split; vm_compute; discriminate.
    + vm_compute. reflexivity.
    + discriminate.
Defined.

(** A header too far ahead is refused. *)
Lemma decrypt_skip_limit_witness :
  let h := mkHeader (x25519_public rng) 0 1003 in
  Ratchet.decrypt fresh2 h [] [] (sess s3 SideBob)
  = (Err SkippedKeyLimitExceeded, sess s3 SideBob).
Proof.
  apply decrypt_skip_limit; vm_compute; reflexivity.
Defined.
End Demo.
