(* ===== verification/RatchetHistory.v ===== *)
(** * Histories of one session ([crates/crypto/src/ratchet.rs])

    What one session goes through over its life: encryptions and decryptions
    in any order, the decryptions of whatever headers, ciphertexts and contexts
    the network hands over.  The theorems say that such a history keeps the
    session within its bounds, and that the operations that failed have left
    no trace in it. *)
From stdpp Require Import base numbers list gmap.
From S2P Require Import Prelude Primitives Kdf Keys Ratchet.
From Stdlib Require Import Strings.Byte.
Local Open Scope Z_scope.

Inductive session_op :=
| OpEncrypt (plaintext envelope_aad : bytes)
| OpDecrypt (fresh : bytes) (header : RatchetHeader) (ciphertext envelope_aad : bytes).

(** What an operation returned. *)
Inductive session_result :=
| Encrypted (r : result CryptoError RatchetMessage)
| Decrypted (r : result CryptoError bytes).

Definition succeeded (r : session_result) : bool :=
  match r with
  | Encrypted r => negb (is_err r)
  | Decrypted r => negb (is_err r)
  end.

Section History.
Context `{CryptoPrims}.

Definition session_exec (o : session_op) (s : SessionState) : session_result * SessionState :=
  match o with
  | OpEncrypt pt aad => let '(r, s') := encrypt pt aad s in (Encrypted r, s')
  | OpDecrypt fresh h ct aad => let '(r, s') := decrypt fresh h ct aad s in (Decrypted r, s')
  end.

(** The results of a history, with the operations, and the final session. *)
Fixpoint session_run (ops : list session_op) (s : SessionState)
  : list (session_op * session_result) * SessionState :=
  match ops with
  | [] => ([], s)
  | o :: ops' =>
      let '(r, s1) := session_exec o s in
      let '(rs, s2) := session_run ops' s1 in
      ((o, r) :: rs, s2)
  end.

Lemma failed_exec o s r s' :
  session_exec o s = (r, s') -> succeeded r = false -> s' = s.
Proof.
  destruct o as [pt aad|fresh h ct aad]; simpl.
  - pose proof (encrypt_spec pt aad s) as S.
    destruct (encrypt pt aad s) as [[m|e] s1]; intros [= <- <-]; [done|]. by destruct S.
  - destruct (decrypt fresh h ct aad s) as [[p|e] s1] eqn:E; intros [= <- <-]; [done|].
    intros _. by eapply decrypt_error_keeps_session.
Qed.

(** C4: the operations that failed, forged and replayed messages among them,
    are invisible: a history has the same final session and the same
    successful results as the history of its successful operations alone. *)
Theorem failed_operations_invisible ops s :
  let '(rs, s') := session_run ops s in
  let good := filter (fun x => succeeded x.2 = true) rs in
  session_run good.*1 s = (good, s').
Proof.
  revert s. induction ops as [|o ops IH]; intros s; simpl; [done|].
  destruct (session_exec o s) as [r s1] eqn:E.
  specialize (IH s1). destruct (session_run ops s1) as [rs s2]. cbn zeta in IH |- *.
  rewrite filter_cons. cbn [snd]. destruct (succeeded r) eqn:R.
  - rewrite decide_True by done. rewrite fmap_cons. cbn [session_run fst]. by rewrite E, IH.
  - rewrite decide_False by done. by rewrite <- (failed_exec _ _ _ _ E R).
Qed.
End History.

Section Bounds.
Context `{CryptoPrims, !KdfLaws}.

(** The headers a peer can put on the wire: their counters are [u32]. *)
Definition op_u32 (o : session_op) : Prop :=
  match o with OpEncrypt _ _ => True | OpDecrypt _ h _ _ => header_u32 h end.

Lemma session_run_wf ops s :
  Forall op_u32 ops -> session_wf s -> session_wf (session_run ops s).2.
Proof.
  intros Hops. revert s. induction Hops as [|o ops Ho Hops IH]; intros s W; simpl; [done|].
  assert (session_wf (session_exec o s).2) as W1.
  { destruct o as [pt aad|fresh h ct aad]; simpl.
    - destruct (session_wf_preserved s pt aad [] (mkHeader [] 0 0) [] W) as [W1 _].
      { by split; split; vm_compute. }
      by destruct (encrypt pt aad s).
    - destruct (session_wf_preserved s [] aad fresh h ct W Ho) as [_ W1].
      by destruct (decrypt fresh h ct aad s). }
  destruct (session_exec o s) as [r s1]. specialize (IH s1 W1).
  by destruct (session_run ops s1).
Qed.

(** C29: whatever messages a peer sends to a fresh session of either role,
    the session never stores more than [MAX_SKIP] keys, never holds a key of
    the wrong width and never overflows a counter. *)
Theorem session_bounded ss pub rng kp ops :
  key32 ss -> Forall op_u32 ops ->
  (exists a, initialize_alice ss pub rng = Ok a /\ session_wf (session_run ops a).2)
  /\ session_wf (session_run ops (initialize_bob ss kp)).2.
Proof.
  intros Hs Hops. split.
  - destruct (initialize_alice_ok ss pub rng) as (a & Ha & W). eauto using session_run_wf.
  - apply session_run_wf; [done|]. by apply initialize_bob_wf.
Qed.
End Bounds.

Module HistoryDemo.
#[local] Existing Instance Toy.prims.
#[local] Existing Instance Toy.kdf_laws.

(** A forged header far ahead of the chain, then a reply. *)
Definition hostile : list session_op :=
  [OpDecrypt (repeat x0b 32) (mkHeader (repeat x01 32) u32_max u32_max) [x00] [];
   OpEncrypt [x61] [x01]].

Lemma session_bounded_witness :
  (exists a, initialize_alice (repeat x09 32) (repeat x07 32) (repeat x05 32) = Ok a
     /\ session_wf (session_run hostile a).2)
  /\ session_wf (session_run hostile
       (initialize_bob (repeat x09 32) (RatchetKeyPair_generate (repeat x07 32)))).2.
Proof.
  apply session_bounded; [reflexivity|].
  apply Forall_cons. split; [by split; split; vm_compute|]. by apply Forall_singleton.
Defined.
End HistoryDemo.
