(* ===== verification/Fingerprint.v ===== *)
(** * Safety numbers ([crates/crypto/src/fingerprint.rs])

    The 60-digit fingerprint of two identities: iterated SHA-512 per user, six
    groups of five decimal digits each, the two users in sorted order. *)
From stdpp Require Import base numbers list strings.
From Stdlib Require Import Strings.Byte Strings.Ascii.
From S2P Require Import Prelude Primitives.
Local Open Scope Z_scope.

Definition ITERATIONS : nat := 5200.
Definition VERSION : byte := x00.

(** Lexicographic comparison of byte strings, as Rust compares [&str] and [&[u8]]. *)
Fixpoint bytes_cmp (a b : bytes) : comparison :=
  match a, b with
  | [], [] => Eq
  | [], _ :: _ => Lt
  | _ :: _, [] => Gt
  | x :: a', y :: b' =>
      match Z.compare (Z_of_byte x) (Z_of_byte y) with
      | Eq => bytes_cmp a' b'
      | c => c
      end
  end.

(** [(user_a, key_a) <= (user_b, key_b)] *)
Definition pair_le (ua ka ub kb : bytes) : bool :=
  match bytes_cmp ua ub with
  | Lt => true
  | Gt => false
  | Eq => match bytes_cmp ka kb with Gt => false | _ => true end
  end.

(** The five bytes of a group as a big-endian integer. *)
Definition group_val (hash : bytes) (offset : nat) : Z :=
  let b i := Z_of_byte (nth (offset + i) hash x00) in
  Z.lor (Z.shiftl (b 0%nat) 32) (Z.lor (Z.shiftl (b 1%nat) 24)
    (Z.lor (Z.shiftl (b 2%nat) 16) (Z.lor (Z.shiftl (b 3%nat) 8) (b 4%nat)))).

(** The loop [for d in (0..5).rev()]: [n] digits of [rem], least significant last. *)
Fixpoint group_digits (n : nat) (rem : Z) : list Z :=
  match n with
  | O => []
  | S n' => group_digits n' (rem / 10) ++ [rem mod 10]
  end.

Section Fingerprint.
Context `{CryptoPrims}.

Definition rehash (identity_key user_id hash : bytes) : bytes :=
  sha512 (hash ++ identity_key ++ user_id).

Definition iterated_hash (user_id identity_key : bytes) : list Z :=
  let hash0 := sha512 ([VERSION] ++ identity_key ++ user_id) in
  let hash := Nat.iter (ITERATIONS - 1) (rehash identity_key user_id) hash0 in
  flat_map (fun group => group_digits 5 (group_val hash (group * 5) mod 100000)) (seq 0 6).

Definition compute (user_a key_a user_b key_b : bytes) : list Z :=
  let '(first_id, first_key, second_id, second_key) :=
    if pair_le user_a key_a user_b key_b
    then (user_a, key_a, user_b, key_b)
    else (user_b, key_b, user_a, key_a) in
  iterated_hash first_id first_key ++ iterated_hash second_id second_key.
End Fingerprint.

(** [display_grouped]: the loop over [(i, &d)]. *)
Fixpoint display_from (i : nat) (digits : list Z) : bytes :=
  match digits with
  | [] => []
  | d :: ds =>
      (if (0 <? i)%nat && (i mod 5 =? 0)%nat then [x20] else [])
        ++ byte_of_Z (48 + d) :: display_from (S i) ds
  end.
Definition display_grouped (digits : list Z) : bytes := display_from 0 digits.

(** ** Order *)

Lemma Z_of_byte_inj x y : Z_of_byte x = Z_of_byte y -> x = y.
Proof. intros E. rewrite <- (byte_of_Z_of_byte x), <- (byte_of_Z_of_byte y). by rewrite E. Qed.

Lemma bytes_cmp_eq a b : bytes_cmp a b = Eq -> a = b.
Proof.
  revert b. induction a as [|x a IH]; intros [|y b]; simpl; try done.
  destruct (Z.compare_spec (Z_of_byte x) (Z_of_byte y)); try done.
  intros E. f_equal; [by apply Z_of_byte_inj|by apply IH].
Qed.

Lemma bytes_cmp_flip a b : bytes_cmp b a = CompOpp (bytes_cmp a b).
Proof.
  revert b. induction a as [|x a IH]; intros [|y b]; simpl; try done.
  rewrite (Z.compare_antisym (Z_of_byte x)). destruct (Z_of_byte x ?= Z_of_byte y); simpl; auto.
Qed.

Lemma pair_le_flip ua ka ub kb :
  pair_le ua ka ub kb = negb (pair_le ub kb ua ka) \/ (ua = ub /\ ka = kb).
Proof.
  unfold pair_le. rewrite (bytes_cmp_flip ua ub).
  destruct (bytes_cmp ua ub) eqn:E; simpl; auto.
  rewrite (bytes_cmp_flip ka kb). destruct (bytes_cmp ka kb) eqn:E'; simpl; auto.
  right. by split; apply bytes_cmp_eq.
Qed.

Section Facts.
Context `{CryptoPrims}.

(** Both parties compute the same safety number: the order in which the two
    identities are given does not matter. *)
Lemma fingerprint_symmetric ua ka ub kb : compute ua ka ub kb = compute ub kb ua ka.
Proof.
  unfold compute. destruct (pair_le_flip ua ka ub kb) as [E|[-> ->]]; [|done].
  rewrite E. by destruct (pair_le ub kb ua ka).
Qed.

Lemma group_digits_ok n rem :
  length (group_digits n rem) = n /\ Forall (fun d => 0 <= d <= 9) (group_digits n rem).
Proof.
  revert rem. induction n as [|n IH]; intros rem; simpl; [by split|].
  destruct (IH (rem / 10)) as [Hl Hf]. rewrite length_app, Hl. split; [simpl; lia|].
  apply Forall_app. split; [done|]. constructor; [|done].
  pose proof (Z.mod_pos_bound rem 10 ltac:(lia)). lia.
Qed.

Lemma iterated_hash_digits u k :
  length (iterated_hash u k) = 30%nat /\ Forall (fun d => 0 <= d <= 9) (iterated_hash u k).
Proof.
  unfold iterated_hash. cbn [seq flat_map]. set (h := Nat.iter _ _ _). clearbody h.
  rewrite !length_app, !Forall_app.
  repeat match goal with |- context [group_digits 5 ?x] =>
    let Hl := fresh "Hl" in let Hf := fresh "Hf" in
    destruct (group_digits_ok 5 x) as [Hl Hf]; revert Hl Hf;
    generalize (group_digits 5 x); intros ? Hl Hf; rewrite Hl end.
  split; [done|]. repeat split; done.
Qed.

(** A safety number has 60 digits, each between 0 and 9. *)
Lemma fingerprint_digits ua ka ub kb :
  length (compute ua ka ub kb) = 60%nat /\ Forall (fun d => 0 <= d <= 9) (compute ua ka ub kb).
Proof.
  unfold compute. destruct (pair_le ua ka ub kb);
    rewrite length_app, Forall_app;
    destruct (iterated_hash_digits ua ka) as [-> ?], (iterated_hash_digits ub kb) as [-> ?];
    done.
Qed.
End Facts.

(** The numeric value of a group is the digits read in base ten: no
    information of the reduced value is lost. *)
Lemma group_digits_value n rem :
  0 <= rem < 10 ^ Z.of_nat n ->
  fold_left (fun acc d => acc * 10 + d) (group_digits n rem) 0 = rem.
Proof.
  revert rem. induction n as [|n IH]; intros rem Hr; simpl.
  - simpl in Hr. lia.
  - rewrite fold_left_app. simpl. rewrite Nat2Z.inj_succ, Z.pow_succ_r in Hr by lia.
    rewrite IH; [pose proof (Z.div_mod rem 10); lia|].
    split; [apply Z.div_pos; lia|apply Z.div_lt_upper_bound; lia].
Qed.

(** ** Display *)

Lemma display_filter i ds :
  Forall (fun d => 0 <= d <= 9) ds ->
  filter (fun b => b <> x20) (display_from i ds) = (fun d => byte_of_Z (48 + d)) <$> ds.
Proof.
  intros Hds. revert i. induction Hds as [|d ds Hd Hds IH]; intros i; [done|].
  cbn [display_from fmap list_fmap].
  assert (byte_of_Z (48 + d) <> x20) as Hne.
  { intros E. apply (f_equal Z_of_byte) in E. rewrite Z_of_byte_of_Z in E.
    rewrite Z.mod_small in E by lia. change (Z_of_byte x20) with 32 in E. lia. }
  rewrite filter_app, filter_cons_True, IH by done.
  by destruct ((0 <? i)%nat && (i mod 5 =? 0)%nat).
Qed.

(** The displayed form of a 60-digit number is 71 characters: the digits in
    order, a space before the sixth, eleventh, ... and nowhere else. *)
Lemma display_grouped_spec ds :
  length ds = 60%nat -> Forall (fun d => 0 <= d <= 9) ds ->
  length (display_grouped ds) = 71%nat
  /\ filter (fun b => b <> x20) (display_grouped ds) = (fun d => byte_of_Z (48 + d)) <$> ds
  /\ forall k, (k < 71)%nat ->
       (display_grouped ds !! k = Some x20 <-> (k mod 6)%nat = 5%nat).
Proof.
  intros Hl Hd. split; [|split; [by apply display_filter|]].
  - do 60 (destruct ds as [|? ds]; [done|]). by destruct ds.
  - assert (forall d, 0 <= d <= 9 -> byte_of_Z (48 + d) <> x20) as Hne.
    { intros d Hr E. apply (f_equal Z_of_byte) in E. rewrite Z_of_byte_of_Z in E.
      rewrite Z.mod_small in E by lia. change (Z_of_byte x20) with 32 in E. lia. }
    do 60 (destruct ds as [|? ds]; [done|]). destruct ds; [|done].
    repeat match goal with H : Forall _ (_ :: _) |- _ =>
      apply Forall_cons in H as [?%Hne H] end.
    intros k Hk. do 71 (destruct k as [|k]; [simpl; split; congruence|]). lia.
Qed.

Lemma display_grouped_spec_witness :
  length (display_grouped (repeat 7 60)) = 71%nat
  /\ filter (fun b => b <> x20) (display_grouped (repeat 7 60))
     = (fun d => byte_of_Z (48 + d)) <$> repeat 7 60
  /\ forall k, (k < 71)%nat ->
       (display_grouped (repeat 7 60) !! k = Some x20 <-> (k mod 6)%nat = 5%nat).
Proof.
  apply (display_grouped_spec (repeat 7 60)); [reflexivity|].
  apply (bool_decide_unpack _). vm_compute. exact I.
Defined.
