(* ===== verification/SqlDb.v ===== *)
(** * The relay's database ([crates/server/src/db/])

    The tables of the schema at its current version, and the way the code
    runs statements on them.  A table whose primary key decides everything the
    code observes is a map from that key to the other columns; a table whose
    row order is observable is a list in [rowid] order.  Columns no query
    reads (the [created_at] of [users] and [signed_prekeys]) are left out.

    [conn.call] runs one closure at a time on the database thread, so an
    operation is an atomic step.  [transaction] gives the closures their
    commit-or-rollback meaning: a statement that fails, like a [rollback()],
    leaves the database as it was when the transaction began. *)
From stdpp Require Import base numbers list strings gmap.
From S2P Require Import Prelude.
Local Open Scope Z_scope.
Local Open Scope cmp_scope.

(** ** Rows and tables *)

Record QueueRow := mkQueueRow {
  q_rowid : Z;
  q_message_id : string;
  q_recipient_id : string;
  q_sender_id : string;
  q_envelope : string;
  q_created_at : string;
}.

Record ReceiptRow := mkReceiptRow {
  r_rowid : Z;
  r_receipt_id : string;
  r_recipient_id : string;
  r_sender_id : string;
  r_envelope : string;
  r_acknowledged : bool;
  r_created_at : string;
}.

Record AcceptanceRow := mkAcceptanceRow {
  a_recipient_id : string;
  a_sender_id : string;
  a_envelope_digest : bytes;
  a_accepted_at : Z;
}.

Record FetchEvent := mkFetchEvent {
  fe_requester_id : string;
  fe_target_id : string;
  fe_created_at : Z;
}.

Record SignedPreKeyRow := mkSignedPreKeyRow { s_public_key : bytes; s_signature : bytes }.
Record PreKeyRow := mkPreKeyRow { p_public_key : bytes; p_created_at : Z }.

Record Db := mkDb {
  users : gmap string bytes;                           (* user_id -> identity_key *)
  signed_prekeys : gmap (string * Z) SignedPreKeyRow;  (* (user_id, key_id) *)
  prekeys : gmap (string * Z) PreKeyRow;               (* (user_id, key_id) *)
  prekey_inventory : gmap string Z;                    (* user_id -> high_water *)
  prekey_reservations : gmap (string * string * Z) Z;  (* (requester, target, key_id) -> expires_at *)
  prekey_fetch_events : list FetchEvent;
  message_queue : list QueueRow;
  message_acceptances : gmap string AcceptanceRow;     (* message_id *)
  item_count : Z;                                      (* message_acceptance_stats *)
  read_receipt_queue : list ReceiptRow;
}.

Definition empty_db : Db := mkDb ∅ ∅ ∅ ∅ ∅ [] [] ∅ 0 [].

Definition set_users v d := mkDb v (signed_prekeys d) (prekeys d) (prekey_inventory d)
  (prekey_reservations d) (prekey_fetch_events d) (message_queue d) (message_acceptances d)
  (item_count d) (read_receipt_queue d).
Definition set_signed_prekeys v d := mkDb (users d) v (prekeys d) (prekey_inventory d)
  (prekey_reservations d) (prekey_fetch_events d) (message_queue d) (message_acceptances d)
  (item_count d) (read_receipt_queue d).
Definition set_prekeys v d := mkDb (users d) (signed_prekeys d) v (prekey_inventory d)
  (prekey_reservations d) (prekey_fetch_events d) (message_queue d) (message_acceptances d)
  (item_count d) (read_receipt_queue d).
Definition set_inventory v d := mkDb (users d) (signed_prekeys d) (prekeys d) v
  (prekey_reservations d) (prekey_fetch_events d) (message_queue d) (message_acceptances d)
  (item_count d) (read_receipt_queue d).
Definition set_reservations v d := mkDb (users d) (signed_prekeys d) (prekeys d)
  (prekey_inventory d) v (prekey_fetch_events d) (message_queue d) (message_acceptances d)
  (item_count d) (read_receipt_queue d).
Definition set_fetch_events v d := mkDb (users d) (signed_prekeys d) (prekeys d)
  (prekey_inventory d) (prekey_reservations d) v (message_queue d) (message_acceptances d)
  (item_count d) (read_receipt_queue d).
Definition set_queue v d := mkDb (users d) (signed_prekeys d) (prekeys d) (prekey_inventory d)
  (prekey_reservations d) (prekey_fetch_events d) v (message_acceptances d)
  (item_count d) (read_receipt_queue d).
Definition set_acceptances v d := mkDb (users d) (signed_prekeys d) (prekeys d)
  (prekey_inventory d) (prekey_reservations d) (prekey_fetch_events d) (message_queue d) v
  (item_count d) (read_receipt_queue d).
Definition set_item_count v d := mkDb (users d) (signed_prekeys d) (prekeys d)
  (prekey_inventory d) (prekey_reservations d) (prekey_fetch_events d) (message_queue d)
  (message_acceptances d) v (read_receipt_queue d).
Definition set_receipts v d := mkDb (users d) (signed_prekeys d) (prekeys d)
  (prekey_inventory d) (prekey_reservations d) (prekey_fetch_events d) (message_queue d)
  (message_acceptances d) (item_count d) v.

(** ** Statements and transactions *)

Inductive DbError :=
| QueryReturnedNoRows
| ForeignKeyViolation
| UniqueViolation
| IntegralValueOutOfRange
| IoFailure.

Abbreviation dbm A := (rm Db DbError A).

(** How a transaction closure ends when no statement fails. *)
Inductive TxEnd (A : Type) := Commit (a : A) | Rollback (a : A).
Arguments Commit {A} a.
Arguments Rollback {A} a.

Definition transaction {A} (body : dbm (TxEnd A)) : dbm A := fun d =>
  match body d with
  | (Ok (Commit a), d') => (Ok a, d')
  | (Ok (Rollback a), _) => (Ok a, d)
  | (Err e, _) => (Err e, d)
  end.

Definition modify (f : Db -> Db) : dbm unit := fun d => (Ok tt, f d).

(** [row.get::<_, u32>(0)]: a value outside [u32] is an error. *)
Definition get_u32 (z : Z) : result DbError Z :=
  if (0 <=? z) && (z <=? u32_max) then Ok z else Err IntegralValueOutOfRange.

(** A [REFERENCES users(user_id)] column of an inserted row. *)
Definition check_user_fk (user_id : string) : dbm unit := fun d =>
  match users d !! user_id with
  | Some _ => (Ok tt, d)
  | None => (Err ForeignKeyViolation, d)
  end.

Lemma transaction_error {A} (body : dbm (TxEnd A)) d e d' :
  transaction body d = (Err e, d') -> d' = d.
Proof. unfold transaction. destruct (body d) as [[[]|] ]; naive_solver. Qed.

(** What a committed transaction did. *)
Lemma transaction_ok {A} (body : dbm (TxEnd A)) d a d' :
  transaction body d = (Ok a, d') ->
  body d = (Ok (Commit a), d') \/ (d' = d /\ exists d1, body d = (Ok (Rollback a), d1)).
Proof. unfold transaction. destruct (body d) as [[[]|] ]; naive_solver. Qed.

(** ** SQL expressions the queries share *)

(** [i64::try_from(n).unwrap_or(i64::MAX)] for an unsigned [n]. *)
Definition i64_of_usize (n : Z) : Z := if n <=? i64_max then n else i64_max.

(** [u32::try_from(n).unwrap_or(u32::MAX)] *)
Definition u32_of_i64 (n : Z) : Z := if (0 <=? n) && (n <=? u32_max) then n else u32_max.

(** The largest element, as [iter().max()] and [ORDER BY .. DESC LIMIT 1]. *)
Fixpoint max_of (l : list Z) : option Z :=
  match l with
  | [] => None
  | x :: l' => match max_of l' with Some m => Some (Z.max x m) | None => Some x end
  end.
Fixpoint min_of (l : list Z) : option Z :=
  match l with
  | [] => None
  | x :: l' => match min_of l' with Some m => Some (Z.min x m) | None => Some x end
  end.

Lemma max_of_spec l m : max_of l = Some m -> m ∈ l /\ forall x, x ∈ l -> x <= m.
Proof.
  revert m. induction l as [|x l IH]; intros m; simpl; [done|].
  destruct (max_of l) as [m'|] eqn:E; intros [= <-].
  - destruct (IH m' eq_refl) as [Hin Hle]. split.
    + apply elem_of_cons. destruct (Z.max_spec x m') as [[_ ->]|[_ ->]]; auto.
    + intros y [->|Hy]%elem_of_cons; [lia|]. specialize (Hle y Hy). lia.
  - destruct l as [|y l]; [|simpl in E; by destruct (max_of l)].
    split; [by left|]. intros y [->|Hy]%elem_of_cons; [lia|]. by apply elem_of_nil in Hy.
Qed.

Lemma max_of_None l : max_of l = None -> l = [].
Proof. destruct l as [|x l]; simpl; [done|]. by destruct (max_of l). Qed.

Lemma max_of_Some x l : x ∈ l -> exists m, max_of l = Some m /\ x <= m.
Proof.
  intros Hx. destruct (max_of l) as [m|] eqn:E.
  - exists m. split; [done|]. apply max_of_spec in E as [_ E]. by apply E.
  - apply max_of_None in E as ->. by apply elem_of_nil in Hx.
Qed.

Lemma min_of_spec l m : min_of l = Some m -> m ∈ l /\ forall x, x ∈ l -> m <= x.
Proof.
  revert m. induction l as [|x l IH]; intros m; simpl; [done|].
  destruct (min_of l) as [m'|] eqn:E; intros [= <-].
  - destruct (IH m' eq_refl) as [Hin Hle]. split.
    + apply elem_of_cons. destruct (Z.min_spec x m') as [[_ ->]|[_ ->]]; auto.
    + intros y [->|Hy]%elem_of_cons; [lia|]. specialize (Hle y Hy). lia.
  - destruct l as [|y l]; [|simpl in E; by destruct (min_of l)].
    split; [by left|]. intros y [->|Hy]%elem_of_cons; [lia|]. by apply elem_of_nil in Hy.
Qed.

(** The key ids a user has in a table keyed by [(user_id, key_id)]. *)
Definition ids_of {A} (user_id : string) (t : gmap (string * Z) A) : list Z :=
  (filter (fun r => r.1.1 = user_id) (map_to_list t)).*1.*2.

Lemma elem_of_ids_of {A} (u : string) (k : Z) (t : gmap (string * Z) A) : k ∈ ids_of u t <-> is_Some (t !! (u, k)).
Proof.
  unfold ids_of. rewrite !list_elem_of_fmap. split.
  - intros ([u' k'] & -> & ([p r] & Hp & [Hu Hin]%list_elem_of_filter)%list_elem_of_fmap).
    simpl in *. subst p. apply elem_of_map_to_list in Hin. simpl in Hu. subst. eauto.
  - intros [r Hr]. exists (u, k). split; [done|]. apply list_elem_of_fmap.
    exists ((u, k), r). split; [done|]. apply list_elem_of_filter. split; [done|].
    by apply elem_of_map_to_list.
Qed.

Lemma ids_of_NoDup {A} (u : string) (t : gmap (string * Z) A) : NoDup (ids_of u t).
Proof.
  unfold ids_of. pose proof (NoDup_fst_map_to_list t) as Hnd.
  induction (map_to_list t) as [|[[u' k] r] l IH]; [apply NoDup_nil; done|].
  simpl in Hnd. apply NoDup_cons in Hnd as [Hni Hnd].
  rewrite filter_cons. case_decide as Hu; [|by apply IH]. simpl in Hu. subst u'. simpl.
  apply NoDup_cons. split; [|by apply IH]. intros Hin. apply Hni.
  apply list_elem_of_fmap in Hin as (p & Hk & Hin).
  apply list_elem_of_fmap in Hin as ([p' r'] & Hp & [Hu Hin]%list_elem_of_filter).
  destruct p as [u2 k2]. simpl in *. subst. simpl. apply list_elem_of_fmap.
  by exists ((u2, k2), r').
Qed.

(** [SELECT COUNT( * ) .. WHERE user_id = ?1] *)
Definition count_ids {A} (user_id : string) (t : gmap (string * Z) A) : Z :=
  Z.of_nat (length (ids_of user_id t)).
