(* ===== verification/DbUsers.v ===== *)
(** * Users ([crates/server/src/db/users.rs])

    Registration, in one transaction, and the lookups of identity keys. *)
From stdpp Require Import base numbers list strings gmap.
From S2P Require Import Prelude SqlDb.
Local Open Scope Z_scope.
Local Open Scope cmp_scope.

Record Registration := mkRegistration {
  reg_user_id : string;
  reg_identity_key : bytes;
  reg_signed_prekey_id : Z;
  reg_signed_prekey_public : bytes;
  reg_signed_prekey_signature : bytes;
  reg_one_time_prekeys : list (Z * bytes);
}.

(** [INSERT OR IGNORE INTO prekeys ..], one row per key of the batch. *)
Fixpoint insert_prekeys (unixepoch : Z) (user_id : string) (l : list (Z * bytes)) : dbm unit :=
  match l with
  | [] => rm_ret tt
  | (key_id, public_key) :: l' =>
      do! d <- rm_get;
      run! match prekeys d !! (user_id, key_id) with
           | Some _ => rm_ret tt
           | None =>
               run! check_user_fk user_id;
               modify (set_prekeys
                 (<[(user_id, key_id) := mkPreKeyRow public_key unixepoch]> (prekeys d)))
           end;
      insert_prekeys unixepoch user_id l'
  end.

Definition LEGACY_HIGH_WATER : Z := 2 ^ 31 - 1.

Definition register_atomic (unixepoch : Z) (registration : Registration) : dbm bool :=
  let user_id := reg_user_id registration in
  transaction (
    do! d <- rm_get;
    match users d !! user_id with
    | Some _ => rm_ret (Rollback false)
    | None =>
        run! modify (set_users (<[user_id := reg_identity_key registration]> (users d)));
        run! modify (fun d => set_signed_prekeys
               (<[(user_id, reg_signed_prekey_id registration) :=
                    mkSignedPreKeyRow (reg_signed_prekey_public registration)
                      (reg_signed_prekey_signature registration)]> (signed_prekeys d)) d);
        run! insert_prekeys unixepoch user_id (reg_one_time_prekeys registration);
        let high_water :=
          Z.max (default (-1) (max_of (reg_one_time_prekeys registration).*1)) LEGACY_HIGH_WATER in
        do! d <- rm_get;
        run! match prekey_inventory d !! user_id with
             | Some _ => rm_fail UniqueViolation
             | None => modify (set_inventory (<[user_id := high_water]> (prekey_inventory d)))
             end;
        rm_ret (Commit true)
    end).

Definition get_identity_key (user_id : string) : dbm (option bytes) := fun d =>
  (Ok (users d !! user_id), d).

Definition exists_user (user_id : string) : dbm bool := fun d =>
  (Ok (bool_decide (is_Some (users d !! user_id))), d).

(** ** Facts *)

Definition with_prekeys (unixepoch : Z) (user_id : string) (l : list (Z * bytes))
    (t : gmap (string * Z) PreKeyRow) : gmap (string * Z) PreKeyRow :=
  fold_left (fun t r => match t !! (user_id, r.1) with
    | Some _ => t
    | None => <[(user_id, r.1) := mkPreKeyRow r.2 unixepoch]> t end) l t.

(** A batch for a known user inserts the keys that are not there yet and
    changes nothing else. *)
Lemma insert_prekeys_ok now u l d :
  is_Some (users d !! u) ->
  insert_prekeys now u l d = (Ok tt, set_prekeys (with_prekeys now u l (prekeys d)) d).
Proof.
  revert d. induction l as [|[k pk] l IH]; intros d [ik Hu]; simpl.
  - unfold rm_ret. by destruct d.
  - unfold rm_bind, rm_get, check_user_fk, modify, rm_ret.
    destruct (prekeys d !! (u, k)) eqn:E.
    + rewrite IH by eauto. by simpl; rewrite ?E.
    + rewrite Hu. rewrite IH by eauto. by simpl; rewrite ?E.
Qed.

Lemma with_prekeys_lookup now u l t k :
  with_prekeys now u l t !! k =
    match t !! k with
    | Some r => Some r
    | None => if decide (k.1 = u)
              then (fun x => mkPreKeyRow x.2.2 now) <$> list_find (fun r => r.1 = k.2) l
              else None
    end.
Proof.
  revert t. induction l as [|[k' pk] l IH]; intros t; simpl.
  - destruct (t !! k); [done|]. by case_decide.
  - rewrite IH. destruct k as [u' kk]. simpl.
    destruct (t !! (u, k')) eqn:E.
    + destruct (t !! (u', kk)) eqn:E'; [done|].
      destruct (decide (u' = u)) as [->|]; [|done].
      destruct (decide (k' = kk)) as [->|]; [congruence|].
      by destruct (list_find _ l) as [[]|].
    + destruct (decide ((u, k') = (u', kk))) as [[= -> ->]|Hne].
      * rewrite lookup_insert_eq, E, !decide_True by done. done.
      * rewrite lookup_insert_ne by done. destruct (t !! (u', kk)); [done|].
        destruct (decide (u' = u)) as [->|]; [|done].
        destruct (decide (k' = kk)) as [->|]; [done|].
        by destruct (list_find _ l) as [[]|].
Qed.

(** Inserting a batch adds exactly the missing key ids of that user. *)
Lemma with_prekeys_dom now u l t u' k :
  is_Some (with_prekeys now u l t !! (u', k))
  <-> is_Some (t !! (u', k)) \/ (u' = u /\ k ∈ l.*1).
Proof.
  rewrite with_prekeys_lookup. destruct (t !! (u', k)) as [r|]; simpl.
  - split; eauto.
  - case_decide as Hu.
    + destruct (list_find _ l) as [[i [k' pk]]|] eqn:E; simpl.
      * apply list_find_Some in E as (Hi & Hk & _). simpl in Hk. subst k'. split; [|eauto].
        intros _. right. split; [done|]. apply list_elem_of_fmap.
        exists (k, pk). split; [done|]. by eapply list_elem_of_lookup_2.
      * apply list_find_None in E. split; [by intros []|]. intros [[]|[_ Hin]]; [done|].
        apply list_elem_of_fmap in Hin as ([k' pk] & -> & Hin).
        rewrite Forall_forall in E. by specialize (E _ Hin).
    + split; [by intros []|]. intros [[]|[? _]]; done.
Qed.
