(* ===== verification/DbPrekeys.v ===== *)
(** * Pre-keys ([crates/server/src/db/prekeys.rs])

    One-time pre-key upload and hand-out, with the high-water mark, the
    inventory limit and the fetch rate limits, and signed pre-key rotation. *)
From stdpp Require Import base numbers list sorting strings gmap.
From S2P Require Import Prelude Consts SqlDb DbUsers.
Local Open Scope Z_scope.
Local Open Scope cmp_scope.

Definition PUBLIC_PREKEY_RETENTION_SECS : Z := ONE_TIME_PREKEY_PUBLIC_RETENTION_SECS.

Inductive UploadResult :=
| UploadAccepted (remaining : Z)
| UploadInventoryFull (remaining : Z)
| UploadInvalidSequence.

(** [DELETE FROM prekeys WHERE user_id = ?1 AND created_at < ?2] *)
Definition delete_expired (user_id : string) (cutoff : Z) (d : Db) : Db :=
  set_prekeys
    (filter (fun r => ~ (r.1.1 = user_id /\ p_created_at r.2 < cutoff)) (prekeys d)) d.

Definition upload_prekeys (unixepoch : Z) (user_id : string) (new : list (Z * bytes))
    (max_prekeys_per_user : Z) : dbm UploadResult :=
  transaction (
    run! modify (delete_expired user_id (unixepoch - PUBLIC_PREKEY_RETENTION_SECS));
    do! d <- rm_get;
    do! high_water <- rm_lift (ok_or QueryReturnedNoRows (prekey_inventory d !! user_id));
    let minimum := min_of new.*1 in
    let maximum_id := max_of new.*1 in
    let existing := count_ids user_id (prekeys d) in
    if match maximum_id with Some maximum => maximum <=? high_water | None => false end
    then rm_ret (Rollback (UploadAccepted (u32_of_i64 existing)))
    else if match minimum with Some minimum => minimum <=? high_water | None => true end
    then rm_ret (Rollback UploadInvalidSequence)
    else
      let new_count := i64_of_usize (Z.of_nat (length new)) in
      let maximum := i64_of_usize max_prekeys_per_user in
      if maximum <? saturating_add i64_max existing new_count
      then rm_ret (Rollback (UploadInventoryFull (u32_of_i64 existing)))
      else
        run! insert_prekeys unixepoch user_id new;
        run! modify (fun d => set_inventory
               (alter (fun _ => default high_water maximum_id) user_id (prekey_inventory d)) d);
        do! d <- rm_get;
        do! remaining <- rm_lift (get_u32 (count_ids user_id (prekeys d)));
        rm_ret (Commit (UploadAccepted remaining))).

Inductive SignedPreKeyRotationResult :=
| RotationAccepted (current_key_id : Z)
| RotationPreviouslyAccepted (current_key_id : Z)
| RotationInvalidSequence (current_key_id : Z)
| RotationConflict (current_key_id : Z).

(** [SELECT key_id .. WHERE user_id = ?1 ORDER BY key_id DESC LIMIT 2] *)
Definition newest_two (user_id : string) (t : gmap (string * Z) SignedPreKeyRow) : list Z :=
  take 2 (merge_sort Z.ge (ids_of user_id t)).

Definition rotate_signed_prekey (user_id : string) (key_id : Z) (public_key signature : bytes)
  : dbm SignedPreKeyRotationResult :=
  transaction (
    do! d <- rm_get;
    do! current <- rm_lift (ok_or QueryReturnedNoRows (max_of (ids_of user_id (signed_prekeys d))));
    do! current_id <- rm_lift (get_u32 current);
    match signed_prekeys d !! (user_id, key_id) with
    | Some existing =>
        rm_ret (Rollback (
          if bool_decide (s_public_key existing = public_key /\ s_signature existing = signature)
          then if key_id =? current_id then RotationAccepted current_id
               else RotationPreviouslyAccepted current_id
          else RotationConflict current_id))
    | None =>
        if key_id <=? current_id then rm_ret (Rollback (RotationInvalidSequence current_id))
        else
          run! check_user_fk user_id;
          run! modify (fun d => set_signed_prekeys
                 (<[(user_id, key_id) := mkSignedPreKeyRow public_key signature]>
                    (signed_prekeys d)) d);
          run! modify (fun d => set_signed_prekeys
                 (filter (fun r => ~ (r.1.1 = user_id
                                      /\ r.1.2 ∉ newest_two user_id (signed_prekeys d)))
                    (signed_prekeys d)) d);
          rm_ret (Commit (RotationAccepted key_id))
    end).

Record FetchLimits := mkFetchLimits {
  window_secs : Z;
  per_requester : Z;
  per_target : Z;
}.

Inductive FetchResult :=
| Fetched (key_id : Z) (public_key : bytes)
| FetchEmpty
| FetchTargetDepleted
| FetchRateLimited.

(** The row a [LIMIT 1] query without [ORDER BY] returns is any row of the
    result: a parameter. *)
Class SqlPick := { pick : list (Z * PreKeyRow) -> option (Z * PreKeyRow) }.
Class SqlPickLaws `{SqlPick} : Prop := {
  pick_in l r : pick l = Some r -> r ∈ l;
  pick_none l : pick l = None -> l = [];
}.

(** The first row is one possible choice. *)
Module PickFirst.
#[export] Instance pick_first : SqlPick := {| pick := head |}.
#[export] Instance pick_first_laws : SqlPickLaws.
Proof.
  constructor; simpl; intros [|x l]; try done. intros r [= <-]. by left.
Qed.
End PickFirst.

Definition user_prekeys (user_id : string) (t : gmap (string * Z) PreKeyRow)
  : list (Z * PreKeyRow) :=
  (fun r => (r.1.2, r.2)) <$> filter (fun r => r.1.1 = user_id) (map_to_list t).

Definition count_events (p : FetchEvent -> bool) (l : list FetchEvent) : Z :=
  Z.of_nat (length (filter (fun e => p e = true) l)).
Definition by_requester (requester_id : string) (cutoff : Z) (e : FetchEvent) : bool :=
  bool_decide (fe_requester_id e = requester_id) && (cutoff <=? fe_created_at e).
Definition by_target (target_id : string) (cutoff : Z) (e : FetchEvent) : bool :=
  bool_decide (fe_target_id e = target_id) && (cutoff <=? fe_created_at e).

(** [DELETE FROM prekey_reservations WHERE expires_at < ?1] *)
Definition drop_reservations (now : Z) (d : Db) : Db :=
  set_reservations (filter (fun r => now <= r.2) (prekey_reservations d)) d.

Section Fetch.
Context `{SqlPick}.

(** Remove one pre-key of the target, log the event and reserve the key. *)
Definition take_prekey (requester_id target_id : string) (now : Z)
  : dbm (option (Z * PreKeyRow)) :=
  do! d <- rm_get;
  match pick (user_prekeys target_id (prekeys d)) with
  | None => rm_ret None
  | Some (key_id, row) =>
      run! modify (set_prekeys (delete (target_id, key_id) (prekeys d)));
      run! modify (fun d => set_fetch_events
             (prekey_fetch_events d ++ [mkFetchEvent requester_id target_id now]) d);
      let expires_at := saturating_add u64_max now ONE_TIME_PREKEY_RESERVATION_SECS in
      do! d <- rm_get;
      run! match prekey_reservations d !! (requester_id, target_id, key_id) with
           | Some _ => rm_fail UniqueViolation
           | None => modify (set_reservations
               (<[(requester_id, target_id, key_id) := expires_at]> (prekey_reservations d)))
           end;
      rm_ret (Some (key_id, row))
  end.

Definition fetch_for_requester (requester_id target_id : string) (now : Z)
    (limits : FetchLimits) : dbm FetchResult :=
  transaction (
    run! modify (drop_reservations now);
    let cutoff := saturating_sub now (window_secs limits) in
    let prekey_cutoff := saturating_sub now PUBLIC_PREKEY_RETENTION_SECS in
    run! modify (delete_expired target_id prekey_cutoff);
    run! modify (fun d => set_fetch_events
           (filter (fun e => cutoff <= fe_created_at e) (prekey_fetch_events d)) d);
    do! d <- rm_get;
    do! requester_count <- rm_lift (get_u32
      (count_events (by_requester requester_id cutoff) (prekey_fetch_events d)));
    do! target_count <- rm_lift (get_u32
      (count_events (by_target target_id cutoff) (prekey_fetch_events d)));
    if per_requester limits <=? requester_count then rm_ret (Rollback FetchRateLimited)
    else if per_target limits <=? target_count then rm_ret (Rollback FetchTargetDepleted)
    else
      do! prekey <- take_prekey requester_id target_id now;
      rm_ret (Commit match prekey with
                     | Some (key_id, row) => Fetched key_id (p_public_key row)
                     | None => FetchEmpty
                     end)).
End Fetch.

Definition get_signed_prekey (user_id : string) : dbm (option (Z * SignedPreKeyRow)) :=
  do! d <- rm_get;
  match max_of (ids_of user_id (signed_prekeys d)) with
  | None => rm_ret None
  | Some key_id =>
      do! key_id <- rm_lift (get_u32 key_id);
      rm_ret ((fun r => (key_id, r)) <$> signed_prekeys d !! (user_id, key_id))
  end.

Definition count_prekeys (unixepoch : Z) (user_id : string) : dbm Z :=
  do! d <- rm_get;
  rm_lift (get_u32 (count_ids user_id
    (filter (fun r => unixepoch - PUBLIC_PREKEY_RETENTION_SECS <= p_created_at r.2)
       (prekeys d)))).

(** ** The pre-key invariant

    [handed] are the one-time pre-keys [(user, key_id)] given out so far. *)
Record pk_inv (handed : gset (string * Z)) (d : Db) : Prop := {
  pk_users u : is_Some (prekey_inventory d !! u) <-> is_Some (users d !! u);
  pk_stored u k : is_Some (prekeys d !! (u, k)) ->
    exists hw, prekey_inventory d !! u = Some hw /\ k <= hw;
  pk_handed u k : (u, k) ∈ handed ->
    prekeys d !! (u, k) = None /\ exists hw, prekey_inventory d !! u = Some hw /\ k <= hw;
  pk_reserved r t k : is_Some (prekey_reservations d !! (r, t, k)) -> (t, k) ∈ handed;
}.

Lemma pk_inv_empty : pk_inv ∅ empty_db.
Proof.
  split; simpl.
  - intros u. rewrite !lookup_empty. split; by intros [].
  - intros u k. rewrite lookup_empty. by intros [].
  - set_solver.
  - intros r t k. rewrite lookup_empty. by intros [].
Qed.

Lemma delete_expired_lookup u c d k :
  is_Some (prekeys (delete_expired u c d) !! k) -> is_Some (prekeys d !! k).
Proof. simpl. intros [r Hr]. apply map_lookup_filter_Some in Hr as [? _]. eauto. Qed.

Lemma delete_expired_None u c d k :
  prekeys d !! k = None -> prekeys (delete_expired u c d) !! k = None.
Proof. simpl. intros Hr. apply map_lookup_filter_None. by left. Qed.

Lemma pk_inv_delete_expired H u c d : pk_inv H d -> pk_inv H (delete_expired u c d).
Proof.
  intros [Hu Hs Hh Hr]. split; try done.
  - intros v k Hk. by apply delete_expired_lookup, Hs in Hk.
  - intros v k Hk. destruct (Hh v k Hk). split; [by apply delete_expired_None|done].
Qed.

Lemma pk_inv_drop_reservations H now d : pk_inv H d -> pk_inv H (drop_reservations now d).
Proof.
  intros [Hu Hs Hh Hr]. split; try done.
  intros r t k [x Hx]. simpl in Hx. apply map_lookup_filter_Some in Hx as [? _]. eauto.
Qed.

(** *** Registration *)

(** Registration of a new name stores everything it was given; of a known
    name it changes nothing. *)
Lemma register_cases now r d :
  (is_Some (users d !! reg_user_id r) /\ register_atomic now r d = (Ok false, d))
  \/ (users d !! reg_user_id r = None /\ is_Some (prekey_inventory d !! reg_user_id r)
      /\ register_atomic now r d = (Err UniqueViolation, d))
  \/ (users d !! reg_user_id r = None /\ prekey_inventory d !! reg_user_id r = None
      /\ exists hw, (forall k, k ∈ (reg_one_time_prekeys r).*1 -> k <= hw)
         /\ LEGACY_HIGH_WATER <= hw
         /\ register_atomic now r d = (Ok true,
              set_inventory (<[reg_user_id r := hw]> (prekey_inventory d))
             (set_prekeys (with_prekeys now (reg_user_id r) (reg_one_time_prekeys r) (prekeys d))
             (set_signed_prekeys (<[(reg_user_id r, reg_signed_prekey_id r) :=
                 mkSignedPreKeyRow (reg_signed_prekey_public r) (reg_signed_prekey_signature r)]>
                 (signed_prekeys d))
             (set_users (<[reg_user_id r := reg_identity_key r]> (users d)) d))))).
Proof.
  unfold register_atomic, transaction. rm_unfold.
  destruct (users d !! reg_user_id r) as [ik|] eqn:Hu; [left; eauto|right].
  unfold modify. rewrite insert_prekeys_ok by (simpl; rewrite lookup_insert_eq; eauto).
  simpl. destruct (prekey_inventory d !! reg_user_id r) as [hw|] eqn:Hi; [left; eauto|right].
  split; [done|]. split; [done|].
  exists (Z.max (default (-1) (max_of (reg_one_time_prekeys r).*1)) LEGACY_HIGH_WATER).
  split; [|split; [lia|by destruct d]].
  intros k Hk. destruct (max_of_Some _ _ Hk) as (m & -> & Hm). simpl. lia.
Qed.

Lemma register_pk_inv H now r d res d' :
  pk_inv H d -> register_atomic now r d = (res, d') -> pk_inv H d'.
Proof.
  intros I E. destruct (register_cases now r d) as [[_ E']|[(_ & _ & E')|(Hu & Hi & hw & Hle & _ & E')]];
    rewrite E' in E; injection E as <- <-; [done..|].
  destruct I as [Iu Is Ih Ir]. split; simpl.
  - intros u. destruct (decide (reg_user_id r = u)) as [->|Hne].
    + rewrite !lookup_insert_eq. split; eauto.
    + rewrite !lookup_insert_ne by done. apply Iu.
  - intros u k [Hk|[-> Hk]]%with_prekeys_dom.
    + destruct (Is u k Hk) as (h & Hh & ?). exists h.
      rewrite lookup_insert_ne by congruence. done.
    + exists hw. rewrite lookup_insert_eq. eauto.
  - intros u k Hk. destruct (Ih u k Hk) as (Hn & h & Hh & ?).
    assert (reg_user_id r <> u) by congruence. split.
    + apply eq_None_not_Some. rewrite with_prekeys_dom. intros [[]|[-> _]]; congruence.
    + exists h. by rewrite lookup_insert_ne.
  - exact Ir.
Qed.

(** *** Upload *)

(** Everything an upload can do. *)
Lemma upload_cases now u new mx d :
  (is_Some (prekey_inventory d !! u) -> is_Some (users d !! u)) ->
  let d0 := delete_expired u (now - PUBLIC_PREKEY_RETENTION_SECS) d in
  let n := count_ids u (prekeys d0) in
  (exists r, upload_prekeys now u new mx d = (r, d))
  \/ exists hw m, prekey_inventory d !! u = Some hw /\ max_of new.*1 = Some m
     /\ (forall k, k ∈ new.*1 -> hw < k) /\ (mx < i64_max -> n + Z.of_nat (length new) <= mx)
     /\ exists r, upload_prekeys now u new mx d = (Ok (UploadAccepted r),
          set_inventory (<[u := m]> (prekey_inventory d))
            (set_prekeys (with_prekeys now u new (prekeys d0)) d)).
Proof.
  intros Hfk d0 n. unfold upload_prekeys, transaction. rm_unfold. unfold modify. fold d0 n.
  change (prekey_inventory d0) with (prekey_inventory d).
  destruct (prekey_inventory d !! u) as [hw|] eqn:Hi; simpl; [|left; eauto].
  destruct (max_of new.*1) as [m|] eqn:Hmax.
  2:{ apply max_of_None in Hmax. rewrite Hmax. simpl. left. eauto. }
  destruct (Z.leb_spec m hw); [left; eauto|].
  destruct (min_of new.*1) as [mi|] eqn:Hmin; [|left; eauto].
  destruct (Z.leb_spec mi hw); [left; eauto|].
  destruct (Z.ltb_spec (i64_of_usize mx)
    (saturating_add i64_max n (i64_of_usize (Z.of_nat (length new))))) as [|Hfit]; [left; eauto|].
  rewrite insert_prekeys_ok by (simpl; apply Hfk; eauto). simpl.
  destruct (get_u32 _) as [rem|] eqn:Hrem; [right|left; eauto].
  exists hw, m. repeat split; try done.
  - intros k Hk. apply min_of_spec in Hmin as [_ Hmin]. specialize (Hmin k Hk). lia.
  - intros Hmx. unfold i64_of_usize, saturating_add in Hfit.
    assert (0 <= n) by (unfold n, count_ids; lia).
    destruct (Z.leb_spec mx i64_max), (Z.leb_spec (Z.of_nat (length new)) i64_max); unfold i64_max in *; lia.
  - exists rem. do 2 f_equal. unfold set_inventory, set_prekeys. simpl.
    f_equal. apply map_eq. intros v. destruct (decide (u = v)) as [->|].
    + rewrite lookup_alter_eq, lookup_insert_eq, Hi. done.
    + by rewrite lookup_alter_ne, lookup_insert_ne.
Qed.

Lemma upload_pk_inv H now u new mx d res d' :
  pk_inv H d -> upload_prekeys now u new mx d = (res, d') -> pk_inv H d'.
Proof.
  intros I E.
  destruct (upload_cases now u new mx d) as [(r & E')|(hw & m & Hi & Hm & Hlt & _ & r & E')];
    [apply I|rewrite E' in E; by injection E as <- <-|]. rewrite E' in E. injection E as <- <-.
  apply (pk_inv_delete_expired H u (now - PUBLIC_PREKEY_RETENTION_SECS)) in I.
  destruct I as [Iu Is Ih Ir]. apply max_of_spec in Hm as [Hmin Hmax].
  change (prekey_inventory (delete_expired _ _ _)) with (prekey_inventory d) in *.
  change (users (delete_expired _ _ _)) with (users d) in *.
  change (prekey_reservations (delete_expired _ _ _)) with (prekey_reservations d) in *.
  assert (hw < m) by auto. split; cbn [users prekeys prekey_inventory prekey_reservations set_inventory set_prekeys].
  - intros v. destruct (decide (u = v)) as [->|Hne].
    + rewrite lookup_insert_eq. split; [|eauto]. intros _. apply Iu. eauto.
    + rewrite lookup_insert_ne by done. apply Iu.
  - intros v k [Hk|[-> Hk]]%with_prekeys_dom.
    + destruct (Is v k Hk) as (h & Hh & ?). destruct (decide (u = v)) as [->|Hne].
      * exists m. rewrite lookup_insert_eq. simplify_eq. split; [done|lia].
      * exists h. by rewrite lookup_insert_ne.
    + exists m. rewrite lookup_insert_eq. auto.
  - intros v k Hk. destruct (Ih v k Hk) as (Hn & h & Hh & ?). split.
    + apply eq_None_not_Some. rewrite with_prekeys_dom. intros [Hin|[-> Hin]].
      { apply eq_None_not_Some in Hn. done. }
      apply Hlt in Hin. simplify_eq. lia.
    + destruct (decide (u = v)) as [->|Hne].
      * exists m. rewrite lookup_insert_eq. simplify_eq. split; [done|lia].
      * exists h. by rewrite lookup_insert_ne.
  - exact Ir.
Qed.

(** *** Hand-out *)

Lemma elem_of_user_prekeys u k r t : (k, r) ∈ user_prekeys u t <-> t !! (u, k) = Some r.
Proof.
  unfold user_prekeys. rewrite list_elem_of_fmap. split.
  - intros ([[u' k'] r'] & [= -> ->] & [Hu Hin]%list_elem_of_filter). simpl in Hu. subst.
    by apply elem_of_map_to_list.
  - intros Hr. exists ((u, k), r). split; [done|]. apply list_elem_of_filter.
    split; [done|]. by apply elem_of_map_to_list.
Qed.

Section FetchFacts.
Context `{SqlPickLaws}.

(** The database after the expiry statements of a fetch. *)
Definition swept (t : string) (now : Z) (limits : FetchLimits) (d : Db) : Db :=
  let d1 := delete_expired t (saturating_sub now PUBLIC_PREKEY_RETENTION_SECS)
              (drop_reservations now d) in
  set_fetch_events
    (filter (fun e => saturating_sub now (window_secs limits) <= fe_created_at e)
       (prekey_fetch_events d1)) d1.

Lemma take_prekey_eq r t now d :
  take_prekey r t now d =
  match pick (user_prekeys t (prekeys d)) with
  | None => (Ok None, d)
  | Some (k, row) =>
      let d1 := set_fetch_events (prekey_fetch_events d ++ [mkFetchEvent r t now])
                  (set_prekeys (delete (t, k) (prekeys d)) d) in
      match prekey_reservations d !! (r, t, k) with
      | Some _ => (Err UniqueViolation, d1)
      | None => (Ok (Some (k, row)), set_reservations (<[(r, t, k) :=
            saturating_add u64_max now ONE_TIME_PREKEY_RESERVATION_SECS]> (prekey_reservations d)) d1)
      end
  end.
Proof.
  unfold take_prekey. rm_unfold. unfold modify.
  destruct (pick _) as [[k row]|]; [|done]. simpl. by destruct (prekey_reservations d !! _).
Qed.

(** What a fetch that commits has done. *)
Lemma fetch_cases r t now limits d :
  let d0 := swept t now limits d in
  let cutoff := saturating_sub now (window_secs limits) in
  (exists res, fetch_for_requester r t now limits d = (res, d)
     /\ (forall k pk, res <> Ok (Fetched k pk)))
  \/ (fetch_for_requester r t now limits d = (Ok FetchEmpty, d0)
      /\ forall k, prekeys d0 !! (t, k) = None)
  \/ exists k row, prekeys d0 !! (t, k) = Some row
     /\ count_events (by_requester r cutoff) (prekey_fetch_events d0) < per_requester limits
     /\ count_events (by_target t cutoff) (prekey_fetch_events d0) < per_target limits
     /\ fetch_for_requester r t now limits d = (Ok (Fetched k (p_public_key row)),
          set_reservations (<[(r, t, k) :=
              saturating_add u64_max now ONE_TIME_PREKEY_RESERVATION_SECS]> (prekey_reservations d0))
          (set_fetch_events (prekey_fetch_events d0 ++ [mkFetchEvent r t now])
          (set_prekeys (delete (t, k) (prekeys d0)) d0))).
Proof.
  intros d0 cutoff. unfold fetch_for_requester, transaction. rm_unfold. unfold modify. cbv zeta.
  repeat match goal with |- context [set_fetch_events ?a (delete_expired ?b ?c ?d)] =>
    change (set_fetch_events a (delete_expired b c d)) with d0 end.
  fold cutoff.
  destruct (get_u32 (count_events (by_requester _ _) _)) as [rc|] eqn:Hrc; [|left; eauto].
  destruct (get_u32 (count_events (by_target _ _) _)) as [tc|] eqn:Htc; [|left; eauto].
  unfold get_u32 in Hrc, Htc.
  destruct (_ && _) in Hrc; [|done]. destruct (_ && _) in Htc; [|done].
  injection Hrc as <-. injection Htc as <-.
  match goal with |- context [per_requester limits <=? ?x] =>
    destruct (Z.leb_spec (per_requester limits) x); [left; eexists; split; [done|done]|] end.
  match goal with |- context [per_target limits <=? ?x] =>
    destruct (Z.leb_spec (per_target limits) x); [left; eexists; split; [done|done]|] end.
  rewrite take_prekey_eq. destruct (pick (user_prekeys t (prekeys d0))) as [[k row]|] eqn:Hp.
  - apply pick_in, elem_of_user_prekeys in Hp.
    destruct (prekey_reservations d0 !! (r, t, k)) eqn:Hres; [left; eexists; split; done|].
    right. right. exists k, row. done.
  - right. left. split; [done|]. intros k. destruct (prekeys d0 !! (t, k)) as [row|] eqn:Hk; [|done].
    apply elem_of_user_prekeys in Hk. apply pick_none in Hp. rewrite Hp in Hk.
    by apply elem_of_nil in Hk.
Qed.

Lemma swept_pk_inv handed t now limits d : pk_inv handed d -> pk_inv handed (swept t now limits d).
Proof.
  intros I. assert (pk_inv handed (delete_expired t (saturating_sub now PUBLIC_PREKEY_RETENTION_SECS)
    (drop_reservations now d))) as [? ? ? ?]
    by (by apply pk_inv_delete_expired, pk_inv_drop_reservations). by split.
Qed.

(** A hand-out is new, and the record of hand-outs stays true. *)
Lemma fetch_pk_inv handed r t now limits d res d' :
  pk_inv handed d -> fetch_for_requester r t now limits d = (res, d') ->
  match res with
  | Ok (Fetched k _) => ((t, k) ∉ handed) /\ pk_inv ({[(t, k)]} ∪ handed) d'
  | _ => pk_inv handed d'
  end.
Proof.
  intros I E. pose proof (swept_pk_inv handed t now limits d I) as I0.
  pose proof (fetch_cases r t now limits d) as Hc. cbv zeta in Hc.
  revert I0 Hc. generalize (swept t now limits d). intros d0 I0 Hc.
  destruct Hc as [(res' & E' & Hn)|[[E' _]|(k & row & Hk & _ & _ & E')]];
    rewrite E' in E; injection E as <- <-.
  - destruct res' as [[]|]; try done. by destruct (Hn key_id public_key).
  - done.
  - destruct I0 as [Iu Is Ih Ir].
    assert ((t, k) ∉ handed) as Hni.
    { intros Hin. destruct (Ih t k Hin) as [Hn _]. congruence. }
    split; [done|]. split; simpl.
    + exact Iu.
    + intros u k' [x [_ Hx]%lookup_delete_Some]. apply Is. eauto.
    + intros u k' [Hin|Hin]%elem_of_union.
      * apply elem_of_singleton in Hin as [= -> ->]. rewrite lookup_delete_eq. split; [done|].
        apply Is. eauto.
      * destruct (Ih u k' Hin) as [Hn ?]. split; [|done].
        apply lookup_delete_None. by right.
    + intros r' t' k' [x [[[= -> -> ->] _]|[_ Hx]]%lookup_insert_Some]; [set_solver|].
      apply elem_of_union. right. apply (Ir r'). eauto.
Qed.
End FetchFacts.

(** ** Signed pre-key rotation *)

#[local] Instance Zge_total : Total Z.ge.
Proof. intros x y. lia. Qed.
#[local] Instance Zge_trans : Transitive Z.ge.
Proof. intros x y z. lia. Qed.

(** The two largest of a duplicate-free list, found by sorting. *)
Lemma take_two_sorted (l : list Z) a b k :
  NoDup l -> a ∈ l -> b ∈ l -> b < a -> (forall x, x ∈ l -> x <= a) ->
  (forall x, x ∈ l -> x <> a -> x <= b) ->
  k ∈ take 2 (merge_sort Z.ge l) <-> k = a \/ k = b.
Proof.
  intros Hnd Ha Hb Hlt Hmax Hsec.
  pose proof (merge_sort_Permutation Z.ge l) as Hp.
  pose proof (StronglySorted_merge_sort Z.ge l) as Hs.
  rewrite <- Hp in Hnd.
  assert (Hin : forall x, x ∈ merge_sort Z.ge l <-> x ∈ l) by (intros x; by rewrite Hp).
  apply Hin in Ha, Hb.
  assert (forall x, x ∈ merge_sort Z.ge l -> x <= a) as Hmax' by (intros x Hx; by apply Hmax, Hin).
  assert (forall x, x ∈ merge_sort Z.ge l -> x <> a -> x <= b) as Hsec'
    by (intros x Hx; by apply Hsec, Hin).
  clear Hp Hin Hmax Hsec. destruct (merge_sort Z.ge l) as [|x [|y s]].
  - by apply elem_of_nil in Ha.
  - apply list_elem_of_singleton in Ha, Hb. lia.
  - apply StronglySorted_inv in Hs as [Hs Hx]. apply StronglySorted_inv in Hs as [_ Hy].
    rewrite Forall_forall in Hx, Hy. apply NoDup_cons in Hnd as [Hnx Hnd].
    assert (x = a) as ->.
    { apply elem_of_cons in Ha as [->|Ha]; [done|]. apply Hx in Ha.
      specialize (Hmax' x ltac:(by left)). lia. }
    assert (y = b) as ->.
    { apply elem_of_cons in Hb as [->|Hb]; [lia|].
      specialize (Hsec' y ltac:(by right; left) ltac:(intros ->; apply Hnx; by left)).
      apply elem_of_cons in Hb as [->|Hb]; [done|]. apply Hy in Hb. lia. }
    simpl. rewrite !elem_of_cons, elem_of_nil. tauto.
Qed.

Definition newest (u : string) (d : Db) : option Z := max_of (ids_of u (signed_prekeys d)).

Lemma get_u32_fits z : u32 z -> get_u32 z = Ok z.
Proof.
  intros [H1 H2]. unfold get_u32. apply Z.leb_le in H1, H2. by rewrite H1, H2.
Qed.

(** A key newer than the current one is accepted. *)
Lemma rotate_newer u key_id pk sig d current :
  is_Some (users d !! u) -> newest u d = Some current -> u32 current -> current < key_id ->
  exists t, rotate_signed_prekey u key_id pk sig d = (Ok (RotationAccepted key_id), set_signed_prekeys t d)
    /\ t !! (u, key_id) = Some (mkSignedPreKeyRow pk sig)
    /\ t !! (u, current) = signed_prekeys d !! (u, current)
    /\ (forall k, k <> key_id -> k <> current -> t !! (u, k) = None)
    /\ (forall v k, v <> u -> t !! (v, k) = signed_prekeys d !! (v, k)).
Proof.
  intros [ik Hu] Hc Hr Hlt. unfold newest in Hc. unfold rotate_signed_prekey, transaction. rm_unfold.
  rewrite Hc. simpl. rewrite get_u32_fits by done.
  assert (signed_prekeys d !! (u, key_id) = None) as Hold.
  { apply eq_None_not_Some. rewrite <-elem_of_ids_of. intros Hin. apply max_of_spec in Hc as [_ Hc].
    apply Hc in Hin. lia. }
  rewrite Hold. destruct (Z.leb_spec key_id current); [lia|].
  unfold check_user_fk, modify. rewrite Hu. cbn [set_signed_prekeys signed_prekeys].
  set (t1 := <[(u, key_id) := mkSignedPreKeyRow pk sig]> (signed_prekeys d)).
  apply max_of_spec in Hc as [Hcin Hcmax].
  assert (Htwo : forall k, k ∈ newest_two u t1 <-> k = key_id \/ k = current).
  { intros k. apply take_two_sorted; try done.
    - apply ids_of_NoDup.
    - apply elem_of_ids_of. unfold t1. rewrite lookup_insert_eq. eauto.
    - apply elem_of_ids_of. unfold t1. rewrite lookup_insert_ne by (intros [= E]; lia).
      by apply elem_of_ids_of in Hcin.
    - intros x Hx%elem_of_ids_of. unfold t1 in Hx.
      destruct (decide (x = key_id)) as [->|]; [done|].
      rewrite lookup_insert_ne in Hx by congruence. apply elem_of_ids_of, Hcmax in Hx. lia.
    - intros x Hx%elem_of_ids_of Hne. unfold t1 in Hx.
      rewrite lookup_insert_ne in Hx by congruence. by apply elem_of_ids_of, Hcmax in Hx. }
  eexists. split; [done|]. repeat split.
  - apply map_lookup_filter_Some. split; [apply lookup_insert_eq|]. simpl.
    intros [_ Hni]. apply Hni, Htwo. by left.
  - apply elem_of_ids_of in Hcin as [row Hrow]. rewrite Hrow.
    apply map_lookup_filter_Some. unfold t1. rewrite lookup_insert_ne by (intros [= E]; lia).
    split; [done|]. simpl. intros [_ Hni]. apply Hni, Htwo. by right.
  - intros k Hk1 Hk2. apply map_lookup_filter_None. right. intros x _ Hn. simpl in Hn. apply Hn.
    split; [done|]. rewrite Htwo. naive_solver.
  - intros v k Hv. destruct (signed_prekeys d !! (v, k)) as [row|] eqn:Hrow.
    + apply map_lookup_filter_Some. unfold t1. rewrite lookup_insert_ne by congruence.
      split; [done|]. simpl. by intros [-> _].
    + apply map_lookup_filter_None. left. unfold t1. by rewrite lookup_insert_ne by congruence.
Qed.

(** C32: Rotation, on every branch.  A key that is stored answers [Accepted] or
    [PreviouslyAccepted] when it is offered again unchanged and [Conflict]
    otherwise; a key behind the current one is refused; none of these touch
    the database.  A newer key becomes the current one, the previously current
    key is the only other one kept, and no other user's key changes. *)
Theorem signed_prekey_rotation u key_id pk sig d current :
  is_Some (users d !! u) -> newest u d = Some current -> u32 current ->
  match signed_prekeys d !! (u, key_id) with
  | Some old =>
      rotate_signed_prekey u key_id pk sig d
      = (Ok (if bool_decide (s_public_key old = pk /\ s_signature old = sig)
             then if key_id =? current then RotationAccepted current
                  else RotationPreviouslyAccepted current
             else RotationConflict current), d)
  | None =>
      if key_id <=? current
      then rotate_signed_prekey u key_id pk sig d = (Ok (RotationInvalidSequence current), d)
      else exists t, rotate_signed_prekey u key_id pk sig d
             = (Ok (RotationAccepted key_id), set_signed_prekeys t d)
           /\ t !! (u, key_id) = Some (mkSignedPreKeyRow pk sig)
           /\ t !! (u, current) = signed_prekeys d !! (u, current)
           /\ (forall k, k <> key_id -> k <> current -> t !! (u, k) = None)
           /\ (forall v k, v <> u -> t !! (v, k) = signed_prekeys d !! (v, k))
  end.
Proof.
  intros Hu Hc Hr. destruct (signed_prekeys d !! (u, key_id)) as [old|] eqn:Hold.
  2: { destruct (Z.leb_spec key_id current) as [Hle|Hlt]; [|by apply rotate_newer].
       unfold newest in Hc. unfold rotate_signed_prekey, transaction. rm_unfold.
       rewrite Hc. simpl. rewrite get_u32_fits by done. rewrite Hold. by destruct (Z.leb_spec key_id current); [|lia]. }
  unfold newest in Hc. unfold rotate_signed_prekey, transaction. rm_unfold.
  rewrite Hc. simpl. rewrite get_u32_fits by done. by rewrite Hold.
Qed.

Lemma signed_prekey_rotation_witness :
  let d := mkDb {["alice" := []]} {[("alice", 3) := mkSignedPreKeyRow [] []]} ∅ ∅ ∅ [] [] ∅ 0 [] in
  exists t, rotate_signed_prekey "alice" 7 [] [] d
             = (Ok (RotationAccepted 7), set_signed_prekeys t d)
           /\ t !! ("alice"%string, 7) = Some (mkSignedPreKeyRow [] [])
           /\ t !! ("alice"%string, 3) = signed_prekeys d !! ("alice"%string, 3)
           /\ (forall k, k <> 7 -> k <> 3 -> t !! ("alice"%string, k) = None)
           /\ (forall v k, v <> "alice"%string -> t !! (v, k) = signed_prekeys d !! (v, k)).
Proof.
  intros d. apply (signed_prekey_rotation "alice" 7 [] [] d 3).
  - vm_compute. eauto.
  - vm_compute. reflexivity.
  - split; vm_compute; discriminate.
Defined.
