(* ===== verification/DbQueue.v ===== *)
(** * The message queue ([crates/server/src/db/queue.rs])

    Durable messages per recipient, the acceptance ledger that makes a resend
    idempotent until the sender has confirmed it, and the reservations of
    one-time pre-keys a first message claims. *)
From stdpp Require Import base numbers list sorting strings gmap.
From S2P Require Import Prelude Consts SqlDb DbPrekeys.
Local Open Scope Z_scope.
Local Open Scope cmp_scope.

Record EnqueueRequest := mkEnqueueRequest {
  er_message_id : string;
  er_recipient_id : string;
  er_sender_id : string;
  er_envelope_json : string;
  er_max_queue_per_user : Z;
  er_signed_prekey_id : option Z;
  er_one_time_prekey_id : option Z;
  er_now : Z;
}.

Inductive EnqueueResult :=
| Inserted
| Duplicate
| QueueFull
| RecipientNotFound
| PrekeyReservationInvalid
| SignedPrekeyExpired
| MessageIdConflict
| AcceptanceLedgerFull.

Definition MAX_GLOBAL_ACCEPTANCES : Z := 1000000.

Definition classify_existing (request : EnqueueRequest) (envelope_digest : bytes)
  : dbm (option EnqueueResult) := fun d =>
  (Ok ((fun a =>
      if bool_decide (a_recipient_id a = er_recipient_id request)
         && bool_decide (a_sender_id a = er_sender_id request)
         && bool_decide (a_envelope_digest a = envelope_digest)
      then Duplicate else MessageIdConflict)
    <$> message_acceptances d !! er_message_id request), d).

Definition count_sender (sender_id : string) (t : gmap string AcceptanceRow) : Z :=
  Z.of_nat (size (filter (fun r => a_sender_id r.2 = sender_id) t)).

Definition claim_prekey_reservation (request : EnqueueRequest) : dbm (option EnqueueResult) :=
  do! d <- rm_get;
  let acceptance_count := count_sender (er_sender_id request) (message_acceptances d) in
  if i64_of_usize MAX_PENDING_OUTBOUND_ITEMS <=? acceptance_count
  then rm_ret (Some AcceptanceLedgerFull)
  else if negb (item_count d <? MAX_GLOBAL_ACCEPTANCES)
  then rm_ret (Some AcceptanceLedgerFull)
  else
    run! modify (set_item_count (item_count d + 1));
    run! modify (drop_reservations (er_now request));
    do! d <- rm_get;
    if match er_signed_prekey_id request with
       | Some key_id =>
           negb (bool_decide (is_Some (signed_prekeys d !! (er_recipient_id request, key_id))))
       | None => false
       end
    then rm_ret (Some SignedPrekeyExpired)
    else
      match er_one_time_prekey_id request with
      | None => rm_ret None
      | Some key_id =>
          let k := (er_sender_id request, er_recipient_id request, key_id) in
          match prekey_reservations d !! k with
          | Some expires_at =>
              if er_now request <=? expires_at
              then run! modify (set_reservations (delete k (prekey_reservations d)));
                   rm_ret None
              else rm_ret (Some PrekeyReservationInvalid)
          | None => rm_ret (Some PrekeyReservationInvalid)
          end
      end.

(** The [rowid] of a new row of a table without AUTOINCREMENT: one more than
    the largest in use. *)
Definition next_rowid (q : list QueueRow) : Z :=
  match max_of (q_rowid <$> q) with Some m => m + 1 | None => 1 end.

(** [INSERT OR IGNORE INTO message_queue ..]: whether a row was added. *)
Definition insert_message (datetime_now : string) (request : EnqueueRequest) : dbm bool :=
  do! d <- rm_get;
  if bool_decide (er_message_id request ∈ q_message_id <$> message_queue d)
  then rm_ret false
  else
    run! check_user_fk (er_recipient_id request);
    run! modify (set_queue (message_queue d ++
      [mkQueueRow (next_rowid (message_queue d)) (er_message_id request) (er_recipient_id request)
         (er_sender_id request) (er_envelope_json request) datetime_now]));
    rm_ret true.

(** [INSERT INTO message_acceptances ..] *)
Definition insert_acceptance (request : EnqueueRequest) (envelope_digest : bytes) : dbm unit :=
  do! d <- rm_get;
  match message_acceptances d !! er_message_id request with
  | Some _ => rm_fail UniqueViolation
  | None => modify (set_acceptances
      (<[er_message_id request := mkAcceptanceRow (er_recipient_id request)
           (er_sender_id request) envelope_digest (er_now request)]> (message_acceptances d)))
  end.

Definition queue_depth (recipient_id : string) (q : list QueueRow) : Z :=
  Z.of_nat (length (filter (fun r => q_recipient_id r = recipient_id) q)).

Section Queue.
(** [Sha256::digest] of the [sha2] crate. *)
Context (sha256 : bytes -> bytes).

Definition enqueue (datetime_now : string) (request : EnqueueRequest) : dbm EnqueueResult :=
  transaction (
    let envelope_digest := sha256 (str_bytes (er_envelope_json request)) in
    do! existing <- classify_existing request envelope_digest;
    match existing with
    | Some result => rm_ret (Rollback result)
    | None =>
        do! d <- rm_get;
        if negb (bool_decide (is_Some (users d !! er_recipient_id request)))
        then rm_ret (Rollback RecipientNotFound)
        else if i64_of_usize (er_max_queue_per_user request)
                  <=? queue_depth (er_recipient_id request) (message_queue d)
        then rm_ret (Rollback QueueFull)
        else
          do! claim <- claim_prekey_reservation request;
          match claim with
          | Some result => rm_ret (Rollback result)
          | None =>
              do! changed <- insert_message datetime_now request;
              run! insert_acceptance request envelope_digest;
              rm_ret (Commit (if (changed : bool) then Inserted else Duplicate))
          end
    end).
End Queue.

(** [ORDER BY accepted_at LIMIT ?2] *)
Definition acceptance_le (x y : string * AcceptanceRow) : Prop :=
  a_accepted_at x.2 <= a_accepted_at y.2.
#[export] Instance acceptance_le_dec x y : Decision (acceptance_le x y).
Proof. unfold acceptance_le. apply _. Defined.

Definition pending_acceptances (sender_id : string) (limit : Z) : dbm (list string) := fun d =>
  (Ok (take (Z.to_nat (i64_of_usize limit))
        (merge_sort acceptance_le
          (filter (fun r => a_sender_id r.2 = sender_id) (map_to_list (message_acceptances d)))).*1),
   d).

(** One [DELETE FROM message_acceptances WHERE sender_id = ?1 AND message_id = ?2]. *)
Definition delete_acceptance (sender_id : string) (acc : Z * gmap string AcceptanceRow)
    (message_id : string) : Z * gmap string AcceptanceRow :=
  match acc.2 !! message_id with
  | Some a => if bool_decide (a_sender_id a = sender_id)
              then (acc.1 + 1, delete message_id acc.2) else acc
  | None => acc
  end.

Definition confirm_acceptances (sender_id : string) (message_ids : list string) : dbm unit :=
  transaction (
    do! d <- rm_get;
    let '(deleted, t) :=
      fold_left (delete_acceptance sender_id) message_ids (0, message_acceptances d) in
    run! modify (fun d => set_acceptances t d);
    run! modify (fun d => set_item_count (Z.max 0 (item_count d - i64_of_usize deleted)) d);
    rm_ret (Commit tt)).

Record QueuedRow := mkQueuedRow {
  row_id : Z;
  message_id : string;
  sender_id : string;
  envelope_json : string;
  created_at : string;
}.

Definition rowid_le (x y : QueueRow) : Prop := q_rowid x <= q_rowid y.
#[export] Instance rowid_le_dec x y : Decision (rowid_le x y).
Proof. unfold rowid_le. apply _. Defined.

Definition get_next_pending (recipient_id : string) (after_row_id : Z) : dbm (option QueuedRow) :=
  fun d =>
  (Ok ((fun r => mkQueuedRow (q_rowid r) (q_message_id r) (q_sender_id r) (q_envelope r)
                   (q_created_at r))
       <$> head (merge_sort rowid_le
             (filter (fun r => q_recipient_id r = recipient_id /\ after_row_id < q_rowid r)
                (message_queue d)))), d).

(** One [DELETE FROM message_queue WHERE message_id = ?1 AND recipient_id = ?2]. *)
Definition delete_message (recipient_id : string) (acc : Z * list QueueRow) (id : string)
  : Z * list QueueRow :=
  let keep := filter (fun r => ~ (q_message_id r = id /\ q_recipient_id r = recipient_id)) acc.2 in
  (acc.1 + Z.of_nat (length acc.2 - length keep), keep).

Definition delete_messages (recipient_id : string) (message_ids : list string) : dbm Z :=
  transaction (
    do! d <- rm_get;
    let '(deleted, q) := fold_left (delete_message recipient_id) message_ids (0, message_queue d) in
    run! modify (fun d => set_queue q d);
    rm_ret (Commit deleted)).

Definition delete_invalid_row (recipient_id : string) (row_id : Z) : dbm unit :=
  modify (fun d => set_queue
    (filter (fun r => ~ (q_rowid r = row_id /\ q_recipient_id r = recipient_id))
       (message_queue d)) d).

(** [created_at < datetime('now', '-N days')] compares text; [cutoff] is that
    text. *)
Definition text_lt (a b : string) : bool :=
  match String.compare a b with Lt => true | _ => false end.

Definition gc_old_messages (cutoff : string) : dbm Z := fun d =>
  let keep := filter (fun r => text_lt (q_created_at r) cutoff = false) (message_queue d) in
  (Ok (Z.of_nat (length (message_queue d) - length keep)), set_queue keep d).

(** ** Queue facts *)

Section QueueFacts.
Context (sha256 : bytes -> bytes).
Abbreviation digest rq := (sha256 (str_bytes (er_envelope_json rq))).

(** The database once a request has passed its checks. *)
Definition claimed_db (rq : EnqueueRequest) (d : Db) : Db :=
  let d1 := drop_reservations (er_now rq) (set_item_count (item_count d + 1) d) in
  match er_one_time_prekey_id rq with
  | None => d1
  | Some k => set_reservations
      (delete (er_sender_id rq, er_recipient_id rq, k) (prekey_reservations d1)) d1
  end.

Definition accepted_row (rq : EnqueueRequest) : AcceptanceRow :=
  mkAcceptanceRow (er_recipient_id rq) (er_sender_id rq) (digest rq) (er_now rq).

Definition queued_row (dt : string) (rq : EnqueueRequest) (q : list QueueRow) : QueueRow :=
  mkQueueRow (next_rowid q) (er_message_id rq) (er_recipient_id rq) (er_sender_id rq)
    (er_envelope_json rq) dt.

Lemma claim_cases rq d :
  (exists r d', claim_prekey_reservation rq d = (Ok (Some r), d')
     /\ (r = AcceptanceLedgerFull \/ r = SignedPrekeyExpired \/ r = PrekeyReservationInvalid))
  \/ (claim_prekey_reservation rq d = (Ok None, claimed_db rq d)
      /\ count_sender (er_sender_id rq) (message_acceptances d) < MAX_PENDING_OUTBOUND_ITEMS
      /\ item_count d < MAX_GLOBAL_ACCEPTANCES
      /\ (forall k, er_signed_prekey_id rq = Some k ->
            is_Some (signed_prekeys d !! (er_recipient_id rq, k)))
      /\ (forall k, er_one_time_prekey_id rq = Some k -> exists x,
            prekey_reservations d !! (er_sender_id rq, er_recipient_id rq, k) = Some x
            /\ er_now rq <= x)).
Proof.
  unfold claim_prekey_reservation, claimed_db. rm_unfold. unfold modify.
  destruct (Z.leb_spec (i64_of_usize MAX_PENDING_OUTBOUND_ITEMS)
    (count_sender (er_sender_id rq) (message_acceptances d))) as [|Hs]; [left; eauto 10|].
  destruct (Z.ltb_spec (item_count d) MAX_GLOBAL_ACCEPTANCES) as [Hg|]; [|left; eauto 10]. simpl.
  destruct (er_signed_prekey_id rq) as [sk|]; simpl;
    [case_bool_decide as Hsk; simpl; [|left; eauto 10]|].
  all: destruct (er_one_time_prekey_id rq) as [k|]; simpl.
  all: try (destruct (filter _ (prekey_reservations d) !! _) as [x|] eqn:Hx; [|left; eauto 10];
            destruct (Z.leb_spec (er_now rq) x); [|left; eauto 10];
            apply map_lookup_filter_Some in Hx as [Hx _]).
  all: right; split; [done|]; split; [exact Hs|]; split; [done|]; naive_solver.
Qed.

(** What an enqueue can do: nothing, or accept the message. *)
Lemma enqueue_cases dt rq d :
  (exists r, enqueue sha256 dt rq d = (Ok r, d)
     /\ (r = Inserted -> False)
     /\ (r = Duplicate -> exists a, message_acceptances d !! er_message_id rq = Some a
          /\ a_recipient_id a = er_recipient_id rq /\ a_sender_id a = er_sender_id rq
          /\ a_envelope_digest a = digest rq)
     /\ (r = MessageIdConflict -> exists a, message_acceptances d !! er_message_id rq = Some a))
  \/ (message_acceptances d !! er_message_id rq = None
      /\ is_Some (users d !! er_recipient_id rq)
      /\ queue_depth (er_recipient_id rq) (message_queue d)
           < i64_of_usize (er_max_queue_per_user rq)
      /\ count_sender (er_sender_id rq) (message_acceptances d) < MAX_PENDING_OUTBOUND_ITEMS
      /\ item_count d < MAX_GLOBAL_ACCEPTANCES
      /\ (forall k, er_signed_prekey_id rq = Some k ->
            is_Some (signed_prekeys d !! (er_recipient_id rq, k)))
      /\ (forall k, er_one_time_prekey_id rq = Some k -> exists x,
            prekey_reservations d !! (er_sender_id rq, er_recipient_id rq, k) = Some x
            /\ er_now rq <= x)
      /\ let queued := bool_decide (er_message_id rq ∈ q_message_id <$> message_queue d) in
         enqueue sha256 dt rq d =
           (Ok (if queued then Duplicate else Inserted),
            set_acceptances (<[er_message_id rq := accepted_row rq]> (message_acceptances d))
              (set_queue (message_queue d ++
                   if queued then [] else [queued_row dt rq (message_queue d)])
                 (claimed_db rq d)))).
Proof.
  unfold enqueue, transaction, classify_existing. rm_unfold.
  destruct (message_acceptances d !! er_message_id rq) as [a|] eqn:Ha; simpl.
  { left. eexists. split; [done|]. repeat case_bool_decide; simpl; naive_solver. }
  case_bool_decide as Hu; simpl; [|left; eexists; split; [done|]; naive_solver].
  destruct (Z.leb_spec (i64_of_usize (er_max_queue_per_user rq))
    (queue_depth (er_recipient_id rq) (message_queue d))) as [|Hd];
    [left; eexists; split; [done|]; naive_solver|].
  destruct (claim_cases rq d) as [(r & d' & E & Hr)|(E & Hs & Hg & Hsk & Hok)]; rewrite E.
  { left. exists r. split; [done|]. naive_solver. }
  right. repeat (split; [done|]). cbv zeta.
  assert (message_queue (claimed_db rq d) = message_queue d
    /\ users (claimed_db rq d) = users d
    /\ message_acceptances (claimed_db rq d) = message_acceptances d) as (Hq & Hus & Hac).
  { unfold claimed_db. by destruct (er_one_time_prekey_id rq). }
  unfold insert_message, insert_acceptance, check_user_fk, modify. rm_unfold. rewrite Hq.
  destruct Hu as [ik Hik]. case_bool_decide; simpl; rewrite ?Hus, ?Hik; simpl; rewrite Hac, Ha; simpl.
  - rewrite app_nil_r, <- Hq. unfold set_acceptances, set_queue. by destruct (claimed_db rq d).
  - done.
Qed.
End QueueFacts.
