(* ===== verification/DbReceipts.v ===== *)
(** * The read-receipt queue ([crates/server/src/db/receipts.rs])

    Durable read receipts: pending until the recipient acknowledges them, then
    kept until the sender has confirmed the acknowledgement. *)
From stdpp Require Import base numbers list sorting strings gmap.
From S2P Require Import Prelude SqlDb DbQueue.
Local Open Scope Z_scope.
Local Open Scope cmp_scope.

Inductive ReceiptEnqueueResult :=
| ReceiptInserted
| ReceiptDuplicate
| ReceiptAlreadyAcknowledged
| ReceiptCollision
| ReceiptQueueFull.

Definition next_receipt_rowid (q : list ReceiptRow) : Z :=
  match max_of (r_rowid <$> q) with Some m => m + 1 | None => 1 end.

Definition find_receipt (receipt_id : string) (q : list ReceiptRow) : option ReceiptRow :=
  head (filter (fun r => r_receipt_id r = receipt_id) q).

Definition receipt_depth (recipient_id : string) (q : list ReceiptRow) : Z :=
  Z.of_nat (length (filter (fun r => r_recipient_id r = recipient_id /\ r_acknowledged r = false) q)).
Definition receipts_sent (sender_id : string) (q : list ReceiptRow) : Z :=
  Z.of_nat (length (filter (fun r => r_sender_id r = sender_id) q)).

Definition enqueue_receipt (datetime_now receipt_id recipient_id sender_id envelope : string)
    (max_queue_per_user : Z) : dbm ReceiptEnqueueResult :=
  transaction (
    do! d <- rm_get;
    match find_receipt receipt_id (read_receipt_queue d) with
    | Some existing =>
        rm_ret (Rollback (
          if bool_decide (r_recipient_id existing <> recipient_id)
             || bool_decide (r_sender_id existing <> sender_id)
          then ReceiptCollision
          else if r_acknowledged existing then ReceiptAlreadyAcknowledged else ReceiptDuplicate))
    | None =>
        if i64_of_usize max_queue_per_user <=? receipt_depth recipient_id (read_receipt_queue d)
        then rm_ret (Rollback ReceiptQueueFull)
        else if i64_of_usize max_queue_per_user <=? receipts_sent sender_id (read_receipt_queue d)
        then rm_ret (Rollback ReceiptQueueFull)
        else
          run! check_user_fk recipient_id;
          run! modify (set_receipts (read_receipt_queue d ++
            [mkReceiptRow (next_receipt_rowid (read_receipt_queue d)) receipt_id recipient_id
               sender_id envelope false datetime_now]));
          rm_ret (Commit ReceiptInserted)
    end).

Record QueuedReceipt := mkQueuedReceipt {
  qr_receipt_id : string;
  qr_sender_id : string;
  qr_envelope : string;
}.

(** [ORDER BY created_at, rowid] *)
Definition receipt_le (x y : ReceiptRow) : Prop :=
  match String.compare (r_created_at x) (r_created_at y) with
  | Lt => True
  | Eq => r_rowid x <= r_rowid y
  | Gt => False
  end.
#[export] Instance receipt_le_dec x y : Decision (receipt_le x y).
Proof. unfold receipt_le. destruct (String.compare _ _); apply _. Defined.

Definition pending (recipient_id : string) : dbm (list QueuedReceipt) := fun d =>
  (Ok ((fun r => mkQueuedReceipt (r_receipt_id r) (r_sender_id r) (r_envelope r))
    <$> take 1000 (merge_sort receipt_le
          (filter (fun r => r_recipient_id r = recipient_id /\ r_acknowledged r = false)
             (read_receipt_queue d)))), d).

Definition mark (r : ReceiptRow) : ReceiptRow :=
  mkReceiptRow (r_rowid r) (r_receipt_id r) (r_recipient_id r) (r_sender_id r) (r_envelope r) true
    (r_created_at r).

(** The loop body of [acknowledge]. *)
Definition acknowledge_one (recipient_id : string) (acc : list (string * string) * list ReceiptRow)
    (receipt_id : string) : list (string * string) * list ReceiptRow :=
  match head (filter (fun r => r_receipt_id r = receipt_id /\ r_recipient_id r = recipient_id) acc.2) with
  | Some row =>
      (acc.1 ++ [(receipt_id, r_sender_id row)],
       (fun r => if bool_decide (r_receipt_id r = receipt_id /\ r_recipient_id r = recipient_id)
                 then mark r else r) <$> acc.2)
  | None => acc
  end.

Definition acknowledge (recipient_id : string) (receipt_ids : list string)
  : dbm (list (string * string)) :=
  transaction (
    do! d <- rm_get;
    let '(acknowledged, q) :=
      fold_left (acknowledge_one recipient_id) receipt_ids ([], read_receipt_queue d) in
    run! modify (fun d => set_receipts q d);
    rm_ret (Commit acknowledged)).

Definition confirmed_for_sender (sender_id : string) : dbm (list string) := fun d =>
  (Ok (r_receipt_id <$> take 1000 (merge_sort receipt_le
        (filter (fun r => r_sender_id r = sender_id /\ r_acknowledged r = true)
           (read_receipt_queue d)))), d).

Definition confirm_sender_received (sender_id : string) (receipt_ids : list string) : dbm unit :=
  transaction (
    run! modify (fun d => set_receipts
      (fold_left (fun q receipt_id =>
         filter (fun r => ~ (r_receipt_id r = receipt_id /\ r_sender_id r = sender_id
                             /\ r_acknowledged r = true)) q) receipt_ids (read_receipt_queue d)) d);
    rm_ret (Commit tt)).

Definition delete_invalid (recipient_id receipt_id : string) : dbm unit :=
  modify (fun d => set_receipts
    (filter (fun r => ~ (r_receipt_id r = receipt_id /\ r_recipient_id r = recipient_id))
       (read_receipt_queue d)) d).

(** ** Life of a receipt *)

(** A receipt is delivered before it is confirmed: a row that has not been
    acknowledged survives every confirmation, whoever sends it. *)
Lemma confirm_keeps_unacknowledged (sender : string) (ids : list string) (q : list ReceiptRow) r :
  r ∈ q -> r_acknowledged r = false ->
  r ∈ fold_left (fun q receipt_id =>
         filter (fun r => ~ (r_receipt_id r = receipt_id /\ r_sender_id r = sender
                             /\ r_acknowledged r = true)) q) ids q.
Proof.
  revert q. induction ids as [|i ids IH]; intros q Hin Ha; simpl; [done|].
  apply IH; [|done]. apply list_elem_of_filter. split; [|done]. intros (_ & _ & ?). congruence.
Qed.

Lemma acknowledge_one_length u acc i : length (acknowledge_one u acc i).2 = length acc.2.
Proof. unfold acknowledge_one. destruct (head _); simpl; [by rewrite length_fmap|done]. Qed.

(** What acknowledging a list of receipts does to one row: it is marked when
    its id is in the list and it is addressed to the acknowledging user. *)
Definition acked_by (u : string) (ids : list string) (r : ReceiptRow) : ReceiptRow :=
  if bool_decide (r_receipt_id r ∈ ids /\ r_recipient_id r = u) then mark r else r.

Lemma acknowledge_rows u ids acc :
  (fold_left (acknowledge_one u) ids acc).2 = acked_by u ids <$> acc.2.
Proof.
  revert acc. induction ids as [|i ids IH]; intros [ack q]; simpl.
  - rewrite <- (list_fmap_id q) at 1. apply list_fmap_ext. intros k r _.
    unfold acked_by. rewrite bool_decide_eq_false_2; [done|]. intros [Hin _]. by apply elem_of_nil in Hin.
  - rewrite IH. unfold acknowledge_one. cbn [fst snd].
    destruct (head _) as [row|] eqn:Hh; simpl.
    + rewrite <- list_fmap_compose. apply list_fmap_ext. intros k r _. unfold acked_by, compose.
      repeat case_bool_decide; simpl in *; try done; set_solver.
    + apply list_fmap_ext. intros k r Hk. unfold acked_by.
      assert (~ (r_receipt_id r = i /\ r_recipient_id r = u)) as Hn.
      { intros Hr. apply list_elem_of_lookup_2 in Hk.
        assert (r ∈ filter (fun r => r_receipt_id r = i /\ r_recipient_id r = u) q) as Hin
          by (by apply list_elem_of_filter).
        destruct (filter _ q); [by apply elem_of_nil in Hin|done]. }
      repeat case_bool_decide; simpl in *; try done; set_solver.
Qed.

(** Acknowledging is scoped to the recipient: every row keeps its place and
    contents, and only rows addressed to the acknowledging user whose id was
    named become acknowledged. *)
Lemma acknowledge_scoped u ids d :
  exists acked, acknowledge u ids d
    = (Ok acked, set_receipts (acked_by u ids <$> read_receipt_queue d) d).
Proof.
  unfold acknowledge, transaction. rm_unfold. unfold modify.
  pose proof (acknowledge_rows u ids ([], read_receipt_queue d)) as E.
  destruct (fold_left _ ids _) as [acked q]. simpl in *. subst q. eauto.
Qed.
