(* ===== verification/DbTrace.v ===== *)
(** * Histories of the relay's database

    Connections are served concurrently, but every database operation is one
    closure on the database thread: what the server does to its database is a
    sequence of the operations of [DbUsers], [DbPrekeys], [DbQueue] and
    [DbReceipts], in any order, with any arguments.  The theorems of this file
    hold for every such sequence, from the empty database: they are what the
    relay guarantees however its clients behave and interleave. *)
From stdpp Require Import base numbers list sorting strings gmap.
From S2P Require Import Prelude Consts SqlDb DbUsers DbPrekeys DbQueue DbReceipts.
Local Open Scope Z_scope.
Local Open Scope cmp_scope.

(** The limits [handlers/prekey.rs] fetches with. *)
Definition FETCH_WINDOW_SECS : Z := 60 * 60.
Definition FETCHES_PER_REQUESTER : Z := 10.
Definition FETCHES_PER_TARGET : Z := 20.
Definition fetch_limits : FetchLimits :=
  mkFetchLimits FETCH_WINDOW_SECS FETCHES_PER_REQUESTER FETCHES_PER_TARGET.

(** The operations that write, with the arguments the handlers pass; a failing
    database call ([OpFault]) changes nothing. *)
Inductive op :=
| OpFault
| OpRegister (unixepoch : Z) (r : Registration)
| OpUpload (unixepoch : Z) (user_id : string) (new : list (Z * bytes))
| OpRotate (user_id : string) (key_id : Z) (public_key signature : bytes)
| OpFetch (requester_id target_id : string) (now : Z)
| OpEnqueue (datetime_now : string) (request : EnqueueRequest)
| OpConfirm (sender_id : string) (message_ids : list string)
| OpDelete (recipient_id : string) (message_ids : list string)
| OpDeleteRow (recipient_id : string) (row_id : Z)
| OpGc (cutoff : string)
| OpReceipt (datetime_now receipt_id recipient_id sender_id envelope : string)
| OpAckReceipts (recipient_id : string) (receipt_ids : list string)
| OpConfirmReceipts (sender_id : string) (receipt_ids : list string)
| OpDeleteReceipt (recipient_id receipt_id : string).

Inductive outcome :=
| RFetch (r : result DbError FetchResult)
| REnqueue (r : result DbError EnqueueResult)
| ROther.

Section Trace.
Context `{SqlPick}.
Context (sha256 : bytes -> bytes).

Definition exec (o : op) (d : Db) : outcome * Db :=
  match o with
  | OpFault => (ROther, d)
  | OpRegister t r => (ROther, (register_atomic t r d).2)
  | OpUpload t u new => (ROther, (upload_prekeys t u new MAX_PREKEYS_PER_USER d).2)
  | OpRotate u k pk sig => (ROther, (rotate_signed_prekey u k pk sig d).2)
  | OpFetch r t now =>
      let '(res, d') := fetch_for_requester r t now fetch_limits d in (RFetch res, d')
  | OpEnqueue dt rq => let '(res, d') := enqueue sha256 dt rq d in (REnqueue res, d')
  | OpConfirm s ids => (ROther, (confirm_acceptances s ids d).2)
  | OpDelete u ids => (ROther, (delete_messages u ids d).2)
  | OpDeleteRow u i => (ROther, (delete_invalid_row u i d).2)
  | OpGc cutoff => (ROther, (gc_old_messages cutoff d).2)
  | OpReceipt dt i u s e => (ROther, (enqueue_receipt dt i u s e MAX_QUEUE_PER_USER d).2)
  | OpAckReceipts u ids => (ROther, (acknowledge u ids d).2)
  | OpConfirmReceipts s ids => (ROther, (confirm_sender_received s ids d).2)
  | OpDeleteReceipt u i => (ROther, (delete_invalid u i d).2)
  end.

Fixpoint run (ops : list op) (d : Db) : list (op * outcome) * Db :=
  match ops with
  | [] => ([], d)
  | o :: ops' =>
      let '(r, d') := exec o d in
      let '(h, d'') := run ops' d' in ((o, r) :: h, d'')
  end.

Lemma run_cons o ops d :
  run (o :: ops) d = ((o, (exec o d).1) :: (run ops (exec o d).2).1, (run ops (exec o d).2).2).
Proof.
  simpl. destruct (exec o d) as [r d']. simpl. by destruct (run ops d').
Qed.
End Trace.

(** ** Frames: what an operation leaves alone *)

Lemma rotate_frame u k pk sig d :
  exists t, (rotate_signed_prekey u k pk sig d).2 = set_signed_prekeys t d.
Proof.
  unfold rotate_signed_prekey, transaction. rm_unfold.
  exists (signed_prekeys (rotate_signed_prekey u k pk sig d).2).
  unfold rotate_signed_prekey, transaction, check_user_fk, modify. rm_unfold.
  destruct (ok_or _ _) as [c|]; simpl; [|by destruct d].
  destruct (get_u32 c) as [cur|]; simpl; [|by destruct d].
  destruct (signed_prekeys d !! (u, k)); simpl; [by destruct d|].
  destruct (k <=? cur); simpl; [by destruct d|].
  destruct (users d !! u); simpl; by destruct d.
Qed.

Lemma confirm_frame s ids d :
  exists n t, confirm_acceptances s ids d
    = (Ok tt, set_item_count (Z.max 0 (item_count d - i64_of_usize n)) (set_acceptances t d))
  /\ fold_left (delete_acceptance s) ids (0, message_acceptances d) = (n, t).
Proof.
  unfold confirm_acceptances, transaction. rm_unfold. unfold modify.
  destruct (fold_left _ ids _) as [n t]. eauto.
Qed.

Lemma delete_frame u ids d :
  (delete_messages u ids d).2
  = set_queue (fold_left (delete_message u) ids (0, message_queue d)).2 d.
Proof.
  unfold delete_messages, transaction. rm_unfold. unfold modify.
  by destruct (fold_left _ ids _) as [n t].
Qed.

Lemma receipt_frame dt i u s e mx d :
  exists t, (enqueue_receipt dt i u s e mx d).2 = set_receipts t d.
Proof.
  unfold enqueue_receipt, transaction, check_user_fk, modify. rm_unfold.
  destruct (find_receipt _ _); [exists (read_receipt_queue d); by destruct d|].
  destruct (_ <=? _); [exists (read_receipt_queue d); by destruct d|].
  destruct (_ <=? _); [exists (read_receipt_queue d); by destruct d|].
  destruct (users d !! u); simpl; eauto. exists (read_receipt_queue d). by destruct d.
Qed.

Lemma confirm_receipts_frame s ids d :
  exists t, (confirm_sender_received s ids d).2 = set_receipts t d.
Proof. unfold confirm_sender_received, transaction. rm_unfold. unfold modify. eauto. Qed.

Lemma acknowledge_frame u ids d : exists t, (acknowledge u ids d).2 = set_receipts t d.
Proof. destruct (acknowledge_scoped u ids d) as [a ->]. eauto. Qed.

(** Rewrite the frame of the operation in the goal, when it only touches the
    tables of one component. *)
Ltac frame :=
  match goal with
  | |- context [rotate_signed_prekey ?u ?k ?p ?s ?d] =>
      let t := fresh "t" in let E := fresh in
      destruct (rotate_frame u k p s d) as [t E]; rewrite E; clear E
  | |- context [enqueue_receipt ?a ?b ?c ?x ?y ?z ?d] =>
      let t := fresh "t" in let E := fresh in
      destruct (receipt_frame a b c x y z d) as [t E]; rewrite E; clear E
  | |- context [confirm_sender_received ?a ?b ?d] =>
      let t := fresh "t" in let E := fresh in
      destruct (confirm_receipts_frame a b d) as [t E]; rewrite E; clear E
  | |- context [acknowledge ?a ?b ?d] =>
      let t := fresh "t" in let E := fresh in
      destruct (acknowledge_frame a b d) as [t E]; rewrite E; clear E
  | |- context [delete_messages ?u ?ids ?d] => rewrite (delete_frame u ids d)
  end.

(** ** One-time pre-keys are used once *)

(** The pre-key a history entry handed out, and the one it accepted a first
    message for. *)
Definition handed_by (e : op * outcome) : option (string * Z) :=
  match e with
  | (OpFetch _ t _, RFetch (Ok (Fetched k _))) => Some (t, k)
  | _ => None
  end.
Definition claimed_by (e : op * outcome) : option (string * Z) :=
  match e with
  | (OpEnqueue _ rq, REnqueue (Ok Inserted)) =>
      (fun k => (er_recipient_id rq, k)) <$> er_one_time_prekey_id rq
  | _ => None
  end.

Record rv_inv (handed claimed : gset (string * Z)) (d : Db) : Prop := {
  rv_open r t k : is_Some (prekey_reservations d !! (r, t, k)) ->
    (t, k) ∈ handed /\ (t, k) ∉ claimed;
  rv_unique r r' t k : is_Some (prekey_reservations d !! (r, t, k)) ->
    is_Some (prekey_reservations d !! (r', t, k)) -> r = r';
  rv_sub p : p ∈ claimed -> p ∈ handed;
}.

Definition option_set (o : option (string * Z)) : gset (string * Z) :=
  match o with Some p => {[p]} | None => ∅ end.

Section PrekeyHistory.
Context `{SqlPickLaws}.
Context (sha256 : bytes -> bytes).

Lemma pk_inv_frame handed d d' :
  users d' = users d -> prekeys d' = prekeys d -> prekey_inventory d' = prekey_inventory d ->
  (forall k, is_Some (prekey_reservations d' !! k) -> is_Some (prekey_reservations d !! k)) ->
  pk_inv handed d -> pk_inv handed d'.
Proof.
  intros Eu Ep Ei Er [Iu Is Ih Ir]. split; rewrite ?Eu, ?Ep, ?Ei; try done. eauto.
Qed.

Lemma rv_inv_frame handed claimed d d' :
  (forall k, is_Some (prekey_reservations d' !! k) -> is_Some (prekey_reservations d !! k)) ->
  rv_inv handed claimed d -> rv_inv handed claimed d'.
Proof. intros Er [Io Iu Is]. split; eauto. Qed.

Lemma claimed_db_reservations rq d k :
  is_Some (prekey_reservations (claimed_db rq d) !! k) ->
  is_Some (prekey_reservations d !! k)
  /\ forall k', er_one_time_prekey_id rq = Some k' ->
       k <> (er_sender_id rq, er_recipient_id rq, k').
Proof.
  unfold claimed_db. destruct (er_one_time_prekey_id rq) as [k0|]; simpl.
  - intros [x [Hne Hx]%lookup_delete_Some]. apply map_lookup_filter_Some in Hx as [Hx _].
    split; [eauto|]. intros k' [= <-]. congruence.
  - intros [x Hx]. apply map_lookup_filter_Some in Hx as [Hx _]. split; [eauto|done].
Qed.

Lemma exec_pk_inv handed o d :
  pk_inv handed d ->
  let e := (o, (exec sha256 o d).1) in
  (forall p, handed_by e = Some p -> p ∉ handed)
  /\ pk_inv (option_set (handed_by e) ∪ handed) (exec sha256 o d).2.
Proof.
  intros I. cbv zeta.
  assert (Hnone : forall X : gset (string * Z), option_set None ∪ X = X) by (intros; set_solver).
  destruct o; cbn [exec fst snd handed_by]; rewrite ?Hnone; (try frame);
    try (split; [done|]; eapply pk_inv_frame; [..|exact I]; done).
  - split; [done|]. eapply register_pk_inv; [exact I|]. apply surjective_pairing.
  - split; [done|]. eapply upload_pk_inv; [exact I|]. apply surjective_pairing.
  - destruct (fetch_for_requester _ _ _ _ d) as [res d'] eqn:E. cbn [fst snd].
    apply (fetch_pk_inv handed) in E; [|done].
    destruct res as [[]|]; rewrite ?Hnone; try done.
    destruct E as [Hni HI]. split; [|done]. by intros p [= <-].
  - destruct (enqueue_cases sha256 datetime_now request d)
      as [(r & E & _)|(_ & _ & _ & _ & _ & _ & _ & E)]; cbv zeta in E; rewrite E;
      cbn [fst snd handed_by]; rewrite ?Hnone; (split; [done|]); [done|].
    eapply pk_inv_frame; [..|exact I]; unfold claimed_db;
      destruct (er_one_time_prekey_id request); try done.
    + intros k. simpl. intros [x [_ Hx]%lookup_delete_Some].
      apply map_lookup_filter_Some in Hx as [Hx _]. eauto.
    + intros k. simpl. intros [x Hx]. apply map_lookup_filter_Some in Hx as [Hx _]. eauto.
  - destruct (confirm_frame sender_id message_ids d) as (n & t & -> & _).
    split; [done|]. eapply pk_inv_frame; [..|exact I]; done.
Qed.

Definition handed_of (h : list (op * outcome)) : list (string * Z) := omap handed_by h.
Definition claimed_of (h : list (op * outcome)) : list (string * Z) := omap claimed_by h.

Lemma run_handed ops handed d :
  pk_inv handed d ->
  NoDup (handed_of (run sha256 ops d).1)
  /\ forall p, p ∈ handed_of (run sha256 ops d).1 -> p ∉ handed.
Proof.
  revert handed d. induction ops as [|o ops IH]; intros handed d I.
  - simpl. split; [by apply NoDup_nil|]. intros p Hp. by apply elem_of_nil in Hp.
  - rewrite run_cons. cbn [fst]. unfold handed_of. cbn [omap list_omap].
    destruct (exec_pk_inv handed o d I) as [Hn I'].
    destruct (IH _ _ I') as [Hnd Hni]. fold (handed_of (run sha256 ops (exec sha256 o d).2).1).
    destruct (handed_by _) as [p|] eqn:E; simpl in *.
    + split.
      * apply NoDup_cons. split; [|done]. intros Hin. apply Hni in Hin. set_solver.
      * intros q [->|Hq]%elem_of_cons; [by apply Hn|]. apply Hni in Hq. set_solver.
    + split; [done|]. intros q Hq. apply Hni in Hq. set_solver.
Qed.

(** No one-time pre-key is handed out twice: in every sequence of database
    operations, by any users, with expiry, uploads and re-uploads in
    between, the pre-keys the fetches return are pairwise distinct. *)
Lemma prekey_handed_out_once ops : NoDup (handed_of (run sha256 ops empty_db).1).
Proof. apply (run_handed ops ∅). apply pk_inv_empty. Qed.

Lemma swept_reservations t now limits d k :
  is_Some (prekey_reservations (swept t now limits d) !! k) -> is_Some (prekey_reservations d !! k).
Proof. intros [x Hx]. simpl in Hx. apply map_lookup_filter_Some in Hx as [Hx _]. eauto. Qed.

Lemma fetch_rv_inv handed claimed r t now d :
  pk_inv handed d -> rv_inv handed claimed d ->
  let e := (OpFetch r t now, (exec sha256 (OpFetch r t now) d).1) in
  rv_inv (option_set (handed_by e) ∪ handed) claimed (exec sha256 (OpFetch r t now) d).2.
Proof.
  intros P I. cbv zeta.
  assert (Hnone : forall X : gset (string * Z), option_set None ∪ X = X) by (intros; set_solver).
  destruct (exec_pk_inv handed (OpFetch r t now) d P) as [Hnew _]. cbn [exec] in *.
  pose proof (swept_reservations t now fetch_limits d) as Hsw.
  pose proof (fetch_cases r t now fetch_limits d) as Hc. cbv zeta in Hc.
  destruct Hc as [(res & E & Hn)|[[E _]|(k & row & _ & _ & _ & E)]]; rewrite E in Hnew |- *;
    cbn [fst snd handed_by] in *.
  - destruct res as [[]|]; rewrite ?Hnone; try done. by destruct (Hn key_id public_key).
  - rewrite Hnone. by eapply rv_inv_frame.
  - specialize (Hnew _ eq_refl). clear E.
    revert Hsw. generalize (swept t now fetch_limits d). intros d0 Hsw.
    assert (forall x, x ∈ claimed -> x ∈ handed) as Hsub by apply I.
    destruct I as [Io Iu Is]. split; simpl.
    + intros r' t' k' [x [[[= <- <- <-] _]|[_ Hx]]%lookup_insert_Some]; [set_solver|].
      destruct (Io r' t' k'); [eauto|set_solver].
    + intros r1 r2 t' k' [x1 [[E1 _]|[_ H1]]%lookup_insert_Some]
        [x2 [[E2 _]|[_ H2]]%lookup_insert_Some].
      * congruence.
      * injection E1 as <- <- <-. destruct (Io r2 t k); [eauto|done].
      * injection E2 as <- <- <-. destruct (Io r1 t k); [eauto|done].
      * eapply Iu; eauto.
    + intros p Hp. apply elem_of_union. right. auto.
Qed.

Lemma enqueue_rv_inv handed claimed dt rq d :
  rv_inv handed claimed d ->
  let e := (OpEnqueue dt rq, (exec sha256 (OpEnqueue dt rq) d).1) in
  (forall p, claimed_by e = Some p -> p ∈ handed /\ p ∉ claimed)
  /\ rv_inv handed (option_set (claimed_by e) ∪ claimed) (exec sha256 (OpEnqueue dt rq) d).2.
Proof.
  intros I. cbv zeta. cbn [exec].
  assert (Hnone : forall X : gset (string * Z), option_set None ∪ X = X) by (intros; set_solver).
  destruct (enqueue_cases sha256 dt rq d)
    as [(r & E & Hni & _)|(_ & _ & _ & _ & _ & _ & Hres & E)]; cbv zeta in E; rewrite E;
    cbn [fst snd claimed_by].
  { by destruct r; rewrite ?Hnone. }
  set (d1 := set_acceptances _ _).
  assert (Hd1 : forall k, is_Some (prekey_reservations d1 !! k) ->
    is_Some (prekey_reservations d !! k)
    /\ forall k', er_one_time_prekey_id rq = Some k' ->
         k <> (er_sender_id rq, er_recipient_id rq, k')).
  { intros k. apply claimed_db_reservations. }
  clearbody d1. destruct (bool_decide _).
  { rewrite Hnone. split; [done|]. eapply rv_inv_frame; [|exact I]. naive_solver. }
  destruct (er_one_time_prekey_id rq) as [k|]; simpl.
  2:{ rewrite Hnone. split; [done|]. eapply rv_inv_frame; [|exact I]. naive_solver. }
  destruct (Hres k eq_refl) as (x & Hx & _). destruct I as [Io Iu Is].
  destruct (Io _ _ _ ltac:(eauto)) as [Hh Hc]. split; [by intros p [= <-]|]. split.
  - intros r t k' Hr. destruct (Hd1 _ Hr) as [Hr' Hne]. specialize (Hne k eq_refl).
    destruct (Io _ _ _ Hr'). split; [done|]. apply not_elem_of_union. split; [|done].
    apply not_elem_of_singleton. intros [= -> ->]. apply Hne. f_equal. f_equal.
    eapply Iu; eauto.
  - intros r r' t k' Hr Hr'. apply Hd1 in Hr as [? _], Hr' as [? _]. eauto.
  - intros p [->%elem_of_singleton|Hp]%elem_of_union; [done|auto].
Qed.

Lemma exec_rv_inv handed claimed o d :
  pk_inv handed d -> rv_inv handed claimed d ->
  let e := (o, (exec sha256 o d).1) in
  (forall p, claimed_by e = Some p -> p ∈ handed /\ p ∉ claimed)
  /\ rv_inv (option_set (handed_by e) ∪ handed) (option_set (claimed_by e) ∪ claimed)
       (exec sha256 o d).2.
Proof.
  intros P I. cbv zeta.
  assert (Hnone : forall X : gset (string * Z), option_set None ∪ X = X) by (intros; set_solver).
  destruct o.
  5: { split; [done|]. cbn [claimed_by]. rewrite Hnone. by apply fetch_rv_inv. }
  5: { cbn [handed_by]. rewrite Hnone. by apply enqueue_rv_inv. }
  all: cbn [exec fst snd handed_by claimed_by]; rewrite !Hnone; (try frame);
    try (split; [done|]; eapply rv_inv_frame; [..|exact I]; done).
  - split; [done|]. destruct (register_cases unixepoch r d)
      as [[_ E']|[(_ & _ & E')|(Hu & Hi & hw & Hle & _ & E')]]; rewrite E';
      (eapply rv_inv_frame; [..|exact I]; done).
  - split; [done|].
    destruct (upload_cases unixepoch user_id new MAX_PREKEYS_PER_USER d)
      as [(r & E')|(hw & m & Hi & Hm & Hlt & _ & r & E')]; [apply P|rewrite E'; done|].
    rewrite E'. eapply rv_inv_frame; [..|exact I]; done.
  - destruct (confirm_frame sender_id message_ids d) as (n & t & -> & _).
    split; [done|]. eapply rv_inv_frame; [..|exact I]; done.
Qed.

Lemma run_claimed ops handed claimed d :
  pk_inv handed d -> rv_inv handed claimed d ->
  NoDup (claimed_of (run sha256 ops d).1)
  /\ (forall p, p ∈ claimed_of (run sha256 ops d).1 ->
        (p ∉ claimed) /\ (p ∈ handed \/ p ∈ handed_of (run sha256 ops d).1)).
Proof.
  revert handed claimed d. induction ops as [|o ops IH]; intros handed claimed d P I.
  - simpl. split; [by apply NoDup_nil|]. intros p Hp. by apply elem_of_nil in Hp.
  - rewrite run_cons. cbn [fst]. unfold handed_of, claimed_of. cbn [omap list_omap].
    destruct (exec_pk_inv handed o d P) as [Hn P'].
    destruct (exec_rv_inv handed claimed o d P I) as [Hc I'].
    destruct (IH _ _ _ P' I') as [Hnd Hni].
    fold (handed_of (run sha256 ops (exec sha256 o d).2).1).
    fold (claimed_of (run sha256 ops (exec sha256 o d).2).1).
    destruct (handed_by _) as [q|] eqn:Eh, (claimed_by _) as [p|] eqn:Ec; simpl in *;
      (split; [|]); try (apply NoDup_cons; split; [|done]); try done.
    all: try (intros Hin; apply Hni in Hin; set_solver).
    all: intros x Hx; try (apply elem_of_cons in Hx as [->|Hx]).
    all: try (destruct (Hc _ eq_refl); split; [done|by left]).
    all: apply Hni in Hx; set_solver.
Qed.

(** A one-time pre-key serves one first message: the pre-keys of the
    accepted first messages are pairwise distinct, and each of them had been
    handed out to a requester before. *)
Lemma prekey_claimed_once ops :
  NoDup (claimed_of (run sha256 ops empty_db).1)
  /\ forall p, p ∈ claimed_of (run sha256 ops empty_db).1 ->
       p ∈ handed_of (run sha256 ops empty_db).1.
Proof.
  destruct (run_claimed ops ∅ ∅ empty_db) as [Hnd Hp]; [apply pk_inv_empty| |].
  { split; [intros r t k|intros r r' t k|set_solver]; simpl; rewrite lookup_empty; by intros []. }
  split; [done|]. intros p Hin. destruct (Hp p Hin) as [_ [Hh|Hh]]; [set_solver|done].
Qed.

(** C5: A one-time pre-key is used once.  In every sequence of database
    operations, by any users, with expiry, uploads and re-uploads in between,
    the pre-keys the fetches hand out are pairwise distinct, those of the
    accepted first messages are pairwise distinct, and each of the latter had
    been handed out to a requester. *)
Theorem prekey_used_once ops :
  let log := (run sha256 ops empty_db).1 in
  NoDup (handed_of log) /\ NoDup (claimed_of log) /\ forall p, p ∈ claimed_of log -> p ∈ handed_of log.
Proof. split; [apply prekey_handed_out_once|apply prekey_claimed_once]. Qed.
End PrekeyHistory.
