(* ===== verification/DbLimits.v ===== *)
(** * Limits and durability of the relay's database

    Over every history of [DbTrace]: the sizes the relay promises to keep
    (queue depth, pre-key inventory, signed pre-keys, acceptance ledger), the
    fetch rate limits over any one-hour window, and what survives until the
    user it belongs to lets it go. *)
From stdpp Require Import base numbers list sorting strings gmap.
From S2P Require Import Prelude Consts SqlDb DbUsers DbPrekeys DbQueue DbReceipts DbTrace.
Local Open Scope Z_scope.
Local Open Scope cmp_scope.

(** ** The relay's limits *)

(** The rows left after a recipient acknowledged [ids]. *)
Definition unacked (u : string) (ids : list string) (q : list QueueRow) : list QueueRow :=
  filter (fun r => ~ (q_message_id r ∈ ids /\ q_recipient_id r = u)) q.

Lemma delete_message_fold u ids acc :
  (fold_left (delete_message u) ids acc).2 = unacked u ids acc.2.
Proof.
  revert acc. induction ids as [|i ids IH]; intros [n q]; simpl.
  - unfold unacked. symmetry. apply filter_all. intros r _ [Hin _].
    by apply elem_of_nil in Hin.
  - rewrite IH. unfold delete_message, unacked. cbn [fst snd].
    rewrite list_filter_filter. apply list_filter_iff. intros r. rewrite elem_of_cons. naive_solver.
Qed.

(** A queue with distinct message ids, row ids in order, at most [max] rows
    per recipient, all of them users. *)
Record queue_wf (max : Z) (us : gmap string bytes) (q : list QueueRow) : Prop := {
  qw_ids : NoDup (q_message_id <$> q);
  qw_rowids : StronglySorted Z.lt (q_rowid <$> q);
  qw_depth u : queue_depth u q <= max;
  qw_users r : r ∈ q -> is_Some (us !! q_recipient_id r);
}.

Lemma StronglySorted_fmap_filter {A} (f : A -> Z) (P : A -> Prop) `{!forall x, Decision (P x)} l :
  StronglySorted Z.lt (f <$> l) -> StronglySorted Z.lt (f <$> filter P l).
Proof.
  induction l as [|x l IH]; intros Hs; [done|]. rewrite fmap_cons in Hs.
  apply StronglySorted_inv in Hs as [Hs Hx]. rewrite filter_cons. case_decide; [|by apply IH]. simpl. constructor; [by apply IH|].
  rewrite Forall_fmap in *. rewrite Forall_forall in *. intros y [_ Hy]%list_elem_of_filter.
  by apply Hx.
Qed.

Lemma queue_wf_filter max us q (P : QueueRow -> Prop) `{!forall x, Decision (P x)} :
  queue_wf max us q -> queue_wf max us (filter P q).
Proof.
  intros [Hi Hr Hd Hu]. split.
  - clear -Hi. induction q as [|r q IH]; [done|]. simpl in Hi. apply NoDup_cons in Hi as [Hn Hi].
    rewrite filter_cons. case_decide; [|by apply IH]. simpl. apply NoDup_cons. split; [|by apply IH].
    intros Hin. apply Hn. apply list_elem_of_fmap in Hin as (r' & -> & [_ ?]%list_elem_of_filter).
    by apply list_elem_of_fmap_2.
  - by apply StronglySorted_fmap_filter.
  - intros u. specialize (Hd u). unfold queue_depth in *.
    pose proof (filter_length_mono (fun r => q_recipient_id r = u) P q). lia.
  - intros r [_ Hin]%list_elem_of_filter. auto.
Qed.

Lemma queue_wf_users max us us' q :
  (forall u, is_Some (us !! u) -> is_Some (us' !! u)) -> queue_wf max us q -> queue_wf max us' q.
Proof. intros Hs [? ? ? Hu]. split; auto. Qed.

Lemma queue_depth_app u q r :
  queue_depth u (q ++ [r]) = queue_depth u q + (if decide (q_recipient_id r = u) then 1 else 0).
Proof.
  unfold queue_depth. rewrite filter_app, length_app. rewrite filter_cons.
  case_decide; simpl; lia.
Qed.

Lemma next_rowid_lt q r : r ∈ q -> q_rowid r < next_rowid q.
Proof.
  intros Hr. unfold next_rowid.
  destruct (max_of_Some (q_rowid r) (q_rowid <$> q)) as (m & -> & Hm); [|lia].
  by apply list_elem_of_fmap_2.
Qed.

Lemma queue_wf_insert max us q dt rq :
  queue_wf max us q -> is_Some (us !! er_recipient_id rq) ->
  queue_depth (er_recipient_id rq) q < max ->
  er_message_id rq ∉ q_message_id <$> q ->
  queue_wf max us (q ++ [queued_row dt rq q]).
Proof.
  intros [Hi Hr Hd Hu] Hus Hlt Hni. split.
  - rewrite fmap_app. apply NoDup_app. split; [done|]. split; [|apply NoDup_singleton].
    intros x Hx Hx'. simpl in Hx'. apply list_elem_of_singleton in Hx' as ->. done.
  - rewrite fmap_app. apply StronglySorted_app. split; [|split; [done|repeat constructor]].
    intros x y Hx Hy. simpl in Hy. apply list_elem_of_singleton in Hy as ->.
    apply list_elem_of_fmap in Hx as (r & -> & Hr'). by apply next_rowid_lt.
  - intros u. rewrite queue_depth_app. simpl. case_decide as E; [subst; lia|].
    specialize (Hd u). lia.
  - intros r [Hin|Hin]%elem_of_app; [auto|]. apply list_elem_of_singleton in Hin as ->. done.
Qed.

(** The acceptance ledger: the counter is exact, the limits hold. *)
Record ledger_wf (n : Z) (t : gmap string AcceptanceRow) : Prop := {
  lw_count : n = Z.of_nat (size t);
  lw_global : n <= MAX_GLOBAL_ACCEPTANCES;
  lw_sender s : count_sender s t <= MAX_PENDING_OUTBOUND_ITEMS;
}.

Lemma count_sender_insert s i a t :
  t !! i = None ->
  count_sender s (<[i := a]> t) = count_sender s t + (if decide (a_sender_id a = s) then 1 else 0).
Proof.
  intros Hi. unfold count_sender.
  destruct (decide (a_sender_id a = s)) as [E|E].
  - rewrite map_filter_insert_True by done. rewrite map_size_insert_None; [lia|].
    apply map_lookup_filter_None. by left.
  - rewrite map_filter_insert_False by done. rewrite delete_id by done. lia.
Qed.

Lemma count_sender_subset s t t' : t' ⊆ t -> count_sender s t' <= count_sender s t.
Proof.
  intros Hs. unfold count_sender.
  assert (filter (fun r => a_sender_id r.2 = s) t' ⊆ filter (fun r => a_sender_id r.2 = s) t) as Hf
    by (by apply map_filter_subseteq_mono).
  apply map_subseteq_size in Hf. lia.
Qed.

Lemma ledger_wf_insert n t i a :
  ledger_wf n t -> t !! i = None -> n < MAX_GLOBAL_ACCEPTANCES ->
  count_sender (a_sender_id a) t < MAX_PENDING_OUTBOUND_ITEMS ->
  ledger_wf (n + 1) (<[i := a]> t).
Proof.
  intros [Hc Hg Hs] Hi Hlt Hsl. split; [rewrite map_size_insert_None by done; lia|lia|].
  intros s. rewrite count_sender_insert by done. case_decide as E; [subst s; lia|].
  specialize (Hs s). lia.
Qed.

Lemma delete_acceptance_fold s ids n t :
  let '(m, t') := fold_left (delete_acceptance s) ids (n, t) in
  t' ⊆ t /\ m - n = Z.of_nat (size t) - Z.of_nat (size t')
  /\ forall i a, t !! i = Some a -> ~ (a_sender_id a = s /\ i ∈ ids) -> t' !! i = Some a.
Proof.
  revert n t. induction ids as [|i ids IH]; intros n t; simpl.
  - split; [done|]. split; [lia|done].
  - unfold delete_acceptance at 2. cbn [fst snd].
    destruct (t !! i) as [a|] eqn:Hi.
    2:{ specialize (IH n t). destruct (fold_left _ ids _) as [m t']. destruct IH as (? & ? & Hk).
        split; [done|]. split; [lia|]. intros j b Hj Hn. apply Hk; [done|]. set_solver. }
    case_bool_decide as Hs.
    + specialize (IH (n + 1) (delete i t)). destruct (fold_left _ ids _) as [m t'].
      destruct IH as (Hsub & Hm & Hk). rewrite map_size_delete, Hi in Hm.
      assert (size t <> 0)%nat.
      { intros Hz. apply map_size_empty_iff in Hz. subst. by rewrite lookup_empty in Hi. }
      split; [etrans; [exact Hsub|apply delete_subseteq]|]. split; [simpl in *; lia|].
      intros j b Hj Hn. apply Hk; [|set_solver].
      rewrite lookup_delete_ne; [done|]. intros ->. apply Hn. split; [congruence|by left].
    + specialize (IH n t). destruct (fold_left _ ids _) as [m t']. destruct IH as (? & ? & Hk).
      split; [done|]. split; [lia|]. intros j b Hj Hn. apply Hk; [done|]. set_solver.
Qed.

Lemma confirm_ledger s ids d :
  ledger_wf (item_count d) (message_acceptances d) ->
  exists t, confirm_acceptances s ids d
    = (Ok tt, set_item_count (Z.of_nat (size t)) (set_acceptances t d))
  /\ ledger_wf (Z.of_nat (size t)) t
  /\ forall i a, message_acceptances d !! i = Some a -> ~ (a_sender_id a = s /\ i ∈ ids) ->
       t !! i = Some a.
Proof.
  intros [Hc Hg Hs]. destruct (confirm_frame s ids d) as (n & t & E & Hf).
  pose proof (delete_acceptance_fold s ids 0 (message_acceptances d)) as H. rewrite Hf in H.
  destruct H as (Hsub & Hn & Hk). pose proof (map_subseteq_size _ _ Hsub).
  exists t. rewrite E. split; [|split; [|done]].
  - do 2 f_equal. unfold i64_of_usize.
    destruct (Z.leb_spec n i64_max); unfold i64_max, MAX_GLOBAL_ACCEPTANCES in *; lia.
  - split; [done|lia|]. intros s'. specialize (Hs s').
    pose proof (count_sender_subset s' _ _ Hsub). lia.
Qed.

(** ** Key tables *)

Lemma count_ids_subset {A} (u : string) (t t' : gmap (string * Z) A) :
  (forall k, is_Some (t' !! (u, k)) -> is_Some (t !! (u, k))) -> count_ids u t' <= count_ids u t.
Proof.
  intros Hs. unfold count_ids.
  enough (length (ids_of u t') <= length (ids_of u t))%nat by lia.
  apply NoDup_length_le; [apply ids_of_NoDup|]. intros k. rewrite !elem_of_ids_of. apply Hs.
Qed.

Lemma count_ids_with_prekeys now u l t :
  count_ids u (with_prekeys now u l t) <= count_ids u t + Z.of_nat (length l).
Proof.
  unfold count_ids.
  enough (length (ids_of u (with_prekeys now u l t)) <= length (ids_of u t ++ l.*1))%nat as Hl.
  { rewrite length_app, length_fmap in Hl. lia. }
  apply NoDup_length_le; [apply ids_of_NoDup|]. intros k.
  rewrite elem_of_ids_of, elem_of_app, elem_of_ids_of, with_prekeys_dom. naive_solver.
Qed.

Lemma count_ids_with_prekeys_other now u v l t :
  u <> v -> count_ids u (with_prekeys now v l t) <= count_ids u t.
Proof. intros Hne. apply count_ids_subset. intros k. rewrite with_prekeys_dom. naive_solver. Qed.

(** A rotation that changes the table leaves its user at most two signed
    pre-keys, of an existing user, and no new key to anyone else. *)
Lemma rotate_two u k pk sig d t :
  (rotate_signed_prekey u k pk sig d).2 = set_signed_prekeys t d ->
  t = signed_prekeys d
  \/ ((length (ids_of u t) <= 2)%nat /\ is_Some (users d !! u)
      /\ forall v k, v <> u -> is_Some (t !! (v, k)) -> is_Some (signed_prekeys d !! (v, k))).
Proof.
  unfold rotate_signed_prekey, transaction, check_user_fk, modify. rm_unfold.
  assert (Hsame : d = set_signed_prekeys t d -> t = signed_prekeys d).
  { intros E. by rewrite E. }
  destruct (ok_or _ _) as [c|]; simpl; [|auto].
  destruct (get_u32 c) as [cur|]; simpl; [|auto].
  destruct (signed_prekeys d !! (u, k)); simpl; [auto|].
  destruct (k <=? cur); simpl; [auto|].
  destruct (users d !! u) eqn:Hu; simpl; [|auto].
  intros E. apply (f_equal signed_prekeys) in E. simpl in E. subst t. right.
  set (t1 := <[(u, k) := _]> (signed_prekeys d)). split; [|split; [eauto|]].
  - transitivity (length (newest_two u t1)).
    2:{ unfold newest_two. rewrite length_take. lia. }
    apply NoDup_length_le; [apply ids_of_NoDup|]. intros x [row Hx]%elem_of_ids_of.
    apply map_lookup_filter_Some in Hx as [_ Hx]. simpl in Hx.
    destruct (decide (x ∈ newest_two u t1)); [done|]. by destruct Hx.
  - intros v x Hv [row Hx]. apply map_lookup_filter_Some in Hx as [Hx _].
    unfold t1 in Hx. rewrite lookup_insert_ne in Hx by congruence. eauto.
Qed.

(** ** The invariant *)

(** The arguments the handlers pass: at most one upload of keys at
    registration and the queue limit of [consts.rs]. *)
Definition handler_op (o : op) : Prop :=
  match o with
  | OpRegister _ r => Z.of_nat (length (reg_one_time_prekeys r)) <= MAX_PREKEYS_PER_UPLOAD
  | OpEnqueue _ rq => er_max_queue_per_user rq = MAX_QUEUE_PER_USER
  | _ => True
  end.

Record relay_inv (d : Db) : Prop := {
  ri_handed : exists handed, pk_inv handed d;
  ri_queue : queue_wf MAX_QUEUE_PER_USER (users d) (message_queue d);
  ri_ledger : ledger_wf (item_count d) (message_acceptances d);
  ri_prekeys u : count_ids u (prekeys d) <= MAX_PREKEYS_PER_USER;
  ri_signed_users u k : is_Some (signed_prekeys d !! (u, k)) -> is_Some (users d !! u);
  ri_signed u : (length (ids_of u (signed_prekeys d)) <= 2)%nat;
}.

Lemma relay_inv_empty : relay_inv empty_db.
Proof.
  split; simpl.
  - exists ∅. apply pk_inv_empty.
  - split; simpl; [by apply NoDup_nil|constructor| |].
    + intros u. vm_compute. discriminate.
    + intros r Hr. by apply elem_of_nil in Hr.
  - split; [done|vm_compute; discriminate|]. intros s. vm_compute. discriminate.
  - intros u. vm_compute. discriminate.
  - intros u k. rewrite lookup_empty. by intros [].
  - intros u. vm_compute. lia.
Qed.

Section Limits.
Context `{SqlPickLaws}.
Context (sha256 : bytes -> bytes).

Lemma exec_handed o d :
  (exists handed, pk_inv handed d) -> exists handed, pk_inv handed (exec sha256 o d).2.
Proof. intros [h I]. destruct (exec_pk_inv sha256 h o d I) as [_ I']. eauto. Qed.

(** Operations that leave the tables of the invariant alone, or shrink them. *)
Lemma relay_inv_shrink d d' :
  relay_inv d -> (exists handed, pk_inv handed d') ->
  users d' = users d -> signed_prekeys d' = signed_prekeys d ->
  queue_wf MAX_QUEUE_PER_USER (users d) (message_queue d') ->
  item_count d' = item_count d -> message_acceptances d' = message_acceptances d ->
  (forall k, is_Some (prekeys d' !! k) -> is_Some (prekeys d !! k)) ->
  relay_inv d'.
Proof.
  intros [] Hp Eu Es Hq Ei Ea Hk. split; rewrite ?Eu, ?Es, ?Ei, ?Ea; try done.
  intros u. etrans; [apply count_ids_subset; intros k; apply Hk|auto].
Qed.

Lemma register_relay_inv t r d :
  relay_inv d -> Z.of_nat (length (reg_one_time_prekeys r)) <= MAX_PREKEYS_PER_UPLOAD ->
  relay_inv (register_atomic t r d).2.
Proof.
  intros I Hlen. pose proof (exec_handed (OpRegister t r) d (ri_handed _ I)) as Hp. simpl in Hp.
  destruct (register_cases t r d) as [[_ E']|[(_ & _ & E')|(Hu & Hi & hw & _ & _ & E')]];
    rewrite E' in Hp |- *; [done..|].
  destruct I as [[handed P] Iq Il Ik Isu Is]. split; try done; simpl.
  - eapply queue_wf_users; [|done]. intros u Hus. rewrite lookup_insert_is_Some'. by right.
  - intros u. destruct (decide (u = reg_user_id r)) as [->|Hne].
    + etrans; [apply count_ids_with_prekeys|].
      assert (count_ids (reg_user_id r) (prekeys d) = 0) as ->;
        [|unfold MAX_PREKEYS_PER_USER, MAX_PREKEYS_PER_UPLOAD in *; lia].
      unfold count_ids. destruct (ids_of _ _) as [|k l] eqn:El; [done|].
      assert (k ∈ ids_of (reg_user_id r) (prekeys d)) as Hk by (rewrite El; by left).
      apply elem_of_ids_of, (pk_stored _ _ P) in Hk as (? & ? & _). congruence.
    + etrans; [by apply count_ids_with_prekeys_other|apply Ik].
  - intros u k [row [[[= <- <-] _]|[_ Hk]]%lookup_insert_Some].
    + rewrite lookup_insert_eq. eauto.
    + rewrite lookup_insert_is_Some'. right. eauto.
  - intros u. destruct (decide (u = reg_user_id r)) as [->|Hne].
    + transitivity (length [reg_signed_prekey_id r]); [|simpl; lia].
      apply NoDup_length_le; [apply ids_of_NoDup|].
      intros k [row [[[= <-] _]|[_ Hk]]%lookup_insert_Some]%elem_of_ids_of; [by left|].
      destruct (Isu (reg_user_id r) k) as [? ?]; [eauto|congruence].
    + etrans; [|apply (Is u)]. apply NoDup_length_le; [apply ids_of_NoDup|].
      intros k. rewrite !elem_of_ids_of, lookup_insert_ne by congruence. done.
Qed.

Lemma upload_relay_inv t u new d :
  relay_inv d -> relay_inv (upload_prekeys t u new MAX_PREKEYS_PER_USER d).2.
Proof.
  intros I. pose proof (exec_handed (OpUpload t u new) d (ri_handed _ I)) as Hp. simpl in Hp.
  destruct (ri_handed _ I) as [h P].
  destruct (upload_cases t u new MAX_PREKEYS_PER_USER d)
    as [(r & E')|(hw & m & Hi & Hm & Hlt & Hfit & r & E')]; [apply P|by rewrite E'|].
  rewrite E' in Hp |- *. destruct I. split; try done.
  intros v. cbn [prekeys set_inventory set_prekeys snd].
  assert (forall v, count_ids v (prekeys (delete_expired u (t - PUBLIC_PREKEY_RETENTION_SECS) d))
    <= count_ids v (prekeys d)) as Hdel.
  { intros w. apply count_ids_subset. intros k. apply delete_expired_lookup. }
  destruct (decide (v = u)) as [->|Hne].
  - etrans; [apply count_ids_with_prekeys|]. apply Hfit. vm_compute. done.
  - etrans; [by apply count_ids_with_prekeys_other|]. etrans; [apply Hdel|done].
Qed.

Lemma fetch_relay_inv r t now d :
  relay_inv d -> relay_inv (exec sha256 (OpFetch r t now) d).2.
Proof.
  intros I. pose proof (exec_handed (OpFetch r t now) d (ri_handed _ I)) as Hp.
  cbn [exec] in *. pose proof (fetch_cases r t now fetch_limits d) as Hc. cbv zeta in Hc.
  assert (Hsw : forall k, is_Some (prekeys (swept t now fetch_limits d) !! k)
    -> is_Some (prekeys d !! k)) by (intros k; apply delete_expired_lookup).
  destruct Hc as [(res & E & Hn)|[[E _]|(k & row & _ & _ & _ & E)]]; rewrite E in Hp |- *;
    cbn [snd] in *; [done| |].
  - eapply relay_inv_shrink; [done|done|..]; try done. apply I.
  - eapply relay_inv_shrink; [done|done|..]; try done; [apply I|].
    intros k' [x Hx]. change (delete (t, k) (prekeys (swept t now fetch_limits d)) !! k' = Some x) in Hx.
    apply lookup_delete_Some in Hx as [_ Hx]. apply Hsw. eauto.
Qed.

Lemma enqueue_relay_inv dt rq d :
  relay_inv d -> er_max_queue_per_user rq = MAX_QUEUE_PER_USER ->
  relay_inv (exec sha256 (OpEnqueue dt rq) d).2.
Proof.
  intros I Hmax. pose proof (exec_handed (OpEnqueue dt rq) d (ri_handed _ I)) as Hp.
  cbn [exec] in *.
  destruct (enqueue_cases sha256 dt rq d)
    as [(r & E & _)|(Ha & Hu & Hd & Hs & Hg & _ & _ & E)]; cbv zeta in E;
    rewrite E in Hp |- *; cbn [snd] in *; [done|].
  destruct I as [_ Iq Il Ik Isu Is].
  assert (users (claimed_db rq d) = users d /\ prekeys (claimed_db rq d) = prekeys d
    /\ signed_prekeys (claimed_db rq d) = signed_prekeys d
    /\ item_count (claimed_db rq d) = item_count d + 1) as (Eu & Ep & Es & Ei).
  { unfold claimed_db. by destruct (er_one_time_prekey_id rq). }
  split; cbn [users prekeys signed_prekeys item_count message_queue message_acceptances
              set_acceptances set_queue]; rewrite ?Eu, ?Ep, ?Es, ?Ei; try done.
  - case_bool_decide; [by rewrite app_nil_r|]. rewrite Hmax in Hd. by apply queue_wf_insert.
  - by apply ledger_wf_insert.
Qed.

Lemma exec_relay_inv o d : handler_op o -> relay_inv d -> relay_inv (exec sha256 o d).2.
Proof.
  intros Ho I. pose proof (exec_handed o d (ri_handed _ I)) as Hp.
  destruct o; simpl in Ho.
  2: by apply register_relay_inv.
  2: by apply upload_relay_inv.
  3: by apply fetch_relay_inv.
  3: by apply enqueue_relay_inv.
  - done.
  - cbn [exec snd] in *.
    destruct (rotate_frame user_id key_id public_key signature d) as [t E].
    rewrite E in Hp |- *. apply rotate_two in E as [->|(Hl & Hu & Hv)]; [by destruct d|].
    destruct I. split; try done; simpl.
    + intros v k Hk. destruct (decide (v = user_id)) as [->|]; [done|]. eauto.
    + intros v. destruct (decide (v = user_id)) as [->|]; [done|].
      etrans; [|apply (ri_signed0 v)]. apply NoDup_length_le; [apply ids_of_NoDup|].
      intros k. rewrite !elem_of_ids_of. by apply Hv.
  - cbn [exec snd] in *.
    destruct (confirm_ledger sender_id message_ids d) as (t & E & Hl & _); [apply I|].
    rewrite E in Hp |- *. destruct I. split; done.
  - cbn [exec snd] in *. rewrite delete_frame in Hp |- *.
    eapply relay_inv_shrink; [done|done|..]; try done. simpl. rewrite delete_message_fold.
    apply queue_wf_filter, I.
  - eapply relay_inv_shrink; [done|done|..]; try done. simpl. apply queue_wf_filter, I.
  - eapply relay_inv_shrink; [done|done|..]; try done. simpl. apply queue_wf_filter, I.
  - cbn [exec snd] in *.
    destruct (receipt_frame datetime_now receipt_id recipient_id sender_id envelope
      MAX_QUEUE_PER_USER d) as [t E]. rewrite E in Hp |- *.
    eapply relay_inv_shrink; [done|done|..]; try done. apply I.
  - cbn [exec snd] in *. destruct (acknowledge_frame recipient_id receipt_ids d) as [t E].
    rewrite E in Hp |- *. eapply relay_inv_shrink; [done|done|..]; try done. apply I.
  - cbn [exec snd] in *. destruct (confirm_receipts_frame sender_id receipt_ids d) as [t E].
    rewrite E in Hp |- *. eapply relay_inv_shrink; [done|done|..]; try done. apply I.
  - eapply relay_inv_shrink; [done|done|..]; try done. apply I.
Qed.

Lemma run_relay_inv ops d :
  Forall handler_op ops -> relay_inv d -> relay_inv (run sha256 ops d).2.
Proof.
  revert d. induction ops as [|o ops IH]; intros d Ho I; [done|].
  apply Forall_cons in Ho as [Ho Hops]. rewrite run_cons. cbn [snd].
  apply IH; [done|]. by apply exec_relay_inv.
Qed.

(** At most 10,000 queued messages per recipient, with distinct ids and increasing
    row ids; at most 1,000 unconfirmed acceptances per sender and a million
    in all, counted exactly; at most 200 one-time and two signed pre-keys
    per user. *)
Definition within_limits (d : Db) : Prop :=
  NoDup (q_message_id <$> message_queue d)
  /\ StronglySorted Z.lt (q_rowid <$> message_queue d)
  /\ item_count d = Z.of_nat (size (message_acceptances d))
  /\ item_count d <= MAX_GLOBAL_ACCEPTANCES
  /\ forall u, queue_depth u (message_queue d) <= MAX_QUEUE_PER_USER
       /\ count_sender u (message_acceptances d) <= MAX_PENDING_OUTBOUND_ITEMS
       /\ count_ids u (prekeys d) <= MAX_PREKEYS_PER_USER
       /\ (length (ids_of u (signed_prekeys d)) <= 2)%nat.

Lemma relay_inv_limits d : relay_inv d -> within_limits d.
Proof. intros [_ [? ? ? ?] [? ? ?] ? ? ?]. unfold within_limits. auto 10. Qed.

(** Whatever the clients do, the relay stays within its limits. *)
Lemma relay_limits ops : Forall handler_op ops -> within_limits (run sha256 ops empty_db).2.
Proof. intros Ho. apply relay_inv_limits, run_relay_inv; [done|exact relay_inv_empty]. Qed.
End Limits.

(** ** Rate limits over a sliding window *)

(** The hand-outs of a history, in order. *)
Definition event_of (e : op * outcome) : option FetchEvent :=
  match e with
  | (OpFetch r t now, RFetch (Ok (Fetched _ _))) => Some (mkFetchEvent r t now)
  | _ => None
  end.
Definition events_of (h : list (op * outcome)) : list FetchEvent := omap event_of h.

(** The clock readings of the fetches of [ops], from [t] on, never go back. *)
Fixpoint clock_monotone (t : Z) (ops : list op) : Prop :=
  match ops with
  | [] => True
  | OpFetch _ _ now :: ops' => t <= now /\ clock_monotone now ops'
  | _ :: ops' => clock_monotone t ops'
  end.

(** Events whose [key] is [x] in the interval [[a, a + FETCH_WINDOW_SECS]]. *)
Definition in_window (key : FetchEvent -> string) (x : string) (a : Z) (e : FetchEvent) : bool :=
  bool_decide (key e = x) && (a <=? fe_created_at e)
  && (fe_created_at e <=? a + FETCH_WINDOW_SECS).

(** [hist] are all events up to time [t]; the table still holds those since
    some instant before the current cutoff, and no window is overfull. *)
Record rate_inv (hist : list FetchEvent) (t : Z) (d : Db) : Prop := {
  ra_time : 0 <= t /\ forall e, e ∈ hist -> 0 <= fe_created_at e <= t;
  ra_table : exists c, c <= saturating_sub t FETCH_WINDOW_SECS
    /\ prekey_fetch_events d = filter (fun e => c <= fe_created_at e) hist;
  ra_requester r a : count_events (in_window fe_requester_id r a) hist <= FETCHES_PER_REQUESTER;
  ra_target r a : count_events (in_window fe_target_id r a) hist <= FETCHES_PER_TARGET;
}.

Lemma count_events_app p l e :
  count_events p (l ++ [e]) = count_events p l + (if p e then 1 else 0).
Proof.
  unfold count_events. rewrite filter_app, length_app, filter_cons.
  destruct (p e); simpl; lia.
Qed.

Lemma count_events_mono p q l :
  (forall e, e ∈ l -> p e = true -> q e = true) -> count_events p l <= count_events q l.
Proof.
  unfold count_events. induction l as [|e l IH]; intros Hpq; [done|].
  rewrite !filter_cons.
  assert (Z.of_nat (length (filter (fun e => p e = true) l))
    <= Z.of_nat (length (filter (fun e => q e = true) l)))
    by (apply IH; intros x Hx; apply Hpq; by right).
  specialize (Hpq e ltac:(by left)).
  destruct (decide (p e = true)), (decide (q e = true)); simpl; try lia. tauto.
Qed.

(** A window that contains the current instant lies within the table. *)
Lemma window_step (key : FetchEvent -> string) (by_key : string -> Z -> FetchEvent -> bool)
    limit hist table now x a r t :
  (forall y c e, by_key y c e = bool_decide (key e = y) && (c <=? fe_created_at e)) ->
  0 <= now -> (forall e, e ∈ hist -> 0 <= fe_created_at e <= now) ->
  table = filter (fun e => saturating_sub now FETCH_WINDOW_SECS <= fe_created_at e) hist ->
  count_events (by_key (key (mkFetchEvent r t now)) (saturating_sub now FETCH_WINDOW_SECS)) table
    < limit ->
  count_events (in_window key x a) hist <= limit ->
  count_events (in_window key x a) (hist ++ [mkFetchEvent r t now]) <= limit.
Proof.
  intros Hby Hnow Htime -> Hlt Hold. rewrite count_events_app.
  destruct (in_window key x a (mkFetchEvent r t now)) eqn:Hin; [|lia].
  unfold in_window in Hin. simpl in Hin.
  apply andb_prop in Hin as [[Hk Ha]%andb_prop Hb]. apply bool_decide_eq_true in Hk.
  apply Z.leb_le in Ha, Hb.
  enough (count_events (in_window key x a) hist
    <= count_events (by_key (key (mkFetchEvent r t now)) (saturating_sub now FETCH_WINDOW_SECS))
         (filter (fun e => saturating_sub now FETCH_WINDOW_SECS <= fe_created_at e) hist)) by lia.
  assert (forall e, e ∈ hist -> in_window key x a e = true ->
    saturating_sub now FETCH_WINDOW_SECS <= fe_created_at e /\ key e = x) as Hw.
  { intros e He Hin. unfold in_window in Hin. apply andb_prop in Hin as [[Hke Hae]%andb_prop _].
    apply bool_decide_eq_true in Hke. apply Z.leb_le in Hae. specialize (Htime e He).
    unfold saturating_sub, FETCH_WINDOW_SECS in *. split; [lia|done]. }
  rewrite Hk.
  assert (count_events (by_key x (saturating_sub now FETCH_WINDOW_SECS))
    (filter (fun e => saturating_sub now FETCH_WINDOW_SECS <= fe_created_at e) hist)
    = count_events (by_key x (saturating_sub now FETCH_WINDOW_SECS)) hist) as ->.
  { unfold count_events. rewrite list_filter_filter. do 2 f_equal. apply list_filter_iff.
    intros e. rewrite Hby, andb_true_iff, Z.leb_le. tauto. }
  apply count_events_mono. intros e He Hi. destruct (Hw e He Hi) as [Hc Hx].
  rewrite Hby, andb_true_iff, bool_decide_eq_true, Z.leb_le. done.
Qed.

Section RateLimit.
Context `{SqlPickLaws}.
Context (sha256 : bytes -> bytes).

Lemma events_frame o d :
  (forall r t now, o <> OpFetch r t now) ->
  event_of (o, (exec sha256 o d).1) = None
  /\ prekey_fetch_events (exec sha256 o d).2 = prekey_fetch_events d.
Proof.
  intros Hf. destruct o; try (split; done).
  all: cbn [exec fst snd event_of]; try frame; try (split; done).
  - destruct (register_cases unixepoch r d)
      as [[_ E']|[(_ & _ & E')|(Hu & Hi & hw & Hle & _ & E')]]; by rewrite E'.
  - split; [done|]. unfold upload_prekeys, transaction, modify. rm_unfold.
    cbn [delete_expired set_prekeys prekey_inventory].
    destruct (ok_or _ _); [|done].
    destruct (match max_of _ with Some _ => _ | None => _ end); [done|].
    destruct (match min_of _ with Some _ => _ | None => _ end); [done|].
    destruct (_ <? _); [done|].
    assert (forall l d, prekey_fetch_events (insert_prekeys unixepoch user_id l d).2
      = prekey_fetch_events d) as Hi.
    { clear. intros l. induction l as [|[k pk] l IH]; intros d; [done|]. simpl. rm_unfold.
      unfold check_user_fk, modify. destruct (prekeys d !! _); [apply IH|].
      destruct (users d !! _); [|done]. rewrite IH. done. }
    match goal with |- context [insert_prekeys ?a ?b ?c ?x] =>
      specialize (Hi c x); destruct (insert_prekeys a b c x) as [[]d1] end; [|done].
    destruct (get_u32 _); done.
  - by destruct (Hf requester_id target_id now).
  - destruct (enqueue_cases sha256 datetime_now request d)
      as [(r & E & _)|(_ & _ & _ & _ & _ & _ & _ & E)]; cbv zeta in E; rewrite E; [done|].
    split; [done|]. unfold claimed_db. by destruct (er_one_time_prekey_id request).
  - destruct (confirm_frame sender_id message_ids d) as (n & t & -> & _). done.
Qed.

Lemma rate_inv_same hist t t' d d' :
  t <= t' -> prekey_fetch_events d' = prekey_fetch_events d ->
  rate_inv hist t d -> rate_inv hist t' d'.
Proof.
  intros Ht E [[Ht0 Htime] (c & Hc & Htab) Hr Hg]. split; [|exists c|done|done].
  - split; [lia|]. intros e He. specialize (Htime e He). lia.
  - split; [unfold saturating_sub in *; lia|congruence].
Qed.

(** The table after the sweep is the part of the history in the window. *)
Lemma swept_events hist t d tgt now :
  rate_inv hist t d -> t <= now ->
  prekey_fetch_events (swept tgt now fetch_limits d)
  = filter (fun e => saturating_sub now FETCH_WINDOW_SECS <= fe_created_at e) hist.
Proof.
  intros [_ (c & Hc & Htab) _ _] Hle.
  change (prekey_fetch_events (swept tgt now fetch_limits d)) with
    (filter (fun e => saturating_sub now FETCH_WINDOW_SECS <= fe_created_at e)
       (prekey_fetch_events d)).
  rewrite Htab, list_filter_filter. apply list_filter_iff. intros e.
  unfold saturating_sub in *. lia.
Qed.

Lemma fetch_rate_inv hist t d r tgt now :
  rate_inv hist t d -> t <= now ->
  let e := (OpFetch r tgt now, (exec sha256 (OpFetch r tgt now) d).1) in
  rate_inv (hist ++ match event_of e with Some x => [x] | None => [] end) now
    (exec sha256 (OpFetch r tgt now) d).2.
Proof.
  intros I Hle. cbv zeta. cbn [exec].
  pose proof (swept_events hist t d tgt now I Hle) as Hsw.
  pose proof (fetch_cases r tgt now fetch_limits d) as Hc. cbv zeta in Hc.
  destruct I as [[Ht0 Htime] Htab Hr Hg].
  assert (Htime' : forall e, e ∈ hist -> 0 <= fe_created_at e <= now).
  { intros e He. specialize (Htime e He). lia. }
  destruct Hc as [(res & E & Hn)|[[E _]|(k & row & _ & Hrc & Htc & E)]]; rewrite E; cbn [fst snd].
  - assert (event_of (OpFetch r tgt now, RFetch res) = None) as ->.
    { destruct res as [[]|]; try done. by destruct (Hn key_id public_key). }
    rewrite app_nil_r. by eapply (rate_inv_same hist t now d d).
  - simpl. rewrite app_nil_r. split; [split; [lia|done]| |done|done].
    exists (saturating_sub now FETCH_WINDOW_SECS). split; [lia|]. exact Hsw.
  - cbn [event_of]. split.
    + split; [lia|]. intros e [He|He]%elem_of_app; [auto|].
      apply list_elem_of_singleton in He as ->. simpl. lia.
    + exists (saturating_sub now FETCH_WINDOW_SECS). split; [lia|].
      cbn [prekey_fetch_events set_reservations set_fetch_events]. rewrite Hsw, filter_app.
      f_equal. rewrite filter_cons_True; [done|]. simpl.
      unfold saturating_sub, FETCH_WINDOW_SECS. lia.
    + intros x a. eapply (window_step fe_requester_id by_requester); try done; lia.
    + intros x a. eapply (window_step fe_target_id by_target); try done; lia.
Qed.

Lemma run_rate_inv ops hist t d :
  clock_monotone t ops -> rate_inv hist t d ->
  exists t', rate_inv (hist ++ events_of (run sha256 ops d).1) t' (run sha256 ops d).2.
Proof.
  revert hist t d. induction ops as [|o ops IH]; intros hist t d Hm I.
  { simpl. rewrite app_nil_r. eauto. }
  rewrite run_cons. cbn [fst snd]. unfold events_of. cbn [omap list_omap].
  fold (events_of (run sha256 ops (exec sha256 o d).2).1).
  assert ((exists r tg now, o = OpFetch r tg now) \/ forall r tg now, o <> OpFetch r tg now)
    as [(r & tg & now & ->)|Hn] by (destruct o; eauto).
  - destruct Hm as [Hle Hm]. pose proof (fetch_rate_inv hist t d r tg now I Hle) as I'.
    cbv zeta in I'. destruct (IH _ now _ Hm I') as (t' & I2). exists t'.
    rewrite <- app_assoc in I2. by destruct (event_of _).
  - destruct (events_frame o d Hn) as [-> E].
    apply (IH hist t); [|by eapply rate_inv_same].
    destruct o; try done. by destruct (Hn requester_id target_id now).
Qed.

(** C31: The fetch limits hold over every sliding window: with a clock that does
    not go back, in any hour at most 10 one-time pre-keys are handed to one
    requester and at most 20 are taken from one user, whatever the sequence
    of operations. *)
Theorem fetch_rate_limited ops u a :
  clock_monotone 0 ops ->
  let hist := events_of (run sha256 ops empty_db).1 in
  count_events (in_window fe_requester_id u a) hist <= FETCHES_PER_REQUESTER
  /\ count_events (in_window fe_target_id u a) hist <= FETCHES_PER_TARGET.
Proof.
  intros Hm hist. destruct (run_rate_inv ops [] 0 empty_db Hm) as (t & [_ _ Hr Ht]).
  - split; try done.
    + split; [lia|]. intros e He. by apply elem_of_nil in He.
    + exists 0. split; [vm_compute; discriminate|done].
  - split; [apply Hr|apply Ht].
Qed.
End RateLimit.

(** ** What survives *)

(** [o] confirms acceptance [i] of sender [s]. *)
Definition confirms (s i : string) (o : op) : bool :=
  match o with
  | OpConfirm s' ids => bool_decide (s' = s) && bool_decide (i ∈ ids)
  | _ => false
  end.

(** [o] releases a queued row: its recipient acknowledges it, it was found
    invalid on delivery to its recipient, or it is older than the age limit. *)
Definition releases (r : QueueRow) (o : op) : bool :=
  match o with
  | OpDelete u ids => bool_decide (q_recipient_id r = u) && bool_decide (q_message_id r ∈ ids)
  | OpDeleteRow u i => bool_decide (q_recipient_id r = u) && (q_rowid r =? i)
  | OpGc cutoff => text_lt (q_created_at r) cutoff
  | _ => false
  end.

Section Durability.
Context `{SqlPickLaws}.
Context (sha256 : bytes -> bytes).

Lemma register_frame t r d :
  message_queue (register_atomic t r d).2 = message_queue d
  /\ message_acceptances (register_atomic t r d).2 = message_acceptances d.
Proof.
  destruct (register_cases t r d)
    as [[_ E']|[(_ & _ & E')|(Hu & Hi & hw & Hle & _ & E')]]; by rewrite E'.
Qed.

Lemma insert_prekeys_frame t u l d :
  message_queue (insert_prekeys t u l d).2 = message_queue d
  /\ message_acceptances (insert_prekeys t u l d).2 = message_acceptances d.
Proof.
  revert d. induction l as [|[k pk] l IH]; intros d; [done|]. simpl. rm_unfold.
  unfold check_user_fk, modify. destruct (prekeys d !! _); [apply IH|].
  destruct (users d !! _); [|done]. destruct (IH (set_prekeys
    (<[(u, k) := mkPreKeyRow pk t]> (prekeys d)) d)) as [-> ->]. done.
Qed.

Lemma upload_frame t u new mx d :
  message_queue (upload_prekeys t u new mx d).2 = message_queue d
  /\ message_acceptances (upload_prekeys t u new mx d).2 = message_acceptances d.
Proof.
  unfold upload_prekeys, transaction, modify. rm_unfold.
  destruct (ok_or _ _); [|done].
  destruct (match max_of _ with Some _ => _ | None => _ end); [done|].
  destruct (match min_of _ with Some _ => _ | None => _ end); [done|].
  destruct (_ <? _); [done|].
  match goal with |- context [insert_prekeys ?a ?b ?c ?x] =>
    pose proof (insert_prekeys_frame a b c x); destruct (insert_prekeys a b c x) as [[]d1] end;
    [|done].
  by destruct (get_u32 _).
Qed.

Lemma fetch_frame r t now lim d :
  message_queue (fetch_for_requester r t now lim d).2 = message_queue d
  /\ message_acceptances (fetch_for_requester r t now lim d).2 = message_acceptances d.
Proof.
  pose proof (fetch_cases r t now lim d) as Hc. cbv zeta in Hc.
  by destruct Hc as [(res & -> & Hn)|[[-> _]|(k & row & _ & _ & _ & ->)]].
Qed.

Lemma claimed_db_frame rq d :
  message_queue (claimed_db rq d) = message_queue d
  /\ message_acceptances (claimed_db rq d) = message_acceptances d.
Proof. unfold claimed_db. by destruct (er_one_time_prekey_id rq). Qed.

Lemma exec_acceptance o d i a :
  message_acceptances d !! i = Some a -> confirms (a_sender_id a) i o = false ->
  message_acceptances (exec sha256 o d).2 !! i = Some a.
Proof.
  intros Ha Hc. destruct o; cbn [exec fst snd]; try frame; try done.
  - by rewrite (proj2 (register_frame _ _ _)).
  - by rewrite (proj2 (upload_frame _ _ _ _ _)).
  - pose proof (proj2 (fetch_frame requester_id target_id now fetch_limits d)) as E.
    destruct (fetch_for_requester _ _ _ _ d). simpl in *. by rewrite E.
  - destruct (enqueue_cases sha256 datetime_now request d)
      as [(r & E & _)|(Hn & _ & _ & _ & _ & _ & _ & E)]; cbv zeta in E; rewrite E; [done|].
    simpl. rewrite lookup_insert_ne; [done|]. intros <-. congruence.
  - destruct (confirm_frame sender_id message_ids d) as (n & t & E & Hf). rewrite E. simpl.
    pose proof (delete_acceptance_fold sender_id message_ids 0 (message_acceptances d)) as Hd.
    rewrite Hf in Hd. destruct Hd as (_ & _ & Hk). apply Hk; [done|].
    simpl in Hc. intros [<- Hin]. by rewrite !bool_decide_eq_true_2 in Hc.
Qed.

Lemma run_acceptance ops d i a :
  message_acceptances d !! i = Some a -> forallb (fun o => negb (confirms (a_sender_id a) i o)) ops = true ->
  message_acceptances (run sha256 ops d).2 !! i = Some a.
Proof.
  revert d. induction ops as [|o ops IH]; intros d Ha Hc; [done|].
  simpl in Hc. apply andb_prop in Hc as [Ho Hc]. rewrite run_cons. cbn [snd].
  apply IH; [|done]. apply exec_acceptance; [done|]. by destruct (confirms _ _ _).
Qed.

Lemma enqueue_accepts dt rq d r d' :
  enqueue sha256 dt rq d = (Ok r, d') -> r = Inserted \/ r = Duplicate ->
  exists a, message_acceptances d' !! er_message_id rq = Some a
    /\ a_recipient_id a = er_recipient_id rq /\ a_sender_id a = er_sender_id rq
    /\ a_envelope_digest a = sha256 (str_bytes (er_envelope_json rq)).
Proof.
  intros E Hr. destruct (enqueue_cases sha256 dt rq d)
    as [(r' & E' & Hi & Hd & _)|(_ & _ & _ & _ & _ & _ & _ & E')]; cbv zeta in E';
    rewrite E' in E; injection E as <- <-.
  - destruct Hr as [Hr|Hr]; [by destruct (Hi Hr)|by apply Hd].
  - exists (accepted_row sha256 rq). split; [apply lookup_insert_eq|done].
Qed.

(** C23: A resend is harmless.  Once a message was accepted, and until its sender
    confirms the acceptance, whatever else happens: sending it again answers
    [Duplicate], and using its id for another recipient, sender or content
    answers [MessageIdConflict]; neither changes the database. *)
Theorem resend_is_idempotent d dt rq r d1 ops dt' rq' :
  enqueue sha256 dt rq d = (Ok r, d1) -> r = Inserted \/ r = Duplicate ->
  forallb (fun o => negb (confirms (er_sender_id rq) (er_message_id rq) o)) ops = true ->
  er_message_id rq' = er_message_id rq ->
  let d2 := (run sha256 ops d1).2 in
  enqueue sha256 dt' rq' d2
  = (Ok (if bool_decide (er_recipient_id rq = er_recipient_id rq')
            && bool_decide (er_sender_id rq = er_sender_id rq')
            && bool_decide (sha256 (str_bytes (er_envelope_json rq))
                            = sha256 (str_bytes (er_envelope_json rq')))
         then Duplicate else MessageIdConflict), d2).
Proof.
  intros E Hr Hops Hid d2. destruct (enqueue_accepts _ _ _ _ _ E Hr) as (a & Ha & H1 & H2 & H3).
  rewrite <- H2 in Hops. apply (run_acceptance ops) in Ha; [|done]. fold d2 in Ha.
  unfold enqueue, transaction, classify_existing. rm_unfold. rewrite Hid, Ha. simpl.
  by rewrite H1, H2, H3.
Qed.

Lemma exec_queued o d r :
  r ∈ message_queue d -> releases r o = false -> r ∈ message_queue (exec sha256 o d).2.
Proof.
  intros Hr Hn. destruct o; cbn [exec fst snd]; try frame; try done.
  - by rewrite (proj1 (register_frame _ _ _)).
  - by rewrite (proj1 (upload_frame _ _ _ _ _)).
  - pose proof (proj1 (fetch_frame requester_id target_id now fetch_limits d)) as E.
    destruct (fetch_for_requester _ _ _ _ d). simpl in *. by rewrite E.
  - destruct (enqueue_cases sha256 datetime_now request d)
      as [(r' & E & _)|(_ & _ & _ & _ & _ & _ & _ & E)]; cbv zeta in E; rewrite E; [done|].
    simpl. apply elem_of_app. by left.
  - destruct (confirm_frame sender_id message_ids d) as (n & t & E & Hf). by rewrite E.
  - simpl. rewrite delete_message_fold. apply list_elem_of_filter. split; [|done].
    simpl in Hn. intros [Hin Hu]. by rewrite !bool_decide_eq_true_2 in Hn.
  - apply list_elem_of_filter. split; [|done]. simpl in Hn. intros [<- Hu].
    by rewrite bool_decide_eq_true_2, Z.eqb_refl in Hn.
  - apply list_elem_of_filter. split; [done|done].
Qed.

(** An accepted message is not lost: a queued row stays in the queue, as it
    is, until its own recipient acknowledges it, it is discarded as invalid
    on delivery to that recipient, or the age limit passes.  No other user
    and no other operation can remove it. *)
Lemma message_stays_queued ops d r :
  r ∈ message_queue d -> forallb (fun o => negb (releases r o)) ops = true ->
  r ∈ message_queue (run sha256 ops d).2.
Proof.
  revert d. induction ops as [|o ops IH]; intros d Hr Hn; [done|].
  simpl in Hn. apply andb_prop in Hn as [Ho Hn]. rewrite run_cons. cbn [snd].
  apply IH; [|done]. apply exec_queued; [done|]. by destruct (releases r o).
Qed.
End Durability.

(** ** A concrete history

    Alice and Bob register, Alice fetches a key of Bob, sends a first message
    and sends it again. *)
Module Demo.
#[local] Existing Instance PickFirst.pick_first.
#[local] Existing Instance PickFirst.pick_first_laws.

Definition sha (b : bytes) : bytes := b.
Definition reg (u : string) (ids : list Z) : Registration :=
  mkRegistration u [] 0 [] [] ((fun k => (k, [])) <$> ids).
Definition first_message : EnqueueRequest :=
  mkEnqueueRequest "m1" "bob" "alice" "hello" MAX_QUEUE_PER_USER (Some 0) (Some 5) 110.
Definition setup : list op := [OpRegister 50 (reg "alice" []); OpRegister 60 (reg "bob" [5]);
   OpFetch "alice" "bob" 100; OpFetch "alice" "bob" 105].
Definition history : list op := setup ++ [OpEnqueue "t" first_message; OpEnqueue "t" first_message].
Definition d_setup : Db := (run sha setup empty_db).2.
Definition d_sent : Db := (enqueue sha "t" first_message d_setup).2.

Lemma prekey_used_once_witness :
  handed_of (run sha history empty_db).1 = [("bob"%string, 5)]
  /\ claimed_of (run sha history empty_db).1 = [("bob"%string, 5)]
  /\ NoDup (claimed_of (run sha history empty_db).1).
Proof. split; [vm_compute; reflexivity|]. split; [vm_compute; reflexivity|]. apply (prekey_used_once sha history). Defined.

Lemma fetch_rate_limited_witness :
  count_events (in_window fe_requester_id "alice" 100)
    (events_of (run sha history empty_db).1) = 1
  /\ count_events (in_window fe_requester_id "alice" 100)
       (events_of (run sha history empty_db).1) <= FETCHES_PER_REQUESTER.
Proof.
  split; [vm_compute; reflexivity|]. apply (fetch_rate_limited sha history "alice" 100).
  vm_compute. repeat split; discriminate.
Defined.

Lemma resend_is_idempotent_witness :
  let d2 := (run sha [OpConfirm "bob" ["m1"]; OpDelete "bob" ["m1"]] d_sent).2 in
  enqueue sha "later" first_message d2 = (Ok Duplicate, d2).
Proof.
  cbv zeta.
  rewrite (resend_is_idempotent sha d_setup "t" first_message Inserted d_sent
    [OpConfirm "bob" ["m1"%string]; OpDelete "bob" ["m1"%string]] "later" first_message).
  - reflexivity.
  - vm_compute. reflexivity.
  - left. reflexivity.
  - vm_compute. reflexivity.
  - reflexivity.
Defined.
End Demo.
