(* ===== verification/ReceiptLife.v ===== *)
(** * The life of a read receipt

    Each receipt id goes through a small state machine: absent, queued for its
    recipient, acknowledged, absent again.  [receipt_step] is that machine;
    the theorem of this file is that the relay's database refines it in every
    history, so that only the recipient can acknowledge a receipt and only its
    sender can clear an acknowledged one; the relay itself discards a receipt that
    it finds invalid when it delivers it to its recipient. *)
From stdpp Require Import base numbers list sorting strings gmap.
From S2P Require Import Prelude Consts SqlDb DbUsers DbPrekeys DbQueue DbReceipts DbTrace.
Local Open Scope Z_scope.

Inductive receipt_state :=
| Absent
| Queued (recipient sender envelope : string)
| Acknowledged (recipient sender envelope : string).

(** The operations that move receipt [i] out of a state. *)
Definition moves (i : string) (o : op) (st : receipt_state) : bool :=
  match o, st with
  | OpAckReceipts u' ids, Queued u _ _ => bool_decide (u' = u) && bool_decide (i ∈ ids)
  | OpConfirmReceipts s' ids, Acknowledged _ s _ => bool_decide (s' = s) && bool_decide (i ∈ ids)
  | OpDeleteReceipt u' i', (Queued u _ _ | Acknowledged u _ _) =>
      bool_decide (u' = u) && bool_decide (i' = i)
  | _, _ => false
  end.

Inductive receipt_step (i : string) : op -> receipt_state -> receipt_state -> Prop :=
| rs_insert dt u s e : receipt_step i (OpReceipt dt i u s e) Absent (Queued u s e)
| rs_ack u s e ids : i ∈ ids ->
    receipt_step i (OpAckReceipts u ids) (Queued u s e) (Acknowledged u s e)
| rs_confirm u s e ids : i ∈ ids ->
    receipt_step i (OpConfirmReceipts s ids) (Acknowledged u s e) Absent
| rs_discard u s e st : st = Queued u s e \/ st = Acknowledged u s e ->
    receipt_step i (OpDeleteReceipt u i) st Absent
| rs_stay o st : moves i o st = false -> receipt_step i o st st.

(** The machine over a history. *)
Inductive receipt_path (i : string) : list op -> receipt_state -> receipt_state -> Prop :=
| rp_nil st : receipt_path i [] st st
| rp_cons o ops st st1 st2 :
    receipt_step i o st st1 -> receipt_path i ops st1 st2 -> receipt_path i (o :: ops) st st2.

Definition state_of (o : option ReceiptRow) : receipt_state :=
  match o with
  | None => Absent
  | Some r =>
      (if r_acknowledged r then Acknowledged else Queued)
        (r_recipient_id r) (r_sender_id r) (r_envelope r)
  end.

(** The state of receipt [i] in the database. *)
Definition receipt_at (i : string) (d : Db) : receipt_state :=
  state_of (find_receipt i (read_receipt_queue d)).

Abbreviation ids_unique q := (NoDup (r_receipt_id <$> q)).

(** ** The table by receipt id *)

Lemma find_receipt_None i q : find_receipt i q = None <-> i ∉ r_receipt_id <$> q.
Proof.
  unfold find_receipt. split.
  - intros Hh (r & -> & Hr)%list_elem_of_fmap.
    assert (r ∈ filter (fun x => r_receipt_id x = r_receipt_id r) q) as Hin
      by (by apply list_elem_of_filter).
    destruct (filter _ q); [by apply elem_of_nil in Hin|done].
  - intros Hn. destruct (filter _ q) as [|r l] eqn:E; [done|]. exfalso. apply Hn.
    assert (r ∈ filter (fun x => r_receipt_id x = i) q) as [<- Hr]%list_elem_of_filter
      by (rewrite E; left).
    by apply list_elem_of_fmap_2.
Qed.

Lemma find_receipt_id i q r : find_receipt i q = Some r -> r_receipt_id r = i.
Proof.
  unfold find_receipt. intros Hh. destruct (filter _ q) as [|x l] eqn:E; [done|].
  injection Hh as ->.
  by assert (r ∈ filter (fun x => r_receipt_id x = i) q) as [Hr _]%list_elem_of_filter
    by (rewrite E; left).
Qed.

Lemma find_receipt_cons i r q :
  find_receipt i (r :: q) = if decide (r_receipt_id r = i) then Some r else find_receipt i q.
Proof. unfold find_receipt. rewrite filter_cons. by case_decide. Qed.

Lemma find_receipt_app i q r :
  find_receipt (r_receipt_id r) q = None ->
  find_receipt i (q ++ [r]) = if decide (r_receipt_id r = i) then Some r else find_receipt i q.
Proof.
  induction q as [|x q IH]; simpl.
  - intros _. by rewrite find_receipt_cons.
  - rewrite !find_receipt_cons. destruct (decide (r_receipt_id x = r_receipt_id r)); [done|].
    intros Hq. rewrite IH by done. repeat case_decide; congruence.
Qed.

(** Updating rows in place, ids kept. *)
Lemma find_receipt_fmap i f q :
  (forall r, r_receipt_id (f r) = r_receipt_id r) ->
  find_receipt i (f <$> q) = f <$> find_receipt i q.
Proof.
  intros Hf. induction q as [|r q IH]; [done|]. rewrite fmap_cons, !find_receipt_cons, Hf.
  by case_decide.
Qed.

(** Deleting the rows that satisfy [P]. *)
Lemma find_receipt_filter (P : ReceiptRow -> Prop) `{!forall r, Decision (P r)} i q :
  ids_unique q ->
  find_receipt i (filter (fun r => ~ P r) q)
  = match find_receipt i q with
    | Some r => if decide (P r) then None else Some r
    | None => None
    end.
Proof.
  induction q as [|r q IH]; [done|]. rewrite fmap_cons, NoDup_cons. intros [Hni Hnd].
  specialize (IH Hnd). rewrite filter_cons, find_receipt_cons. destruct (decide (r_receipt_id r = i)) as [<-|Hne].
  - rewrite (proj2 (find_receipt_None _ _) Hni) in IH.
    destruct (decide (P r)) as [HP|HP]; case_decide; try tauto.
    rewrite find_receipt_cons. by rewrite decide_True.
  - case_decide; [|done]. rewrite find_receipt_cons. by rewrite decide_False.
Qed.

Lemma ids_unique_filter (P : ReceiptRow -> Prop) `{!forall r, Decision (P r)} q :
  ids_unique q -> ids_unique (filter P q).
Proof.
  induction q as [|r q IH]; [done|]. rewrite fmap_cons, NoDup_cons. intros [Hni Hnd].
  rewrite filter_cons. case_decide; [|by apply IH]. rewrite fmap_cons, NoDup_cons.
  split; [|by apply IH]. intros (x & Hx & [_ Hin]%list_elem_of_filter)%list_elem_of_fmap.
  apply Hni. rewrite Hx. by apply list_elem_of_fmap_2.
Qed.

(** The loop of [confirm_sender_received] is one deletion. *)
Definition confirmed (s : string) (ids : list string) (r : ReceiptRow) : Prop :=
  r_receipt_id r ∈ ids /\ r_sender_id r = s /\ r_acknowledged r = true.
#[export] Instance confirmed_dec s ids r : Decision (confirmed s ids r).
Proof. unfold confirmed. apply _. Defined.

Lemma confirm_fold (s : string) (ids : list string) (q : list ReceiptRow) :
  fold_left (fun q receipt_id =>
    filter (fun r => ~ (r_receipt_id r = receipt_id /\ r_sender_id r = s
                        /\ r_acknowledged r = true)) q) ids q
  = filter (fun r => ~ confirmed s ids r) q.
Proof.
  revert q. induction ids as [|i ids IH]; intros q; simpl.
  - symmetry. apply filter_all. intros r _ (Hin & _). by apply elem_of_nil in Hin.
  - rewrite IH, list_filter_filter. apply list_filter_iff. intros r. unfold confirmed.
    rewrite elem_of_cons. destruct (decide (r_receipt_id r = i)), (decide (r_sender_id r = s)),
      (decide (r_acknowledged r = true)); tauto.
Qed.

(** ** The operations, receipt by receipt *)

Lemma acked_by_id u ids r : r_receipt_id (acked_by u ids r) = r_receipt_id r.
Proof. unfold acked_by. by case_bool_decide. Qed.

Lemma enqueue_receipt_cases dt i u s e mx d :
  let d' := (enqueue_receipt dt i u s e mx d).2 in
  d' = d
  \/ (find_receipt i (read_receipt_queue d) = None
      /\ exists n, d' = set_receipts (read_receipt_queue d ++ [mkReceiptRow n i u s e false dt]) d
         /\ receipt_depth u (read_receipt_queue d) < i64_of_usize mx
         /\ receipts_sent s (read_receipt_queue d) < i64_of_usize mx).
Proof.
  cbv zeta. unfold enqueue_receipt, transaction, check_user_fk, modify. rm_unfold.
  destruct (find_receipt i _) eqn:F; [by left|].
  destruct (Z.leb_spec (i64_of_usize mx) (receipt_depth u (read_receipt_queue d))); [by left|].
  destruct (Z.leb_spec (i64_of_usize mx) (receipts_sent s (read_receipt_queue d))); [by left|].
  destruct (users d !! u); simpl; [right|by left]. eauto 10.
Qed.

Section Refinement.
Context `{SqlPickLaws}.
Context (sha256 : bytes -> bytes).

(** The operations of the other components leave the receipts alone. *)
Lemma insert_prekeys_receipts t u l d :
  read_receipt_queue (insert_prekeys t u l d).2 = read_receipt_queue d.
Proof.
  revert d. induction l as [|[k pk] l IH]; intros d; [done|]. simpl. rm_unfold.
  unfold check_user_fk, modify. destruct (prekeys d !! _); [apply IH|].
  destruct (users d !! _); [|done]. by rewrite IH.
Qed.

Lemma upload_receipts t u new mx d :
  read_receipt_queue (upload_prekeys t u new mx d).2 = read_receipt_queue d.
Proof.
  unfold upload_prekeys, transaction, modify. rm_unfold.
  destruct (ok_or _ _); [|done].
  destruct (match max_of _ with Some _ => _ | None => _ end); [done|].
  destruct (match min_of _ with Some _ => _ | None => _ end); [done|].
  destruct (_ <? _); [done|].
  match goal with |- context [insert_prekeys ?a ?b ?c ?x] =>
    pose proof (insert_prekeys_receipts a b c x); destruct (insert_prekeys a b c x) as [[]d1] end;
    [|done].
  by destruct (get_u32 _).
Qed.

Definition receipt_op (o : op) : bool :=
  match o with
  | OpReceipt _ _ _ _ _ | OpAckReceipts _ _ | OpConfirmReceipts _ _ | OpDeleteReceipt _ _ => true
  | _ => false
  end.

Lemma exec_receipts_frame o d :
  receipt_op o = false -> read_receipt_queue (exec sha256 o d).2 = read_receipt_queue d.
Proof.
  intros Ho. destruct o; try discriminate Ho; cbn [exec fst snd]; try frame; try done.
  - by destruct (register_cases unixepoch r d)
      as [[_ ->]|[(_ & _ & ->)|(_ & _ & hw & _ & _ & ->)]].
  - apply upload_receipts.
  - pose proof (fetch_cases requester_id target_id now fetch_limits d) as Hc. cbv zeta in Hc.
    by destruct Hc as [(res & -> & _)|[[-> _]|(k & row & _ & _ & _ & ->)]].
  - destruct (enqueue_cases sha256 datetime_now request d)
      as [(r' & E & _)|(_ & _ & _ & _ & _ & _ & _ & E)]; cbv zeta in E; rewrite E; [done|].
    simpl. unfold claimed_db. by destruct (er_one_time_prekey_id request).
  - destruct (confirm_frame sender_id message_ids d) as (n & t & E & _). by rewrite E.
Qed.

Lemma moves_other i o st : receipt_op o = false -> moves i o st = false.
Proof. by destruct o. Qed.

Lemma exec_ids_unique o d :
  ids_unique (read_receipt_queue d) -> ids_unique (read_receipt_queue (exec sha256 o d).2).
Proof.
  intros Hu. destruct (receipt_op o) eqn:Ho; [|by rewrite exec_receipts_frame].
  destruct o; try discriminate Ho; cbn [exec fst snd].
  - destruct (enqueue_receipt_cases datetime_now receipt_id recipient_id sender_id envelope
      MAX_QUEUE_PER_USER d) as [->|(F & n & -> & _)]; [done|]. simpl.
    rewrite fmap_app. apply NoDup_app. split; [done|]. split; [|apply NoDup_singleton].
    apply find_receipt_None in F. intros x Hx ->%list_elem_of_singleton. by apply F.
  - destruct (acknowledge_scoped recipient_id receipt_ids d) as [a ->]. simpl.
    rewrite <- list_fmap_compose. erewrite list_fmap_ext; [exact Hu|].
    intros k r _. simpl. apply acked_by_id.
  - simpl. rewrite confirm_fold. by apply ids_unique_filter.
  - simpl. by apply ids_unique_filter.
Qed.

Lemma exec_refines i o d :
  ids_unique (read_receipt_queue d) ->
  receipt_step i o (receipt_at i d) (receipt_at i (exec sha256 o d).2).
Proof.
  intros Hu. unfold receipt_at. destruct (receipt_op o) eqn:Ho.
  2:{ rewrite exec_receipts_frame by done. apply rs_stay. by apply moves_other. }
  destruct o; try discriminate Ho; cbn [exec fst snd].
  - destruct (enqueue_receipt_cases datetime_now receipt_id recipient_id sender_id envelope
      MAX_QUEUE_PER_USER d) as [->|(F & n & -> & _)]; [by apply rs_stay|].
    simpl. rewrite find_receipt_app by done. simpl.
    destruct (decide (receipt_id = i)) as [->|Hne]; [|by apply rs_stay].
    rewrite F. apply rs_insert.
  - destruct (acknowledge_scoped recipient_id receipt_ids d) as [a ->]. simpl.
    rewrite find_receipt_fmap by apply acked_by_id.
    destruct (find_receipt i _) as [r|] eqn:F; [|by apply rs_stay]. simpl.
    pose proof (find_receipt_id _ _ _ F) as Hi. unfold acked_by.
    destruct (r_acknowledged r) eqn:A.
    { case_bool_decide; simpl; rewrite ?A; by apply rs_stay. }
    case_bool_decide as Hc; simpl; rewrite ?A.
    + destruct Hc as [Hin ->]. apply rs_ack. by rewrite <- Hi.
    + apply rs_stay. simpl. repeat case_bool_decide; try done. subst. naive_solver.
  - simpl. rewrite confirm_fold, find_receipt_filter by done.
    destruct (find_receipt i _) as [r|] eqn:F; [|by apply rs_stay].
    pose proof (find_receipt_id _ _ _ F) as Hi. simpl.
    destruct (decide (confirmed sender_id receipt_ids r)) as [(Hin & <- & ->)|Hc].
    + apply rs_confirm. by rewrite <- Hi.
    + apply rs_stay. unfold confirmed in Hc. simpl.
      destruct (r_acknowledged r); [|done]. repeat case_bool_decide; try done. naive_solver.
  - simpl. rewrite find_receipt_filter by done.
    destruct (find_receipt i _) as [r|] eqn:F; [|by apply rs_stay].
    pose proof (find_receipt_id _ _ _ F) as Hi. simpl.
    destruct (decide _) as [[<- <-]|Hc].
    + rewrite Hi. apply rs_discard with (s := r_sender_id r) (e := r_envelope r).
      destruct (r_acknowledged r); auto.
    + apply rs_stay. simpl. destruct (r_acknowledged r); simpl;
        repeat case_bool_decide; try done; naive_solver.
Qed.

Lemma run_refines i ops d :
  ids_unique (read_receipt_queue d) ->
  receipt_path i ops (receipt_at i d) (receipt_at i (run sha256 ops d).2).
Proof.
  revert d. induction ops as [|o ops IH]; intros d Hu; [apply rp_nil|].
  rewrite run_cons. cbn [snd]. eapply rp_cons; [by apply exec_refines|].
  by apply IH, exec_ids_unique.
Qed.

(** C24: the receipt table refines the receipt machine.  In every history of
    the relay from the empty database, every receipt id goes through the
    states of [receipt_step]: from absent to queued, to acknowledged exactly
    when its own recipient names it, and from acknowledged to absent when its own sender
    then confirms it; the relay discards a queued or acknowledged receipt that
    it finds invalid on delivery to its recipient, and no other operation changes it. *)
Theorem receipts_refine_machine i ops :
  receipt_path i ops Absent (receipt_at i (run sha256 ops empty_db).2).
Proof. apply (run_refines i ops empty_db). apply NoDup_nil_2. Qed.
End Refinement.

Module ReceiptDemo.
#[local] Existing Instance PickFirst.pick_first.
#[local] Existing Instance PickFirst.pick_first_laws.

Definition sha (b : bytes) : bytes := b.
Definition reg (u : string) : op := OpRegister 50 (mkRegistration u [] 0 [] [] []).
(** Bob's receipt for Alice; Bob's own acknowledgement and his early
    confirmation have no effect. *)
Definition receipt_history : list op :=
  [reg "alice"; reg "bob"; OpReceipt "t" "r1" "alice" "bob" "read";
   OpAckReceipts "bob" ["r1"]; OpConfirmReceipts "bob" ["r1"]; OpAckReceipts "alice" ["r1"]].

Lemma receipts_refine_machine_witness :
  receipt_at "r1" (run sha receipt_history empty_db).2 = Acknowledged "alice" "bob" "read"
  /\ receipt_path "r1" receipt_history Absent (receipt_at "r1" (run sha receipt_history empty_db).2).
Proof. split; [vm_compute; reflexivity|apply receipts_refine_machine]. Defined.
End ReceiptDemo.
