(* ===== verification/Datetime.v ===== *)
(** * Timestamps of queued messages ([parse_sqlite_datetime] of
    [crates/server/src/handlers/auth.rs])

    The relay reads back the [datetime('now')] text of a queued row as seconds
    since 1970.  The closed formula for the day number is proved against a
    calendar that adds up years and months one by one. *)
From stdpp Require Import base numbers list strings.
From Stdlib Require Import Strings.Byte Lia.
From S2P Require Import Prelude.
Local Open Scope Z_scope.

(** [s.split(['-', ' ', ':'])] *)
Definition is_sep (b : byte) : bool :=
  bool_decide (b = x2d) || bool_decide (b = x20) || bool_decide (b = x3a).

Fixpoint split_seps (s : bytes) : list bytes :=
  match s with
  | [] => [[]]
  | b :: s' =>
      if is_sep b then [] :: split_seps s'
      else match split_seps s' with
           | p :: ps => (b :: p) :: ps
           | [] => [[b]]
           end
  end.

(** [str::parse::<i64>]: an optional sign, then one or more digits, within
    the range of [i64]. *)
Fixpoint parse_digits (acc : Z) (s : bytes) : option Z :=
  match s with
  | [] => Some acc
  | b :: s' =>
      let z := Z_of_byte b in
      if (48 <=? z) && (z <=? 57) then parse_digits (acc * 10 + (z - 48)) s' else None
  end.

Definition parse_i64 (s : bytes) : option Z :=
  let '(neg, ds) := match s with
                    | x2b :: s' => (false, s')
                    | x2d :: s' => (true, s')
                    | _ => (false, s)
                    end in
  match ds with
  | [] => None
  | _ =>
      match parse_digits 0 ds with
      | Some n =>
          let v := if (neg : bool) then - n else n in
          if (- i64_max - 1 <=? v) && (v <=? i64_max) then Some v else None
      | None => None
      end
  end.

Definition month_days : list Z := [0; 31; 59; 90; 120; 151; 181; 212; 243; 273; 304; 334].

(** The arithmetic, with [/] and [%] truncating and the final cast to [u64]. *)
Definition seconds_of (year month day hour min sec : Z) : Z :=
  let days := (year - 1970) * 365 + Z.quot (year - 1969) 4 - Z.quot (year - 1901) 100
              + Z.quot (year - 1601) 400 in
  let is_leap := (Z.rem year 4 =? 0) && negb (Z.rem year 100 =? 0) || (Z.rem year 400 =? 0) in
  let leap_adj := if is_leap && (2 <? month) then 1 else 0 in
  let m_idx := Z.min 11 (Z.max 0 (month - 1)) in
  ((days + nth (Z.to_nat m_idx) month_days 0 + day - 1 + leap_adj) * 86400
    + hour * 3600 + min * 60 + sec) mod 2 ^ 64.

Definition parse_sqlite_datetime (s : bytes) : Z :=
  match split_seps s with
  | [p0; p1; p2; p3; p4; p5] =>
      match parse_i64 p0, parse_i64 p1, parse_i64 p2, parse_i64 p3, parse_i64 p4, parse_i64 p5 with
      | Some year, Some month, Some day, Some hour, Some min, Some sec =>
          seconds_of year month day hour min sec
      | _, _, _, _, _, _ => 0
      end
  | _ => 0
  end.

(** ** The calendar *)

Definition leap_year (y : Z) : bool :=
  (y mod 4 =? 0) && negb (y mod 100 =? 0) || (y mod 400 =? 0).
Definition year_length (y : Z) : Z := if leap_year y then 366 else 365.
Definition month_length (y m : Z) : Z :=
  if bool_decide (m ∈ [4; 6; 9; 11]) then 30
  else if m =? 2 then (if leap_year y then 29 else 28) else 31.

(** Days from 1 January 1970 to 1 January of [1970 + n], and from 1 January
    to the first of month [1 + n]. *)
Fixpoint days_to_year (n : nat) : Z :=
  match n with O => 0 | S n' => days_to_year n' + year_length (1970 + Z.of_nat n') end.
Fixpoint days_to_month (y : Z) (n : nat) : Z :=
  match n with O => 0 | S n' => days_to_month y n' + month_length y (1 + Z.of_nat n') end.

(** Seconds from the epoch to a UTC instant of the Gregorian calendar. *)
Definition epoch_seconds (y m d h mi s : Z) : Z :=
  (days_to_year (Z.to_nat (y - 1970)) + days_to_month y (Z.to_nat (m - 1)) + (d - 1)) * 86400
  + h * 3600 + mi * 60 + s.

(** [n] as [k] decimal digits, as SQLite prints date fields. *)
Fixpoint digits (k : nat) (n : Z) : bytes :=
  match k with O => [] | S k' => digits k' (n / 10) ++ [byte_of_Z (48 + n mod 10)] end.

(** [YYYY-MM-DD HH:MM:SS] *)
Definition datetime_text (y m d h mi s : Z) : bytes :=
  digits 4 y ++ x2d :: digits 2 m ++ x2d :: digits 2 d ++ x20 :: digits 2 h
    ++ x3a :: digits 2 mi ++ x3a :: digits 2 s.

Definition valid_instant (y m d h mi s : Z) : Prop :=
  1970 <= y <= 9999 /\ 1 <= m <= 12 /\ 1 <= d <= month_length y m
  /\ 0 <= h < 24 /\ 0 <= mi < 60 /\ 0 <= s < 60.

(** ** Parsing the text *)

Lemma split_field p b s :
  forallb (fun c => negb (is_sep c)) p = true -> is_sep b = true ->
  split_seps (p ++ b :: s) = p :: split_seps s.
Proof.
  intros Hp Hb. induction p as [|c p IH]; simpl; [by rewrite Hb|].
  simpl in Hp. apply andb_prop in Hp as [Hc Hp]. destruct (is_sep c); [done|]. by rewrite IH.
Qed.

Lemma split_last p : forallb (fun c => negb (is_sep c)) p = true -> split_seps p = [p].
Proof.
  intros Hp. induction p as [|c p IH]; simpl; [done|].
  simpl in Hp. apply andb_prop in Hp as [Hc Hp]. destruct (is_sep c); [done|]. by rewrite IH.
Qed.

Definition digit_ok (k : nat) (n : Z) : bool :=
  forallb (fun c => negb (is_sep c)) (digits k n) && bool_decide (parse_i64 (digits k n) = Some n).

Lemma digit_ok_range k lo hi :
  forallb (fun n => digit_ok k (lo + Z.of_nat n)) (seq 0 (Z.to_nat (hi - lo))) = true ->
  forall n, lo <= n < hi ->
  forallb (fun c => negb (is_sep c)) (digits k n) = true /\ parse_i64 (digits k n) = Some n.
Proof.
  intros Hf n Hn. rewrite forallb_forall in Hf.
  assert (digit_ok k n = true) as Hd.
  { replace n with (lo + Z.of_nat (Z.to_nat (n - lo))) by lia. apply Hf. apply in_seq. lia. }
  unfold digit_ok in Hd. apply andb_prop in Hd as [? Hd]. by apply bool_decide_eq_true in Hd.
Qed.

Lemma digits_2 n : 0 <= n < 100 ->
  forallb (fun c => negb (is_sep c)) (digits 2 n) = true /\ parse_i64 (digits 2 n) = Some n.
Proof. apply digit_ok_range. vm_compute. reflexivity. Qed.

Lemma digits_4 n : 1970 <= n < 10000 ->
  forallb (fun c => negb (is_sep c)) (digits 4 n) = true /\ parse_i64 (digits 4 n) = Some n.
Proof. apply digit_ok_range. vm_compute. reflexivity. Qed.

Lemma parse_datetime_text y m d h mi s :
  valid_instant y m d h mi s ->
  parse_sqlite_datetime (datetime_text y m d h mi s) = seconds_of y m d h mi s.
Proof.
  intros (Hy & Hm & Hd & Hh & Hmi & Hs).
  assert (month_length y m <= 31).
  { unfold month_length. repeat case_match; lia. }
  destruct (digits_4 y) as [Sy Py]; [lia|].
  destruct (digits_2 m) as [Sm Pm], (digits_2 d) as [Sd Pd], (digits_2 h) as [Sh Ph],
    (digits_2 mi) as [Smi Pmi], (digits_2 s) as [Ss Ps]; [lia..|].
  unfold parse_sqlite_datetime, datetime_text.
  rewrite !split_field, split_last by done. by rewrite Py, Pm, Pd, Ph, Pmi, Ps.
Qed.

(** ** The formula *)

Lemma days_formula n :
  let y := 1970 + Z.of_nat n in
  (y - 1970) * 365 + Z.quot (y - 1969) 4 - Z.quot (y - 1901) 100 + Z.quot (y - 1601) 400
  = days_to_year n.
Proof.
  cbv zeta. induction n as [|n IH]; [reflexivity|].
  cbn [days_to_year]. rewrite <- IH. unfold year_length, leap_year.
  rewrite !Z.quot_div_nonneg by lia.
  set (y := 1970 + Z.of_nat n). replace (1970 + Z.of_nat (S n)) with (y + 1) by lia.
  assert (1970 <= y) by lia. clearbody y. clear IH n.
  destruct (Z.eqb_spec (y mod 4) 0), (Z.eqb_spec (y mod 100) 0), (Z.eqb_spec (y mod 400) 0);
    cbn [andb orb negb]; Z.to_euclidean_division_equations; lia.
Qed.

Lemma months_formula y m :
  1970 <= y -> 1 <= m <= 12 ->
  nth (Z.to_nat (Z.min 11 (Z.max 0 (m - 1)))) month_days 0
    + (if ((Z.rem y 4 =? 0) && negb (Z.rem y 100 =? 0) || (Z.rem y 400 =? 0)) && (2 <? m)
       then 1 else 0)
  = days_to_month y (Z.to_nat (m - 1)).
Proof.
  intros Hy Hm. rewrite !Z.rem_mod_nonneg by lia. fold (leap_year y).
  assert (m = 1 \/ m = 2 \/ m = 3 \/ m = 4 \/ m = 5 \/ m = 6 \/ m = 7 \/ m = 8 \/ m = 9 \/ m = 10
    \/ m = 11 \/ m = 12) as Hc by lia.
  repeat destruct Hc as [->|Hc]; [..|subst m];
    unfold days_to_month, month_length, month_days; simpl; by destruct (leap_year y).
Qed.

Lemma days_to_month_nonneg y n : 0 <= days_to_month y n.
Proof.
  induction n as [|n IH]; simpl; [lia|]. unfold month_length. repeat case_match; lia.
Qed.
Lemma days_to_year_range n : 0 <= days_to_year n <= Z.of_nat n * 366.
Proof. induction n as [|n IH]; simpl; [lia|]. unfold year_length. case_match; lia. Qed.
Lemma days_to_month_range y n : days_to_month y n <= Z.of_nat n * 31.
Proof. induction n as [|n IH]; simpl; [lia|]. unfold month_length. repeat case_match; lia. Qed.

(** The timestamp the relay attaches to a queued message is right: for every
    instant from 1970 to the end of 9999, leap years and century rules
    included, parsing the text SQLite stored gives the number of seconds since
    the epoch. *)
Lemma parse_sqlite_datetime_correct y m d h mi s :
  valid_instant y m d h mi s ->
  parse_sqlite_datetime (datetime_text y m d h mi s) = epoch_seconds y m d h mi s.
Proof.
  intros V. rewrite parse_datetime_text by done. destruct V as (Hy & Hm & Hd & Hh & Hmi & Hs).
  unfold seconds_of, epoch_seconds.
  pose proof (days_formula (Z.to_nat (y - 1970))) as HD. cbv zeta in HD.
  rewrite Z2Nat.id in HD by lia. replace (1970 + (y - 1970)) with y in HD by lia. rewrite HD.
  pose proof (months_formula y m ltac:(lia) Hm) as HM.
  pose proof (days_to_month_nonneg y (Z.to_nat (m - 1))).
  pose proof (days_to_month_range y (Z.to_nat (m - 1))).
  pose proof (days_to_year_range (Z.to_nat (y - 1970))).
  assert (month_length y m <= 31) by (unfold month_length; repeat case_match; lia).
  rewrite Z.mod_small; [lia|]. lia.
Qed.

Example parse_leap_day :
  parse_sqlite_datetime (datetime_text 2024 2 29 23 59 59) = 1709251199.
Proof.
  rewrite parse_sqlite_datetime_correct.
  - vm_compute. reflexivity.
  - unfold valid_instant. vm_compute. intuition discriminate.
Defined.
