(* ===== verification/ServerWorld.v ===== *)
(** * The relay's shared state ([crates/server/src/state.rs],
    [crates/server/src/connection.rs])

    What a handler works on: the database, the registry of online users, the
    outbound channel of each connection and the cancellation flags, together
    with the environment.  The environment (failing database calls, clocks,
    randomness, full or closed channels) is a function of a counter that every
    interaction advances, so a theorem quantifies over all environments.  Part
    of it is what the other connections do to the database while a handler
    waits for its own call ([env_others]). *)
From Stdlib Require Import Strings.Byte Strings.Ascii.
From stdpp Require Import base numbers list strings countable gmap.
From S2P Require Import Prelude Consts Types SqlDb.
Local Open Scope Z_scope.

(** ** Third-party encodings *)

(** Base64, UUID text and JSON, from the [base64], [uuid] and [serde_json]
    crates.  Sizes are those of the encoded JSON. *)
Class Codecs := {
  b64_encode : bytes -> string;
  b64_decode : string -> option bytes;
  uuid_to_string : MessageId -> string;
  uuid_parse : string -> option MessageId;
  json_of_envelope : EncryptedEnvelope -> option string;
  envelope_of_json : string -> option EncryptedEnvelope;
  json_size_message : ServerMessage -> option Z;
  json_size_inbound : InboundMessage -> option Z;
}.

(** Decoding inverts encoding. *)
Class CodecLaws `{Codecs} : Prop := {
  b64_roundtrip b : b64_decode (b64_encode b) = Some b;
  uuid_roundtrip m : uuid_parse (uuid_to_string m) = Some m;
  envelope_roundtrip e s : json_of_envelope e = Some s -> envelope_of_json s = Some e;
}.

(** A JSON array of messages is its elements and the commas between them,
    inside a frame of fixed size. *)
Class JsonSizeLaws `{Codecs} : Prop := {
  json_page_size empty ms sizes :
    json_size_message (QueuedMessages []) = Some empty ->
    mapM json_size_inbound ms = Some sizes ->
    json_size_message (QueuedMessages ms)
    = Some (empty + fold_right Z.add 0 sizes + Z.max 0 (Z.of_nat (length ms) - 1));
  json_inbound_nonneg m z : json_size_inbound m = Some z -> 0 <= z;
}.

(** ** The environment *)

Class Env := {
  env_fault : nat -> bool;          (* the database call fails *)
  env_clock : nat -> Z;             (* now_secs() *)
  env_unixepoch : nat -> Z;         (* SQLite's unixepoch() *)
  env_datetime : nat -> string;     (* SQLite's datetime('now') *)
  env_random : nat -> bytes;        (* thread_rng().fill_bytes *)
  env_room : nat -> bool;           (* try_send finds the channel open with room *)
  env_alive : nat -> bool;          (* send(..).await finds the channel open *)
  env_others : nat -> Db -> Db;     (* the calls of other connections that run first *)
}.

(** No other connection's call runs while a handler waits for its own: the
    handler is one step.  Of a handler with a single database call this loses
    nothing, since what runs before that call could as well have run before
    the handler. *)
Class Alone `{Env} : Prop := others_none t d : env_others t d = d.

(** ** State *)

(** A connection is identified by a number of the model; [conn_id] is the
    identifier the registry gives it when it authenticates. *)
Record ConnEntry := mkConnEntry { conn_id : Z; sender : nat; cancel : nat }.

Record World := mkWorld {
  w_db : Db;
  w_online : gmap string ConnEntry;
  w_next_conn_id : Z;
  w_out : gmap nat (list ServerMessage);   (* what was put on each channel, in order *)
  w_cancelled : gset nat;
  w_tick : nat;
}.

Definition set_db v w := mkWorld v (w_online w) (w_next_conn_id w) (w_out w) (w_cancelled w) (w_tick w).
Definition set_online v w := mkWorld (w_db w) v (w_next_conn_id w) (w_out w) (w_cancelled w) (w_tick w).
Definition set_out v w := mkWorld (w_db w) (w_online w) (w_next_conn_id w) v (w_cancelled w) (w_tick w).
Definition set_cancelled v w := mkWorld (w_db w) (w_online w) (w_next_conn_id w) (w_out w) v (w_tick w).
Definition set_tick v w := mkWorld (w_db w) (w_online w) (w_next_conn_id w) (w_out w) (w_cancelled w) v.
Definition set_next v w := mkWorld (w_db w) (w_online w) v (w_out w) (w_cancelled w) (w_tick w).

(** The state monad of handlers. *)
Definition hm (A : Type) : Type := World -> A * World.
Definition h_ret {A} (a : A) : hm A := fun w => (a, w).
Definition h_bind {A B} (m : hm A) (k : A -> hm B) : hm B :=
  fun w => let '(a, w') := m w in k a w'.
Notation "'let!' x <- m ; k" := (h_bind m (fun x => k))
  (at level 10, x pattern, m at level 100, k at level 200) : cmp_scope.
Notation "'then!' m ; k" := (h_bind m (fun _ => k))
  (at level 10, m at level 100, k at level 200) : cmp_scope.
Local Open Scope cmp_scope.

Section World.
Context `{Env}.

(** Advance the environment. *)
Definition tick : hm nat := fun w => (w_tick w, set_tick (S (w_tick w)) w).

(** [state.db.call(..).await]: the single database thread runs the calls of
    other connections that came first, and then the operation, or fails before
    it has any effect. *)
Definition db_call {A} (op : nat -> dbm A) : hm (result DbError A) :=
  let! t <- tick;
  fun w =>
    let d := env_others t (w_db w) in
    if env_fault t then (Err IoFailure, set_db d w)
    else let '(r, d') := op t d in (r, set_db d' w).

Definition now_secs : hm Z := let! t <- tick; h_ret (env_clock t).
Definition random_bytes : hm bytes := let! t <- tick; h_ret (env_random t).

Definition push (c : nat) (m : ServerMessage) (w : World) : World :=
  set_out (<[c := default [] (w_out w !! c) ++ [m]]> (w_out w)) w.

(** [sender.try_send(m)]: whether the message was taken. *)
Definition try_send (c : nat) (m : ServerMessage) : hm bool :=
  let! t <- tick;
  fun w => if env_room t then (true, push c m w) else (false, w).

(** [tx.send(m).await]: waits for room; fails when the receiver is gone. *)
Definition send (c : nat) (m : ServerMessage) : hm bool :=
  let! t <- tick;
  fun w => if env_alive t then (true, push c m w) else (false, w).
End World.

(** *** The database a call finds *)

Section AtCall.
Context `{Env}.

(** The state the next database call of the handler finds. *)
Definition at_call (w : World) : Db := env_others (w_tick w) (w_db w).

(** What other connections do while a handler waits. *)
Definition others_step (d d' : Db) : Prop := exists t, d' = env_others t d.

Lemma others_step_alone `{!Alone} d d' : rtc others_step d d' -> d' = d.
Proof. induction 1 as [|d d1 d2 [t ->] _ ->]; [done|apply others_none]. Qed.

Lemma at_call_alone `{!Alone} w : at_call w = w_db w.
Proof. apply others_none. Qed.

(** A call fails, or it is its operation on the state it finds. *)
Lemma db_call_frame {A} (op : nat -> dbm A) w :
  (w_db (db_call op w).2 = at_call w /\ (db_call op w).1 = Err IoFailure)
  \/ (db_call op w).1 = (op (w_tick w) (at_call w)).1 /\ w_db (db_call op w).2 = (op (w_tick w) (at_call w)).2.
Proof.
  unfold db_call, at_call, h_bind, tick. cbn. destruct (env_fault _); [by left|right].
  by destruct (op (w_tick w) _).
Qed.

(** When nothing fails and nobody interferes. *)
Lemma db_call_runs `{!Alone} {A} (op : nat -> dbm A) w :
  env_fault (w_tick w) = false ->
  db_call op w = (let '(r, d) := op (w_tick w) (w_db w) in (r, set_db d (set_tick (S (w_tick w)) w))).
Proof.
  intros Hf. unfold db_call, h_bind, tick. cbn [w_tick w_db set_tick].
  rewrite Hf, (others_none (w_tick w)). done.
Qed.
End AtCall.

(** ** The connection registry *)

Module Registry.
Section Registry.
Context `{Env}.

(** [fetch_add] on an [AtomicU64] wraps. *)
Definition next_conn_id : hm Z := fun w =>
  (w_next_conn_id w, set_next ((w_next_conn_id w + 1) mod 2 ^ 64) w).

Definition cancel_conn (c : nat) : hm unit := fun w =>
  (tt, set_cancelled ({[c]} ∪ w_cancelled w) w).

Definition insert (user_id : string) (sender cancel : nat) : hm Z :=
  let! conn_id <- next_conn_id;
  let! old <- (fun w => (w_online w !! user_id,
                set_online (<[user_id := mkConnEntry conn_id sender cancel]> (w_online w)) w));
  match old with
  | Some e =>
      let! _ <- try_send (ServerWorld.sender e)
                  (ErrorMsg 409 "session replaced by new connection");
      then! cancel_conn (ServerWorld.cancel e);
      h_ret conn_id
  | None => h_ret conn_id
  end.

Definition remove_if_match (user_id : string) (cid : Z) : hm unit := fun w =>
  (tt, match w_online w !! user_id with
       | Some e => if conn_id e =? cid then set_online (delete user_id (w_online w)) w else w
       | None => w
       end).

Definition send_to (user_id : string) (msg : ServerMessage) : hm bool := fun w =>
  match w_online w !! user_id with
  | Some e => try_send (sender e) msg w
  | None => (false, w)
  end.
End Registry.

End Registry.

(** ** An executable environment and codecs *)

Module ToyServer.

Fixpoint bits (p : positive) : string :=
  match p with
  | xH => EmptyString
  | xO p' => String "0" (bits p')
  | xI p' => String "1" (bits p')
  end.
Fixpoint unbits (s : string) : option positive :=
  match s with
  | EmptyString => Some xH
  | String b s' =>
      p ← unbits s';
      if Ascii.eqb b "0" then Some (xO p) else if Ascii.eqb b "1" then Some (xI p) else None
  end.
Lemma unbits_bits p : unbits (bits p) = Some p.
Proof. induction p as [p IH|p IH|]; simpl; by rewrite ?IH. Qed.

#[local] Instance header_eq_dec : EqDecision MessageHeader.
Proof. unfold EqDecision, Decision. repeat decide equality. Defined.
#[local] Instance envelope_eq_dec : EqDecision EncryptedEnvelope.
Proof. unfold EqDecision, Decision. repeat decide equality. Defined.

Definition ratchet_tuple (r : RatchetHeader) : string * Z * Z :=
  (ratchet_key r, previous_chain_length r, message_number r).
Definition ratchet_of (t : string * Z * Z) : RatchetHeader :=
  mkRatchetHeader t.1.1 t.1.2 t.2.
Definition header_tuple (h : MessageHeader)
  : (string * string * Z * option Z * (string * Z * Z)) + (string * Z * Z) :=
  match h with
  | HPreKey a b k o r => inl (a, b, k, o, ratchet_tuple r)
  | HRatchet r => inr (ratchet_tuple r)
  end.
Definition header_of (t : (string * string * Z * option Z * (string * Z * Z)) + (string * Z * Z))
  : MessageHeader :=
  match t with
  | inl (a, b, k, o, r) => HPreKey a b k o (ratchet_of r)
  | inr r => HRatchet (ratchet_of r)
  end.
Definition envelope_tuple (e : EncryptedEnvelope) :=
  (version e, header_tuple (header e), ciphertext e).
Definition envelope_of t : EncryptedEnvelope := mkEnvelope t.1.1 (header_of t.1.2) t.2.

Lemma envelope_of_tuple e : envelope_of (envelope_tuple e) = e.
Proof. by destruct e as [v [? ? ? ? []|[]] ct]. Qed.

#[local] Instance envelope_countable : Countable EncryptedEnvelope :=
  inj_countable' envelope_tuple envelope_of envelope_of_tuple.

Definition uuid_text (m : MessageId) : string := bits (encode (uuid m)).
Definition uuid_of_text (s : string) : option MessageId :=
  mkMessageId <$> (unbits s ≫= decode).

#[export] Instance codecs : Codecs := {|
  b64_encode b := String.string_of_list_byte b;
  b64_decode s := Some (str_bytes s);
  uuid_to_string := uuid_text;
  uuid_parse := uuid_of_text;
  json_of_envelope e := Some (bits (encode e));
  envelope_of_json s := unbits s ≫= decode;
  json_size_message m :=
    match m with
    | QueuedMessages ms =>
        Some (20 + 10 * Z.of_nat (length ms) + Z.max 0 (Z.of_nat (length ms) - 1))
    | _ => Some 20
    end;
  json_size_inbound _ := Some 10;
|}.

#[export] Instance codec_laws : CodecLaws.
Proof.
  constructor; simpl.
  - intros b. unfold str_bytes. by rewrite String.list_byte_of_string_of_list_byte.
  - intros [z]. unfold uuid_of_text, uuid_text. rewrite unbits_bits. cbn [mbind option_bind].
    by rewrite decode_encode.
  - intros e s [= <-]. rewrite unbits_bits. cbn [mbind option_bind]. apply decode_encode.
Qed.

#[export] Instance size_laws : JsonSizeLaws.
Proof.
  constructor; simpl; [|naive_solver lia]. intros empty ms sizes [= <-] Hm.
  apply mapM_Some in Hm. f_equal.
  enough (fold_right Z.add 0 sizes = 10 * Z.of_nat (length ms)) by lia.
  induction Hm as [|m z ms sizes [= <-] Hm IH]; simpl; lia.
Qed.

#[export] Instance env : Env := {|
  env_fault _ := false;
  env_clock t := 1000 + Z.of_nat t;
  env_unixepoch t := 1000 + Z.of_nat t;
  env_datetime _ := "2024-01-15 10:30:45";
  env_random _ := repeat Byte.x2a 32;
  env_room _ := true;
  env_alive _ := true;
  env_others _ d := d;
|}.
#[export] Instance alone : Alone.
Proof. intros t d. reflexivity. Qed.

Definition world (d : Db) : World := mkWorld d ∅ 1 ∅ ∅ 0.

End ToyServer.
