(* ===== verification/ServerProcess.v ===== *)
(** * The server process ([crates/server/src/main.rs])

    The queue's garbage collection that runs beside the connections
    ([spawn_gc_task]), and what its comparison of timestamps means: the
    [created_at] column holds text, [DELETE .. WHERE created_at < ..] compares
    it byte by byte, and the order of the texts is the order of the instants. *)
From stdpp Require Import base numbers list strings pretty gmap.
From Stdlib Require Import Strings.Byte Lia.
From S2P Require Import Prelude Consts SqlDb DbPrekeys DbQueue DbTrace Datetime ServerWorld.
Local Open Scope Z_scope.
Local Open Scope cmp_scope.

(** ** Comparing texts *)

(** The lexicographic combination of two comparisons. *)
Definition and_then (c d : comparison) : comparison := match c with Eq => d | _ => c end.

Definition compare_bytes (a b : bytes) : comparison :=
  String.compare (String.string_of_list_byte a) (String.string_of_list_byte b).

Lemma compare_cons x a y b :
  compare_bytes (x :: a) (y :: b) = and_then (compare_bytes [x] [y]) (compare_bytes a b).
Proof.
  unfold compare_bytes. cbn. by destruct (Ascii.compare _ _).
Qed.

Lemma compare_app a a' b b' :
  length a = length a' -> compare_bytes (a ++ b) (a' ++ b') = and_then (compare_bytes a a') (compare_bytes b b').
Proof.
  revert a'. induction a as [|x a IH]; intros [|y a'] Hl; try done.
  rewrite <- !app_comm_cons, compare_cons, IH by (cbn in Hl; lia).
  rewrite (compare_cons x a y a'). by destruct (compare_bytes [x] [y]).
Qed.

(** Digits compare as numbers. *)
Definition digit_pairs_ok : bool :=
  forallb (fun a => forallb (fun b =>
    bool_decide (compare_bytes [byte_of_Z (48 + Z.of_nat a)] [byte_of_Z (48 + Z.of_nat b)]
                 = (Z.of_nat a ?= Z.of_nat b))) (seq 0 10)) (seq 0 10).
Lemma compare_digit a b : 0 <= a < 10 -> 0 <= b < 10 ->
  compare_bytes [byte_of_Z (48 + a)] [byte_of_Z (48 + b)] = (a ?= b).
Proof.
  intros Ha Hb. assert (digit_pairs_ok = true) as Hok by (vm_compute; reflexivity).
  unfold digit_pairs_ok in Hok. rewrite forallb_forall in Hok.
  specialize (Hok (Z.to_nat a)). rewrite forallb_forall in Hok. rewrite Z2Nat.id in Hok by lia.
  specialize (Hok ltac:(apply in_seq; lia) (Z.to_nat b) ltac:(apply in_seq; lia)).
  rewrite Z2Nat.id in Hok by lia. by apply bool_decide_eq_true in Hok.
Qed.

Lemma compare_split base q q' r r' :
  0 < base -> 0 <= r < base -> 0 <= r' < base ->
  (q * base + r ?= q' * base + r') = and_then (q ?= q') (r ?= r').
Proof.
  intros Hb Hr Hr'. destruct (Z.compare_spec q q') as [->|Hq|Hq]; cbn.
  - destruct (Z.compare_spec r r') as [->| |]; [apply Z.compare_refl|apply Z.compare_lt_iff; lia|apply Z.compare_gt_iff; lia].
  - apply Z.compare_lt_iff. nia.
  - apply Z.compare_gt_iff. nia.
Qed.

Lemma length_digits k n : length (digits k n) = k.
Proof. revert n. induction k as [|k IH]; intros n; [done|]. cbn. rewrite length_app, IH. cbn. lia. Qed.

Lemma compare_digits k n n' :
  0 <= n < 10 ^ Z.of_nat k -> 0 <= n' < 10 ^ Z.of_nat k ->
  compare_bytes (digits k n) (digits k n') = (n ?= n').
Proof.
  revert n n'. induction k as [|k IH]; intros n n' Hn Hn'.
  - cbn in Hn, Hn'. replace n with 0 by lia. replace n' with 0 by lia. done.
  - rewrite Nat2Z.inj_succ, Z.pow_succ_r in Hn, Hn' by lia. cbn [digits].
    rewrite compare_app by (by rewrite !length_digits).
    rewrite IH, compare_digit by (try (apply Z.mod_pos_bound); try (split; [apply Z.div_pos|apply Z.div_lt_upper_bound]); lia).
    rewrite (Z.div_mod n 10) at 3 by lia. rewrite (Z.div_mod n' 10) at 3 by lia.
    rewrite !(Z.mul_comm 10), compare_split by (try (apply Z.mod_pos_bound); lia). done.
Qed.

(** ** The order of instants *)

Lemma year_step n n' : (n < n')%nat -> days_to_year n + year_length (1970 + Z.of_nat n) <= days_to_year n'.
Proof.
  intros Hn. induction n' as [|n' IH]; [lia|]. cbn [days_to_year].
  assert (0 < year_length (1970 + Z.of_nat n')) by (unfold year_length; case_match; lia).
  destruct (decide (n = n')) as [->|]; [lia|]. specialize (IH ltac:(lia)). lia.
Qed.
Lemma month_step y n n' :
  (n < n')%nat -> days_to_month y n + month_length y (1 + Z.of_nat n) <= days_to_month y n'.
Proof.
  intros Hn. induction n' as [|n' IH]; [lia|]. cbn [days_to_month].
  assert (0 < month_length y (1 + Z.of_nat n')) by (unfold month_length; repeat case_match; lia).
  destruct (decide (n = n')) as [->|]; [lia|]. specialize (IH ltac:(lia)). lia.
Qed.
Lemma year_months y : days_to_month y 12 = year_length y.
Proof. unfold year_length. cbn. unfold month_length. cbn. by destruct (leap_year y). Qed.

(** The day within its year, and its number. *)
Definition day_of_year (y m d : Z) : Z := days_to_month y (Z.to_nat (m - 1)) + (d - 1).
Definition day_number (y m d : Z) : Z := days_to_year (Z.to_nat (y - 1970)) + day_of_year y m d.

Lemma day_of_year_range y m d :
  1 <= m <= 12 -> 1 <= d <= month_length y m -> 0 <= day_of_year y m d < year_length y.
Proof.
  intros Hm Hd. unfold day_of_year. pose proof (days_to_month_nonneg y (Z.to_nat (m - 1))). split; [lia|].
  rewrite <- year_months. pose proof (month_step y (Z.to_nat (m - 1)) 12 ltac:(lia)) as Hs.
  replace (1 + Z.of_nat (Z.to_nat (m - 1))) with m in Hs by lia. lia.
Qed.

(** The comparison of strictly growing blocks. *)
Lemma compare_blocks a a' x x' :
  (a < a' -> x < x') -> (a' < a -> x' < x) -> (x ?= x') = and_then (a ?= a') (x ?= x').
Proof.
  intros Hlt Hgt. destruct (Z.compare_spec a a') as [->|Ha|Ha]; cbn; [done| |];
    [apply Z.compare_lt_iff|apply Z.compare_gt_iff]; auto.
Qed.

Lemma compare_offset k a b : (k + a ?= k + b) = (a ?= b).
Proof. destruct (Z.compare_spec a b) as [->| |]; [apply Z.compare_refl|apply Z.compare_lt_iff; lia|apply Z.compare_gt_iff; lia]. Qed.

Lemma compare_day_of_year y m d m' d' :
  1 <= m <= 12 -> 1 <= d <= month_length y m -> 1 <= m' <= 12 -> 1 <= d' <= month_length y m' ->
  (day_of_year y m d ?= day_of_year y m' d') = and_then (m ?= m') (d ?= d').
Proof.
  intros Hm Hd Hm' Hd'. rewrite (compare_blocks m m').
  - destruct (Z.compare_spec m m') as [->| |]; cbn; [|done..]. unfold day_of_year. rewrite compare_offset.
    replace (d - 1) with (-1 + d) by lia. replace (d' - 1) with (-1 + d') by lia. apply compare_offset.
  - intros Hlt. pose proof (month_step y (Z.to_nat (m - 1)) (Z.to_nat (m' - 1)) ltac:(lia)) as Hs.
    replace (1 + Z.of_nat (Z.to_nat (m - 1))) with m in Hs by lia. unfold day_of_year. lia.
  - intros Hlt. pose proof (month_step y (Z.to_nat (m' - 1)) (Z.to_nat (m - 1)) ltac:(lia)) as Hs.
    replace (1 + Z.of_nat (Z.to_nat (m' - 1))) with m' in Hs by lia. unfold day_of_year. lia.
Qed.

Lemma compare_day_number y m d y' m' d' :
  1970 <= y -> 1 <= m <= 12 -> 1 <= d <= month_length y m ->
  1970 <= y' -> 1 <= m' <= 12 -> 1 <= d' <= month_length y' m' ->
  (day_number y m d ?= day_number y' m' d') = and_then (y ?= y') (and_then (m ?= m') (d ?= d')).
Proof.
  intros Hy Hm Hd Hy' Hm' Hd'.
  pose proof (day_of_year_range y m d Hm Hd). pose proof (day_of_year_range y' m' d' Hm' Hd').
  rewrite (compare_blocks y y').
  - destruct (Z.compare_spec y y') as [->| |]; cbn; [|done..]. unfold day_number. rewrite compare_offset.
    by apply compare_day_of_year.
  - intros Hlt. pose proof (year_step (Z.to_nat (y - 1970)) (Z.to_nat (y' - 1970)) ltac:(lia)) as Hs.
    replace (1970 + Z.of_nat (Z.to_nat (y - 1970))) with y in Hs by lia. unfold day_number. lia.
  - intros Hlt. pose proof (year_step (Z.to_nat (y' - 1970)) (Z.to_nat (y - 1970)) ltac:(lia)) as Hs.
    replace (1970 + Z.of_nat (Z.to_nat (y' - 1970))) with y' in Hs by lia. unfold day_number. lia.
Qed.

Lemma and_then_assoc a b c : and_then (and_then a b) c = and_then a (and_then b c).
Proof. by destruct a. Qed.

(** A separator between fields does not matter. *)
Lemma compare_field k n n' sep s s' :
  0 <= n < 10 ^ Z.of_nat k -> 0 <= n' < 10 ^ Z.of_nat k ->
  compare_bytes (digits k n ++ sep :: s) (digits k n' ++ sep :: s') = and_then (n ?= n') (compare_bytes s s').
Proof.
  intros Hn Hn'. rewrite compare_app by (by rewrite !length_digits). rewrite compare_digits by done.
  f_equal. rewrite compare_cons. assert (compare_bytes [sep] [sep] = Eq) as ->; [by destruct sep|done].
Qed.

(** Texts compare as the instants they stand for. *)
Lemma compare_datetime y m d h mi s y' m' d' h' mi' s' :
  valid_instant y m d h mi s -> valid_instant y' m' d' h' mi' s' ->
  compare_bytes (datetime_text y m d h mi s) (datetime_text y' m' d' h' mi' s')
  = (epoch_seconds y m d h mi s ?= epoch_seconds y' m' d' h' mi' s').
Proof.
  intros (Hy & Hm & Hd & Hh & Hmi & Hs) (Hy' & Hm' & Hd' & Hh' & Hmi' & Hs').
  assert (month_length y m <= 31 /\ month_length y' m' <= 31) by (unfold month_length; repeat case_match; lia).
  unfold datetime_text. rewrite !compare_field, compare_digits by (cbn; lia).
  assert (forall y m d h mi s, epoch_seconds y m d h mi s
    = ((day_number y m d * 24 + h) * 60 + mi) * 60 + s) as E by (intros; unfold epoch_seconds, day_number, day_of_year; lia).
  rewrite !E, !compare_split, compare_day_number by lia. by rewrite !and_then_assoc.
Qed.

(** ** The garbage collection *)

Definition GC_INTERVAL_SECS : Z := 3600.
Definition GC_MAX_AGE_DAYS : Z := 30.

(** SQLite's [datetime('now', modifier)], and the second its ['now'] is in. *)
Class SqlNow := {
  datetime_modified : nat -> string -> string;
  sql_now : nat -> Z;
}.

(** [format!("-{max_age_days} days")] *)
Definition days_modifier (days : Z) : string := "-" +:+ pretty days +:+ " days".

(** The text of the instant [a] seconds after the epoch. *)
Definition text_of_instant (s : string) (a : Z) : Prop :=
  exists y m d h mi sec, valid_instant y m d h mi sec
    /\ s = String.string_of_list_byte (datetime_text y m d h mi sec) /\ epoch_seconds y m d h mi sec = a.

(** What SQLite documents of the modifier. *)
Class SqlNowLaws `{SqlNow} : Prop :=
  datetime_30_days_ago t : text_of_instant (datetime_modified t "-30 days") (sql_now t - 30 * 86400).

Section Gc.
Context `{Env, SqlNow}.

(** [gc_old_messages(&conn, max_age_days)]: the cutoff is computed by the statement. *)
Definition gc_days_old (max_age_days : Z) : hm (result DbError Z) :=
  db_call (fun t => gc_old_messages (datetime_modified t (days_modifier max_age_days))).

(** One tick of the task; the outcome is only logged. *)
Definition gc_tick : hm unit := then! gc_days_old GC_MAX_AGE_DAYS; h_ret tt.

(** The first [k] ticks of the loop, [GC_INTERVAL_SECS] apart; what the
    connections do in between is [env_others] of the next tick. *)
Fixpoint gc_task (k : nat) (w : World) : World :=
  match k with O => w | S k' => gc_task k' (gc_tick w).2 end.

Context `{!SqlNowLaws}.

Lemma text_lt_instant s a s' a' : text_of_instant s a -> text_of_instant s' a' -> text_lt s s' = (a <? a').
Proof.
  intros (y & m & d & h & mi & sec & V & -> & <-) (y' & m' & d' & h' & mi' & sec' & V' & -> & <-).
  unfold text_lt. pose proof (compare_datetime _ _ _ _ _ _ _ _ _ _ _ _ V V') as E. unfold compare_bytes in E.
  rewrite E. unfold Z.ltb. by destruct (_ ?= _).
Qed.

Lemma gc_tick_spec w :
  w_tick (gc_tick w).2 = S (w_tick w)
  /\ w_db (gc_tick w).2 = (if env_fault (w_tick w) then at_call w
       else (gc_old_messages (datetime_modified (w_tick w) (days_modifier GC_MAX_AGE_DAYS)) (at_call w)).2).
Proof. unfold gc_tick, gc_days_old, h_bind, db_call, h_bind, tick, at_call. cbn. by destruct (env_fault _). Qed.

(** One tick: the row stays unless it is too old, and no other table changes. *)
Lemma gc_tick_keeps w r a :
  text_of_instant (q_created_at r) a ->
  (r ∈ message_queue (w_db (gc_tick w).2)
   <-> r ∈ message_queue (at_call w) /\ (env_fault (w_tick w) = false -> sql_now (w_tick w) - a <= 30 * 86400))
  /\ set_queue [] (w_db (gc_tick w).2) = set_queue [] (at_call w).
Proof.
  intros Ha. destruct (gc_tick_spec w) as [_ ->].
  destruct (env_fault (w_tick w)); [split; [naive_solver|done]|]. split; [|done].
  cbn [gc_old_messages snd set_queue message_queue]. rewrite list_elem_of_filter.
  assert (days_modifier GC_MAX_AGE_DAYS = "-30 days") as -> by reflexivity.
  rewrite (text_lt_instant _ _ _ _ Ha (datetime_30_days_ago (w_tick w))), Z.ltb_ge. naive_solver lia.
Qed.

(** C33: The collection deletes what is too old and nothing else.  Let the other
    connections do anything that neither deletes nor adds a certain row.  If
    it was stored at second [a] then after any number of ticks it is still queued
    exactly if at no tick (whose statement ran) it was older than 30 days; the
    comparison of timestamp texts in the statement is the comparison of the
    instants.  A tick changes no other table. *)
Theorem gc_deletes_the_old k w r a :
  text_of_instant (q_created_at r) a ->
  (forall t d, r ∈ message_queue (env_others t d) <-> r ∈ message_queue d) ->
  (r ∈ message_queue (w_db (gc_task k w))
   <-> r ∈ message_queue (w_db w)
       /\ forall j, (j < k)%nat -> env_fault (w_tick w + j) = false ->
            sql_now (w_tick w + j) - a <= 30 * 86400)
  /\ set_queue [] (w_db (gc_tick w).2) = set_queue [] (at_call w).
Proof.
  intros Ha Ho. split; [|by eapply gc_tick_keeps].
  revert w. induction k as [|k IH]; intros w; cbn [gc_task]; [naive_solver lia|].
  rewrite IH. destruct (gc_tick_keeps w r a Ha) as [-> _]. destruct (gc_tick_spec w) as [-> _].
  unfold at_call. rewrite Ho. clear IH. split.
  - intros [[Hr H0'] Hj]. split; [done|]. intros [|j] Hlt; [by rewrite Nat.add_0_r|].
    rewrite Nat.add_succ_r. apply (Hj j). lia.
  - intros [Hr Hj]. split; [split; [done|]|].
    + rewrite <- (Nat.add_0_r (w_tick w)). apply Hj. lia.
    + intros j Hlt. replace (S (w_tick w) + j)%nat with (w_tick w + S j)%nat by lia. apply Hj. lia.
Qed.
End Gc.

(** ** A concrete collection *)

Module GcDemo.
#[local] Existing Instance ToyServer.env.

(** It is 1 March 2024; thirty days ago it was 31 January. *)
#[local] Instance march : SqlNow := {|
  datetime_modified _ m :=
    if bool_decide (m = "-30 days") then String.string_of_list_byte (datetime_text 2024 1 31 0 0 0) else "";
  sql_now _ := epoch_seconds 2024 3 1 0 0 0;
|}.
Lemma march_laws : SqlNowLaws.
Proof.
  intros t. exists 2024, 1, 31, 0, 0, 0. split; [|split; vm_compute; reflexivity].
  unfold valid_instant. vm_compute. intuition discriminate.
Defined.

Definition row (n d h mi s : Z) : QueueRow :=
  mkQueueRow n "" "bob" "alice" "" (String.string_of_list_byte (datetime_text 2024 1 d h mi s)).
Definition old : QueueRow := row 1 30 23 59 59.
Definition young : QueueRow := row 2 31 0 0 0.
Definition before : World := ToyServer.world (mkDb ∅ ∅ ∅ ∅ ∅ [] [old; young] ∅ 0 []).

Lemma gc_deletes_the_old_witness :
  young ∈ message_queue (w_db (gc_task 2 before)) /\ old ∉ message_queue (w_db (gc_task 2 before)).
Proof.
  split.
  - destruct (@gc_deletes_the_old _ _ march_laws 2 before young (epoch_seconds 2024 1 31 0 0 0)) as [[_ Hk] _].
    + exists 2024, 1, 31, 0, 0, 0. split; [|split; reflexivity]. unfold valid_instant. vm_compute. intuition discriminate.
    + done.
    + apply Hk. split; [right; left|]. intros j _ _. vm_compute. discriminate.
  - destruct (@gc_deletes_the_old _ _ march_laws 2 before old (epoch_seconds 2024 1 30 23 59 59)) as [[Hk _] _].
    + exists 2024, 1, 30, 23, 59, 59. split; [|split; reflexivity]. unfold valid_instant. vm_compute. intuition discriminate.
    + done.
    + intros [_ Hj]%Hk. apply (Hj 0%nat); [repeat constructor|reflexivity|vm_compute; reflexivity].
Defined.
End GcDemo.
