(* ===== verification/Handlers.v ===== *)
(** * Request handlers ([crates/server/src/handlers/])

    One definition per handler, with every guard, database call and push to
    other users, and the router [handle_message].  [c] is the connection the
    request came from. *)
From stdpp Require Import base numbers list strings gmap.
From S2P Require Import Prelude Consts Types Primitives SqlDb DbUsers DbPrekeys DbQueue DbReceipts DbTrace ServerWorld.
Local Open Scope Z_scope.
Local Open Scope cmp_scope.

Record PendingChallenge := mkPendingChallenge {
  pc_user_id : string;
  pc_nonce : bytes;
  pc_timestamp : Z;
}.

Record Session := mkSessionOf {
  authed_user : option string;
  s_conn_id : option Z;
  pending_challenge : option PendingChallenge;
  deliver_prekey_status_flag : bool;
  s_cancel : nat;
}.

Definition Session_new (cancel : nat) : Session := mkSessionOf None None None false cancel.

Definition auth_failure (reason : string) : ServerMessage := AuthFailure reason.
Definition error_400 (message : string) : ServerMessage := ErrorMsg 400 message.
Definition error_404 (message : string) : ServerMessage := ErrorMsg 404 message.
Definition error_429 (message : string) : ServerMessage := ErrorMsg 429 message.
Definition error_500_generic : ServerMessage := ErrorMsg 500 "internal server error".

Definition PREKEY_LOW_THRESHOLD : Z := 10.

(** [let Ok(arr): Result<[u8; N], _> = bytes.try_into()] *)
Definition sized (n : nat) (b : bytes) : option bytes :=
  if (length b =? n)%nat then Some b else None.

Section Handlers.
Context `{CryptoPrims, Codecs, SqlPick, Env}.
Context (sha256 : bytes -> bytes) (server_id : string).

(** The [filter_map] of [decode_prekeys]; [seen] is the [HashSet]. *)
Fixpoint decode_prekeys_from (seen : gset Z) (l : list OneTimePreKey) : list (Z * bytes) :=
  match l with
  | [] => []
  | pk :: l' =>
      if bool_decide (key_id pk ∈ seen) then decode_prekeys_from seen l'
      else
        let seen' := {[key_id pk]} ∪ seen in
        match b64_decode (public_key pk) with
        | Some b => if (length b =? 32)%nat then (key_id pk, b) :: decode_prekeys_from seen' l'
                    else decode_prekeys_from seen' l'
        | None => decode_prekeys_from seen' l'
        end
  end.

Definition decode_prekeys (prekeys : list OneTimePreKey)
  : result ServerMessage (list (Z * bytes)) :=
  let pairs := decode_prekeys_from ∅ prekeys in
  if negb (length pairs =? length prekeys)%nat
  then Err (error_400 "prekeys must have unique IDs and valid 32-byte base64 public keys")
  else Ok pairs.

(** *** Authentication ([handlers/auth.rs]) *)

(** The checks of [handle_register] on the bundle: the decoded identity key,
    signed pre-key and signature. *)
Definition check_bundle (bundle : PreKeyBundle) : result ServerMessage (bytes * bytes * bytes) :=
  let? identity_bytes := ok_or (auth_failure "invalid base64 in identity_key")
                           (b64_decode (identity_key bundle)) in
  let? ik := ok_or (auth_failure "identity key must be 32 bytes") (sized 32 identity_bytes) in
  if negb (ed25519_from_bytes ik)
  then Err (auth_failure "identity key is not a valid Ed25519 public key")
  else
  let? spk_bytes := ok_or (auth_failure "invalid base64 in signed_prekey")
                      (b64_decode (signed_prekey bundle)) in
  if negb (length spk_bytes =? 32)%nat
  then Err (auth_failure "signed prekey must be 32 bytes")
  else
  let? sig_bytes := ok_or (auth_failure "invalid base64 in signature")
                      (b64_decode (signed_prekey_signature bundle)) in
  let? sig := ok_or (auth_failure "signature must be 64 bytes") (sized 64 sig_bytes) in
  if negb (ed25519_verify ik spk_bytes sig)
  then Err (auth_failure "signed prekey signature is invalid")
  else Ok (identity_bytes, spk_bytes, sig_bytes).

Definition handle_register (c : nat) (session : Session) (user_id : UserId)
    (bundle : PreKeyBundle) (one_time_prekeys : list OneTimePreKey)
  : hm (ServerMessage * Session) :=
  match authed_user session with
  | Some _ => h_ret (auth_failure "already authenticated", session)
  | None =>
      let uid := as_str user_id in
      if MAX_PREKEYS_PER_UPLOAD <? Z.of_nat (length one_time_prekeys)
      then h_ret (error_400 "too many prekeys", session)
      else
        match check_bundle bundle with
        | Err msg => h_ret (msg, session)
        | Ok (identity_bytes, spk_bytes, sig_bytes) =>
            match decode_prekeys one_time_prekeys with
            | Err msg => h_ret (msg, session)
            | Ok prekey_pairs =>
                let! r <- db_call (fun t => register_atomic (env_unixepoch t)
                            (mkRegistration uid identity_bytes (signed_prekey_id bundle)
                               spk_bytes sig_bytes prekey_pairs));
                match r with
                | Ok true =>
                    let! cid <- Registry.insert uid c (s_cancel session);
                    h_ret (AuthSuccess,
                           mkSessionOf (Some uid) (Some cid) (pending_challenge session)
                             (deliver_prekey_status_flag session) (s_cancel session))
                | Ok false =>
                    h_ret (auth_failure "user already exists — use AuthChallenge to login", session)
                | Err _ => h_ret (error_500_generic, session)
                end
            end
        end
  end.

Definition handle_auth_challenge (session : Session) (user_id : UserId)
  : hm (ServerMessage * Session) :=
  match authed_user session with
  | Some _ => h_ret (auth_failure "already authenticated", session)
  | None =>
      let uid := as_str user_id in
      let! r <- db_call (fun _ => exists_user uid);
      match r with
      | Ok true =>
          let! nonce <- random_bytes;
          let! timestamp <- now_secs;
          h_ret (Challenge (b64_encode nonce) timestamp server_id,
                 mkSessionOf (authed_user session) (s_conn_id session)
                   (Some (mkPendingChallenge uid nonce timestamp))
                   (deliver_prekey_status_flag session) (s_cancel session))
      | Ok false => h_ret (auth_failure "authentication failed", session)
      | Err _ => h_ret (error_500_generic, session)
      end
  end.

(** The bytes an authentication signature covers. *)
Definition signed_data (challenge : PendingChallenge) : bytes :=
  pc_nonce challenge ++ be_bytes 8 (pc_timestamp challenge) ++ str_bytes server_id.

(** The checks of [handle_auth_response] on the stored key and the signature. *)
Definition check_signature (challenge : PendingChallenge) (identity_bytes : bytes)
    (signature_b64 : string) : result ServerMessage unit :=
  let? vk := ok_or (auth_failure "invalid stored identity key") (sized 32 identity_bytes) in
  if negb (ed25519_from_bytes vk) then Err (auth_failure "invalid stored identity key")
  else
  let? sig_bytes := ok_or (auth_failure "invalid base64 signature") (b64_decode signature_b64) in
  let? sig := ok_or (auth_failure "signature must be 64 bytes") (sized 64 sig_bytes) in
  if negb (ed25519_verify vk (signed_data challenge) sig)
  then Err (auth_failure "signature verification failed")
  else Ok tt.

Definition handle_auth_response (c : nat) (session : Session) (signature_b64 : string)
  : hm (ServerMessage * Session) :=
  match authed_user session with
  | Some _ => h_ret (auth_failure "already authenticated", session)
  | None =>
      match pending_challenge session with
      | None => h_ret (auth_failure "no pending challenge", session)
      | Some challenge =>
          (* [take()] *)
          let session := mkSessionOf (authed_user session) (s_conn_id session) None
                           (deliver_prekey_status_flag session) (s_cancel session) in
          let! now <- now_secs;
          if 60 <? saturating_sub now (pc_timestamp challenge)
          then h_ret (auth_failure "challenge expired", session)
          else
            let! r <- db_call (fun _ => get_identity_key (pc_user_id challenge));
            match r with
            | Ok None => h_ret (auth_failure "authentication failed", session)
            | Err _ => h_ret (error_500_generic, session)
            | Ok (Some identity_bytes) =>
                match check_signature challenge identity_bytes signature_b64 with
                | Err msg => h_ret (msg, session)
                | Ok _ =>
                    let user_id := pc_user_id challenge in
                    let! cid <- Registry.insert user_id c (s_cancel session);
                    h_ret (AuthSuccess,
                           mkSessionOf (Some user_id) (Some cid) (pending_challenge session)
                             true (s_cancel session))
                end
            end
      end
  end.

(** *** Messages ([handlers/message.rs]) *)

Definition validate_b64_len (n : nat) (encoded : string) : result string unit :=
  let? decoded := ok_or "invalid key encoding"%string (b64_decode encoded) in
  if negb (length decoded =? n)%nat then Err "invalid key length"%string else Ok tt.

Definition validate_envelope (envelope : EncryptedEnvelope) : result string unit :=
  if negb (version envelope =? PROTOCOL_VERSION) then Err "unsupported protocol version"%string
  else if MAX_CIPHERTEXT_BYTES <? str_len (ciphertext envelope)
  then Err "ciphertext exceeds maximum size"%string
  else
    match b64_decode (ciphertext envelope) with
    | None => Err "invalid ciphertext encoding"%string
    | Some _ =>
        match header envelope with
        | HPreKey sender_identity_key sender_ephemeral_key _ _ ratchet =>
            let? _ := validate_b64_len 32 sender_identity_key in
            let? _ := validate_b64_len 32 sender_ephemeral_key in
            validate_b64_len 32 (ratchet_key ratchet)
        | HRatchet ratchet => validate_b64_len 32 (ratchet_key ratchet)
        end
    end.

Definition envelope_prekey_ids (h : MessageHeader) : option Z * option Z :=
  match h with
  | HPreKey _ _ recipient_signed_prekey_id recipient_one_time_prekey_id _ =>
      (Some recipient_signed_prekey_id, recipient_one_time_prekey_id)
  | HRatchet _ => (None, None)
  end.

Definition validate_enqueue_result (r : result DbError EnqueueResult) (message_id : MessageId)
  : result ServerMessage unit :=
  match r with
  | Ok Inserted | Ok Duplicate => Ok tt
  | Ok QueueFull => Err (error_400 "recipient's message queue is full")
  | Ok RecipientNotFound => Err (error_404 "not found")
  | Ok PrekeyReservationInvalid =>
      Err (MessageRejected message_id "one-time pre-key reservation expired")
  | Ok SignedPrekeyExpired => Err (MessageRejected message_id "signed pre-key expired")
  | Ok MessageIdConflict => Err (error_400 "message ID already used with different content")
  | Ok AcceptanceLedgerFull => Err (error_400 "too many unconfirmed sent messages")
  | Err _ => Err error_500_generic
  end.

Definition handle_send (sender_id : string) (recipient_id : UserId) (message_id : MessageId)
    (envelope : EncryptedEnvelope) : hm ServerMessage :=
  match validate_envelope envelope with
  | Err message => h_ret (error_400 message)
  | Ok _ =>
      let msg_id_str := uuid_to_string message_id in
      let recipient_str := as_str recipient_id in
      let '(spk_id, opk_id) := envelope_prekey_ids (header envelope) in
      match UserId_new sender_id with
      | Err _ => h_ret error_500_generic
      | Ok sender_user_id =>
          let! timestamp <- now_secs;
          let inbound := mkInbound message_id sender_user_id envelope timestamp in
          match json_size_message (QueuedMessages [inbound]) with
          | None => h_ret (error_400 "invalid envelope")
          | Some queued_page_len =>
              if MAX_QUEUED_PAGE_BYTES <? queued_page_len
              then h_ret (error_400 "message exceeds queued delivery size")
              else
                match json_of_envelope envelope with
                | None => h_ret (error_400 "invalid envelope")
                | Some envelope_json =>
                    let! now <- now_secs;
                    let! r <- db_call (fun t => enqueue sha256 (env_datetime t)
                                (mkEnqueueRequest msg_id_str recipient_str sender_id envelope_json
                                   MAX_QUEUE_PER_USER spk_id opk_id now));
                    match validate_enqueue_result r message_id with
                    | Err response => h_ret response
                    | Ok _ =>
                        let! pushed <- Registry.send_to recipient_str (IncomingMessage inbound);
                        then! (if pushed : bool
                               then Registry.send_to sender_id (MessageDelivered [message_id])
                               else h_ret false);
                        h_ret (MessageSent message_id)
                    end
                end
          end
      end
  end.

Definition handle_message_sent_ack (sender_id : string) (message_ids : list MessageId)
  : hm (option ServerMessage) :=
  if MAX_ACK_BATCH <? Z.of_nat (length message_ids)
  then h_ret (Some (error_400 "ack batch exceeds maximum size"))
  else
    let! r <- db_call (fun _ => confirm_acceptances sender_id (uuid_to_string <$> message_ids));
    match r with
    | Err _ => h_ret (Some error_500_generic)
    | Ok _ => h_ret None
    end.

Definition handle_ack (recipient_id : string) (ack_id : MessageId) (message_ids : list MessageId)
  : hm (option ServerMessage) :=
  if MAX_ACK_BATCH <? Z.of_nat (length message_ids)
  then h_ret (Some (error_400 "ack batch exceeds maximum size"))
  else
    let! r <- db_call (fun _ => delete_messages recipient_id (uuid_to_string <$> message_ids));
    match r with
    | Err _ => h_ret (Some error_500_generic)
    | Ok _ => h_ret (Some (AckSuccess ack_id message_ids))
    end.

Definition handle_typing (from : string) (to : UserId) : hm unit :=
  match UserId_new from with
  | Err _ => h_ret tt
  | Ok from_uid =>
      then! Registry.send_to (as_str to) (PeerTyping from_uid);
      h_ret tt
  end.

Definition handle_read_receipt (from : string) (to : UserId) (receipt_id : MessageId)
    (envelope : EncryptedEnvelope) : hm (option ServerMessage) :=
  match validate_envelope envelope with
  | Err message => h_ret (Some (error_400 message))
  | Ok _ =>
      match UserId_new from with
      | Err _ => h_ret None
      | Ok from_uid =>
          match json_of_envelope envelope with
          | None => h_ret (Some (error_400 "invalid envelope"))
          | Some envelope_json =>
              let! r <- db_call (fun t => enqueue_receipt (env_datetime t)
                          (uuid_to_string receipt_id) (as_str to) from envelope_json
                          MAX_QUEUE_PER_USER);
              match r with
              | Ok ReceiptInserted | Ok ReceiptDuplicate =>
                  then! Registry.send_to (as_str to)
                          (IncomingReadReceipt from_uid receipt_id envelope);
                  h_ret None
              | Ok ReceiptAlreadyAcknowledged => h_ret (Some (ReadReceiptSent receipt_id))
              | Ok ReceiptQueueFull =>
                  h_ret (Some (error_400 "recipient read receipt queue is full"))
              | Ok ReceiptCollision => h_ret (Some (error_400 "read receipt ID already exists"))
              | Err _ => h_ret (Some error_500_generic)
              end
          end
      end
  end.

Definition handle_read_receipt_sent_ack (sender_id : string) (receipt_ids : list MessageId)
  : hm ServerMessage :=
  if MAX_RECEIPT_BATCH <? Z.of_nat (length receipt_ids)
  then h_ret (error_400 "read receipt confirmation exceeds maximum size")
  else
    let! r <- db_call (fun _ => confirm_sender_received sender_id (uuid_to_string <$> receipt_ids));
    match r with
    | Err _ => h_ret error_500_generic
    | Ok _ => h_ret Success
    end.

Fixpoint notify_receipt_senders (acknowledged : list (string * string)) : hm unit :=
  match acknowledged with
  | [] => h_ret tt
  | (receipt_id, sender_id) :: l =>
      then! match uuid_parse receipt_id with
            | Some m => Registry.send_to sender_id (ReadReceiptSent m)
            | None => h_ret false
            end;
      notify_receipt_senders l
  end.

Definition handle_read_receipt_ack (recipient_id : string) (ack_id : MessageId)
    (receipt_ids : list MessageId) : hm ServerMessage :=
  if MAX_RECEIPT_BATCH <? Z.of_nat (length receipt_ids)
  then h_ret (error_400 "read receipt ack exceeds maximum size")
  else
    let! r <- db_call (fun _ => acknowledge recipient_id (uuid_to_string <$> receipt_ids));
    match r with
    | Err _ => h_ret error_500_generic
    | Ok acknowledged =>
        then! notify_receipt_senders acknowledged;
        h_ret (AckSuccess ack_id receipt_ids)
    end.

(** *** Pre-keys ([handlers/prekey.rs]) *)

(** The end of [handle_fetch]: the bundle, and the low-inventory notice. *)
Definition answer_bundle (target_user_id : UserId) (bundle : PreKeyBundle) : hm ServerMessage :=
  let uid := as_str target_user_id in
  let! r <- db_call (fun t => count_prekeys (env_unixepoch t) uid);
  then! match r with
        | Ok remaining =>
            if remaining <? PREKEY_LOW_THRESHOLD
            then Registry.send_to uid (PreKeyLow remaining) else h_ret false
        | Err _ => h_ret false
        end;
  h_ret (PreKeyBundleResponse target_user_id bundle).

Definition handle_fetch (requester_id : string) (target_user_id : UserId) : hm ServerMessage :=
  let uid := as_str target_user_id in
  if bool_decide (requester_id = uid)
  then h_ret (error_400 "cannot fetch your own pre-key bundle")
  else
    let! r <- db_call (fun _ => get_identity_key uid);
    match r with
    | Ok None => h_ret (error_404 "not found")
    | Err _ => h_ret error_500_generic
    | Ok (Some k) =>
        let! r <- db_call (fun _ => get_signed_prekey uid);
        match r with
        | Ok None => h_ret (error_404 "not found")
        | Err _ => h_ret error_500_generic
        | Ok (Some (spk_id, spk)) =>
            let! now <- now_secs;
            let! r <- db_call (fun _ => fetch_for_requester requester_id uid now fetch_limits);
            let bundle opk := mkPreKeyBundle (b64_encode k) (b64_encode (s_public_key spk)) spk_id
                                (b64_encode (s_signature spk)) opk in
            match r with
            | Ok (Fetched key_id public_key) =>
                answer_bundle target_user_id
                  (bundle (Some (mkOneTimePreKey key_id (b64_encode public_key))))
            | Ok FetchEmpty | Ok FetchTargetDepleted => answer_bundle target_user_id (bundle None)
            | Ok FetchRateLimited => h_ret (error_429 "pre-key fetch rate limit exceeded")
            | Err _ => h_ret error_500_generic
            end
        end
    end.

Definition handle_upload (user_id : string) (upload_id : MessageId) (new : list OneTimePreKey)
  : hm ServerMessage :=
  if MAX_PREKEYS_PER_UPLOAD <? Z.of_nat (length new) then h_ret (error_400 "too many prekeys")
  else
    match new with
    | [] => h_ret (error_400 "prekey upload cannot be empty")
    | _ =>
        match decode_prekeys new with
        | Err msg => h_ret msg
        | Ok pairs =>
            let! r <- db_call (fun t => upload_prekeys (env_unixepoch t) user_id pairs
                                          MAX_PREKEYS_PER_USER);
            match r with
            | Ok (UploadAccepted remaining) => h_ret (PreKeysUploaded upload_id true remaining)
            | Ok (UploadInventoryFull remaining) => h_ret (PreKeysUploaded upload_id false remaining)
            | Ok UploadInvalidSequence =>
                h_ret (error_400 "prekey IDs must increase monotonically")
            | Err _ => h_ret error_500_generic
            end
        end
    end.

Definition decode_signed_prekey (public_key signature : string)
  : result ServerMessage (bytes * bytes) :=
  let? pk := ok_or (error_400 "invalid signed prekey encoding") (b64_decode public_key) in
  let? pk := ok_or (error_400 "signed prekey must be 32 bytes") (sized 32 pk) in
  let? sig := ok_or (error_400 "invalid signed prekey signature encoding") (b64_decode signature) in
  let? sig := ok_or (error_400 "signed prekey signature must be 64 bytes") (sized 64 sig) in
  Ok (pk, sig).

Definition verify_signed_prekey (identity_key public_key signature : bytes)
  : result ServerMessage unit :=
  let? ik := ok_or error_500_generic (sized 32 identity_key) in
  if negb (ed25519_from_bytes ik) then Err error_500_generic
  else if negb (ed25519_verify ik public_key signature)
  then Err (error_400 "signed prekey signature is invalid")
  else Ok tt.

Definition validate_signed_prekey_rotation (user_id public_key signature : string)
  : hm (result ServerMessage (bytes * bytes)) :=
  match decode_signed_prekey public_key signature with
  | Err e => h_ret (Err e)
  | Ok (pk, sig) =>
      let! r <- db_call (fun _ => get_identity_key user_id);
      match r with
      | Ok None => h_ret (Err (error_404 "not found"))
      | Err _ => h_ret (Err error_500_generic)
      | Ok (Some ik) =>
          match verify_signed_prekey ik pk sig with
          | Err e => h_ret (Err e)
          | Ok _ => h_ret (Ok (pk, sig))
          end
      end
  end.

Definition store_signed_prekey_rotation (user_id : string) (rotation_id : MessageId) (key_id : Z)
    (public_key signature : bytes) : hm ServerMessage :=
  let! r <- db_call (fun _ => rotate_signed_prekey user_id key_id public_key signature);
  match r with
  | Ok (RotationAccepted current) => h_ret (SignedPreKeyRotated rotation_id true false current)
  | Ok (RotationPreviouslyAccepted current) =>
      h_ret (SignedPreKeyRotated rotation_id false true current)
  | Ok (RotationInvalidSequence current) | Ok (RotationConflict current) =>
      h_ret (SignedPreKeyRotated rotation_id false false current)
  | Err _ => h_ret error_500_generic
  end.

Definition handle_signed_prekey_rotation (user_id : string) (rotation_id : MessageId) (key_id : Z)
    (public_key signature : string) : hm ServerMessage :=
  let! r <- validate_signed_prekey_rotation user_id public_key signature;
  match r with
  | Err e => h_ret e
  | Ok (pk, sig) => store_signed_prekey_rotation user_id rotation_id key_id pk sig
  end.

(** *** The router ([handlers/mod.rs]) *)

Definition is_auth_message (msg : ClientMessage) : bool :=
  match msg with
  | Register _ _ _ | AuthChallenge _ | AuthResponse _ => true
  | _ => false
  end.

(** A request of the authenticated user [u]. *)
Definition handle_user_message (u : string) (msg : ClientMessage) : hm (option ServerMessage) :=
  match msg with
  | UploadPreKeys upload_id prekeys =>
      let! m <- handle_upload u upload_id prekeys; h_ret (Some m)
  | RotateSignedPreKey rotation_id key_id public_key signature =>
      let! m <- handle_signed_prekey_rotation u rotation_id key_id public_key signature;
      h_ret (Some m)
  | FetchPreKeyBundle target_user_id =>
      let! m <- handle_fetch u target_user_id; h_ret (Some m)
  | SendMessage recipient_id message_id envelope =>
      let! m <- handle_send u recipient_id message_id envelope; h_ret (Some m)
  | Ack ack_id message_ids => handle_ack u ack_id message_ids
  | AckMessageSent message_ids => handle_message_sent_ack u message_ids
  | Typing recipient_id => then! handle_typing u recipient_id; h_ret None
  | SendReadReceipt recipient_id receipt_id envelope =>
      handle_read_receipt u recipient_id receipt_id envelope
  | AckReadReceipt ack_id receipt_ids =>
      let! m <- handle_read_receipt_ack u ack_id receipt_ids; h_ret (Some m)
  | AckReadReceiptSent receipt_ids =>
      let! m <- handle_read_receipt_sent_ack u receipt_ids; h_ret (Some m)
  | Register _ _ _ | AuthChallenge _ | AuthResponse _ => h_ret None
  end.

Definition handle_message (c : nat) (session : Session) (msg : ClientMessage)
  : hm (option ServerMessage * Session) :=
  match msg with
  | Register user_id bundle one_time_prekeys =>
      let! x <- handle_register c session user_id bundle one_time_prekeys;
      h_ret (Some x.1, x.2)
  | AuthChallenge user_id =>
      let! x <- handle_auth_challenge session user_id; h_ret (Some x.1, x.2)
  | AuthResponse signature =>
      let! x <- handle_auth_response c session signature; h_ret (Some x.1, x.2)
  | _ =>
      match authed_user session with
      | None => h_ret (Some (auth_failure "not authenticated"), session)
      | Some u => let! r <- handle_user_message u msg; h_ret (r, session)
      end
  end.
End Handlers.
