(* ===== verification/HandlerFacts.v ===== *)
(** * What the handlers guarantee

    Authentication, the identity a request acts under, and the refinement of
    the handlers to the database histories of [DbTrace]: everything a request
    does to the database is a sequence of operations made in the name of the
    authenticated user, with the limits [DbLimits] relies on, between which
    other connections make theirs. *)
From stdpp Require Import base numbers list strings gmap.
From S2P Require Import Prelude Consts Types Primitives SqlDb DbUsers DbPrekeys DbQueue DbReceipts DbTrace DbLimits ServerWorld Handlers.
Local Open Scope Z_scope.
Local Open Scope cmp_scope.

(** ** Database steps of a handler *)

Section Steps.
Context `{SqlPick, Env}.
Context (sha256 : bytes -> bytes).

(** A step of the database while a handler runs: one of its operations, which
    satisfies [P], or what other connections do. *)
Definition db_step (P : op -> Prop) (d d' : Db) : Prop :=
  (exists o, P o /\ d' = (exec sha256 o d).2) \/ others_step d d'.

(** Whatever the world, [m] changes the database by such steps. *)
Definition db_steps {A} (P : op -> Prop) (m : hm A) : Prop :=
  forall w, rtc (db_step P) (w_db w) (w_db (m w).2).

Lemma run_app ops ops' d :
  (run sha256 (ops ++ ops') d).2 = (run sha256 ops' (run sha256 ops d).2).2.
Proof.
  revert d. induction ops as [|o ops IH]; intros d; [done|].
  rewrite <- app_comm_cons, !run_cons. cbn [snd]. apply IH.
Qed.

(** Without interference the steps are the handler's operations. *)
Lemma db_steps_alone `{!Alone} P d d' :
  rtc (db_step P) d d' -> exists ops, Forall P ops /\ d' = (run sha256 ops d).2.
Proof.
  induction 1 as [d|d d1 d2 [(o & Ho & ->)|(t & ->)] _ (ops & Hos & ->)]; [by exists []| |].
  - exists (o :: ops). split; [by constructor|]. by rewrite run_cons.
  - rewrite others_none. by exists ops.
Qed.

(** Stability: what each operation and the other connections keep, the handler
    keeps. *)
Lemma db_steps_keep (P : op -> Prop) (I : Db -> Prop) d d' :
  (forall o d, P o -> I d -> I (exec sha256 o d).2) -> (forall t d, I d -> I (env_others t d)) ->
  rtc (db_step P) d d' -> I d -> I d'.
Proof. intros Ho He. induction 1 as [|d d1 d2 [(o & Hp & ->)|(t & ->)] _ IH]; auto. Qed.

Lemma steps_pure {A} P (m : hm A) : (forall w, w_db (m w).2 = w_db w) -> db_steps P m.
Proof. intros E w. by rewrite E. Qed.

Lemma steps_ret {A} P (a : A) : db_steps P (h_ret a).
Proof. by apply steps_pure. Qed.

Lemma steps_bind {A B} P (m : hm A) (k : A -> hm B) :
  db_steps P m -> (forall a, db_steps P (k a)) -> db_steps P (h_bind m k).
Proof.
  intros Hm Hk w. unfold h_bind. specialize (Hm w). destruct (m w) as [a w1].
  etransitivity; [exact Hm|apply Hk].
Qed.

Lemma step_others (P : op -> Prop) w : rtc (db_step P) (w_db w) (at_call w).
Proof. apply rtc_once. right. by exists (w_tick w). Qed.

Lemma steps_read {A} P (op : nat -> dbm A) :
  (forall t d, (op t d).2 = d) -> db_steps P (db_call op).
Proof.
  intros E w. destruct (db_call_frame op w) as [[-> _]|[_ ->]]; [|rewrite E]; apply step_others.
Qed.

Lemma steps_write {A} (P : DbTrace.op -> Prop) (op : nat -> dbm A) (o : nat -> DbTrace.op) :
  (forall t, P (o t)) -> (forall t d, (op t d).2 = (exec sha256 (o t) d).2) ->
  db_steps P (db_call op).
Proof.
  intros HP E w. destruct (db_call_frame op w) as [[-> _]|[_ ->]]; [apply step_others|].
  eapply rtc_r; [apply step_others|]. left. exists (o (w_tick w)). by rewrite E.
Qed.

Lemma steps_try_send P c m : db_steps P (try_send c m).
Proof.
  apply steps_pure. intros w. unfold try_send, h_bind, tick. simpl. by destruct (env_room _).
Qed.
Lemma steps_send_to P u m : db_steps P (Registry.send_to u m).
Proof.
  intros w. unfold Registry.send_to. destruct (w_online w !! u); [apply steps_try_send|done].
Qed.
Lemma steps_insert P u c x : db_steps P (Registry.insert u c x).
Proof.
  unfold Registry.insert. apply steps_bind; [by apply steps_pure|]. intros cid.
  apply steps_bind; [by apply steps_pure|]. intros [e|]; [|apply steps_ret].
  apply steps_bind; [apply steps_try_send|]. intros _.
  apply steps_bind; [by apply steps_pure|]. intros _. apply steps_ret.
Qed.
Lemma steps_now P : db_steps P now_secs.
Proof. by apply steps_pure. Qed.
Lemma steps_random P : db_steps P random_bytes.
Proof. by apply steps_pure. Qed.

Lemma steps_weaken {A} (P Q : op -> Prop) (m : hm A) :
  (forall o, P o -> Q o) -> db_steps P m -> db_steps Q m.
Proof.
  intros HPQ Hm w. eapply rtc_subrel, Hm. intros d d' [(o & Ho & E)|E]; [left|by right]. eauto.
Qed.
End Steps.

Create HintDb steps.
#[export] Hint Resolve steps_ret steps_try_send steps_send_to steps_insert steps_now steps_random : steps.

(** Walk through a handler: binds, branches, and the steps of the hint base. *)
Ltac walk :=
  repeat (cbv zeta; match goal with
  | |- forall _, _ => intro
  | |- db_steps _ _ (h_bind _ _) => apply steps_bind
  | |- db_steps _ _ (match ?x with _ => _ end) => destruct x
  | |- db_steps _ _ (if ?x then _ else _) => destruct x
  | |- db_steps _ _ _ => solve [eauto with steps]
  end).

(** ** The identity behind an operation *)

(** The text of an envelope the handlers let pass. *)
Definition validated `{CryptoPrims, Codecs} (s : string) : Prop :=
  exists e, validate_envelope e = Ok tt /\ json_of_envelope e = Some s.

(** Operation [o] is within what the authenticated user [u] may do: it uploads,
    rotates, confirms and acknowledges receipts in [u]'s own name, sends valid
    envelopes from [u], and fetches for [u] the keys of somebody else. *)
Definition op_of_user `{CryptoPrims, Codecs} (u : string) (o : op) : Prop :=
  handler_op o /\
  match o with
  | OpFault => True
  | OpUpload _ v _ | OpRotate v _ _ _ | OpConfirm v _
  | OpAckReceipts v _ | OpConfirmReceipts v _ => v = u
  | OpReceipt _ _ _ v e => v = u /\ validated e
  | OpFetch r t _ => r = u /\ t <> u
  | OpEnqueue _ rq => er_sender_id rq = u /\ validated (er_envelope_json rq)
  | OpRegister _ _ | OpDelete _ _ | OpDeleteRow _ _ | OpGc _ | OpDeleteReceipt _ _ => False
  end.


Section Identity.
Context `{CryptoPrims, Codecs, SqlPick, Env}.
Context (sha256 : bytes -> bytes) (server_id : string).

(** What the request [msg] of [u] may do: besides, [u]'s acknowledgement deletes
    exactly the messages it names from [u]'s own queue. *)
Definition op_of_request (u : string) (msg : ClientMessage) (o : op) : Prop :=
  match o with
  | OpDelete v ids => v = u /\ exists i l, msg = Ack i l /\ ids = uuid_to_string <$> l
  | _ => op_of_user u o
  end.

Lemma request_of_user u msg o : op_of_user u o -> op_of_request u msg o.
Proof. destruct o; try done. by intros [_ ?]. Qed.

Abbreviation steps u := (db_steps sha256 (op_of_user u)).

Lemma steps_upload u i l : steps u (handle_upload u i l).
Proof.
  unfold handle_upload. walk. eapply (steps_write _ _ _ (fun t => OpUpload (env_unixepoch t) u a));
    [done|done].
Qed.

Lemma steps_ack u i l : db_steps sha256 (op_of_request u (Ack i l)) (handle_ack u i l).
Proof.
  unfold handle_ack. walk. eapply (steps_write _ _ _ (fun _ => OpDelete u (uuid_to_string <$> l)));
    [|done]. intros _. split; [done|]. by exists i, l.
Qed.
Lemma steps_sent_ack u l : steps u (handle_message_sent_ack u l).
Proof.
  unfold handle_message_sent_ack. walk.
  eapply (steps_write _ _ _ (fun _ => OpConfirm u (uuid_to_string <$> l))); done.
Qed.
Lemma steps_receipt u v i e : steps u (handle_read_receipt u v i e).
Proof.
  unfold handle_read_receipt. destruct (validate_envelope e) as [[]|] eqn:Hv; [|apply steps_ret].
  destruct (UserId_new u); [|apply steps_ret]. destruct (json_of_envelope e) as [s|] eqn:Hj; [|apply steps_ret]. walk.
  eapply (steps_write _ _ _ (fun t => OpReceipt (env_datetime t) (uuid_to_string i) (as_str v) u s)); [|done].
  intros t. split; [done|]. split; [done|by exists e].
Qed.
Lemma steps_receipt_sent u l : steps u (handle_read_receipt_sent_ack u l).
Proof.
  unfold handle_read_receipt_sent_ack. walk.
  eapply (steps_write _ _ _ (fun _ => OpConfirmReceipts u (uuid_to_string <$> l))); done.
Qed.
Lemma steps_notify P l : db_steps sha256 P (notify_receipt_senders l).
Proof. induction l as [|[r s] l IH]; simpl; walk. Qed.
Lemma steps_receipt_ack u i l : steps u (handle_read_receipt_ack u i l).
Proof.
  unfold handle_read_receipt_ack. walk; [|apply steps_notify].
  eapply (steps_write _ _ _ (fun _ => OpAckReceipts u (uuid_to_string <$> l))); done.
Qed.
Lemma steps_typing u v : steps u (handle_typing u v).
Proof. unfold handle_typing. walk. Qed.

Lemma get_signed_prekey_read u d : (get_signed_prekey u d).2 = d.
Proof.
  unfold get_signed_prekey. rm_unfold. destruct (max_of _) as [k|]; [|done].
  by destruct (get_u32 k).
Qed.

Lemma count_prekeys_read t u d : (count_prekeys t u d).2 = d.
Proof. done. Qed.

Lemma steps_answer P v b : db_steps sha256 P (answer_bundle v b).
Proof. unfold answer_bundle. walk. apply steps_read. intros. apply count_prekeys_read. Qed.

Lemma steps_fetch u v : steps u (handle_fetch u v).
Proof.
  unfold handle_fetch. case_bool_decide as Hne; [apply steps_ret|].
  walk.
  1: by apply steps_read.
  1: apply steps_read; intros; apply get_signed_prekey_read.
  1: { eapply (steps_write _ _ _ (fun _ => OpFetch u (as_str v) a)).
       - intros _. split; [done|]. split; [done|]. congruence.
       - intros t d. simpl. by destruct (fetch_for_requester _ _ _ _ _). }
  all: apply steps_answer.
Qed.

Lemma steps_rotation u i k p s : steps u (handle_signed_prekey_rotation u i k p s).
Proof.
  unfold handle_signed_prekey_rotation, validate_signed_prekey_rotation, store_signed_prekey_rotation.
  walk; try (by apply steps_read).
  all: eapply (steps_write _ _ _ (fun _ => OpRotate u k _ _)); done.
Qed.

(** A send queues messages under its own id only. *)
Definition op_of_send (u : string) (i : MessageId) (o : op) : Prop :=
  op_of_user u o /\ exists dt rq, o = OpEnqueue dt rq /\ er_message_id rq = uuid_to_string i.

Lemma steps_send_id u v i e : db_steps sha256 (op_of_send u i) (handle_send sha256 u v i e).
Proof.
  unfold handle_send. destruct (validate_envelope e) as [[]|] eqn:Hv; [|apply steps_ret]. cbv zeta.
  destruct (envelope_prekey_ids _) as [spk opk]. destruct (json_of_envelope e) as [s|] eqn:Hj; [|by walk]. walk.
  eapply (steps_write _ _ _ (fun t => OpEnqueue (env_datetime t)
    (mkEnqueueRequest (uuid_to_string i) (as_str v) u s MAX_QUEUE_PER_USER spk opk a1))).
  - intros t. split; [|by eexists _, _]. split; [done|]. split; [done|by exists e].
  - intros t d. simpl. by destruct (enqueue _ _ _ _).
Qed.
Lemma steps_send u v i e : steps u (handle_send sha256 u v i e).
Proof. eapply steps_weaken; [|apply steps_send_id]. by intros o [? _]. Qed.

Lemma steps_user u msg : db_steps sha256 (op_of_request u msg) (handle_user_message sha256 u msg).
Proof.
  destruct msg; cbn [handle_user_message]; try apply steps_ack;
    (eapply steps_weaken; [intros o; apply request_of_user|]); walk;
    eauto using steps_upload, steps_rotation, steps_fetch, steps_send, steps_sent_ack,
      steps_typing, steps_receipt, steps_receipt_ack, steps_receipt_sent.
Qed.

(** C9: A request acts in the name of the authenticated user only.  Whatever an
    authenticated connection sends, however the environment behaves and
    whatever other connections do to the database while the handler waits, the
    handler's own changes are a sequence of operations that are all made as
    that user, within the limits and with validated envelopes, messages are deleted only from the user's
    own queue and only those that an acknowledgement names, and the user of the
    connection stays the same. *)
Theorem request_acts_as_user c s msg w u :
  authed_user s = Some u ->
  let x := handle_message sha256 server_id c s msg w in
  authed_user x.1.2 = Some u
  /\ rtc (db_step sha256 (op_of_request u msg)) (w_db w) (w_db x.2).
Proof.
  intros Hu x.
  assert (is_auth_message msg = true \/ x = h_bind (handle_user_message sha256 u msg)
    (fun r => h_ret (r, s)) w) as [Ha|Hx].
  { unfold x, handle_message. rewrite Hu. destruct msg; auto. }
  - unfold x, handle_message, handle_register, handle_auth_challenge, handle_auth_response.
    destruct msg; try done; by rewrite Hu.
  - rewrite Hx. split.
    + unfold h_bind. by destruct (handle_user_message sha256 u msg w).
    + apply (steps_bind sha256 (op_of_request u msg) (handle_user_message sha256 u msg)
        (fun r => h_ret (r, s))); [apply steps_user|]. intros. apply steps_ret.
Qed.
End Identity.

(** ** Authentication *)

Section Authentication.
Context `{CryptoPrims, Codecs, SqlPick, Env}.
Context (sha256 : bytes -> bytes) (server_id : string).

(** A connection's requests, one after the other: the answers, the session
    and the world at the end. *)
Fixpoint handle_all (c : nat) (s : Session) (msgs : list ClientMessage) (w : World)
  : list (option ServerMessage) * Session * World :=
  match msgs with
  | [] => ([], s, w)
  | msg :: msgs' =>
      let '((r, s1), w1) := handle_message sha256 server_id c s msg w in
      let '((rs, s2), w2) := handle_all c s1 msgs' w1 in ((r :: rs, s2), w2)
  end.

Lemma unauthenticated_refused c s msg w :
  authed_user s = None -> is_auth_message msg = false ->
  handle_message sha256 server_id c s msg w = ((Some (AuthFailure "not authenticated"), s), w).
Proof. intros Hs Hm. unfold handle_message. rewrite Hs. by destruct msg. Qed.

(** Before it has authenticated, a connection can do nothing but try to:
    any sequence of other requests is refused, request by request, and
    leaves the session and the world as they are. *)
Lemma unauthenticated_rejected c s msgs w :
  authed_user s = None -> forallb (fun m => negb (is_auth_message m)) msgs = true ->
  handle_all c s msgs w
  = ((repeat (Some (AuthFailure "not authenticated")) (length msgs), s), w).
Proof.
  intros Hs. induction msgs as [|m msgs IH]; [done|]. intros [Hm Hms]%andb_prop. simpl.
  rewrite unauthenticated_refused by (done || by destruct (is_auth_message m)). by rewrite IH.
Qed.

Lemma insert_frame u c x w : w_db (Registry.insert u c x w).2 = w_db w.
Proof.
  unfold Registry.insert, Registry.next_conn_id, Registry.cancel_conn, try_send, tick, h_bind, h_ret.
  simpl. destruct (w_online w !! u); simpl; [|done]. by destruct (env_room _).
Qed.

Lemma db_call_ok {A} (op : nat -> dbm A) w a w' :
  db_call op w = (Ok a, w') -> op (w_tick w) (at_call w) = (Ok a, w_db w').
Proof.
  intros E. destruct (db_call_frame op w) as [[_ H1']|[H1' H2']]; rewrite E in *; cbn in *; [done|].
  destruct (op _ _) as [r d]. cbn in *. congruence.
Qed.

Lemma register_authenticates c s uid b l w u :
  authed_user s = None ->
  authed_user (handle_register c s uid b l w).1.2 = Some u ->
  as_str uid = u /\ exists ik spk sg, check_bundle b = Ok (ik, spk, sg)
    /\ users (at_call w) !! u = None
    /\ users (w_db (handle_register c s uid b l w).2) !! u = Some ik.
Proof.
  intros Hs. unfold handle_register. rewrite Hs.
  destruct (_ <? _); [simpl; congruence|].
  destruct (check_bundle b) as [[[ik spk] sg]|]; [|simpl; congruence].
  destruct (decode_prekeys l) as [pairs|]; [|simpl; congruence]. unfold h_bind at 1 3.
  destruct (db_call _ w) as [[[]|] w1] eqn:E; [|simpl; congruence|simpl; congruence].
  apply db_call_ok in E. unfold h_bind.
  destruct (Registry.insert _ _ _ w1) as [cid w2] eqn:Ei.
  assert (w_db w2 = w_db w1) as Hdb.
  { pose proof (insert_frame (as_str uid) c (s_cancel s) w1) as F. by rewrite Ei in F. }
  simpl. intros [= <-]. split; [done|]. exists ik, spk, sg. split; [done|].
  rewrite Hdb. match type of E with register_atomic ?t ?r ?d = _ =>
    destruct (register_cases t r d) as [[_ E']|[(_ & _ & E')|(Hu & _ & hw & _ & _ & E')]] end;
    rewrite E' in E; try done. injection E as <-. split; [done|].
  simpl. by rewrite lookup_insert_eq.
Qed.

Lemma response_authenticates c s sig w u :
  authed_user s = None ->
  authed_user (handle_auth_response server_id c s sig w).1.2 = Some u ->
  exists ch ik sigb, pending_challenge s = Some ch /\ pc_user_id ch = u
    /\ env_clock (w_tick w) - pc_timestamp ch <= 60
    /\ users (env_others (S (w_tick w)) (w_db w)) !! u = Some ik /\ length ik = 32%nat
    /\ b64_decode sig = Some sigb /\ length sigb = 64%nat
    /\ ed25519_verify ik (signed_data server_id ch) sigb = true.
Proof.
  intros Hs. unfold handle_auth_response. rewrite Hs.
  destruct (pending_challenge s) as [ch|]; [|simpl; congruence]. cbn [authed_user s_conn_id].
  unfold now_secs, h_bind at 1 2, tick, h_bind at 1, h_ret at 1. simpl.
  destruct (Z.ltb_spec 60 (saturating_sub (env_clock (w_tick w)) (pc_timestamp ch)));
    [simpl; congruence|].
  unfold h_bind at 1.
  destruct (db_call _ _) as [[[ik|]|] w1] eqn:E; [|simpl; congruence|simpl; congruence].
  apply db_call_ok in E. injection E as Hik _. unfold at_call in Hik. simpl in Hik.
  destruct (check_signature server_id ch ik sig) as [[]|] eqn:Hc; [|simpl; congruence].
  unfold h_bind. destruct (Registry.insert _ _ _ w1) as [cid w2]. simpl. intros [= <-].
  unfold check_signature, sized in Hc.
  destruct (Nat.eqb_spec (length ik) 32); simpl in Hc; [|done].
  destruct (ed25519_from_bytes ik); simpl in Hc; [|done].
  destruct (b64_decode sig) as [sigb|]; simpl in Hc; [|done].
  destruct (Nat.eqb_spec (length sigb) 64); simpl in Hc; [|done].
  destruct (ed25519_verify ik (signed_data server_id ch) sigb) eqn:Hv; simpl in Hc; [|done].
  exists ch, ik, sigb. unfold saturating_sub in *. repeat split; done || lia.
Qed.

(** C8: Authentication is sound.  A connection becomes user [u] only by
    registering [u] as a new name, with a bundle whose signed pre-key its
    identity key signed, or by answering a challenge that this connection
    was given for [u] at most 60 seconds ago, by the clock the handler reads
    when the answer comes, with a signature, over that
    challenge's nonce, timestamp and this server's id, that verifies under
    the identity key stored for [u]; the name is free, and the key is the
    stored one, in the state the call of the handler finds, whatever other
    connections have done while it waited. *)
Theorem authentication_sound c s msg w u :
  authed_user s = None ->
  authed_user (handle_message sha256 server_id c s msg w).1.2 = Some u ->
  (exists uid b l ik spk sg, msg = Register uid b l /\ as_str uid = u
     /\ check_bundle b = Ok (ik, spk, sg)
     /\ users (at_call w) !! u = None /\ users (w_db (handle_message sha256 server_id c s msg w).2) !! u = Some ik)
  \/ (exists sig ch ik sigb, msg = AuthResponse sig
     /\ pending_challenge s = Some ch /\ pc_user_id ch = u
     /\ env_clock (w_tick w) - pc_timestamp ch <= 60
     /\ users (env_others (S (w_tick w)) (w_db w)) !! u = Some ik /\ length ik = 32%nat
     /\ b64_decode sig = Some sigb /\ length sigb = 64%nat
     /\ ed25519_verify ik (signed_data server_id ch) sigb = true).
Proof.
  intros Hs. unfold handle_message. rewrite Hs.
  destruct msg; try (simpl; congruence); unfold h_bind at 1.
  - pose proof (register_authenticates c s user_id bundle one_time_prekeys w u Hs) as R.
    unfold h_bind. destruct (handle_register _ _ _ _ _ _) as [[m s'] w'].
    simpl in *. intros Hu. left. destruct (R Hu) as (? & ik & spk & sg & ? & ? & ?).
    eauto 12.
  - destruct (handle_auth_challenge _ _ _ _) as [[m s'] w'] eqn:E. simpl. intros Hu. exfalso.
    revert E. unfold handle_auth_challenge. rewrite Hs. unfold h_bind at 1.
    destruct (db_call _ w) as [[[]|] w1]; unfold h_bind, random_bytes, now_secs, h_bind, tick, h_ret;
      simpl; intros [= _ <- _]; simpl in Hu; congruence.
  - pose proof (response_authenticates c s signature w u Hs) as R.
    destruct (handle_auth_response _ _ _ _ _) as [[m s'] w']. simpl in *. intros Hu. right.
    destruct (R Hu) as (ch & ik & sigb & ?). exists signature, ch, ik, sigb. naive_solver.
Qed.

Lemma answer_uses_challenge c s sig w :
  authed_user s = None ->
  pending_challenge (handle_message sha256 server_id c s (AuthResponse sig) w).1.2 = None.
Proof.
  intros Hs. unfold handle_message, handle_auth_response. rewrite Hs.
  destruct (pending_challenge s) as [ch|] eqn:Hp; [|simpl; congruence].
  unfold h_bind at 1 2, now_secs, tick, h_bind at 1, h_ret at 1. simpl.
  destruct (60 <? _); [done|]. unfold h_bind at 1.
  destruct (db_call _ _) as [[[ik|]|] w1]; [|done|done].
  destruct (check_signature _ _ _ _) as [[]|]; [|done].
  unfold h_bind. by destruct (Registry.insert _ _ _ w1).
Qed.

(** The requests that can start an authentication. *)
Definition starts_auth (msg : ClientMessage) : bool :=
  match msg with Register _ _ _ | AuthChallenge _ => true | _ => false end.

Lemma no_challenge_inert c s msgs w :
  authed_user s = None -> pending_challenge s = None ->
  forallb (fun m => negb (starts_auth m)) msgs = true ->
  (handle_all c s msgs w).1.2 = s /\ (handle_all c s msgs w).2 = w.
Proof.
  intros Hs Hp. induction msgs as [|m msgs IH]; [done|]. intros [Hm Hms]%andb_prop. simpl.
  assert (exists r, handle_message sha256 server_id c s m w = ((r, s), w)) as [r ->].
  { destruct (is_auth_message m) eqn:Ha; [|rewrite unauthenticated_refused by done; eauto].
    destruct m; try done. unfold handle_message, handle_auth_response. rewrite Hs, Hp.
    by eexists. }
  specialize (IH Hms). by destruct (handle_all c s msgs w) as [[rs s2] w2].
Qed.

(** A challenge admits one answer: once an answer has failed, no sequence of
    further answers and requests, short of asking for a new challenge or
    registering, changes anything at all, so the connection stays
    unauthenticated. *)
Lemma challenge_single_use c s sig msgs w :
  authed_user s = None ->
  let x := handle_message sha256 server_id c s (AuthResponse sig) w in
  authed_user x.1.2 = None -> forallb (fun m => negb (starts_auth m)) msgs = true ->
  let y := handle_all c x.1.2 msgs x.2 in
  y.1.2 = x.1.2 /\ y.2 = x.2 /\ authed_user y.1.2 = None.
Proof.
  intros Hs x Hx Hm. pose proof (answer_uses_challenge c s sig w Hs) as Hp. fold x in Hp.
  destruct (no_challenge_inert c x.1.2 msgs x.2 Hx Hp Hm) as [E1 E2]. simpl. by rewrite E1, E2.
Qed.
End Authentication.

(** ** Sending *)

Section Sending.
Context `{CryptoPrims, Codecs, SqlPick, Env}.
Context (sha256 : bytes -> bytes).

Lemma send_to_frame u m w : w_db (Registry.send_to u m w).2 = w_db w.
Proof.
  unfold Registry.send_to, try_send, tick, h_bind. destruct (w_online w !! u); [|done]. simpl.
  by destruct (env_room _).
Qed.

(** What stands in the database once a message has been accepted. *)
Definition accepted_in (u : string) (v : UserId) (i : MessageId) (e : EncryptedEnvelope)
    (before after : Db) : Prop :=
  exists js a, json_of_envelope e = Some js
    /\ message_acceptances after !! uuid_to_string i = Some a
    /\ a_recipient_id a = as_str v /\ a_sender_id a = u
    /\ a_envelope_digest a = sha256 (str_bytes js)
    /\ (message_acceptances before !! uuid_to_string i = None ->
        uuid_to_string i ∉ q_message_id <$> message_queue before ->
        exists n t, mkQueueRow n (uuid_to_string i) (as_str v) u js t ∈ message_queue after).

Lemma enqueue_accepted dt u v i e js mx spk opk now d r d' :
  json_of_envelope e = Some js ->
  enqueue sha256 dt (mkEnqueueRequest (uuid_to_string i) (as_str v) u js mx spk opk now) d
    = (Ok r, d') ->
  ((r = Inserted \/ r = Duplicate) /\ accepted_in u v i e d d')
  \/ (r <> Inserted /\ r <> Duplicate /\ d' = d).
Proof.
  intros Hjs E. set (rq := mkEnqueueRequest _ _ _ _ _ _ _ _) in E.
  assert ((r = Inserted \/ r = Duplicate) \/ (r <> Inserted /\ r <> Duplicate)) as [Hr|[Hr1 Hr2]]
    by (destruct r; auto); [left; split; [done|]|right].
  - destruct (enqueue_accepts sha256 dt rq d r d' E Hr) as (a & Ha & H1' & H2' & H3').
    exists js, a. repeat split; try done. intros Hna Hnq.
    destruct (enqueue_cases sha256 dt rq d)
      as [(r' & E' & Hi & Hd & _)|(_ & _ & _ & _ & _ & _ & _ & E')]; cbv zeta in E';
      rewrite E' in E; injection E as <- <-.
    + destruct Hr as [Hr|Hr]; [by destruct (Hi Hr)|]. destruct (Hd Hr) as (a' & Ha' & _).
      simpl in Ha'. congruence.
    + rewrite bool_decide_eq_false_2 by done. simpl. eexists _, _. apply elem_of_app. right.
      by left.
  - destruct (enqueue_cases sha256 dt rq d)
      as [(r' & E' & _)|(_ & _ & _ & _ & _ & _ & _ & E')]; cbv zeta in E'; rewrite E' in E;
      injection E as <- <-; [done|].
    clear E'. by destruct (bool_decide (uuid_to_string i ∈ _)).
Qed.

(** [MessageSent] means accepted.  The answer to a send is [MessageSent]
    only when the acceptance of exactly this message, from this sender to
    this recipient, is on record, and, when its id was not in use, its row
    is in the recipient's queue; with any other answer the database has not
    changed.  Its one call finds the database as other connections left it. *)
Lemma sent_means_accepted u v i e w :
  let x := handle_send sha256 u v i e w in
  let found := env_others (S (S (w_tick w))) (w_db w) in
  match x.1 with
  | MessageSent i' => i' = i /\ accepted_in u v i e found (w_db x.2)
  | _ => w_db x.2 = w_db w \/ w_db x.2 = found
  end.
Proof.
  cbv zeta. destruct (handle_send sha256 u v i e w) as [m w'] eqn:E. cbn [fst snd].
  unfold handle_send in E. destruct (validate_envelope e); [|injection E as <- <-; by left].
  destruct (envelope_prekey_ids _) as [spk opk].
  destruct (UserId_new u) as [su|]; [|injection E as <- <-; by left].
  unfold h_bind at 1 in E. destruct (now_secs w) as [ts w1] eqn:E1.
  injection E1 as _ E1. cbv zeta in E.
  destruct (json_size_message _) as [sz|]; [|injection E as <- <-; subst w1; by left].
  destruct (MAX_QUEUED_PAGE_BYTES <? sz); [injection E as <- <-; subst w1; by left|].
  destruct (json_of_envelope e) as [js|] eqn:Hjs; [|injection E as <- <-; subst w1; by left].
  unfold h_bind at 1 in E. destruct (now_secs w1) as [now w2] eqn:E2. injection E2 as _ E2.
  unfold h_bind at 1 in E. destruct (db_call _ w2) as [r w3] eqn:E3.
  assert (at_call w2 = env_others (S (S (w_tick w))) (w_db w)) as Hw2 by (by subst w1 w2).
  set (found := env_others (S (S (w_tick w))) (w_db w)) in *.
  assert (Hr : (w_db w3 = found /\ r = Err IoFailure) \/ exists r', r = Ok r'
    /\ (((r' = Inserted \/ r' = Duplicate) /\ accepted_in u v i e found (w_db w3))
        \/ (r' <> Inserted /\ r' <> Duplicate /\ w_db w3 = found))).
  { match type of E3 with db_call ?op _ = _ =>
      destruct (db_call_frame op w2) as [[Hf Hf']|[Hr Hd]] end; rewrite E3 in *; simpl in *.
    - left. split; congruence.
    - right. rewrite Hw2 in Hr, Hd.
      destruct (enqueue sha256 (env_datetime _) _ found) as [[r'|x] d'] eqn:Eq.
      + simpl in *. exists r'. split; [done|]. rewrite Hd. by eapply enqueue_accepted.
      + exfalso. match type of Eq with enqueue _ ?dt ?rq ?d = _ =>
          destruct (enqueue_cases sha256 dt rq d)
            as [(r' & E' & _)|(_ & _ & _ & _ & _ & _ & _ & E')] end; cbv zeta in E'; congruence. }
  clear E3. destruct Hr as [[Hd ->]|(r' & -> & Hr)].
  { injection E as <- <-. by right. }
  destruct Hr as [[Hr Hacc]|(Hr1 & Hr2 & Hd)].
  - assert (validate_enqueue_result (Ok r') i = Ok tt) as Hv by (by destruct Hr as [->| ->]).
    rewrite Hv in E. unfold h_bind at 1 in E.
    destruct (Registry.send_to _ _ w3) as [pushed w4] eqn:E4.
    pose proof (send_to_frame (as_str v) (IncomingMessage (mkInbound i su e ts)) w3) as F4.
    rewrite E4 in F4. simpl in F4.
    unfold h_bind in E. destruct pushed.
    + destruct (Registry.send_to u _ w4) as [x w5] eqn:E5.
      pose proof (send_to_frame u (MessageDelivered [i]) w4) as F5. rewrite E5 in F5. simpl in F5.
      injection E as <- <-. split; [done|]. by rewrite F5, F4.
    + injection E as <- <-. split; [done|]. by rewrite F4.
  - destruct r'; simpl in E; try done; injection E as <- <-; by right.
Qed.
End Sending.

(** ** Concrete requests *)

Module Demo.
#[local] Existing Instance Toy.prims.
#[local] Existing Instance ToyServer.codecs.
#[local] Existing Instance ToyServer.env.
#[local] Existing Instance PickFirst.pick_first.

Definition sha (b : bytes) : bytes := b.
Definition ik : bytes := repeat Byte.x07 32.
Definition base : Db :=
  mkDb {["alice" := ik; "bob" := ik]} {[("bob", 0) := mkSignedPreKeyRow ik ik]} ∅
    {["alice" := 0; "bob" := 0]} ∅ [] [] ∅ 0 [].
Definition w0 : World := ToyServer.world base.
Definition alice : Session := mkSessionOf (Some "alice"%string) (Some 1) None false 0.
Definition fresh : Session := Session_new 0.
Definition envelope : EncryptedEnvelope :=
  mkEnvelope 2 (HRatchet (mkRatchetHeader (b64_encode ik) 0 0)) "ct".
Definition send_bob : ClientMessage := SendMessage (mkUserId "bob") (mkMessageId 5) envelope.

Lemma request_acts_as_user_witness :
  (handle_message sha "srv" 0%nat alice send_bob w0).1.1 = Some (MessageSent (mkMessageId 5))
  /\ authed_user (handle_message sha "srv" 0%nat alice send_bob w0).1.2 = Some "alice"%string.
Proof.
  split; [vm_compute; reflexivity|].
  apply (request_acts_as_user sha "srv" 0%nat alice send_bob w0 "alice"). reflexivity.
Defined.

Lemma unauthenticated_rejected_witness :
  handle_all sha "srv" 0%nat fresh [send_bob; send_bob] w0
  = ((repeat (Some (AuthFailure "not authenticated")) 2, fresh), w0).
Proof. apply (unauthenticated_rejected sha "srv" 0%nat fresh [send_bob; send_bob] w0); reflexivity. Defined.

(** The challenge Alice was given, and her answer. *)
Definition challenge : PendingChallenge := mkPendingChallenge "alice" (repeat Byte.x2a 32) 990.
Definition challenged : Session := mkSessionOf None None (Some challenge) false 0.
Definition answer : string := b64_encode (ed25519_sign ik (signed_data "srv" challenge)).

Lemma authentication_sound_witness :
  exists ch, pending_challenge challenged = Some ch /\ pc_user_id ch = "alice"%string.
Proof.
  destruct (authentication_sound sha "srv" 0%nat challenged (AuthResponse answer) w0 "alice")
    as [(uid & b & l & k & spk & sg & E & _)|(sig & ch & k & sigb & _ & Hp & Hu & _)].
  - reflexivity.
  - vm_compute. reflexivity.
  - discriminate E.
  - exists ch. split; [exact Hp|exact Hu].
Defined.

(** A wrong answer first; the right one then comes too late. *)
Lemma challenge_single_use_witness :
  authed_user (handle_message sha "srv" 0%nat challenged (AuthResponse answer) w0).1.2
    = Some "alice"%string
  /\ let x := handle_message sha "srv" 0%nat challenged (AuthResponse "guess") w0 in
     authed_user (handle_all sha "srv" 0%nat x.1.2 [AuthResponse answer] x.2).1.2 = None.
Proof.
  split; [vm_compute; reflexivity|].
  apply (challenge_single_use sha "srv" 0%nat challenged "guess" [AuthResponse answer] w0);
    vm_compute; reflexivity.
Defined.

(** Four users; Alice's message to Bob is queued and confirmed by Alice. *)
Definition member (u : string) : op := OpRegister 50 (mkRegistration u ik 0 [] [] []).
Definition to (i from to text : string) : EnqueueRequest :=
  mkEnqueueRequest i to from text MAX_QUEUE_PER_USER None None 10.
Definition collide : list op :=
  (member <$> ["alice"; "bob"; "carol"; "dave"])
  ++ [OpEnqueue "t" (to "x" "alice" "bob" "hello"); OpConfirm "alice" ["x"%string]].

(** A message id is protected only while its acceptance is unconfirmed.  Alice's
    message to Bob with id [x] is queued and confirmed by Alice; Carol then
    sends Dave a message with the same id.  She is told that it was accepted,
    but no row for Dave is queued. *)
Lemma confirmed_id_swallows_message :
  exists d', enqueue sha "t" (to "x" "carol" "dave" "hi") (run sha collide empty_db).2
    = (Ok Duplicate, d')
  /\ queue_depth "dave" (message_queue d') = 0
  /\ is_Some (message_acceptances d' !! "x"%string).
Proof. vm_compute. eexists. split; [reflexivity|]. split; [reflexivity|]. eexists. reflexivity. Qed.
End Demo.
