(* ===== verification/Delivery.v ===== *)
(** * Delivery of queued data ([crates/server/src/handlers/auth.rs])

    What the relay pushes to a connection that has just authenticated: queued
    messages in byte-bounded pages, queued read receipts, confirmations, and
    the pre-key inventory notice. *)
From stdpp Require Import base numbers list sorting strings gmap.
From S2P Require Import Prelude Consts Types Primitives SqlDb DbUsers DbPrekeys DbQueue DbReceipts DbTrace DbLimits Datetime ServerWorld Handlers.
Local Open Scope Z_scope.
Local Open Scope cmp_scope.

Inductive QueuedEnvelopeError :=
| UnsupportedVersion (v : Z)
| Invalid.

Inductive QueuedReceiptAction :=
| DeliverReceipt (m : ServerMessage)
| PreserveReceipt (v : Z)
| DeleteInvalidReceipt.

Section Delivery.
Context `{CryptoPrims, Codecs, Env}.

Definition validate_queued_envelope (envelope : EncryptedEnvelope)
  : result QueuedEnvelopeError unit :=
  if negb (version envelope =? PROTOCOL_VERSION)
  then Err (UnsupportedVersion (version envelope))
  else map_err (fun _ => Invalid) (validate_envelope envelope).

Definition queued_row_to_inbound (row : QueuedRow) : result QueuedEnvelopeError InboundMessage :=
  let? envelope := ok_or Invalid (envelope_of_json (envelope_json row)) in
  let? _ := validate_queued_envelope envelope in
  let? sender := map_err (fun _ => Invalid) (UserId_new (sender_id row)) in
  let? id := ok_or Invalid (uuid_parse (message_id row)) in
  Ok (mkInbound id sender envelope (parse_sqlite_datetime (str_bytes (created_at row)))).

Definition remove_invalid_queued_row (user_id : string) (row_id : Z) : hm unit :=
  then! db_call (fun _ => delete_invalid_row user_id row_id); h_ret tt.

(** [delivery_by_sender]: the ids of a page by sender; the order in which a
    [HashMap] is walked is not specified. *)
Definition delivery_by_sender (messages : list InboundMessage) : gmap string (list MessageId) :=
  fold_left (fun m im =>
      let s := as_str (im_sender_id im) in
      <[s := default [] (m !! s) ++ [im_message_id im]]> m) messages ∅.

Fixpoint notify_senders (l : list (string * list MessageId)) : hm unit :=
  match l with
  | [] => h_ret tt
  | (s, ids) :: l' => then! Registry.send_to s (MessageDelivered ids); notify_senders l'
  end.

Definition send_queued_page (c : nat) (messages : list InboundMessage) : hm bool :=
  let! ok <- send c (QueuedMessages messages);
  if negb ok then h_ret false
  else then! notify_senders (map_to_list (delivery_by_sender messages)); h_ret true.

(** The loop of [deliver_queued_messages]; [n] is [MAX_QUEUED_MESSAGES - visited]. *)
Fixpoint deliver_loop (n : nat) (c : nat) (user_id : string) (empty_page_bytes cursor : Z)
    (page : list InboundMessage) (page_bytes : Z) : hm unit :=
  let finish := match page with
                | [] => h_ret tt
                | _ => then! send_queued_page c page; h_ret tt
                end in
  match n with
  | O => finish
  | S n' =>
      let! r <- db_call (fun _ => get_next_pending user_id cursor);
      match r with
      | Err _ => h_ret tt
      | Ok None => finish
      | Ok (Some row) =>
          let cursor := row_id row in
          let skip := then! remove_invalid_queued_row user_id (row_id row);
                      deliver_loop n' c user_id empty_page_bytes cursor page page_bytes in
          match queued_row_to_inbound row with
          | Err (UnsupportedVersion _) => h_ret tt
          | Err Invalid => skip
          | Ok message =>
              match json_size_inbound message with
              | None => skip
              | Some item_bytes =>
                  let separator_bytes := match page with [] => 0 | _ => 1 end in
                  if MAX_QUEUED_PAGE_BYTES <? empty_page_bytes + item_bytes then skip
                  else
                    let page_full :=
                      (MAX_QUEUED_MESSAGES_PER_PAGE <=? Z.of_nat (length page))
                      || (MAX_QUEUED_PAGE_BYTES <? page_bytes + separator_bytes + item_bytes) in
                    if page_full
                    then
                      let! ok <- send_queued_page c page;
                      if negb ok then h_ret tt
                      else deliver_loop n' c user_id empty_page_bytes cursor [message]
                             (empty_page_bytes + item_bytes)
                    else deliver_loop n' c user_id empty_page_bytes cursor (page ++ [message])
                           (page_bytes + separator_bytes + item_bytes)
              end
          end
      end
  end.

Definition deliver_queued_messages (c : nat) (user_id : string) : hm unit :=
  match json_size_message (QueuedMessages []) with
  | None => h_ret tt
  | Some empty_page_bytes =>
      deliver_loop (Z.to_nat MAX_QUEUED_MESSAGES) c user_id empty_page_bytes 0 [] empty_page_bytes
  end.

(** *** Receipts and confirmations *)

Definition queued_receipt_to_message (receipt : QueuedReceipt)
  : result QueuedEnvelopeError ServerMessage :=
  let? id := ok_or Invalid (uuid_parse (qr_receipt_id receipt)) in
  let? sender := map_err (fun _ => Invalid) (UserId_new (qr_sender_id receipt)) in
  let? envelope := ok_or Invalid (envelope_of_json (qr_envelope receipt)) in
  let? _ := validate_queued_envelope envelope in
  Ok (IncomingReadReceipt sender id envelope).

Definition queued_receipt_action (receipt : QueuedReceipt) : QueuedReceiptAction :=
  match queued_receipt_to_message receipt with
  | Ok message => DeliverReceipt message
  | Err (UnsupportedVersion v) => PreserveReceipt v
  | Err Invalid => DeleteInvalidReceipt
  end.

(** The loops that send one message per id, stopping when the channel closed. *)
Fixpoint send_each (c : nat) (l : list (option ServerMessage)) : hm bool :=
  match l with
  | [] => h_ret true
  | None :: l' => send_each c l'
  | Some m :: l' => let! ok <- send c m; if negb ok then h_ret false else send_each c l'
  end.

Definition deliver_receipt_confirmations (c : nat) (user_id : string) : hm unit :=
  let! r <- db_call (fun _ => confirmed_for_sender user_id);
  let ids := match r with Ok ids => ids | Err _ => [] end in
  then! send_each c ((fun i => ReadReceiptSent <$> uuid_parse i) <$> ids); h_ret tt.

Fixpoint deliver_receipts_loop (c : nat) (user_id : string) (l : list QueuedReceipt) : hm bool :=
  match l with
  | [] => h_ret true
  | receipt :: l' =>
      match queued_receipt_action receipt with
      | PreserveReceipt _ => deliver_receipts_loop c user_id l'
      | DeleteInvalidReceipt =>
          then! db_call (fun _ => delete_invalid user_id (qr_receipt_id receipt));
          deliver_receipts_loop c user_id l'
      | DeliverReceipt message =>
          let! ok <- send c message;
          if negb ok then h_ret false else deliver_receipts_loop c user_id l'
      end
  end.

Definition deliver_queued_receipts (c : nat) (user_id : string) : hm unit :=
  let! r <- db_call (fun _ => pending user_id);
  let receipts := match r with Ok l => l | Err _ => [] end in
  let! ok <- deliver_receipts_loop c user_id receipts;
  if negb ok then h_ret tt else deliver_receipt_confirmations c user_id.

Definition deliver_message_confirmations (c : nat) (user_id : string) : hm unit :=
  let! r <- db_call (fun _ => pending_acceptances user_id MAX_QUEUE_PER_USER);
  match r with
  | Err _ => h_ret tt
  | Ok ids => then! send_each c ((fun i => MessageSent <$> uuid_parse i) <$> ids); h_ret tt
  end.

Definition deliver_prekey_status (c : nat) (user_id : string) : hm unit :=
  let! r <- db_call (fun t => count_prekeys (env_unixepoch t) user_id);
  match r with
  | Ok remaining =>
      if remaining <? PREKEY_LOW_THRESHOLD
      then then! send c (PreKeyLow remaining); h_ret tt else h_ret tt
  | Err _ => h_ret tt
  end.
End Delivery.

(** ** Pages *)

(** The pages put on channel [c] so far. *)
Definition pages_of (c : nat) (w : World) : list (list InboundMessage) :=
  omap (fun m => match m with QueuedMessages ms => Some ms | _ => None end)
    (default [] (w_out w !! c)).

Section Pages.
Context `{CryptoPrims, Codecs, Env}.

Lemma pages_push c c' m w :
  pages_of c (push c' m w)
  = pages_of c w ++ (if decide (c = c') then match m with QueuedMessages ms => [ms] | _ => [] end
                     else []).
Proof.
  unfold pages_of, push. simpl. case_decide as E.
  - subst. rewrite lookup_insert_eq. simpl. rewrite omap_app. by destruct m.
  - rewrite lookup_insert_ne by done. by rewrite app_nil_r.
Qed.

Lemma send_to_pages c u m w :
  (forall ms, m <> QueuedMessages ms) -> pages_of c (Registry.send_to u m w).2 = pages_of c w.
Proof.
  intros Hm. unfold Registry.send_to, try_send, h_bind, tick. destruct (w_online w !! u); [|done].
  simpl. destruct (env_room _); [|done]. simpl. rewrite pages_push.
  case_decide; [|by rewrite app_nil_r]. destruct m; rewrite ?app_nil_r; try done.
  by destruct (Hm messages).
Qed.

Lemma notify_pages c l w : pages_of c (notify_senders l w).2 = pages_of c w.
Proof.
  revert w. induction l as [|[s ids] l IH]; intros w; [done|]. simpl. unfold h_bind.
  pose proof (send_to_pages c s (MessageDelivered ids) w ltac:(done)) as E.
  destruct (Registry.send_to _ _ w) as [x w1]. simpl in E. by rewrite IH, E.
Qed.

(** A page is put on the channel as a whole, or the channel is closed. *)
Lemma send_page_pages c page w :
  pages_of c (send_queued_page c page w).2
  = pages_of c w ++ (if (send_queued_page c page w).1 then [page] else []).
Proof.
  unfold send_queued_page, send, h_bind, tick, h_ret. simpl. destruct (env_alive _); simpl.
  - destruct (notify_senders _ _) as [x w1] eqn:E. simpl.
    pose proof (notify_pages c (map_to_list (delivery_by_sender page))
      (push c (QueuedMessages page) (set_tick (S (w_tick w)) w))) as N.
    rewrite E in N. simpl in N. rewrite N, pages_push, decide_True by done. done.
  - by rewrite app_nil_r.
Qed.

Lemma db_call_pages {A} c (op : nat -> dbm A) w : pages_of c (db_call op w).2 = pages_of c w.
Proof.
  unfold db_call, h_bind, tick. simpl. destruct (env_fault _); [done|].
  by destruct (op _ _).
Qed.
End Pages.

Section PageBounds.
Context `{CryptoPrims, Codecs, Env}.

(** [ms] encodes to [bytes] as a page: the frame, the items and the commas. *)
Definition page_size (empty : Z) (ms : list InboundMessage) (bytes : Z) : Prop :=
  exists sizes, Forall2 (fun m z => json_size_inbound m = Some z) ms sizes
    /\ bytes = empty + fold_right Z.add 0 sizes + Z.max 0 (Z.of_nat (length ms) - 1).

Definition page_ok (empty : Z) (ms : list InboundMessage) : Prop :=
  1 <= Z.of_nat (length ms) <= MAX_QUEUED_MESSAGES_PER_PAGE
  /\ exists bytes, page_size empty ms bytes /\ bytes <= MAX_QUEUED_PAGE_BYTES.

(** The page under construction. *)
Definition building (empty : Z) (page : list InboundMessage) (page_bytes : Z) : Prop :=
  (page = [] /\ page_bytes = empty)
  \/ (page_size empty page page_bytes /\ page_bytes <= MAX_QUEUED_PAGE_BYTES
      /\ 1 <= Z.of_nat (length page) <= MAX_QUEUED_MESSAGES_PER_PAGE).

Lemma fold_add_app l x : fold_right Z.add 0 (l ++ [x]) = fold_right Z.add 0 l + x.
Proof. induction l as [|y l IH]; simpl; lia. Qed.

Lemma building_snoc empty page b m z :
  building empty page b -> json_size_inbound m = Some z ->
  let sep := match page with [] => 0 | _ => 1 end in
  b + sep + z <= MAX_QUEUED_PAGE_BYTES ->
  Z.of_nat (length page) < MAX_QUEUED_MESSAGES_PER_PAGE ->
  building empty (page ++ [m]) (b + sep + z).
Proof.
  intros B Hz sep Hb Hl. right. split; [|rewrite length_app; simpl; split; lia].
  destruct B as [[-> ->]|((sizes & Hs & ->) & _ & Hn)].
  - exists [z]. split; [by repeat constructor|]. simpl. lia.
  - exists (sizes ++ [z]). split; [apply Forall2_app; [done|by repeat constructor]|].
    rewrite fold_add_app, length_app. destruct page; simpl in *; lia.
Qed.

Lemma building_single empty m z :
  json_size_inbound m = Some z -> empty + z <= MAX_QUEUED_PAGE_BYTES ->
  building empty [m] (empty + z).
Proof.
  intros Hz Hb. right. split; [|split; [done|]].
  - exists [z]. split; [by repeat constructor|]. simpl. lia.
  - unfold MAX_QUEUED_MESSAGES_PER_PAGE. simpl. lia.
Qed.

Lemma building_page empty page b : building empty page b -> page <> [] -> page_ok empty page.
Proof. intros [[-> _]|(Hs & Hb & Hl)] Hne; [done|]. split; [done|]. eauto. Qed.

Lemma finish_pages c empty page b w :
  building empty page b ->
  exists new, pages_of c (match page with
                | [] => h_ret tt
                | _ => then! send_queued_page c page; h_ret tt
                end w).2 = pages_of c w ++ new /\ Forall (page_ok empty) new.
Proof.
  intros B. destruct page as [|m page].
  - exists []. by rewrite app_nil_r.
  - pose proof (send_page_pages c (m :: page) w) as E. unfold h_bind.
    destruct (send_queued_page c (m :: page) w) as [ok w1]. simpl in *. rewrite E.
    eexists. split; [done|]. apply building_page in B; [|done].
    destruct ok; [by apply Forall_singleton|by apply Forall_nil].
Qed.

Lemma loop_pages n c u empty cursor page b w :
  building empty page b ->
  exists new, pages_of c (deliver_loop n c u empty cursor page b w).2 = pages_of c w ++ new
    /\ Forall (page_ok empty) new.
Proof.
  revert cursor page b w. induction n as [|n IH]; intros cursor page b w B;
    cbn [deliver_loop]; [by apply (finish_pages c empty page b)|].
  cbv zeta. unfold h_bind at 1.
  pose proof (db_call_pages c (fun _ => get_next_pending u cursor) w) as E1.
  destruct (db_call _ w) as [r w1]. simpl in E1. rewrite <- E1. clear E1 w.
  destruct r as [[row|]|]; [|by apply (finish_pages c empty page b)|exists []; by rewrite app_nil_r].
  assert (Hskip : forall w, exists new, pages_of c ((then! remove_invalid_queued_row u (row_id row);
      deliver_loop n c u empty (row_id row) page b) w).2 = pages_of c w ++ new
      /\ Forall (page_ok empty) new).
  { intros w. unfold remove_invalid_queued_row, h_bind, h_ret.
    pose proof (db_call_pages c (fun _ => delete_invalid_row u (row_id row)) w) as E.
    destruct (db_call _ w) as [x w2]. simpl in E. rewrite <- E. by apply IH. }
  destruct (queued_row_to_inbound row) as [m|[v|]]; [|exists []; by rewrite app_nil_r|apply Hskip].
  destruct (json_size_inbound m) as [z|] eqn:Hz; [|apply Hskip].
  destruct (Z.ltb_spec MAX_QUEUED_PAGE_BYTES (empty + z)); [apply Hskip|]. clear Hskip.
  destruct (Z.leb_spec MAX_QUEUED_MESSAGES_PER_PAGE (Z.of_nat (length page))) as [Hfull|Hl];
    [|destruct (Z.ltb_spec MAX_QUEUED_PAGE_BYTES
        (b + match page with [] => 0 | _ => 1 end + z)) as [Hfull|Hb]]; simpl.
  3: { apply IH. apply building_snoc; done || lia. }
  all: assert (page <> []) as Hne by
    (intros ->; destruct B as [[_ ->]|(_ & _ & Hl')]; simpl in *;
     unfold MAX_QUEUED_MESSAGES_PER_PAGE in *; lia).
  all: unfold h_bind at 1; pose proof (send_page_pages c page w1) as E;
    destruct (send_queued_page c page w1) as [ok w2]; simpl in E.
  all: destruct ok; simpl; [|exists []; by rewrite E].
  all: destruct (IH (row_id row) [m] (empty + z) w2) as (new & E2 & Hf);
    [by apply building_single|].
  all: exists (page :: new); rewrite E2, E, <- app_assoc; split; [done|].
  all: constructor; [by eapply building_page|done].
Qed.

(** Every page of queued messages is bounded: whatever is in the queue, a
    page that is put on the connection holds between one and 64 messages
    and its JSON encoding fits the WebSocket frame limit. *)
Lemma queued_pages_bounded `{!JsonSizeLaws} c u w :
  exists new, pages_of c (deliver_queued_messages c u w).2 = pages_of c w ++ new
    /\ Forall (fun ms => 1 <= Z.of_nat (length ms) <= MAX_QUEUED_MESSAGES_PER_PAGE
         /\ exists z, json_size_message (QueuedMessages ms) = Some z
              /\ z <= MAX_QUEUED_PAGE_BYTES) new.
Proof.
  unfold deliver_queued_messages.
  destruct (json_size_message (QueuedMessages [])) as [empty|] eqn:He.
  2:{ exists []. by rewrite app_nil_r. }
  destruct (loop_pages (Z.to_nat MAX_QUEUED_MESSAGES) c u empty 0 [] empty w) as (new & E & Hf).
  { by left. }
  exists new. split; [done|]. eapply Forall_impl; [exact Hf|].
  intros ms (Hl & bytes & (sizes & Hs & ->) & Hb). split; [done|].
  eexists. split; [|exact Hb]. apply json_page_size; [done|]. by apply mapM_Some.
Qed.
End PageBounds.

(** ** Completeness of delivery *)

Definition queued_of (r : QueueRow) : QueuedRow :=
  mkQueuedRow (q_rowid r) (q_message_id r) (q_sender_id r) (q_envelope r) (q_created_at r).

(** The rows of [u] after [cursor], in [rowid] order. *)
Definition rows_after (u : string) (cursor : Z) (q : list QueueRow) : list QueueRow :=
  filter (fun r => q_recipient_id r = u /\ cursor < q_rowid r) q.

Definition rowids_sorted (q : list QueueRow) : Prop := StronglySorted Z.lt (q_rowid <$> q).

Lemma rowids_sorted_filter (P : QueueRow -> Prop) `{!forall x, Decision (P x)} q :
  rowids_sorted q -> rowids_sorted (filter P q).
Proof.
  unfold rowids_sorted. induction q as [|x q IH]; intros Hs; [done|]. rewrite fmap_cons in Hs.
  apply StronglySorted_inv in Hs as [Hs Hx]. rewrite filter_cons. case_decide; [|by apply IH].
  rewrite fmap_cons. constructor; [by apply IH|].
  rewrite Forall_fmap, Forall_forall in *. intros y [_ Hy]%list_elem_of_filter. by apply Hx.
Qed.

#[local] Instance rowid_le_total : Total rowid_le.
Proof. intros x y. unfold rowid_le. lia. Qed.
#[local] Instance rowid_le_trans : Transitive rowid_le.
Proof. intros x y z. unfold rowid_le. lia. Qed.

(** Sorting rows that are in order finds the first one. *)
Lemma head_sorted q : rowids_sorted q -> head (merge_sort rowid_le q) = head q.
Proof.
  intros Hs. pose proof (merge_sort_Permutation rowid_le q) as Hp.
  pose proof (StronglySorted_merge_sort rowid_le q) as Hm.
  destruct q as [|x q].
  - by apply Permutation_nil_r in Hp as ->.
  - unfold rowids_sorted in Hs. rewrite fmap_cons in Hs. apply StronglySorted_inv in Hs as [_ Hx].
    rewrite Forall_fmap, Forall_forall in Hx.
    destruct (merge_sort rowid_le (x :: q)) as [|y l] eqn:E.
    { symmetry in Hp. by apply Permutation_nil_r in Hp. }
    apply StronglySorted_inv in Hm as [_ Hy]. rewrite Forall_forall in Hy. simpl. f_equal.
    assert (y ∈ x :: q) as [->|Hyq]%elem_of_cons by (rewrite <- Hp; by left); [done|].
    assert (x ∈ y :: l) as [->|Hxl]%elem_of_cons by (rewrite Hp; by left); [done|].
    apply Hx in Hyq. apply Hy in Hxl. unfold rowid_le in Hxl. simpl in Hyq. lia.
Qed.

Lemma next_pending_head u cursor d :
  rowids_sorted (message_queue d) ->
  get_next_pending u cursor d = (Ok (queued_of <$> head (rows_after u cursor (message_queue d))), d).
Proof.
  intros Hs. unfold get_next_pending. rewrite head_sorted; [done|]. by apply rowids_sorted_filter.
Qed.

(** Moving the cursor to the first row leaves the others. *)
Lemma rows_after_next u cursor q r l :
  rowids_sorted q -> rows_after u cursor q = r :: l -> rows_after u (q_rowid r) q = l.
Proof.
  intros Hs E. pose proof (rowids_sorted_filter
    (fun r => q_recipient_id r = u /\ cursor < q_rowid r) q Hs) as Hrs. unfold rows_after in *.
  assert (q_recipient_id r = u /\ cursor < q_rowid r) as [Hu Hc].
  { assert (r ∈ r :: l) as Hin by (by left). rewrite <- E in Hin.
    by apply list_elem_of_filter in Hin as [? _]. }
  rewrite E in Hrs. unfold rowids_sorted in Hrs. rewrite fmap_cons in Hrs.
  apply StronglySorted_inv in Hrs as [_ Hr]. rewrite Forall_fmap, Forall_forall in Hr.
  transitivity (filter (fun x => q_rowid r < q_rowid x) (r :: l)).
  - rewrite <- E, list_filter_filter. apply list_filter_iff. intros x. split; intros; lia || naive_solver lia.
  - rewrite filter_cons_False by lia. apply filter_all. intros x Hx. by apply Hr.
Qed.

(** The rows of a user. *)
Definition rows_of (u : string) (q : list QueueRow) : list QueueRow := filter (fun r => q_recipient_id r = u) q.

(** All rows of a user are after cursor 0. *)
Lemma rows_after_0 u q :
  (forall r, r ∈ q -> 0 < q_rowid r) -> rows_after u 0 q = rows_of u q.
Proof.
  intros Hpos. unfold rows_after, rows_of. induction q as [|r q IH]; [done|].
  rewrite !filter_cons. pose proof (Hpos r ltac:(by left)).
  rewrite IH by (intros x Hx; apply Hpos; by right).
  destruct (decide (q_recipient_id r = u)).
  - by rewrite decide_True.
  - by rewrite decide_False by tauto.
Qed.

(** Row [r] of the queue is the valid message [m], which fits a page. *)
Definition deliverable `{CryptoPrims, Codecs} (empty : Z) (r : QueueRow) (m : InboundMessage) : Prop :=
  queued_row_to_inbound (queued_of r) = Ok m
  /\ exists z, json_size_inbound m = Some z /\ empty + z <= MAX_QUEUED_PAGE_BYTES.

(** A queue as the relay has it, in which the messages of [u] are valid. *)
Record valid_queue `{CryptoPrims, Codecs} (u : string) (empty : Z) (f : QueueRow -> InboundMessage)
    (q : list QueueRow) : Prop := {
  vq_sorted : rowids_sorted q;
  vq_positive : forall r, r ∈ q -> 0 < q_rowid r;
  vq_valid : forall r, r ∈ q -> q_recipient_id r = u -> deliverable empty r (f r);
}.

(** The rows after the last one visited are the others. *)
Lemma rows_after_visited `{CryptoPrims, Codecs} u empty f q visited rest :
  valid_queue u empty f q -> rows_of u q = visited ++ rest ->
  rows_after u (default 0 (q_rowid <$> last visited)) q = rest.
Proof.
  intros [Hs Hp _]. revert rest. induction visited as [|r visited IH] using rev_ind; intros rest Hr.
  - cbn. by rewrite rows_after_0.
  - rewrite last_snoc. cbn. rewrite <- app_assoc in Hr. by apply (rows_after_next _ _ _ _ _ Hs (IH _ Hr)).
Qed.

(** The other connections keep the queue valid and only add messages to it for
    [u]. *)
Definition arrivals_only `{CryptoPrims, Codecs, Env} (u : string) (empty : Z) (f : QueueRow -> InboundMessage) : Prop :=
  forall t d, valid_queue u empty f (message_queue d) ->
    valid_queue u empty f (message_queue (env_others t d))
    /\ rows_of u (message_queue d) `prefix_of` rows_of u (message_queue (env_others t d)).

Lemma arrivals_alone `{CryptoPrims, Codecs, Env, !Alone} u empty f : arrivals_only u empty f.
Proof. intros t d V. rewrite others_none. by split. Qed.

Lemma arrivals_prefix `{CryptoPrims, Codecs, Env} u empty f (Ho : arrivals_only u empty f) d d' :
  rtc others_step d d' -> valid_queue u empty f (message_queue d) ->
  rows_of u (message_queue d) `prefix_of` rows_of u (message_queue d').
Proof.
  induction 1 as [|d d1 d2 [t ->] _ IH]; intros V; [done|]. destruct (Ho t d V) as [V1 Hp].
  etransitivity; [exact Hp|by apply IH].
Qed.

Section Complete.
Context `{CryptoPrims, Codecs, Env}.

Lemma notify_db l w : w_db (notify_senders l w).2 = w_db w.
Proof.
  revert w. induction l as [|[s ids] l IH]; intros w; [done|]. simpl. unfold h_bind.
  assert (w_db (Registry.send_to s (MessageDelivered ids) w).2 = w_db w) as E.
  { unfold Registry.send_to, try_send, h_bind, tick. destruct (w_online w !! s); [|done]. simpl.
    by destruct (env_room _). }
  destruct (Registry.send_to _ _ w) as [x w1]. simpl in E. by rewrite IH, E.
Qed.

Lemma send_page_db c page w : w_db (send_queued_page c page w).2 = w_db w.
Proof.
  unfold send_queued_page, send, h_bind, tick, h_ret. simpl. destruct (env_alive _); simpl; [|done].
  pose proof (notify_db (map_to_list (delivery_by_sender page))
    (push c (QueuedMessages page) (set_tick (S (w_tick w)) w))) as N.
  by destruct (notify_senders _ _).
Qed.

(** A working environment: no database call fails, the channel stays open, and
    the other connections only add messages to the queue of the user. *)
Context (no_fault : forall t, env_fault t = false) (alive : forall t, env_alive t = true).
Context (c : nat) (u : string) (empty : Z) (f : QueueRow -> InboundMessage).
Context (others : arrivals_only u empty f).

Lemma send_page_alive page w : (send_queued_page c page w).1 = true.
Proof.
  unfold send_queued_page, send, h_bind, tick, h_ret. simpl. rewrite alive. simpl.
  by destruct (notify_senders _ _).
Qed.

(** From [w], where the rows [visited] were read, to [w'] the messages [page] and
    those of the next [n] rows are put on the channel, in pages, while the
    database changes by arrivals only. *)
Definition delivered (visited : list QueueRow) (n : nat) (page : list InboundMessage) (w w' : World) : Prop :=
  exists new rest, pages_of c w' = pages_of c w ++ new /\ concat new = page ++ (f <$> take n rest)
    /\ rows_of u (message_queue (w_db w')) = visited ++ rest /\ rtc others_step (w_db w) (w_db w').

Lemma delivered_from visited n page w w1 w' :
  pages_of c w1 = pages_of c w -> rtc others_step (w_db w) (w_db w1) ->
  delivered visited n page w1 w' -> delivered visited n page w w'.
Proof.
  intros E Hs (new & rest & ? & ? & ? & ?). exists new, rest. rewrite <- E.
  split; [done|]. split; [done|]. split; [done|]. by etransitivity.
Qed.

(** The end of the loop: [n] is used up, or there is no row left. *)
Lemma finish_complete visited rest n page w :
  rows_of u (message_queue (w_db w)) = visited ++ rest -> take n rest = [] ->
  delivered visited n page w (match page with
                    | [] => h_ret tt
                    | _ => then! send_queued_page c page; h_ret tt
                    end w).2.
Proof.
  intros Hr Hn. destruct page as [|m page].
  - exists [], rest. rewrite Hn. by rewrite app_nil_r.
  - pose proof (send_page_pages c (m :: page) w) as E. rewrite send_page_alive in E.
    pose proof (send_page_db c (m :: page) w) as Ed.
    unfold h_bind. destruct (send_queued_page c (m :: page) w) as [ok w1]. simpl in *.
    exists [m :: page], rest. rewrite Hn, Ed. split; [done|]. split; [done|]. by split.
Qed.

(** What the next call of the loop finds. *)
Lemma next_row visited rest cursor w :
  valid_queue u empty f (message_queue (w_db w)) ->
  rows_of u (message_queue (w_db w)) = visited ++ rest -> cursor = default 0 (q_rowid <$> last visited) ->
  exists rest', let w1 := set_db (at_call w) (set_tick (S (w_tick w)) w) in
    db_call (fun _ => get_next_pending u cursor) w = (Ok (queued_of <$> head rest'), w1)
    /\ valid_queue u empty f (message_queue (w_db w1)) /\ rows_of u (message_queue (w_db w1)) = visited ++ rest'.
Proof.
  intros V Hr ->. destruct (others (w_tick w) _ V) as [V' [new Hn]]. rewrite Hr, <- app_assoc in Hn.
  exists (rest ++ new). cbv zeta. unfold db_call, h_bind, tick, at_call. cbn [w_tick w_db set_tick]. rewrite no_fault.
  split; [|by split]. rewrite next_pending_head by apply V'. rewrite (rows_after_visited _ _ _ _ _ _ V' Hn). done.
Qed.

Lemma loop_complete n visited rest cursor page b w :
  valid_queue u empty f (message_queue (w_db w)) ->
  rows_of u (message_queue (w_db w)) = visited ++ rest -> cursor = default 0 (q_rowid <$> last visited) ->
  delivered visited n page w (deliver_loop n c u empty cursor page b w).2.
Proof.
  revert visited rest cursor page b w. induction n as [|n IH]; intros visited rest cursor page b w V Hr Hcur; cbn [deliver_loop].
  { by apply finish_complete with rest. }
  cbv zeta. unfold h_bind at 1. destruct (next_row visited rest cursor w V Hr Hcur) as (rest' & E & V1 & Hr1).
  rewrite E. clear E. set (w1 := set_db _ _) in *.
  apply (delivered_from _ _ _ w w1); [done|apply rtc_once; by exists (w_tick w)|]. clearbody w1. clear V Hr rest Hcur w.
  destruct rest' as [|r l]; [by apply finish_complete with []|]. cbn [head fmap option_fmap option_map].
  assert (r ∈ rows_of u (message_queue (w_db w1))) as Hin by (rewrite Hr1; apply elem_of_app; right; by left).
  apply list_elem_of_filter in Hin as [Hru Hrq].
  destruct (vq_valid _ _ _ _ V1 r Hrq Hru) as (Hi & z & Hz & Hzb). cbn [row_id queued_of]. fold (queued_of r).
  rewrite Hi, Hz. destruct (Z.ltb_spec MAX_QUEUED_PAGE_BYTES (empty + z)); [lia|].
  rewrite cons_middle, app_assoc in Hr1.
  assert (q_rowid r = default 0 (q_rowid <$> last (visited ++ [r]))) as Hlast by (by rewrite last_snoc).
  destruct (_ || _).
  - unfold h_bind at 1. pose proof (send_page_pages c page w1) as E.
    pose proof (send_page_alive page w1) as Ea. pose proof (send_page_db c page w1) as Ed.
    destruct (send_queued_page c page w1) as [ok w2]. simpl in *. subst ok. simpl.
    destruct (IH (visited ++ [r]) l (q_rowid r) [f r] (empty + z) w2) as (new & rest & E2 & Hc & Hd & Hs);
      [by rewrite Ed|by rewrite Ed|done|].
    exists (page :: new), (r :: rest). rewrite E2, E, <- app_assoc, Hd, <- app_assoc, <- Ed. simpl. by rewrite Hc.
  - destruct (IH (visited ++ [r]) l (q_rowid r) (page ++ [f r])
      (b + (match page with [] => 0 | _ => 1 end) + z) w1) as (new & rest & E2 & Hc & Hd & Hs); [done..|].
    exists new, (r :: rest). rewrite E2, Hc, Hd, <- !app_assoc. done.
Qed.

Lemma deliver_complete w :
  json_size_message (QueuedMessages []) = Some empty -> valid_queue u empty f (message_queue (w_db w)) ->
  delivered [] 1000 [] w (deliver_queued_messages c u w).2.
Proof.
  intros He V. unfold deliver_queued_messages. rewrite He.
  exact (loop_complete (Z.to_nat MAX_QUEUED_MESSAGES) [] _ 0 [] empty w V eq_refl eq_refl).
Qed.
End Complete.

(** C25: Queued messages are delivered completely and in order, while others
    arrive: when no database call fails, the connection stays open, every row
    of the user is a valid message that fits a page, and between the calls of
    the loop the other connections may add messages for the user (and do
    anything to the rest of the database), the pages put on the connection
    hold, one after the other, exactly the first 1,000 messages that are queued
    for the user when the loop ends, in the order they were queued, and these
    begin with the ones queued at its start; each page holds between one and
    64 of them and its JSON encoding fits the WebSocket frame limit. *)
Theorem queued_delivery_complete `{CryptoPrims, Codecs, Env, !JsonSizeLaws} c u w empty f :
  (forall t, env_fault t = false) -> (forall t, env_alive t = true) -> arrivals_only u empty f ->
  json_size_message (QueuedMessages []) = Some empty -> valid_queue u empty f (message_queue (w_db w)) ->
  let w' := (deliver_queued_messages c u w).2 in
  exists new, pages_of c w' = pages_of c w ++ new
    /\ concat new = f <$> take 1000 (rows_of u (message_queue (w_db w')))
    /\ rows_of u (message_queue (w_db w)) `prefix_of` rows_of u (message_queue (w_db w'))
    /\ Forall (fun ms => 1 <= Z.of_nat (length ms) <= MAX_QUEUED_MESSAGES_PER_PAGE
         /\ exists z, json_size_message (QueuedMessages ms) = Some z /\ z <= MAX_QUEUED_PAGE_BYTES) new.
Proof.
  intros Hnf Hal Ho He V w'.
  destruct (deliver_complete Hnf Hal c u empty f Ho w He V) as (new & rest & E & Hc & Hd & Hs).
  fold w' in E, Hd, Hs. exists new. rewrite Hd.
  split; [done|]. split; [done|]. split; [rewrite <- Hd; by apply (arrivals_prefix u empty f Ho _ _ Hs)|].
  destruct (queued_pages_bounded c u w) as (new' & E' & Hb).
  fold w' in E'. rewrite E in E'. by apply app_inv_head in E' as <-.
Qed.

(** ** A concrete queue *)

Module Demo.
#[local] Existing Instance Toy.prims.
#[local] Existing Instance ToyServer.codecs.
#[local] Existing Instance ToyServer.env.
#[local] Existing Instance ToyServer.size_laws.

Definition envelope : EncryptedEnvelope :=
  mkEnvelope 2 (HRatchet (mkRatchetHeader (b64_encode (repeat Byte.x07 32)) 0 0)) "ct".
Definition row (n i : Z) (u : string) : QueueRow :=
  mkQueueRow n (uuid_to_string (mkMessageId i)) u "alice" (default "" (json_of_envelope envelope))
    "2024-01-15 10:30:45".
Definition w0 : World :=
  ToyServer.world (mkDb ∅ ∅ ∅ ∅ ∅ [] [row 1 5 "bob"; row 2 6 "carol"; row 4 7 "bob"] ∅ 0 []).
Definition msg (i : Z) : InboundMessage :=
  mkInbound (mkMessageId i) (mkUserId "alice") envelope 1705314645.
Definition inbound (r : QueueRow) : InboundMessage :=
  match queued_row_to_inbound (queued_of r) with Ok m => m | Err _ => msg 0 end.

Lemma inbound_deliverable n i u : 
  i = 5 \/ i = 7 \/ i = 8 -> deliverable 20 (row n i u) (inbound (row n i u)).
Proof.
  intros [->|[->| ->]]; (split; [vm_compute; reflexivity|exists 10; split; [reflexivity|vm_compute; discriminate]]).
Qed.

Lemma w0_valid : valid_queue "bob" 20 inbound (message_queue (w_db w0)).
Proof.
  split.
  - unfold rowids_sorted. simpl. repeat constructor.
  - intros r Hr. simpl in Hr. rewrite !elem_of_cons, elem_of_nil in Hr.
    destruct Hr as [->|[->|[->|[]]]]; reflexivity.
  - intros r Hr Hu. simpl in Hr. rewrite !elem_of_cons, elem_of_nil in Hr.
    destruct Hr as [->|[->|[->|[]]]]; [|discriminate Hu|]; apply inbound_deliverable; auto.
Qed.

(** A message arrives while Bob's are delivered. *)
Definition arrive (d : Db) : Db := set_queue (message_queue d ++ [row (next_rowid (message_queue d)) 8 "bob"]) d.
#[local] Instance busy : Env := {|
  env_fault := env_fault (Env := ToyServer.env);
  env_clock := env_clock (Env := ToyServer.env);
  env_unixepoch := env_unixepoch (Env := ToyServer.env);
  env_datetime := env_datetime (Env := ToyServer.env);
  env_random := env_random (Env := ToyServer.env);
  env_room := env_room (Env := ToyServer.env);
  env_alive := env_alive (Env := ToyServer.env);
  env_others t d := if (t =? 1)%nat then arrive d else d;
|}.

Lemma busy_arrivals : arrivals_only "bob" 20 inbound.
Proof.
  intros t d V. cbn [env_others busy]. destruct (t =? 1)%nat; [|by split]. cbn [arrive message_queue set_queue].
  destruct V as [Hs Hp Hv]. split; [|unfold rows_of; rewrite filter_app; by eexists].
  assert (0 < next_rowid (message_queue d)) as Hpos.
  { unfold next_rowid. destruct (max_of _) as [m|] eqn:E; [|done].
    apply max_of_spec in E as [Hm _].
    apply list_elem_of_fmap in Hm as (r & -> & Hr). apply Hp in Hr. lia. }
  split.
  - unfold rowids_sorted in *. rewrite fmap_app. apply StronglySorted_app_2; [|done|repeat constructor].
    intros x y (r & -> & Hr)%list_elem_of_fmap [->|Hy]%elem_of_cons; [by apply next_rowid_lt|by apply elem_of_nil in Hy].
  - intros r [Hr|Hr]%elem_of_app; [auto|]. apply list_elem_of_singleton in Hr as ->. done.
  - intros r [Hr|Hr]%elem_of_app Hu; [auto|]. apply list_elem_of_singleton in Hr as ->.
    apply inbound_deliverable. auto.
Qed.

Lemma queued_delivery_complete_witness :
  exists new, pages_of 0 (deliver_queued_messages 0 "bob" w0).2 = pages_of 0 w0 ++ new
    /\ im_message_id <$> concat new = [mkMessageId 5; mkMessageId 7; mkMessageId 8]
    /\ Forall (fun ms => 1 <= Z.of_nat (length ms) <= MAX_QUEUED_MESSAGES_PER_PAGE
         /\ exists z, json_size_message (QueuedMessages ms) = Some z /\ z <= MAX_QUEUED_PAGE_BYTES) new.
Proof.
  destruct (queued_delivery_complete 0 "bob" w0 20 inbound) as (new & E & Hc & _ & Hb).
  - reflexivity.
  - reflexivity.
  - exact busy_arrivals.
  - reflexivity.
  - exact w0_valid.
  - exists new. split; [exact E|]. split; [|exact Hb]. rewrite Hc. vm_compute. reflexivity.
Defined.
End Demo.
