(* ===== verification/Drain.v ===== *)
(** * A user's queue is emptied

    One login delivers at most 1,000 queued messages, in pages; the client
    acknowledges each page it has stored ([QueuedMessages] in [app.rs]), and
    the relay deletes the rows the acknowledgement names ([handle_ack]).  The
    logins that follow deliver the rest. *)
From stdpp Require Import base numbers list strings gmap.
From S2P Require Import Prelude Consts Types Primitives SqlDb DbQueue DbTrace DbLimits ServerWorld Handlers Delivery.
Local Open Scope Z_scope.
Local Open Scope cmp_scope.

Section Drain.
Context `{CryptoPrims, Codecs, Env, !Alone}.

(** The acknowledgements of the pages, each with its own ids. *)
Definition ack_pages (u : string) (ack_id : MessageId) (pages : list (list InboundMessage)) (w : World) : World :=
  fold_left (fun w page => (handle_ack u ack_id (im_message_id <$> page) w).2) pages w.

(** A login of [u] on channel [c] whose pages are all acknowledged. *)
Definition login_round (c : nat) (u : string) (ack_id : MessageId) (w : World) : World :=
  let w' := (deliver_queued_messages c u w).2 in
  ack_pages u ack_id (drop (length (pages_of c w)) (pages_of c w')) w'.

Fixpoint logins (k : nat) (c : nat) (u : string) (ack_id : MessageId) (w : World) : World :=
  match k with O => w | S k' => logins k' c u ack_id (login_round c u ack_id w) end.

(** The rows of everybody else. *)
Definition others (u : string) (q : list QueueRow) : list QueueRow := filter (fun r => q_recipient_id r <> u) q.

(** ** What an acknowledgement removes *)

Lemma handle_ack_db u a ids w :
  env_fault (w_tick w) = false -> Z.of_nat (length ids) <= MAX_ACK_BATCH ->
  w_db (handle_ack u a ids w).2
  = set_queue (unacked u (uuid_to_string <$> ids) (message_queue (w_db w))) (w_db w).
Proof.
  intros Hf Hl. unfold handle_ack. destruct (Z.ltb_spec MAX_ACK_BATCH (Z.of_nat (length ids))); [lia|].
  unfold h_bind. rewrite db_call_runs by done.
  pose proof (delete_frame u (uuid_to_string <$> ids) (w_db w)) as E.
  rewrite delete_message_fold in E. destruct (delete_messages _ _ _) as [[n|e] d]; cbn in *; by rewrite E.
Qed.

Lemma unacked_app u ids ids' q : unacked u ids' (unacked u ids q) = unacked u (ids ++ ids') q.
Proof.
  unfold unacked. rewrite list_filter_filter. apply list_filter_iff. intros r. rewrite elem_of_app. tauto.
Qed.
Lemma unacked_nil u q : unacked u [] q = q.
Proof. unfold unacked. apply filter_all. intros r _ [Hin _]. by apply elem_of_nil in Hin. Qed.

Lemma ack_pages_db u a pages w :
  (forall t, env_fault t = false) -> Forall (fun p => Z.of_nat (length p) <= MAX_ACK_BATCH) pages ->
  w_db (ack_pages u a pages w)
  = set_queue (unacked u (uuid_to_string <$> (im_message_id <$> concat pages)) (message_queue (w_db w))) (w_db w).
Proof.
  intros Hf Hp. revert w. induction Hp as [|p pages Hp _ IH]; intros w.
  - cbn. rewrite unacked_nil. by destruct (w_db w).
  - change (ack_pages u a (p :: pages) w) with (ack_pages u a pages (handle_ack u a (im_message_id <$> p) w).2).
    rewrite IH, handle_ack_db by (rewrite ?length_fmap; done). cbn [message_queue set_queue concat].
    by rewrite unacked_app, !fmap_app.
Qed.

(** Removing the first rows by their ids. *)
Lemma filter_first {A} (g : A -> string) n l ids :
  NoDup (g <$> l) -> (forall x, x ∈ l -> g x ∉ ids) ->
  filter (fun x => g x ∉ ids ++ (g <$> take n l)) l = drop n l.
Proof.
  revert n ids. induction l as [|x l IH]; intros n ids Hn Hi; [by rewrite drop_nil|].
  destruct n as [|n].
  - apply filter_all. intros y Hy. cbn. rewrite app_nil_r. by apply Hi.
  - apply NoDup_cons in Hn as [Hx Hn]. rewrite firstn_cons, fmap_cons, filter_cons_False by set_solver.
    rewrite cons_middle, app_assoc. apply (IH n (ids ++ [g x])); [done|]. intros y Hy [Hin|Hin]%elem_of_app.
    + by eapply Hi; [right|].
    + apply list_elem_of_singleton in Hin. apply Hx. rewrite <- Hin. by apply list_elem_of_fmap_2.
Qed.

Lemma rows_of_acked u n q :
  NoDup (q_message_id <$> q) ->
  rows_of u (unacked u (q_message_id <$> take n (rows_of u q)) q) = drop n (rows_of u q).
Proof.
  intros Hn. rewrite <- (filter_first q_message_id n (rows_of u q) []).
  - unfold rows_of, unacked. rewrite !list_filter_filter. apply list_filter_iff. intros r. cbn. tauto.
  - eapply sublist_NoDup; [exact Hn|]. apply fmap_sublist, sublist_filter.
  - by intros x _ Hx%elem_of_nil.
Qed.
Lemma others_acked u ids q : others u (unacked u ids q) = others u q.
Proof. unfold others, unacked. rewrite list_filter_filter. apply list_filter_iff. intros r. tauto. Qed.

(** ** One login *)

(** The queue is one the relay can have, and the messages of [u] in it are
    valid. *)
Record ready (u : string) (empty : Z) (f : QueueRow -> InboundMessage) (q : list QueueRow) : Prop := {
  rd_ids : NoDup (q_message_id <$> q);
  rd_queue : valid_queue u empty f q;
  rd_named : forall r, r ∈ q -> q_recipient_id r = u -> uuid_to_string (im_message_id (f r)) = q_message_id r;
}.

Lemma ready_filter u empty f q (P : QueueRow -> Prop) `{!forall r, Decision (P r)} :
  ready u empty f q -> ready u empty f (filter P q).
Proof.
  intros [Hn [] Hi]. split; [|split|].
  - eapply sublist_NoDup; [done|]. apply fmap_sublist, sublist_filter.
  - by apply rowids_sorted_filter.
  - intros r [_ Hr]%list_elem_of_filter. auto.
  - intros r [_ Hr]%list_elem_of_filter. auto.
  - intros r [_ Hr]%list_elem_of_filter. auto.
Qed.

Lemma round_removes c u a w empty f :
  (forall t, env_fault t = false) -> (forall t, env_alive t = true) ->
  json_size_message (QueuedMessages []) = Some empty -> ready u empty f (message_queue (w_db w)) ->
  let q := message_queue (w_db w) in
  w_db (login_round c u a w)
  = set_queue (unacked u (q_message_id <$> take 1000 (rows_of u q)) q) (w_db w).
Proof.
  intros Hnf Hal He R q. unfold login_round.
  destruct (deliver_complete Hnf Hal c u empty f (arrivals_alone u empty f) w He (rd_queue _ _ _ _ R))
    as (new & rest & E & Hc & Hr & Hs%others_step_alone). cbn [app] in Hr, Hc.
  destruct (loop_pages (Z.to_nat MAX_QUEUED_MESSAGES) c u empty 0 [] empty w) as (new' & E' & Hpages); [by left|].
  unfold deliver_queued_messages in *. rewrite He in *. rewrite E in E'. apply app_inv_head in E' as <-.
  rewrite Hs in Hr. rewrite E, drop_app_length. rewrite ack_pages_db; [|done|].
  - rewrite Hc, Hs, <- Hr. f_equal. f_equal. rewrite <- list_fmap_compose, <- list_fmap_compose.
    apply list_fmap_ext. intros i r Hi. cbn. apply list_elem_of_lookup_2 in Hi.
    assert (r ∈ rows_of u q) as [Hu Hq]%list_elem_of_filter.
    { rewrite <- (take_drop 1000 (rows_of u q)). apply elem_of_app. by left. }
    by apply (rd_named _ _ _ _ R).
  - eapply Forall_impl; [exact Hpages|]. intros p [Hl _]. unfold MAX_QUEUED_MESSAGES_PER_PAGE, MAX_ACK_BATCH in *. lia.
Qed.

(** ** All of them *)

(** C26: A user's queue is emptied.  When no database call fails, the
    connections stay open, no other connection interferes and the user's
    queued messages are valid, then after [k] logins whose pages are
    acknowledged exactly the rows of the user after the first [1000 * k] are
    left, in order, and those of all other users are untouched: the queue
    shrinks with every login that finds it nonempty and is empty after
    [length / 1000 + 1] of them. *)
Theorem queue_drains k c u a w empty f :
  (forall t, env_fault t = false) -> (forall t, env_alive t = true) ->
  json_size_message (QueuedMessages []) = Some empty -> ready u empty f (message_queue (w_db w)) ->
  let q := message_queue (w_db w) in
  let q' := message_queue (w_db (logins k c u a w)) in
  rows_of u q' = drop (1000 * k) (rows_of u q) /\ others u q' = others u q
  /\ ((length (rows_of u q) / 1000 < k)%nat -> rows_of u q' = []).
Proof.
  intros Hnf Hal He R q q'.
  assert (rows_of u q' = drop (1000 * k) (rows_of u q) /\ others u q' = others u q) as [E1 E2].
  { unfold q, q'. clear q q'. revert w R. induction k as [|k IH]; intros w R; [by rewrite Nat.mul_0_r, drop_0|].
    cbn [logins]. pose proof (round_removes c u a w empty f Hnf Hal He R) as E. cbv zeta in E.
    destruct (IH (login_round c u a w)) as [-> ->]; rewrite E; [by apply ready_filter|].
    cbn [message_queue set_queue]. rewrite rows_of_acked, others_acked by apply R.
    rewrite drop_drop. split; [|done]. f_equal. lia. }
  split; [done|]. split; [done|]. intros Hk. rewrite E1. apply drop_ge.
  pose proof (Nat.div_mod_eq (length (rows_of u q)) 1000). pose proof (Nat.mod_upper_bound (length (rows_of u q)) 1000). nia.
Qed.
End Drain.

(** ** A concrete queue *)

Module DrainDemo.
#[local] Existing Instance Toy.prims.
#[local] Existing Instance ToyServer.codecs.
#[local] Existing Instance ToyServer.env.
#[local] Existing Instance ToyServer.alone.

Lemma queue_drains_witness :
  let w := logins 1 0 "bob" (mkMessageId 9) Delivery.Demo.w0 in
  rows_of "bob" (message_queue (w_db w)) = [] /\ length (message_queue (w_db w)) = 1%nat.
Proof.
  intros w. split; [|vm_compute; reflexivity].
  destruct (queue_drains 1 0 "bob" (mkMessageId 9) Delivery.Demo.w0 20 Delivery.Demo.inbound) as (_ & _ & Hd).
  - reflexivity.
  - reflexivity.
  - reflexivity.
  - split.
    + apply (bool_decide_unpack _). vm_compute. exact I.
    + exact Delivery.Demo.w0_valid.
    + intros r Hr Hu. simpl in Hr. rewrite !elem_of_cons, elem_of_nil in Hr.
      destruct Hr as [->|[->|[->|[]]]]; [|discriminate Hu|]; vm_compute; reflexivity.
  - apply Hd. vm_compute. repeat constructor.
Defined.
End DrainDemo.
