(* ===== verification/Ws.v ===== *)
(** * Connections ([crates/server/src/ws.rs])

    The life of a WebSocket connection as a state machine over the frames it
    receives, and the server as a transition system of connections over the
    shared world.  A request is handled without interruption in this model;
    the interleaving of database operations is covered by [DbTrace]. *)
From stdpp Require Import base numbers list strings gmap.
From S2P Require Import Prelude Consts Types Primitives SqlDb DbUsers DbPrekeys DbQueue DbReceipts DbTrace ServerWorld Handlers Delivery.
Local Open Scope Z_scope.
Local Open Scope cmp_scope.

(** What [select!] and [stream.next()] yield: the cancellation signal, the end
    of the stream, a close frame, a frame that is not text, or a text frame,
    decoded ([None] when it is not a [ClientMessage]). *)
Inductive frame_event :=
| EvCancelled
| EvStreamEnd
| EvClose
| EvOther
| EvText (msg : option ClientMessage).

Section Ws.
Context `{CryptoPrims, Codecs, SqlPick, Env}.
Context (sha256 : bytes -> bytes) (server_id : string).

(** The pushes after a successful authentication. *)
Definition after_auth (c : nat) (session : Session) (uid : string) : hm Session :=
  then! deliver_queued_messages c uid;
  then! deliver_queued_receipts c uid;
  then! deliver_message_confirmations c uid;
  if deliver_prekey_status_flag session
  then then! deliver_prekey_status c uid;
       h_ret (mkSessionOf (authed_user session) (s_conn_id session) (pending_challenge session)
                false (s_cancel session))
  else h_ret session.

(** One iteration of the loop: the session and whether the loop goes on. *)
Definition connection_step (c : nat) (session : Session) (ev : frame_event)
  : hm (Session * bool) :=
  match ev with
  | EvCancelled | EvStreamEnd => h_ret (session, false)
  | _ =>
      let! cancelled <- (fun w => (bool_decide (s_cancel session ∈ w_cancelled w), w));
      if cancelled : bool then h_ret (session, false)
      else
        match ev with
        | EvClose => h_ret (session, false)
        | EvText None =>
            then! try_send c (ErrorMsg 400 "malformed message");
            h_ret (session, true)
        | EvText (Some client_msg) =>
            let was_authed := bool_decide (is_Some (authed_user session)) in
            let! x <- handle_message sha256 server_id c session client_msg;
            let '(response, session) := x in
            let! sent <- match response with
                         | Some msg => try_send c msg
                         | None => h_ret true
                         end;
            if negb sent then h_ret (session, false)
            else
              match authed_user session with
              | Some uid =>
                  if negb was_authed
                  then let! session <- after_auth c session uid; h_ret (session, true)
                  else h_ret (session, true)
              | None => h_ret (session, true)
              end
        | _ => h_ret (session, true)
        end
  end.

(** The clean-up after the loop. *)
Definition connection_end (session : Session) : hm unit :=
  match authed_user session, s_conn_id session with
  | Some user_id, Some cid => Registry.remove_if_match user_id cid
  | _, _ => h_ret tt
  end.
End Ws.

(** ** The registry is left alone by everything but authentication *)

Section OnlineFrame.
Context `{Env}.

Definition online_frame {A} (m : hm A) : Prop := forall w, w_online (m w).2 = w_online w.

Lemma online_ret {A} (a : A) : online_frame (h_ret a).
Proof. done. Qed.
Lemma online_bind {A B} (m : hm A) (k : A -> hm B) :
  online_frame m -> (forall a, online_frame (k a)) -> online_frame (h_bind m k).
Proof.
  intros Hm Hk w. unfold h_bind. specialize (Hm w). destruct (m w) as [a w1]. simpl in Hm.
  by rewrite Hk, Hm.
Qed.
Lemma online_db {A} (op : nat -> dbm A) : online_frame (db_call op).
Proof.
  intros w. unfold db_call, h_bind, tick. simpl. destruct (env_fault _); [done|].
  by destruct (op _ _).
Qed.
Lemma online_try_send c m : online_frame (try_send c m).
Proof. intros w. unfold try_send, h_bind, tick. simpl. by destruct (env_room _). Qed.
Lemma online_send c m : online_frame (send c m).
Proof. intros w. unfold send, h_bind, tick. simpl. by destruct (env_alive _). Qed.
Lemma online_send_to u m : online_frame (Registry.send_to u m).
Proof.
  intros w. unfold Registry.send_to. destruct (w_online w !! u); [apply online_try_send|done].
Qed.
Lemma online_now : online_frame now_secs.
Proof. done. Qed.
Lemma online_random : online_frame random_bytes.
Proof. done. Qed.
End OnlineFrame.

Create HintDb online.
#[export] Hint Resolve online_ret online_db online_try_send online_send online_send_to online_now
  online_random : online.

Ltac quiet :=
  repeat (cbv zeta; match goal with
  | |- forall _, _ => intro
  | |- online_frame (h_bind _ _) => apply online_bind
  | |- online_frame (match ?x with _ => _ end) => destruct x
  | |- online_frame (if ?x then _ else _) => destruct x
  | |- online_frame _ => solve [eauto with online]
  end).

Section Quiet.
Context `{CryptoPrims, Codecs, SqlPick, Env}.
Context (sha256 : bytes -> bytes) (server_id : string).

Lemma online_notify_receipts l : online_frame (notify_receipt_senders l).
Proof. induction l as [|[r s] l IH]; simpl; quiet. Qed.
Lemma online_answer v b : online_frame (answer_bundle v b).
Proof. unfold answer_bundle. quiet. Qed.
Hint Resolve online_notify_receipts online_answer : online.

Lemma online_send_message u v i e : online_frame (handle_send sha256 u v i e).
Proof.
  unfold handle_send. destruct (validate_envelope e); [|apply online_ret].
  destruct (envelope_prekey_ids _). quiet.
Qed.
Lemma online_rotation u i k p s : online_frame (handle_signed_prekey_rotation u i k p s).
Proof.
  unfold handle_signed_prekey_rotation, validate_signed_prekey_rotation,
    store_signed_prekey_rotation. quiet.
Qed.
Hint Resolve online_send_message online_rotation : online.

Lemma online_user u msg : online_frame (handle_user_message sha256 u msg).
Proof.
  destruct msg; cbn [handle_user_message]; unfold handle_upload, handle_fetch, handle_ack,
    handle_message_sent_ack, handle_typing, handle_read_receipt, handle_read_receipt_ack,
    handle_read_receipt_sent_ack; quiet.
Qed.

Lemma online_notify_senders l : online_frame (notify_senders l).
Proof. induction l as [|[s ids] l IH]; simpl; quiet. Qed.
Lemma online_page c page : online_frame (send_queued_page c page).
Proof. unfold send_queued_page. quiet. apply online_notify_senders. Qed.
Lemma online_send_each c l : online_frame (send_each c l).
Proof. induction l as [|[m|] l IH]; simpl; quiet. Qed.
Hint Resolve online_page online_send_each : online.

Lemma online_loop n c u e cur page b : online_frame (deliver_loop n c u e cur page b).
Proof.
  revert cur page b. induction n as [|n IH]; intros cur page b; cbn [deliver_loop];
    unfold remove_invalid_queued_row; quiet.
Qed.
Lemma online_receipts_loop c u l : online_frame (deliver_receipts_loop c u l).
Proof. induction l as [|r l IH]; simpl; quiet. Qed.
Hint Resolve online_loop online_receipts_loop : online.

Lemma online_after_auth c s u : online_frame (after_auth c s u).
Proof.
  unfold after_auth, deliver_queued_messages, deliver_queued_receipts,
    deliver_receipt_confirmations, deliver_message_confirmations, deliver_prekey_status. quiet.
Qed.
End Quiet.

(** ** Authentication and the registry *)

Section AuthFrame.
Context `{CryptoPrims, Codecs, SqlPick, Env}.
Context (sha256 : bytes -> bytes) (server_id : string).

(** How a request may change its connection and the registry: not at all,
    or by the connection becoming a user and its entry being registered. *)
Definition auth_change (c : nat) (s s' : Session) (w w' : World) : Prop :=
  (w_online w' = w_online w /\ authed_user s' = authed_user s /\ s_conn_id s' = s_conn_id s)
  \/ exists u cid, authed_user s = None /\ authed_user s' = Some u /\ s_conn_id s' = Some cid
       /\ w_online w' = <[u := mkConnEntry cid c (s_cancel s)]> (w_online w).

Lemma insert_online u c x w :
  w_online (Registry.insert u c x w).2
  = <[u := mkConnEntry (Registry.insert u c x w).1 c x]> (w_online w).
Proof.
  unfold Registry.insert, Registry.next_conn_id, Registry.cancel_conn, try_send, tick, h_bind, h_ret.
  simpl. destruct (w_online w !! u); simpl; [|done]. by destruct (env_room _).
Qed.

Lemma register_change c s uid b l w :
  auth_change c s (handle_register c s uid b l w).1.2 w (handle_register c s uid b l w).2.
Proof.
  destruct (handle_register c s uid b l w) as [[m s'] w'] eqn:E. simpl.
  unfold handle_register in E.
  destruct (authed_user s) eqn:Hs; [injection E as <- <- <-; by left|].
  destruct (_ <? _); [injection E as <- <- <-; by left|].
  destruct (check_bundle b) as [[[ik spk] sg]|]; [|injection E as <- <- <-; by left].
  destruct (decode_prekeys l) as [pairs|]; [|injection E as <- <- <-; by left].
  unfold h_bind at 1 in E.
  match type of E with context [db_call ?op w] => pose proof (online_db op w) as Ho end.
  destruct (db_call _ w) as [r w1]. simpl in Ho.
  destruct r as [[]|]; [|injection E as <- <- <-; by left..].
  unfold h_bind in E. pose proof (insert_online (as_str uid) c (s_cancel s) w1) as Hi.
  destruct (Registry.insert _ _ _ w1) as [cid w2]. simpl in *. injection E as <- <- <-.
  right. exists (as_str uid), cid. rewrite Hi, Ho. done.
Qed.

Lemma challenge_change c s uid w :
  auth_change c s (handle_auth_challenge server_id s uid w).1.2 w
    (handle_auth_challenge server_id s uid w).2.
Proof.
  left. destruct (handle_auth_challenge server_id s uid w) as [[m s'] w'] eqn:E. simpl.
  unfold handle_auth_challenge in E.
  destruct (authed_user s) eqn:Hs; [by injection E as <- <- <-|].
  unfold h_bind at 1 in E.
  match type of E with context [db_call ?op w] => pose proof (online_db op w) as Ho end.
  destruct (db_call _ w) as [r w1]. simpl in Ho.
  destruct r as [[]|]; [|by injection E as <- <- <-..].
  unfold random_bytes, now_secs, h_bind, tick, h_ret in E. simpl in E. by injection E as <- <- <-.
Qed.

Lemma response_change c s sig w :
  auth_change c s (handle_auth_response server_id c s sig w).1.2 w
    (handle_auth_response server_id c s sig w).2.
Proof.
  destruct (handle_auth_response server_id c s sig w) as [[m s'] w'] eqn:E. simpl.
  unfold handle_auth_response in E.
  destruct (authed_user s) eqn:Hs; [injection E as <- <- <-; by left|].
  destruct (pending_challenge s) as [ch|]; [|injection E as <- <- <-; by left].
  cbn [authed_user s_conn_id s_cancel deliver_prekey_status_flag pending_challenge] in E.
  unfold h_bind at 1 in E. destruct (now_secs w) as [now w1] eqn:E1.
  assert (w_online w1 = w_online w) as Hw1 by (by injection E1 as _ <-).
  destruct (60 <? _); [injection E as <- <- <-; left; by rewrite Hw1|].
  unfold h_bind at 1 in E.
  match type of E with context [db_call ?op w1] => pose proof (online_db op w1) as Ho end.
  destruct (db_call _ w1) as [r w2]. simpl in Ho. rewrite Hw1 in Ho.
  destruct r as [[ik|]|]; [|injection E as <- <- <-; by left..].
  destruct (check_signature _ _ _ _); [|injection E as <- <- <-; by left].
  unfold h_bind in E. pose proof (insert_online (pc_user_id ch) c (s_cancel s) w2) as Hi.
  destruct (Registry.insert _ _ _ w2) as [cid w3]. simpl in *. injection E as <- <- <-.
  right. exists (pc_user_id ch), cid. by rewrite Hi, Ho.
Qed.

Lemma message_change c s msg w :
  auth_change c s (handle_message sha256 server_id c s msg w).1.2 w
    (handle_message sha256 server_id c s msg w).2.
Proof.
  unfold handle_message. destruct msg; unfold h_bind.
  1: { pose proof (register_change c s user_id bundle one_time_prekeys w).
       by destruct (handle_register _ _ _ _ _ w) as [[m s'] w']. }
  1: { pose proof (challenge_change c s user_id w).
       by destruct (handle_auth_challenge _ _ _ w) as [[m s'] w']. }
  1: { pose proof (response_change c s signature w).
       by destruct (handle_auth_response _ _ _ _ w) as [[m s'] w']. }
  all: destruct (authed_user s) as [u|]; [|by left].
  all: match goal with |- context [handle_user_message _ ?u ?m ?x] =>
         pose proof (online_user sha256 u m x) as Ho;
         destruct (handle_user_message sha256 u m x) as [r w1] end.
  all: left; done.
Qed.

Lemma auth_change_later c s s1 s' w w1 w' :
  auth_change c s s1 w w1 -> w_online w' = w_online w1 ->
  authed_user s' = authed_user s1 -> s_conn_id s' = s_conn_id s1 ->
  auth_change c s s' w w'.
Proof.
  intros [(E1 & E2 & E3)|(u & cid & E1 & E2 & E3 & E4)] Ho Hu Hc.
  - left. repeat split; congruence.
  - right. exists u, cid. repeat split; congruence.
Qed.

Lemma after_auth_session c s u w :
  authed_user (after_auth c s u w).1 = authed_user s
  /\ s_conn_id (after_auth c s u w).1 = s_conn_id s.
Proof.
  unfold after_auth, h_bind. destruct (deliver_queued_messages c u w) as [x1 w1].
  destruct (deliver_queued_receipts c u w1) as [x2 w2].
  destruct (deliver_message_confirmations c u w2) as [x3 w3].
  destruct (deliver_prekey_status_flag s); [|done].
  by destruct (deliver_prekey_status c u w3).
Qed.

Lemma step_change c s ev w :
  auth_change c s (connection_step sha256 server_id c s ev w).1.1 w
    (connection_step sha256 server_id c s ev w).2.
Proof.
  destruct (connection_step sha256 server_id c s ev w) as [[s' go] w'] eqn:E. cbn [fst snd].
  unfold connection_step in E.
  destruct ev as [| | | |msg]; try (injection E as <- _ <-; by left);
    unfold h_bind at 1 in E; (destruct (bool_decide _); [injection E as <- _ <-; by left|]);
    try (injection E as <- _ <-; by left).
  destruct msg as [msg|].
  - unfold h_bind in E.
    pose proof (message_change c s msg w) as M.
    destruct (handle_message sha256 server_id c s msg w) as [[resp s1] w1]. simpl in M.
    assert (Hs : exists sent w2, match resp with Some m => try_send c m | None => h_ret true end w1
      = (sent, w2) /\ w_online w2 = w_online w1).
    { destruct resp as [m|]; [|by exists true, w1]. pose proof (online_try_send c m w1).
      destruct (try_send c m w1) as [sent w2]. by exists sent, w2. }
    destruct Hs as (sent & w2 & Es & Ho). rewrite Es in E.
    destruct sent; simpl in E; [|injection E as <- _ <-; by eapply auth_change_later].
    destruct (authed_user s1) as [u|] eqn:Hu;
      [|injection E as <- _ <-; by eapply auth_change_later].
    destruct (negb _); [|injection E as <- _ <-; by eapply auth_change_later].
    pose proof (online_after_auth c s1 u w2) as Ho2.
    destruct (after_auth_session c s1 u w2) as [Ha Hc].
    destruct (after_auth c s1 u w2) as [s2 w3]. simpl in *. injection E as <- _ <-.
    eapply auth_change_later; [exact M|congruence|congruence|congruence].
  - unfold h_bind in E. pose proof (online_try_send c (ErrorMsg 400 "malformed message") w) as Ho.
    destruct (try_send c _ w) as [x w1]. injection E as <- _ <-. by left.
Qed.
End AuthFrame.

(** ** The server *)

Record Server := mkServer { world : World; sessions : gmap nat Session }.

Section System.
Context `{CryptoPrims, Codecs, SqlPick, Env}.
Context (sha256 : bytes -> bytes) (server_id : string).

Inductive server_step (sv : Server) : Server -> Prop :=
| step_connect c :
    sessions sv !! c = None -> c ∉ w_cancelled (world sv) ->
    server_step sv (mkServer (world sv) (<[c := Session_new c]> (sessions sv)))
| step_frame c s ev s' w' :
    sessions sv !! c = Some s ->
    connection_step sha256 server_id c s ev (world sv) = ((s', true), w') ->
    server_step sv (mkServer w' (<[c := s']> (sessions sv)))
| step_close c s ev s' w' w'' :
    sessions sv !! c = Some s ->
    connection_step sha256 server_id c s ev (world sv) = ((s', false), w') ->
    connection_end s' w' = (tt, w'') ->
    server_step sv (mkServer w'' (delete c (sessions sv))).

Inductive server_reachable (d : Db) : Server -> Prop :=
| server_start : server_reachable d (mkServer (mkWorld d ∅ 1 ∅ ∅ 0) ∅)
| server_next sv sv' : server_reachable d sv -> server_step sv sv' -> server_reachable d sv'.

(** Every registered entry belongs to a live connection of that user. *)
Definition registry_ok (sv : Server) : Prop :=
  forall u e, w_online (world sv) !! u = Some e -> exists s,
    sessions sv !! sender e = Some s /\ authed_user s = Some u /\ s_conn_id s = Some (conn_id e).

(** The registry after a frame, with the connection's new session. *)
Lemma registry_frame sv c s s' w' :
  registry_ok sv -> sessions sv !! c = Some s -> auth_change c s s' (world sv) w' ->
  registry_ok (mkServer w' (<[c := s']> (sessions sv))).
Proof.
  intros R Hc [(Eo & Ea & Ei)|(u & cid & Hn & Ha & Hi & Eo)] v e; simpl; rewrite Eo.
  - intros He. destruct (R v e He) as (s0 & Hs0 & Hv & Hid).
    destruct (decide (sender e = c)) as [E|Hne].
    + exists s'. rewrite E, lookup_insert_eq. rewrite E, Hc in Hs0. injection Hs0 as <-.
      split; [done|]. split; congruence.
    + exists s0. by rewrite lookup_insert_ne.
  - intros [[-> <-]|[Hne He]]%lookup_insert_Some; simpl.
    + exists s'. rewrite lookup_insert_eq. done.
    + destruct (R v e He) as (s0 & Hs0 & Hv & Hid). exists s0.
      rewrite lookup_insert_ne; [done|]. intros Ec. rewrite <- Ec, Hc in Hs0. congruence.
Qed.

Lemma server_step_ok sv sv' : registry_ok sv -> server_step sv sv' -> registry_ok sv'.
Proof.
  intros R [c Hc Hcan|c s ev s' w' Hc E|c s ev s' w' w'' Hc E Ee].
  - intros u e He. destruct (R u e He) as (s & Hs & ?). exists s. simpl.
    rewrite lookup_insert_ne; [done|]. intros Ec. rewrite <- Ec in Hs. congruence.
  - pose proof (step_change sha256 server_id c s ev (world sv)) as M. rewrite E in M.
    by eapply registry_frame.
  - pose proof (step_change sha256 server_id c s ev (world sv)) as M. rewrite E in M. simpl in M.
    pose proof (registry_frame sv c s s' w' R Hc M) as R'. intros u e. simpl.
    assert (Hd : w_online w'' !! u = Some e -> w_online w' !! u = Some e /\ sender e <> c).
    { unfold connection_end, Registry.remove_if_match in Ee. intros He.
      assert (w_online w' !! u = Some e) as He'.
      { destruct (authed_user s') as [v|]; [|by injection Ee as <-].
        destruct (s_conn_id s') as [cid|]; [|by injection Ee as <-].
        injection Ee as <-. destruct (w_online w' !! v); [|done].
        destruct (_ =? _); [|done]. simpl in He. by apply lookup_delete_Some in He as [_ ?]. }
      split; [done|]. intros Hec. destruct (R' u e He') as (s0 & Hs0 & Hv & Hid).
      simpl in Hs0. rewrite Hec, lookup_insert_eq in Hs0. injection Hs0 as <-.
      rewrite Hv, Hid in Ee. injection Ee as <-. rewrite He', Z.eqb_refl in He. simpl in He.
      by rewrite lookup_delete_eq in He. }
    intros He. apply Hd in He as [He Hne]. destruct (R' u e He) as (s0 & Hs0 & ?). exists s0.
    simpl in Hs0. rewrite lookup_insert_ne in Hs0 by done. by rewrite lookup_delete_ne.
Qed.

(** C27: What is pushed to a user reaches only that user.  In every reachable
    state of the server, the channel registered for user [u] belongs to an
    open connection that has authenticated as [u]; connections that are
    replaced or closing never leave a stale entry behind or evict a newer
    one. *)
Theorem registry_routes_to_owner d sv u e :
  server_reachable d sv -> w_online (world sv) !! u = Some e ->
  exists s, sessions sv !! sender e = Some s /\ authed_user s = Some u
    /\ s_conn_id s = Some (conn_id e).
Proof.
  intros Hr. revert u e. change (registry_ok sv). induction Hr as [|sv sv' Hr IH Hs].
  - intros u e. simpl. by rewrite lookup_empty.
  - by eapply server_step_ok.
Qed.
End System.

(** ** A concrete login *)

Module Demo.
#[local] Existing Instance Toy.prims.
#[local] Existing Instance ToyServer.codecs.
#[local] Existing Instance ToyServer.env.
#[local] Existing Instance PickFirst.pick_first.

Definition sha (b : bytes) : bytes := b.
Definition ik : bytes := repeat Byte.x07 32.
Definition base : Db := mkDb {["alice" := ik]} ∅ ∅ {["alice" := 0]} ∅ [] [] ∅ 0 [].
Definition w0 : World := mkWorld base ∅ 1 ∅ ∅ 0.
Definition ask : frame_event := EvText (Some (AuthChallenge (mkUserId "alice"))).
Definition asked := connection_step sha "srv" 0%nat (Session_new 0) ask w0.
Definition challenge : PendingChallenge :=
  default (mkPendingChallenge "" [] 0) (pending_challenge asked.1.1).
Definition reply : frame_event :=
  EvText (Some (AuthResponse (b64_encode (ed25519_sign ik (signed_data "srv" challenge))))).
Definition replied := connection_step sha "srv" 0%nat asked.1.1 reply asked.2.
Definition sv0 : Server := mkServer w0 ∅.
Definition sv1 : Server := mkServer (world sv0) (<[0%nat := Session_new 0]> (sessions sv0)).
Definition sv2 : Server := mkServer asked.2 (<[0%nat := asked.1.1]> (sessions sv1)).
Definition logged_in : Server := mkServer replied.2 (<[0%nat := replied.1.1]> (sessions sv2)).

Lemma logged_in_reachable : server_reachable sha "srv" base logged_in.
Proof.
  apply (server_next sha "srv" base sv2); [apply (server_next sha "srv" base sv1);
    [apply (server_next sha "srv" base sv0)|]|].
  - apply server_start.
  - apply (step_connect sha "srv" sv0 0%nat); [reflexivity|]. apply not_elem_of_empty.
  - apply (step_frame sha "srv" sv1 0%nat (Session_new 0) ask asked.1.1 asked.2); [reflexivity|].
    vm_compute. reflexivity.
  - apply (step_frame sha "srv" sv2 0%nat asked.1.1 reply replied.1.1 replied.2).
    + apply lookup_insert_eq.
    + vm_compute. reflexivity.
Qed.

Lemma registry_routes_to_owner_witness :
  exists s, sessions logged_in !! 0%nat = Some s /\ authed_user s = Some "alice"%string
    /\ s_conn_id s = Some 1.
Proof.
  apply (registry_routes_to_owner sha "srv" base logged_in "alice" (mkConnEntry 1 0 0)).
  - exact logged_in_reachable.
  - vm_compute. reflexivity.
Defined.
End Demo.
