(* ===== verification/WsWriter.v ===== *)
(** * The writing half of a connection ([crates/server/src/ws.rs])

    The bounded channel between the handlers and the task that writes to the
    socket, the task itself, and [finish_writer], which ends it: at once when
    the client is gone, after a last chance to drain when the connection was
    replaced by a new login.  The channel of the model of [ServerWorld] is the
    list of messages that [try_send] and [send] have accepted; this file says
    what of it reaches the wire. *)
From stdpp Require Import base numbers list strings.
From S2P Require Import Prelude Consts Types.
Local Open Scope Z_scope.
Local Open Scope cmp_scope.

Definition OUTBOUND_CHANNEL_CAPACITY : nat := 8.

(** The channel's buffer, whether a sender and the receiver are left, the frames
    on the wire and how many were tried. *)
Record Writer := mkWriter {
  buffer : list ServerMessage;
  tx_open : bool;
  rx_open : bool;
  wire : list string;
  tried : nat;
}.
Definition Writer_new : Writer := mkWriter [] true true [] 0.

Section Writer.
(** [serde_json::to_string], and whether the [n]th [sink.send] succeeds. *)
Context (to_json : ServerMessage -> option string) (sink_ok : nat -> bool).

(** The task has ended, by itself or by [abort]: the receiver, and what is in
    the buffer, is dropped. *)
Definition stop (w : Writer) : Writer := mkWriter [] (tx_open w) false (wire w) (tried w).

(** One iteration of the task: [None] while it waits for a message. *)
Definition write_step (w : Writer) : option Writer :=
  if negb (rx_open w) then None
  else
    match buffer w with
    | [] => if tx_open w then None else Some (stop w)
    | m :: b =>
        match to_json m with
        | Some json =>
            if sink_ok (tried w)
            then Some (mkWriter b (tx_open w) true (wire w ++ [json]) (S (tried w)))
            else Some (stop (mkWriter b (tx_open w) true (wire w) (S (tried w))))
        | None => Some (mkWriter b (tx_open w) true (wire w) (tried w))
        end
    end.

(** The iterations that are done within the time limit. *)
Fixpoint write_loop (n : nat) (w : Writer) : Writer :=
  match n with
  | O => w
  | S n' => match write_step w with Some w' => write_loop n' w' | None => w end
  end.

(** [within] is the number of iterations the task gets done in one second. *)
Definition finish_writer (was_replaced : bool) (within : nat) (w : Writer) : Writer :=
  if negb was_replaced then stop w
  else stop (write_loop within (mkWriter (buffer w) false (rx_open w) (wire w) (tried w))).

(** A connection while its loop runs: what was accepted so far, and the writer.
    [try_send] and [send] are [tokio]'s bounded channel: a message is accepted
    only while the receiver lives and there is room, behind those that wait; a
    refusal changes nothing. *)
Inductive writer_run : list ServerMessage -> Writer -> Prop :=
| wr_start : writer_run [] Writer_new
| wr_accept sent w m :
    writer_run sent w -> rx_open w = true -> (length (buffer w) < OUTBOUND_CHANNEL_CAPACITY)%nat ->
    writer_run (sent ++ [m]) (mkWriter (buffer w ++ [m]) (tx_open w) true (wire w) (tried w))
| wr_write sent w w' : writer_run sent w -> write_step w = Some w' -> writer_run sent w'.

(** The frames for a list of messages: those that have a JSON form. *)
Definition frames (ms : list ServerMessage) : list string := omap to_json ms.

(** The wire holds the frames of what has left the buffer; when the task has
    ended the rest is lost. *)
Definition in_step (sent : list ServerMessage) (w : Writer) : Prop :=
  exists out rest, sent = out ++ rest /\ wire w = frames out /\ (rx_open w = true -> rest = buffer w)
    /\ (length (buffer w) <= OUTBOUND_CHANNEL_CAPACITY)%nat.

Lemma step_frames out m b w :
  wire w = frames out -> buffer w = m :: b -> rx_open w = true ->
  exists w', write_step w = Some w' /\ tx_open w' = tx_open w /\
    ((rx_open w' = true /\ buffer w' = b /\ wire w' = frames (out ++ [m]))
     \/ (exists j, to_json m = Some j /\ sink_ok (tried w) = false) /\ buffer w' = [] /\ rx_open w' = false /\ wire w' = wire w).
Proof.
  intros Hw Hb Hr. unfold write_step. rewrite Hr, Hb. cbn [negb]. unfold frames in *. rewrite omap_app. cbn.
  destruct (to_json m) as [j|]; [destruct (sink_ok (tried w)) eqn:Hs|]; eexists; (split; [done|]); (split; [done|]).
  - left. split; [done|]. split; [done|]. cbn. by rewrite Hw.
  - right. by split; [eexists|].
  - left. split; [done|]. split; [done|]. cbn. by rewrite app_nil_r.
Qed.

Lemma in_step_write sent w w' : in_step sent w -> write_step w = Some w' -> in_step sent w'.
Proof.
  intros (out & rest & -> & Hw & Hr & Hl) Es. destruct (rx_open w) eqn:Hrx; [|by unfold write_step in Es; rewrite Hrx in Es].
  destruct (buffer w) as [|m b] eqn:Eb.
  - unfold write_step in Es. rewrite Hrx, Eb in Es. cbn in Es. destruct (tx_open w); [done|]. injection Es as <-.
    exists out, rest. by repeat split.
  - specialize (Hr eq_refl). subst rest. destruct (step_frames out m b w Hw Eb Hrx) as (w1 & E1 & _ & Hc).
    rewrite E1 in Es. injection Es as <-. destruct Hc as [(Hr1 & Hb1 & Hw1)|(_ & Hb1 & Hr1 & Hw1)].
    + exists (out ++ [m]), b. rewrite <- app_assoc. cbn in Hl. rewrite Hb1. repeat split; [done|lia].
    + exists out, (m :: b). rewrite Hw1, Hr1, Hb1. repeat split; [done|done|cbn; lia].
Qed.

Lemma in_step_accept sent w m :
  in_step sent w -> rx_open w = true -> (length (buffer w) < OUTBOUND_CHANNEL_CAPACITY)%nat ->
  in_step (sent ++ [m]) (mkWriter (buffer w ++ [m]) (tx_open w) true (wire w) (tried w)).
Proof.
  intros (out & rest & -> & Hw & Hb & _) Hr Hl. rewrite (Hb Hr). exists out, (buffer w ++ [m]). cbn.
  rewrite app_assoc. repeat split; [done|]. rewrite length_app. cbn. lia.
Qed.

Lemma writer_in_step sent w : writer_run sent w -> in_step sent w.
Proof.
  induction 1 as [|sent w m Hrun I Hr Hl|sent w w' Hrun I E].
  - exists [], []. repeat split. cbn. lia.
  - by apply in_step_accept.
  - by eapply in_step_write.
Qed.

(** Draining writes the whole buffer when the socket works. *)
Lemma drain_all n w out :
  (forall t, sink_ok t = true) -> rx_open w = true -> wire w = frames out -> (length (buffer w) <= n)%nat ->
  wire (write_loop n w) = frames (out ++ buffer w).
Proof.
  intros Hs. revert w out. induction n as [|n IH]; intros w out Hr Hw Hl.
  - destruct (buffer w) eqn:Eb; [|cbn in Hl; lia]. cbn. by rewrite app_nil_r.
  - destruct (buffer w) as [|m b] eqn:Eb.
    + rewrite app_nil_r. cbn [write_loop]. unfold write_step. rewrite Hr, Eb. cbn.
      destruct (tx_open w); [done|]. destruct n; cbn; done.
    + destruct (step_frames out m b w Hw Eb Hr) as (w1 & E1 & _ & [(Hr1 & Hb1 & Hw1)|[(j & _ & Hf) _]]); [|by rewrite Hs in Hf].
      cbn [write_loop]. rewrite E1. rewrite (IH w1 (out ++ [m])); [|done|done|cbn in Hl; rewrite Hb1; lia].
      by rewrite Hb1, <- app_assoc.
Qed.

Lemma closed_writes_nothing n w : rx_open w = false -> wire (write_loop n w) = wire w.
Proof. intros Hr. destruct n; cbn; [done|]. unfold write_step. by rewrite Hr. Qed.

(** The loop writes the frames of a first part of the buffer. *)
Lemma loop_frames n w out :
  rx_open w = true -> wire w = frames out ->
  exists k, wire (write_loop n w) = frames out ++ frames (take k (buffer w)).
Proof.
  revert w out. induction n as [|n IH]; intros w out Hr Hw.
  - exists 0%nat. cbn. by rewrite app_nil_r.
  - destruct (buffer w) as [|m b] eqn:Eb.
    + exists 0%nat. cbn [write_loop]. unfold write_step. rewrite Hr, Eb. cbn. rewrite app_nil_r.
      destruct (tx_open w); [done|]. by rewrite closed_writes_nothing.
    + destruct (step_frames out m b w Hw Eb Hr) as (w1 & E1 & _ & [(Hr1 & Hb1 & Hw1)|(_ & _ & Hr1 & Hw1)]);
        cbn [write_loop]; rewrite E1.
      * destruct (IH w1 (out ++ [m]) Hr1 Hw1) as [k Hk]. exists (S k). rewrite Hk, Hb1. unfold frames in *.
        rewrite omap_app, <- app_assoc. by rewrite <- omap_app.
      * exists 0%nat. rewrite closed_writes_nothing, Hw1, Hw by done. cbn. by rewrite app_nil_r.
Qed.

(** C28: What the handlers send is written in order, and a replaced connection is
    told so.  Of the messages that the channel of a connection has accepted, the
    wire has the frames of the first ones, in order, none twice and none in between
    left out (a message without a JSON form aside), and while the writer runs
    all the others still wait; they are at most eight, the capacity that the code
    gives to [tokio]'s bounded channel.  Ending the writer adds to the wire at
    most frames of the messages that wait, in order; and when the
    connection was replaced, the socket still works and the second is long
    enough for the waiting messages, all of them, the notice of the replacement
    included, are written. *)
Theorem writer_in_order sent w was_replaced within :
  writer_run sent w ->
  let w' := finish_writer was_replaced within w in
  exists out rest, sent = out ++ rest /\ wire w = frames out
    /\ (rx_open w = true -> rest = buffer w /\ (length rest <= OUTBOUND_CHANNEL_CAPACITY)%nat)
    /\ rx_open w' = false
    /\ (exists n, wire w' = wire w ++ frames (take n rest))
    /\ (was_replaced = true -> (forall t, sink_ok t = true) -> rx_open w = true -> (length rest <= within)%nat ->
        wire w' = frames sent).
Proof.
  intros Hrun w'. destruct (writer_in_step sent w Hrun) as (out & rest & -> & Hw & Hb & Hl).
  exists out, rest. split; [done|]. split; [done|].
  split; [intros Hr; rewrite (Hb Hr); done|]. split; [unfold w', finish_writer; by destruct was_replaced|]. split.
  - unfold w', finish_writer. destruct was_replaced; cbn [negb stop wire]; [|exists 0%nat; cbn; by rewrite app_nil_r].
    destruct (rx_open w) eqn:Hr; [|exists 0%nat; rewrite closed_writes_nothing by done; cbn; by rewrite app_nil_r].
    destruct (loop_frames within (mkWriter (buffer w) false true (wire w) (tried w)) out eq_refl Hw) as [k Hk].
    exists k. rewrite (Hb eq_refl), Hk. cbn [buffer]. by rewrite Hw.
  - intros -> Hs Hr Hn. unfold w', finish_writer. cbn [negb stop wire]. rewrite (Hb Hr) in *.
    by rewrite (drain_all within _ out).
Qed.
End Writer.

(** ** A concrete connection *)

Module WriterDemo.
Definition json (m : ServerMessage) : option string :=
  match m with ErrorMsg _ text => Some text | AuthSuccess => Some "welcome" | _ => None end.
Definition replaced : ServerMessage := ErrorMsg 409 "session replaced by new connection".
(** Accepted, written, and the notice accepted. *)
Definition greeted : Writer := mkWriter [] true true ["welcome"] 1.
Definition noticed : Writer := mkWriter [replaced] true true ["welcome"] 1.

Lemma noticed_run : writer_run json (fun _ => true) [AuthSuccess; replaced] noticed.
Proof.
  apply (wr_accept json (fun _ => true) [AuthSuccess] greeted replaced); [|reflexivity|repeat constructor].
  apply (wr_write json (fun _ => true) [AuthSuccess] (mkWriter [AuthSuccess] true true [] 0)); [|reflexivity].
  apply (wr_accept json (fun _ => true) [] Writer_new AuthSuccess); [apply wr_start|reflexivity|repeat constructor].
Defined.

Lemma writer_in_order_witness :
  wire (finish_writer json (fun _ => true) true 3 noticed) = ["welcome"; "session replaced by new connection"].
Proof.
  destruct (writer_in_order json (fun _ => true) _ noticed true 3 noticed_run) as (out & rest & _ & _ & Hb & _ & _ & Hd).
  rewrite Hd; [reflexivity|reflexivity|reflexivity|reflexivity|].
  destruct (Hb eq_refl) as [-> _]. repeat constructor.
Defined.
End WriterDemo.
