(* ===== verification/Schema.v ===== *)
(** * Schema and migrations ([crates/server/src/db/schema.rs])

    [initialize] on a database of any earlier version.  A table an older
    schema does not have is empty in the model, and creating it does nothing;
    the migrations that move data (the pre-key inventory, creation times, the
    raised high-water mark, the acceptance ledger) are written out.  Each
    migration is a transaction of its own that also records the version. *)
From stdpp Require Import base numbers list sorting strings gmap.
From S2P Require Import Prelude Consts Types SqlDb DbUsers DbPrekeys DbQueue DbTrace DbLimits ServerWorld.
Local Open Scope Z_scope.
Local Open Scope cmp_scope.

Definition CURRENT_VERSION : Z := 8.

Record Store := mkStore { user_version : Z; tables : Db }.

Inductive InitError :=
| InitDb (e : DbError)
| QueuedOldProtocol (version : Z).

Abbreviation initm A := (rm Store InitError A).

(** A migration: the statements, then [user_version], all or nothing. *)
Definition migration (target : Z) (body : Db -> result DbError Db) : initm unit := fun s =>
  match body (tables s) with
  | Ok d => (Ok tt, mkStore target d)
  | Err e => (Err (InitDb e), s)
  end.

(** Migrations that only create tables and indices. *)
Definition create_tables (d : Db) : result DbError Db := Ok d.

(** [INSERT OR IGNORE .. SELECT users.user_id, COALESCE(MAX(prekeys.key_id), -1) ..] *)
Definition migrate_v4 (d : Db) : result DbError Db :=
  Ok (set_inventory
        (prekey_inventory d
         ∪ map_imap (fun u _ => Some (default (-1) (max_of (ids_of u (prekeys d))))) (users d)) d).

(** The new column is filled with the time of the migration. *)
Definition migrate_v5 (unixepoch : Z) (d : Db) : result DbError Db :=
  Ok (set_prekeys ((fun r => mkPreKeyRow (p_public_key r) unixepoch) <$> prekeys d) d).

Definition migrate_v6 (d : Db) : result DbError Db :=
  Ok (set_inventory (Z.max LEGACY_HIGH_WATER <$> prekey_inventory d) d).

Section Schema.
Context `{Codecs}.
(** [Sha256::digest], and SQLite's [unixepoch(text)] read as [u64]. *)
Context (sha256 : bytes -> bytes) (unixepoch_of : string -> result DbError Z).

(** The loop of [migrate_v8] over the queued rows. *)
Fixpoint backfill (rows : list QueueRow) (t : gmap string AcceptanceRow) (queued_count : Z)
  : result DbError (gmap string AcceptanceRow * Z) :=
  match rows with
  | [] => Ok (t, queued_count)
  | r :: rows' =>
      let? accepted_at := unixepoch_of (q_created_at r) in
      match t !! q_message_id r with
      | Some _ => Err UniqueViolation
      | None =>
          let? n := ok_or IntegralValueOutOfRange (checked_add i64_max queued_count 1) in
          backfill rows'
            (<[q_message_id r := mkAcceptanceRow (q_recipient_id r) (q_sender_id r)
                 (sha256 (str_bytes (q_envelope r))) accepted_at]> t) n
      end
  end.

Definition migrate_v8 (d : Db) : result DbError Db :=
  let? x := backfill (message_queue d) ∅ 0 in
  Ok (set_item_count x.2 (set_acceptances x.1 d)).

(** The first queued envelope, of a message or a receipt, in another version. *)
Fixpoint first_other_version (encoded : list string) : option Z :=
  match encoded with
  | [] => None
  | s :: l =>
      match envelope_of_json s with
      | Some e => if version e =? PROTOCOL_VERSION then first_other_version l else Some (version e)
      | None => first_other_version l
      end
  end.

Definition ensure_queued_protocol_versions : initm unit := fun s =>
  match first_other_version ((q_envelope <$> message_queue (tables s))
                             ++ (r_envelope <$> read_receipt_queue (tables s))) with
  | Some v => (Err (QueuedOldProtocol v), s)
  | None => (Ok tt, s)
  end.

Definition when (b : bool) (m : initm unit) : initm unit := if b then m else rm_ret tt.

Definition initialize (unixepoch : Z) : initm unit :=
  do! s <- rm_get;
  let version := user_version s in
  run! when (version <? 1) (migration 1 create_tables);
  run! when (version <? 2) (migration 2 create_tables);
  run! when (version <? 3) (migration 3 create_tables);
  run! when (version <? 4) (migration 4 migrate_v4);
  run! when (version <? 5) (migration 5 (migrate_v5 unixepoch));
  run! when (version <? 6) (migration 6 migrate_v6);
  run! when (version <? 7) (migration 7 create_tables);
  run! when (version <? 8) (migration CURRENT_VERSION migrate_v8);
  ensure_queued_protocol_versions.

(** ** Facts *)

Lemma backfill_ok rows t n :
  (forall r, r ∈ rows -> exists z, unixepoch_of (q_created_at r) = Ok z) ->
  NoDup (q_message_id <$> rows) ->
  (forall r, r ∈ rows -> t !! q_message_id r = None) ->
  n + Z.of_nat (length rows) <= i64_max ->
  exists t', backfill rows t n = Ok (t', n + Z.of_nat (length rows))
    /\ size t' = (size t + length rows)%nat
    /\ (forall i a, t !! i = Some a -> t' !! i = Some a)
    /\ (forall r, r ∈ rows -> exists a, t' !! q_message_id r = Some a
          /\ a_recipient_id a = q_recipient_id r /\ a_sender_id a = q_sender_id r
          /\ a_envelope_digest a = sha256 (str_bytes (q_envelope r))).
Proof.
  revert t n. induction rows as [|r rows IH]; intros t n Hu Hnd Hfresh Hn; simpl.
  - exists t. rewrite Nat.add_0_r. split; [do 2 f_equal; lia|]. split; [done|]. split; [done|].
    intros r Hr. by apply elem_of_nil in Hr.
  - destruct (Hu r) as [z ->]; [by left|]. rewrite (Hfresh r) by (by left).
    rewrite checked_add_fits by (simpl in Hn; lia). simpl.
    rewrite fmap_cons in Hnd. apply NoDup_cons in Hnd as [Hni Hnd].
    set (a := mkAcceptanceRow _ _ _ _).
    destruct (IH (<[q_message_id r := a]> t) (n + 1)) as (t' & E & Hs & Hk & Hrows).
    + intros r' Hr'. apply Hu. by right.
    + done.
    + intros r' Hr'. rewrite lookup_insert_ne; [apply Hfresh; by right|].
      intros Heq. apply Hni. rewrite Heq. by apply list_elem_of_fmap_2.
    + simpl in Hn. lia.
    + exists t'. rewrite E. split; [do 2 f_equal; lia|]. split.
      { rewrite Hs, map_size_insert_None by (apply Hfresh; by left). lia. }
      split.
      * intros i b Hi. apply Hk. rewrite lookup_insert_ne; [done|].
        intros <-. rewrite (Hfresh r) in Hi by (by left). done.
      * intros r' [->|Hr']%elem_of_cons; [|by apply Hrows].
        exists a. split; [apply Hk, lookup_insert_eq|done].
Qed.

(** A database the migrations can be run on: no newer than the code, with
    distinct message ids and readable times. *)
Record migratable (s : Store) : Prop := {
  mg_version : user_version s <= CURRENT_VERSION;
  mg_ids : NoDup (q_message_id <$> message_queue (tables s));
  mg_length : Z.of_nat (length (message_queue (tables s))) <= i64_max;
  mg_times : forall r, r ∈ message_queue (tables s) ->
    exists z, unixepoch_of (q_created_at r) = Ok z;
}.

(** A queued message or receipt is of the protocol version [v], another one
    than the current one.  What does not parse as an envelope has none. *)
Definition stale_queued (d : Db) (v : Z) : Prop :=
  exists encoded e, (encoded ∈ q_envelope <$> message_queue d \/ encoded ∈ r_envelope <$> read_receipt_queue d)
    /\ envelope_of_json encoded = Some e /\ version e = v /\ v <> PROTOCOL_VERSION.

Lemma first_other_version_spec l :
  match first_other_version l with
  | Some v => exists s e, s ∈ l /\ envelope_of_json s = Some e /\ version e = v /\ v <> PROTOCOL_VERSION
  | None => forall s e, s ∈ l -> envelope_of_json s = Some e -> version e = PROTOCOL_VERSION
  end.
Proof.
  induction l as [|s l IH]; cbn; [by intros s e ?%elem_of_nil|].
  destruct (envelope_of_json s) as [e|] eqn:Ee; [destruct (Z.eqb_spec (version e) PROTOCOL_VERSION) as [Ev|Ev]|].
  2: { exists s, e. split; [left|done]. }
  all: destruct (first_other_version l) as [v|];
    [destruct IH as (s' & e' & ? & ?); exists s', e'; by split; [right|]
    |intros s' e' [->|?]%elem_of_cons ?; simplify_eq; eauto].
Qed.

(** The final check refuses exactly queued data of another protocol version. *)
Lemma ensure_versions_spec s :
  exists r, ensure_queued_protocol_versions s = (r, s)
    /\ match r with
       | Ok _ => forall v, ~ stale_queued (tables s) v
       | Err e => exists v, e = QueuedOldProtocol v /\ stale_queued (tables s) v
       end.
Proof.
  unfold ensure_queued_protocol_versions, stale_queued.
  pose proof (first_other_version_spec ((q_envelope <$> message_queue (tables s))
    ++ (r_envelope <$> read_receipt_queue (tables s)))) as F.
  destruct (first_other_version _) as [v|]; eexists; (split; [reflexivity|]); cbn.
  - destruct F as (x & e & Hx%elem_of_app & ?). exists v. split; [done|]. by exists x, e.
  - intros v (x & e & Hx & Ee & <- & Hv). apply Hv, (F x); [by apply elem_of_app|done].
Qed.

(** A migration body that runs and leaves both queues alone. *)
Definition keeps_queues (body : Db -> result DbError Db) : Prop :=
  forall d, exists d', body d = Ok d' /\ message_queue d' = message_queue d
    /\ read_receipt_queue d' = read_receipt_queue d.

Lemma when_migration b target body v d (k : unit -> initm unit) :
  keeps_queues body ->
  exists v' d', rm_bind (when b (migration target body)) k (mkStore v d) = k tt (mkStore v' d')
    /\ message_queue d' = message_queue d /\ read_receipt_queue d' = read_receipt_queue d.
Proof.
  intros Hb. destruct (Hb d) as (d' & E & H1 & H2). unfold rm_bind, migration.
  destruct b; simpl; [rewrite E|]; eauto.
Qed.

(** The tables the migrations to version 7 leave alone. *)
Lemma migrations_frame unixepoch s :
  user_version s < CURRENT_VERSION ->
  exists v d, message_queue d = message_queue (tables s)
    /\ read_receipt_queue d = read_receipt_queue (tables s)
    /\ initialize unixepoch s
       = rm_bind (migration CURRENT_VERSION migrate_v8) (fun _ => ensure_queued_protocol_versions)
           (mkStore v d).
Proof.
  intros Hv. destruct s as [v0 d0]. unfold initialize, CURRENT_VERSION in *. cbn [user_version tables] in *.
  assert (keeps_queues create_tables) as K0 by (intros d; eexists; split; [done|done]).
  assert (keeps_queues migrate_v4) as K4 by (intros d; eexists; split; [done|done]).
  assert (keeps_queues (migrate_v5 unixepoch)) as K5 by (intros d; eexists; split; [done|done]).
  assert (keeps_queues migrate_v6) as K6 by (intros d; eexists; split; [done|done]).
  unfold rm_bind at 1, rm_get at 1. cbn [user_version].
  do 7 match goal with
  | |- context [rm_bind (when ?b (migration ?t ?body)) ?k (mkStore ?v ?d)] =>
      destruct (when_migration b t body v d k ltac:(assumption)) as (? & ? & -> & ? & ?)
  end.
  rewrite (proj2 (Z.ltb_lt v0 8)) by lia. do 2 eexists.
  split; [|split; [|reflexivity]]; congruence.
Qed.

(** The acceptance ledger as the rest of the server expects it: the counter
    is exact and every queued message has its acceptance. *)
Definition ledger_complete (d : Db) : Prop :=
  item_count d = Z.of_nat (size (message_acceptances d))
  /\ forall r, r ∈ message_queue d -> exists a, message_acceptances d !! q_message_id r = Some a
       /\ a_recipient_id a = q_recipient_id r /\ a_sender_id a = q_sender_id r
       /\ a_envelope_digest a = sha256 (str_bytes (q_envelope r)).

(** Up to the final check, initialisation brings the store to the current
    version with its queues as they were. *)
Lemma initialize_runs unixepoch s :
  migratable s ->
  exists d, initialize unixepoch s
      = ensure_queued_protocol_versions (mkStore CURRENT_VERSION d)
    /\ message_queue d = message_queue (tables s)
    /\ read_receipt_queue d = read_receipt_queue (tables s)
    /\ (user_version s < CURRENT_VERSION ->
          size (message_acceptances d) = length (message_queue d) /\ ledger_complete d)
    /\ (user_version s = CURRENT_VERSION -> d = tables s).
Proof.
  intros [Hv Hids Hlen Hu]. destruct (Z.eq_dec (user_version s) CURRENT_VERSION) as [Ev|Hne].
  { exists (tables s). repeat split; try lia.
    unfold initialize. rm_unfold. rewrite Ev. unfold when. simpl. rm_unfold.
    destruct s. simpl in *. by subst. }
  destruct (migrations_frame unixepoch s) as (v & d & Q & R & ->); [lia|].
  rewrite <- Q in Hids, Hlen, Hu.
  destruct (backfill_ok (message_queue d) ∅ 0 Hu Hids) as (t & E & Hsz & _ & Hrows);
    [intros; apply lookup_empty|lia|].
  rewrite map_size_empty in Hsz. simpl in Hsz.
  exists (set_item_count (Z.of_nat (length (message_queue d))) (set_acceptances t d)).
  split; [|split; [done|split; [done|split; [|done]]]].
  - unfold rm_bind, migration, migrate_v8. simpl. by rewrite E.
  - intros _. split; [done|]. split; [|done]. simpl. by rewrite Hsz.
Qed.

(** C34: Starting the server on a database of any version up to the current one,
    with distinct message ids and readable times.  The store is then at the
    current version and no queued message or receipt was lost; a database that
    was older has an exact acceptance ledger, with one acceptance, of the right
    sender, recipient and digest, per queued message, and a current one is not
    changed.  The start succeeds if no queued envelope of either queue is of
    another protocol version, and otherwise is refused with an error that
    names such a version. *)
Theorem initialize_migrates unixepoch s :
  migratable s ->
  exists r d, initialize unixepoch s = (r, mkStore CURRENT_VERSION d)
    /\ message_queue d = message_queue (tables s)
    /\ read_receipt_queue d = read_receipt_queue (tables s)
    /\ (user_version s < CURRENT_VERSION ->
          size (message_acceptances d) = length (message_queue d) /\ ledger_complete d)
    /\ (user_version s = CURRENT_VERSION -> d = tables s)
    /\ match r with
       | Ok _ => forall v, ~ stale_queued (tables s) v
       | Err e => exists v, e = QueuedOldProtocol v /\ stale_queued (tables s) v
       end.
Proof.
  intros Hm. destruct (initialize_runs unixepoch s Hm) as (d & E & Q & R & L & Hs).
  destruct (ensure_versions_spec (mkStore CURRENT_VERSION d)) as (r & Er & Hr).
  exists r, d. rewrite E, Er. unfold stale_queued in *. cbn in Hr. by rewrite Q, R in Hr.
Qed.
End Schema.

Module Demo.
#[local] Existing Instance ToyServer.codecs.

Definition sha (b : bytes) : bytes := b.
Definition epoch (s : string) : result DbError Z := Ok 1700000000.
Definition env_of (v : Z) : EncryptedEnvelope :=
  mkEnvelope v (HRatchet (mkRatchetHeader "k" 0 0)) "ct".
Definition json_of (v : Z) : string := default "" (json_of_envelope (env_of v)).
Definition row (i : Z) (id : string) (v : Z) : QueueRow :=
  mkQueueRow i id "bob" "alice" (json_of v) "2024-01-15 10:30:45".
Definition old_tables : Db :=
  mkDb {["bob" := []]} ∅ {[("bob", 3) := mkPreKeyRow [] 0]} ∅ ∅ []
    [row 1 "m1" PROTOCOL_VERSION; row 2 "m2" PROTOCOL_VERSION] ∅ 0 [].
Definition old_version : Store := mkStore 3 old_tables.
Definition blocked : Store :=
  mkStore 7 (set_queue [row 1 "m1" (PROTOCOL_VERSION - 1)] old_tables).

Lemma migratable_ok : migratable epoch old_version /\ migratable epoch blocked.
Proof.
  split; split; try (by vm_compute); try (intros r _; by exists 1700000000).
  - vm_compute. apply NoDup_cons. split; [|apply NoDup_singleton].
    intros H%list_elem_of_singleton. done.
  - apply NoDup_singleton.
Qed.

(** A version 3 database with two queued messages is migrated, a version 7
    one with a message of the previous protocol is refused. *)
Lemma initialize_migrates_witness :
  (exists r d, initialize sha epoch 1700000000 old_version = (r, mkStore CURRENT_VERSION d)
    /\ message_queue d = message_queue old_tables /\ ledger_complete sha d)
  /\ (exists r d, initialize sha epoch 1700000000 blocked = (r, mkStore CURRENT_VERSION d)
    /\ r = Err (QueuedOldProtocol (PROTOCOL_VERSION - 1))
    /\ message_queue d = message_queue (tables blocked)).
Proof.
  split.
  - destruct (initialize_migrates sha epoch 1700000000 old_version (proj1 migratable_ok))
      as (r & d & E & Q & _ & L & _).
    exists r, d. split; [exact E|]. split; [exact Q|]. apply L. vm_compute. reflexivity.
  - destruct (initialize_migrates sha epoch 1700000000 blocked (proj2 migratable_ok))
      as (r & d & E & Q & _).
    exists r, d. split; [exact E|]. split; [|exact Q].
    apply (f_equal fst) in E. cbn [fst] in E. rewrite <- E. vm_compute. reflexivity.
Defined.
End Demo.
