(* ===== verification/RelayLife.v ===== *)
(** * The life of the relay process ([crates/server/src/main.rs], [lib.rs])

    The start of the relay, its run as connections that take turns with the
    collection of old messages, and its end at any moment, over any number of
    starts on the same files.  [relay_sound] shows that what the
    database theorems assume of single operations holds of the process: every
    frame of every connection, the deliveries on login included, is a sequence
    of the operations of [DbTrace], so the limits hold at every moment, and a
    relay that was stopped at any moment can be started again. *)
From stdpp Require Import base numbers list strings gmap.
From S2P Require Import Prelude Consts Types Primitives SqlDb DbUsers DbPrekeys DbQueue DbReceipts DbTrace DbLimits ReceiptLife Datetime ServerWorld ServerProcess Handlers HandlerFacts Delivery Ws Schema.
Local Open Scope Z_scope.
Local Open Scope cmp_scope.

(** ** What is queued is of the current protocol version *)

Section Versions.
Context `{CryptoPrims, Codecs, !CodecLaws, SqlPickLaws}.
Context (sha256 : bytes -> bytes).

Definition of_version (s : string) : Prop := forall e, envelope_of_json s = Some e -> version e = PROTOCOL_VERSION.

Record versions (d : Db) : Prop := {
  ver_queue : forall r, r ∈ message_queue d -> of_version (q_envelope r);
  ver_receipts : forall r, r ∈ read_receipt_queue d -> of_version (r_envelope r);
}.

(** The operations of the relay: within its limits, and with validated envelopes. *)
Definition relay_op (o : op) : Prop :=
  handler_op o /\
  match o with
  | OpEnqueue _ rq => validated (er_envelope_json rq)
  | OpReceipt _ _ _ _ e => validated e
  | _ => True
  end.

Lemma validated_version s : validated s -> of_version s.
Proof.
  intros (e & Hv & Hj) e' He'. rewrite (envelope_roundtrip _ _ Hj) in He'. injection He' as <-.
  unfold validate_envelope in Hv. by destruct (Z.eqb_spec (version e) PROTOCOL_VERSION).
Qed.

(** A queued message was queued before or is the one enqueued. *)
Lemma exec_queue_row o d r :
  r ∈ message_queue (DbTrace.exec sha256 o d).2 ->
  r ∈ message_queue d \/ exists dt rq, o = OpEnqueue dt rq /\ q_envelope r = er_envelope_json rq.
Proof.
  destruct o; cbn [DbTrace.exec fst snd]; try frame; auto.
  - rewrite (proj1 (register_frame _ _ _)). auto.
  - rewrite (proj1 (upload_frame _ _ _ _ _)). auto.
  - pose proof (proj1 (fetch_frame requester_id target_id now fetch_limits d)) as E.
    destruct (fetch_for_requester _ _ _ _ d). cbn in *. rewrite E. auto.
  - destruct (enqueue_cases sha256 datetime_now request d)
      as [(r' & E & _)|(_ & _ & _ & _ & _ & _ & _ & E)]; cbv zeta in E; rewrite E; [auto|].
    cbn. intros [Hr|Hr]%elem_of_app; [auto|]. case_bool_decide; [by apply elem_of_nil in Hr|].
    apply list_elem_of_singleton in Hr as ->. right. by eexists _, _.
  - destruct (confirm_frame sender_id message_ids d) as (n & t & E & _). rewrite E. auto.
  - cbn. rewrite delete_message_fold. intros [_ ?]%list_elem_of_filter. auto.
  - intros [_ ?]%list_elem_of_filter. auto.
  - intros [_ ?]%list_elem_of_filter. auto.
Qed.

(** And a queued receipt. *)
Lemma exec_receipt_row o d r :
  r ∈ read_receipt_queue (DbTrace.exec sha256 o d).2 ->
  (exists r', r' ∈ read_receipt_queue d /\ r_envelope r = r_envelope r')
  \/ exists dt i u s, o = OpReceipt dt i u s (r_envelope r).
Proof.
  destruct (receipt_op o) eqn:Ho; [|rewrite exec_receipts_frame by done; eauto].
  destruct o; try discriminate Ho; cbn [DbTrace.exec fst snd].
  - destruct (enqueue_receipt_cases datetime_now receipt_id recipient_id sender_id envelope
      MAX_QUEUE_PER_USER d) as [->|(_ & n & -> & _)]; [eauto|]. cbn.
    intros [Hr|Hr]%elem_of_app; [eauto|]. apply list_elem_of_singleton in Hr as ->. right. by eexists _, _, _, _.
  - destruct (acknowledge_scoped recipient_id receipt_ids d) as [a ->]. cbn.
    intros (r' & -> & Hr)%list_elem_of_fmap. left. exists r'. split; [done|].
    unfold acked_by. by case_bool_decide.
  - cbn. rewrite confirm_fold. intros [_ ?]%list_elem_of_filter. eauto.
  - cbn. intros [_ ?]%list_elem_of_filter. eauto.
Qed.

Lemma exec_versions o d : relay_op o -> versions d -> versions (DbTrace.exec sha256 o d).2.
Proof.
  intros [_ Ho] [Hq Hr]. split; intros r Hin.
  - apply exec_queue_row in Hin as [?|(dt & rq & -> & ->)]; [auto|by apply validated_version].
  - apply exec_receipt_row in Hin as [(r' & Hr' & ->)|(dt & i & u & s & ->)]; [auto|by apply validated_version].
Qed.

(** The check at the start finds nothing. *)
Lemma versions_stale d v : versions d -> ~ stale_queued d v.
Proof.
  intros [Hq Hr] (x & e & [(r & -> & Hin)%list_elem_of_fmap|(r & -> & Hin)%list_elem_of_fmap] & Ee & <- & Hv);
    [by apply Hv, (Hq r)|by apply Hv, (Hr r)].
Qed.

(** ** The queue of receipts is bounded *)

(** Per user at most 10,000 receipts that wait for it and as many of its own,
    with distinct ids. *)
Definition receipt_limits (d : Db) : Prop :=
  ids_unique (read_receipt_queue d)
  /\ forall u, receipt_depth u (read_receipt_queue d) <= MAX_QUEUE_PER_USER
       /\ receipts_sent u (read_receipt_queue d) <= MAX_QUEUE_PER_USER.

Lemma count_filter_le {A} (P Q : A -> Prop) `{!forall x, Decision (P x), !forall x, Decision (Q x)} (l : list A) :
  (length (base.filter P (base.filter Q l)) <= length (base.filter P l))%nat.
Proof. induction l as [|x l IH]; [done|]. rewrite !filter_cons. repeat (case_decide; rewrite ?filter_cons); cbn; lia. Qed.

Lemma acked_counts v ids u (q : list ReceiptRow) :
  (length (base.filter (fun r => r_recipient_id r = u /\ r_acknowledged r = false) (acked_by v ids <$> q))
     <= length (base.filter (fun r => r_recipient_id r = u /\ r_acknowledged r = false) q))%nat
  /\ length (base.filter (fun r => r_sender_id r = u) (acked_by v ids <$> q))
     = length (base.filter (fun r => r_sender_id r = u) q).
Proof.
  induction q as [|r q [IH1 IH2]]; [done|]. rewrite fmap_cons, !filter_cons.
  assert (r_recipient_id (acked_by v ids r) = r_recipient_id r /\ r_sender_id (acked_by v ids r) = r_sender_id r
    /\ (r_acknowledged (acked_by v ids r) = false -> r_acknowledged r = false)) as (Er & Es & Ea)
    by (unfold acked_by; case_bool_decide; done).
  split; [|rewrite Es; case_decide; cbn; lia]. rewrite Er. repeat case_decide; cbn; try lia. tauto.
Qed.

Lemma exec_receipt_limits o d : receipt_limits d -> receipt_limits (DbTrace.exec sha256 o d).2.
Proof.
  intros [Hu L]. split; [by apply exec_ids_unique|]. intros u. specialize (L u) as [L1 L2].
  destruct (receipt_op o) eqn:Ho; [|by rewrite exec_receipts_frame].
  unfold receipt_depth, receipts_sent in *.
  destruct o; try discriminate Ho; cbn [DbTrace.exec fst snd].
  - destruct (enqueue_receipt_cases datetime_now receipt_id recipient_id sender_id envelope
      MAX_QUEUE_PER_USER d) as [->|(F & n & -> & B1 & B2)]; [done|]. unfold receipt_depth, receipts_sent in *.
    change (i64_of_usize MAX_QUEUE_PER_USER) with MAX_QUEUE_PER_USER in *.
    cbn [read_receipt_queue set_receipts]. rewrite !filter_app, !length_app, !filter_cons, !filter_nil. cbn.
    split; case_decide as Hd; cbn; try lia.
    + destruct Hd as [<- _]. lia.
    + subst u. lia.
  - destruct (acknowledge_scoped recipient_id receipt_ids d) as [a ->]. cbn [snd read_receipt_queue set_receipts].
    destruct (acked_counts recipient_id receipt_ids u (read_receipt_queue d)). lia.
  - cbn. rewrite confirm_fold. split; (etrans; [apply inj_le, count_filter_le|done]).
  - cbn. split; (etrans; [apply inj_le, count_filter_le|done]).
Qed.
End Versions.

(** ** Every frame is a sequence of operations *)

Section Frames.
Context `{CryptoPrims, Codecs, SqlPick, Env}.
Context (sha256 : bytes -> bytes) (server_id : string).

Abbreviation steps := (db_steps sha256 relay_op).

Lemma user_relay_op u msg o : op_of_request u msg o -> relay_op o.
Proof. destruct o; cbn; unfold relay_op, op_of_user; naive_solver. Qed.

Lemma relay_user u msg : steps (handle_user_message sha256 u msg).
Proof. eapply steps_weaken; [|apply steps_user]. apply user_relay_op. Qed.

Lemma relay_register c s uid b l : steps (handle_register c s uid b l).
Proof.
  unfold handle_register. destruct (authed_user s); [apply steps_ret|]. cbv zeta.
  destruct (Z.ltb_spec MAX_PREKEYS_PER_UPLOAD (Z.of_nat (length l))); [apply steps_ret|].
  destruct (check_bundle b) as [[[ik spk] sg]|]; [|apply steps_ret].
  destruct (decode_prekeys l) as [pairs|] eqn:E; [|apply steps_ret].
  assert (length pairs = length l) as Hl.
  { unfold decode_prekeys in E. destruct (Nat.eqb_spec (length (decode_prekeys_from ∅ l)) (length l)); [|done].
    by injection E as <-. }
  walk. eapply (steps_write _ _ _ (fun t => OpRegister (env_unixepoch t) (mkRegistration (as_str uid) ik (signed_prekey_id b) spk sg pairs))); [|done].
  intros t. split; [|done]. cbn. lia.
Qed.

Lemma relay_challenge s uid : steps (handle_auth_challenge server_id s uid).
Proof. unfold handle_auth_challenge. walk. by apply steps_read. Qed.

Lemma relay_response c s sig : steps (handle_auth_response server_id c s sig).
Proof. unfold handle_auth_response. walk. by apply steps_read. Qed.
Hint Resolve relay_user relay_register relay_challenge relay_response : steps.

Lemma relay_message c s msg : steps (handle_message sha256 server_id c s msg).
Proof. unfold handle_message. destruct msg; walk. Qed.

(** *** The deliveries on login *)

Lemma relay_send c m : steps (send c m).
Proof. apply steps_pure. intros w. unfold send, h_bind, tick. cbn. by destruct (env_alive _). Qed.
Hint Resolve relay_send relay_message : steps.

Lemma relay_notify l : steps (notify_senders l).
Proof. induction l as [|[s ids] l IH]; cbn; walk. Qed.
Lemma relay_page c page : steps (send_queued_page c page).
Proof. unfold send_queued_page. walk. apply relay_notify. Qed.
Lemma relay_each c l : steps (send_each c l).
Proof. induction l as [|[m|] l IH]; cbn; walk. Qed.
Lemma relay_delete_row u i : steps (db_call (fun _ => delete_invalid_row u i)).
Proof. by eapply (steps_write _ _ _ (fun _ => OpDeleteRow u i)). Qed.
Lemma relay_delete_receipt u i : steps (db_call (fun _ => delete_invalid u i)).
Proof. by eapply (steps_write _ _ _ (fun _ => OpDeleteReceipt u i)). Qed.
Lemma relay_next u cur : steps (db_call (fun _ => get_next_pending u cur)).
Proof. by apply steps_read. Qed.
Hint Resolve relay_page relay_each relay_delete_row relay_delete_receipt relay_next : steps.

Lemma relay_loop n c u e cur page b : steps (deliver_loop n c u e cur page b).
Proof.
  revert cur page b. induction n as [|n IH]; intros cur page b; cbn [deliver_loop];
    unfold remove_invalid_queued_row; walk.
Qed.
Lemma relay_receipts_loop c u l : steps (deliver_receipts_loop c u l).
Proof. induction l as [|r l IH]; cbn; walk. Qed.
Hint Resolve relay_loop relay_receipts_loop : steps.

Lemma relay_after_auth c s u : steps (after_auth c s u).
Proof.
  unfold after_auth, deliver_queued_messages, deliver_queued_receipts, deliver_receipt_confirmations,
    deliver_message_confirmations, deliver_prekey_status. walk; by apply steps_read.
Qed.
Hint Resolve relay_after_auth : steps.

Lemma relay_connection c s ev : steps (connection_step sha256 server_id c s ev).
Proof.
  unfold connection_step. destruct ev as [| | | |[msg|]]; walk; by apply steps_pure.
Qed.

Lemma relay_end s w : w_db (connection_end s w).2 = w_db w.
Proof.
  unfold connection_end, Registry.remove_if_match. destruct (authed_user s); [|done]. destruct (s_conn_id s); [|done].
  destruct (w_online w !! _); [|done]. cbn. by destruct (_ =? _).
Qed.
End Frames.

(** ** The process *)

Definition DEFAULT_BIND : string := "0.0.0.0:3000".
Definition DEFAULT_DB_PATH : string := "cmp-server.db".
Definition DEFAULT_SERVER_ID : string := "cmp-server-1".

(** What one start of the program finds: its environment variables, whether a text
    is a socket address, whether the database at a path can be opened and an
    address bound, the clock of the migration, and how many ticks the
    collection gets done before the address is bound. *)
Record Machine := mkMachine {
  var : string -> option string;
  is_socket_addr : string -> bool;
  can_open : string -> bool;
  can_bind : string -> bool;
  migration_time : Z;
  ticks_before_bind : nat;
  first_tick : nat;
}.

Inductive MainError := BadAddress | CannotOpen | InitFails (e : InitError) | CannotBind.

(** A relay at work on the database at a path. *)
Record Relay := mkRelay { db_path : string; server_id : string; server : Server }.

(** [AppState::new]: nobody is connected. *)
Definition AppState_new (tick : nat) (d : Db) : World := mkWorld d ∅ 1 ∅ ∅ tick.

Section Process.
Context `{CryptoPrims, Codecs, SqlPick, Env, SqlNow}.
Context (sha256 : bytes -> bytes) (unixepoch_of : string -> result DbError Z).

(** [main] up to [axum::serve].  Opening a file that does not exist makes an
    empty database of version 0. *)
Definition main (m : Machine) (files : gmap string Store) : result MainError Relay * gmap string Store :=
  let bind_addr := default DEFAULT_BIND (var m "CMP_BIND") in
  if negb (is_socket_addr m bind_addr) then (Err BadAddress, files)
  else
    let path := default DEFAULT_DB_PATH (var m "CMP_DB_PATH") in
    let id := default DEFAULT_SERVER_ID (var m "CMP_SERVER_ID") in
    if negb (can_open m path) then (Err CannotOpen, files)
    else
      let '(r, s) := initialize sha256 unixepoch_of (migration_time m) (default (mkStore 0 empty_db) (files !! path)) in
      match r with
      | Err e => (Err (InitFails e), <[path := s]> files)
      | Ok _ =>
          let w := gc_task (ticks_before_bind m) (AppState_new (first_tick m) (tables s)) in
          let files := <[path := mkStore (user_version s) (w_db w)]> files in
          if negb (can_bind m bind_addr) then (Err CannotBind, files)
          else (Ok (mkRelay path id (mkServer w ∅)), files)
      end.

(** The files, and the relay that runs.  The file of a running relay is what its
    database holds: each call is a transaction. *)
Record Process := mkProcess { files : gmap string Store; running : option Relay }.

Definition launch (m : Machine) (p : Process) : Process :=
  match main m (files p) with
  | (Ok r, f) => mkProcess f (Some r)
  | (Err _, f) => mkProcess f None
  end.

(** Stopped, by a signal or in any other way. *)
Definition stopped (r : Relay) (p : Process) : Process :=
  mkProcess (<[db_path r := mkStore CURRENT_VERSION (w_db (world (server r)))]> (files p)) None.

Definition with_server (sv : Server) (r : Relay) : Relay := mkRelay (db_path r) (server_id r) sv.
Definition with_world (w : World) (sv : Server) : Server := mkServer w (sessions sv).

Inductive process_step (p : Process) : Process -> Prop :=
| ps_launch m : running p = None -> process_step p (launch m p)
| ps_server r sv : running p = Some r -> server_step sha256 (server_id r) (server r) sv ->
    process_step p (mkProcess (files p) (Some (with_server sv r)))
| ps_gc r : running p = Some r ->
    process_step p (mkProcess (files p)
      (Some (with_server (with_world (gc_tick (world (server r))).2 (server r)) r)))
| ps_stop r : running p = Some r -> process_step p (stopped r p).

(** All states from the installation on. *)
Definition process_reachable : Process -> Prop := rtc process_step (mkProcess ∅ None).
End Process.

Section Sound.
Context `{CryptoPrims, Codecs, !CodecLaws, SqlPickLaws, Env, SqlNow}.
Context (sha256 : bytes -> bytes) (unixepoch_of : string -> result DbError Z).

(** What other connections do while a handler waits are operations of the relay. *)
Definition others_relay : Prop :=
  forall t d, exists os, Forall relay_op os /\ env_others t d = (DbTrace.run sha256 os d).2.
Context (others : others_relay).

(** The database of a relay. *)
Definition db_sound (d : Db) : Prop := relay_inv d /\ receipt_limits d /\ versions d.

Lemma exec_sound o d : relay_op o -> db_sound d -> db_sound (DbTrace.exec sha256 o d).2.
Proof.
  intros Ho (I & L & V). split; [apply exec_relay_inv; [apply Ho|done]|].
  split; [by apply exec_receipt_limits|by apply exec_versions].
Qed.

Lemma others_sound t d : db_sound d -> db_sound (env_others t d).
Proof.
  destruct (others t d) as (os & Hos & ->). revert d. induction Hos as [|o os Ho _ IH]; intros d D; [done|].
  rewrite run_cons. cbn [snd]. by apply IH, exec_sound.
Qed.

Lemma steps_sound {A} (m : hm A) w : db_steps sha256 relay_op m -> db_sound (w_db w) -> db_sound (w_db (m w).2).
Proof. intros Hm. eapply db_steps_keep; [exact exec_sound|exact others_sound|apply Hm]. Qed.

Lemma server_step_sound id sv sv' :
  server_step sha256 id sv sv' -> db_sound (w_db (world sv)) -> db_sound (w_db (world sv')).
Proof.
  intros Hs D. destruct Hs as [c Hc Hcan|c s ev s' w' Hc E|c s ev s' w' w'' Hc E Ee]; [done|..];
    pose proof (steps_sound _ (world sv) (relay_connection sha256 id c s ev) D) as D'; rewrite E in D'; [done|].
  pose proof (relay_end s' w') as Hd. rewrite Ee in Hd. cbn in *. by rewrite Hd.
Qed.

Lemma gc_steps : db_steps sha256 relay_op gc_tick.
Proof.
  unfold gc_tick, gc_days_old. walk.
  by eapply (steps_write _ _ _ (fun t => OpGc (datetime_modified t (days_modifier GC_MAX_AGE_DAYS)))).
Qed.

Lemma gc_sound k w : db_sound (w_db w) -> db_sound (w_db (gc_task k w)).
Proof. revert w. induction k as [|k IH]; intros w D; [done|]. apply IH, steps_sound; [exact gc_steps|done]. Qed.

(** ** Starting *)

(** A file a relay has left. *)
Definition store_sound (s : Store) : Prop := user_version s = CURRENT_VERSION /\ db_sound (tables s).

Lemma initialize_current t s : store_sound s -> initialize sha256 unixepoch_of t s = (Ok tt, s).
Proof.
  intros (Ev & _ & _ & V). unfold initialize. rm_unfold. rewrite Ev. unfold when. cbn. rm_unfold.
  destruct (ensure_versions_spec s) as ([[]|e] & E & Hr); [done|].
  destruct Hr as (v & _ & Hv). by apply versions_stale in Hv.
Qed.

Lemma initialize_fresh t : initialize sha256 unixepoch_of t (mkStore 0 empty_db) = (Ok tt, mkStore CURRENT_VERSION empty_db).
Proof. reflexivity. Qed.

Lemma fresh_sound : store_sound (mkStore CURRENT_VERSION empty_db).
Proof.
  split; [done|]. split; [exact relay_inv_empty|]. split; [split; [constructor|done]|].
  split; intros r Hr; by apply elem_of_nil in Hr.
Qed.

Lemma initialize_sound t o :
  (forall s, o = Some s -> store_sound s) ->
  exists s, initialize sha256 unixepoch_of t (default (mkStore 0 empty_db) o) = (Ok tt, s) /\ store_sound s
    /\ s = default (mkStore CURRENT_VERSION empty_db) o.
Proof.
  intros Ho. destruct o as [s|].
  - exists s. split; [by apply initialize_current, Ho|auto].
  - eexists. split; [apply initialize_fresh|split; [exact fresh_sound|done]].
Qed.

(** The invariant of the process. *)
Record process_sound (p : Process) : Prop := {
  ps_files : forall path s, files p !! path = Some s -> store_sound s;
  ps_running : forall r, running p = Some r -> db_sound (w_db (world (server r)));
}.

Lemma launch_sound m p : process_sound p -> process_sound (launch sha256 unixepoch_of m p).
Proof.
  intros [Hf _]. unfold launch, main. destruct (is_socket_addr m _); cbn [negb]; [|by split].
  destruct (can_open m _); cbn [negb]; [|by split]. set (path := default DEFAULT_DB_PATH _).
  destruct (initialize_sound (migration_time m) (files p !! path) (Hf path)) as (s & -> & [Ev D] & _).
  assert (db_sound (w_db (gc_task (ticks_before_bind m) (AppState_new (first_tick m) (tables s))))) as D' by (by apply gc_sound).
  destruct (can_bind m _); cbn [negb]; (split; cbn; [|by intros r [= <-]]);
    intros path' s' [[<- <-]|[_ Hs]]%lookup_insert_Some; by eauto.
Qed.

Lemma process_step_sound p p' : process_step sha256 unixepoch_of p p' -> process_sound p -> process_sound p'.
Proof.
  intros Hs I. destruct Hs as [m Hn|r sv Hr Hs|r Hr|r Hr]; [by apply launch_sound|..];
    destruct I as [Hf Hd]; specialize (Hd _ Hr); (split; cbn; [try done|intros r' [= <-]]).
  - by eapply server_step_sound.
  - by apply steps_sound; [exact gc_steps|].
  - intros path s [[_ <-]|[_ Hs]]%lookup_insert_Some; [by split|by eauto].
Qed.

Lemma process_reachable_sound p : process_reachable sha256 unixepoch_of p -> process_sound p.
Proof.
  intros Hp. eapply (rtc_ind_r process_sound); [| |exact Hp]; [by split|]. intros x y _ Hs. by eapply process_step_sound.
Qed.

(** C7: The relay stays within its limits and can always be started again.
    Take any number of starts, with any settings and failures, of the relay on
    the same machine, any frames on any connections, collections and stops at
    any moment, other connections making operations of the relay between the
    database calls of a handler.  Whenever a relay runs, its database is within
    the limits of the message queue, the acceptance ledger and the key
    inventories ([within_limits]) and of the queue of read receipts
    ([receipt_limits]).  And when it is stopped there and started with settings that name the same database,
    it starts, with nobody connected and the database as it was left, but for
    the collections done since. *)
Theorem relay_sound p r m :
  process_reachable sha256 unixepoch_of p -> running p = Some r ->
  let bind_addr := default DEFAULT_BIND (var m "CMP_BIND") in
  let w := world (server r) in
  within_limits (w_db w) /\ receipt_limits (w_db w)
  /\ (is_socket_addr m bind_addr = true -> default DEFAULT_DB_PATH (var m "CMP_DB_PATH") = db_path r ->
      can_open m (db_path r) = true -> can_bind m bind_addr = true ->
      exists r', running (launch sha256 unixepoch_of m (stopped r p)) = Some r'
        /\ server r' = mkServer (gc_task (ticks_before_bind m) (AppState_new (first_tick m) (w_db w))) ∅).
Proof.
  intros Hp Hr bind_addr w. apply process_reachable_sound in Hp as [Hf Hd]. specialize (Hd r Hr).
  split; [by apply relay_inv_limits, Hd|]. split; [apply Hd|]. intros Ha Hpath Ho Hb.
  unfold launch, main, stopped. cbn [files]. fold bind_addr. rewrite Ha, Hpath, Ho. cbn [negb].
  rewrite lookup_insert_eq. cbn [default]. rewrite initialize_current by (by split).
  rewrite Hb. cbn. eexists. split; [done|]. done.
Qed.
End Sound.

(** ** A concrete life

    A relay starts on no files, Bob registers on its first connection, and it is
    stopped and started again. *)

Module LifeDemo.
#[local] Existing Instance Toy.prims.
#[local] Existing Instance ToyServer.codecs.
#[local] Existing Instance ToyServer.codec_laws.
#[local] Existing Instance ToyServer.env.
#[local] Existing Instance ToyServer.alone.
#[local] Existing Instance PickFirst.pick_first.
#[local] Existing Instance PickFirst.pick_first_laws.
#[local] Existing Instance GcDemo.march.

Definition sha (b : bytes) : bytes := b.
Definition epoch (s : string) : result DbError Z := Ok 0.
Definition machine : Machine := mkMachine (fun _ => None) (fun _ => true) (fun _ => true) (fun _ => true) 0 1 0.
Definition started : Process := launch sha epoch machine (mkProcess ∅ None).
Definition first_relay : Relay := default (mkRelay "" "" (mkServer (AppState_new 0 empty_db) ∅)) (running started).

Definition key : bytes := repeat Byte.x05 32.
Definition spk : bytes := x25519_public (repeat Byte.x07 32).
Definition register : frame_event :=
  EvText (Some (Register (mkUserId "bob")
    (mkPreKeyBundle (b64_encode (ed25519_public key)) (b64_encode spk) 0 (b64_encode (ed25519_sign key spk)) None) [])).
Definition connected : Server :=
  mkServer (world (server first_relay)) (<[0%nat := Session_new 0]> (sessions (server first_relay))).
Definition answered := connection_step sha DEFAULT_SERVER_ID 0%nat (Session_new 0) register (world connected).
Definition registered : Server := mkServer answered.2 (<[0%nat := answered.1.1]> (sessions connected)).
Definition serving : Process := mkProcess (files started) (Some (with_server registered (with_server connected first_relay))).

Lemma started_running : running started = Some first_relay.
Proof. vm_compute. reflexivity. Defined.
Lemma serving_reachable : process_reachable sha epoch serving.
Proof.
  eapply rtc_r; [eapply rtc_r; [eapply rtc_r; [apply rtc_refl|]|]|].
  - exact (ps_launch sha epoch (mkProcess ∅ None) machine eq_refl).
  - apply (ps_server sha epoch started first_relay connected started_running).
    apply (step_connect sha (server_id first_relay) (server first_relay) 0%nat).
    + vm_compute. reflexivity.
    + apply (bool_decide_unpack _). vm_compute. exact I.
  - apply (ps_server sha epoch (mkProcess (files started) (Some (with_server connected first_relay)))
      (with_server connected first_relay) registered eq_refl).
    apply (step_frame sha (server_id first_relay) connected 0%nat (Session_new 0) register answered.1.1 answered.2).
    + apply lookup_insert_eq.
    + vm_compute. reflexivity.
Qed.
Lemma alone_relay : others_relay sha.
Proof. intros t d. exists []. split; [constructor|]. by rewrite others_none. Qed.

Lemma relay_sound_witness :
  is_Some (users (w_db (world registered)) !! "bob"%string)
  /\ within_limits (w_db (world registered))
  /\ exists r', running (launch sha epoch machine (stopped (with_server registered (with_server connected first_relay)) serving)) = Some r'
       /\ users (w_db (world (server r'))) = users (w_db (world registered)) /\ w_online (world (server r')) = ∅.
Proof.
  assert (users (w_db (gc_task 1 (AppState_new 0 (w_db (world registered))))) = users (w_db (world registered))) as Hu
    by (vm_compute; reflexivity).
  split; [apply (bool_decide_unpack _); vm_compute; exact I|].
  destruct (relay_sound sha epoch alone_relay serving (with_server registered (with_server connected first_relay)) machine)
    as (Hl & _ & Hr).
  - exact serving_reachable.
  - reflexivity.
  - split; [exact Hl|]. destruct Hr as (r' & Er & Es); [reflexivity|vm_compute; reflexivity|reflexivity|reflexivity|].
    exists r'. split; [exact Er|]. rewrite Es. split; [exact Hu|vm_compute; reflexivity].
Defined.
End LifeDemo.
