(* ===== verification/CryptoStore.v ===== *)
(** * The client's durable state ([crates/client/src/crypto_store.rs])

    The SQLite file of the client: one JSON document with the core state, the
    outbox in sequence order and the ledger of processed messages; with the
    outbox items of [crypto_outbox.rs].  A document is kept as its tree (what
    [serde] sees), so the text of the JSON is not modelled.

    Every store operation is one statement or one transaction.  It may fail
    ([ce_fault]); a failed one leaves the file as it was. *)
From stdpp Require Import base numbers list strings gmap.
From S2P Require Import Prelude Consts Types Primitives Keys Ratchet ServerWorld.
Local Open Scope Z_scope.
Local Open Scope cmp_scope.

(** ** Errors *)

(** [CryptoError] of [crypto_mgr.rs] and the [anyhow] errors it wraps. *)
Inductive CryptoError :=
| BadBundle
| BadEnvelope
| UnsupportedVersion (v : Z)
| X3dhFailed
| RatchetFailed
| NoSession
| DecryptFailed
| Persistence (e : AnyhowError)
| OutboxFull
| AwaitingPrekeyAdmission
| ReplayLedgerFull
with AnyhowError :=
| StoreFailure
| Bail (message : string)
| Crypto (e : CryptoError).

(** ** The outbox *)

Inductive PendingOutbound :=
| PMessage (recipient_id : UserId) (message_id : MessageId) (envelope : EncryptedEnvelope)
| PReadReceipt (recipient_id : UserId) (receipt_id : MessageId) (envelope : EncryptedEnvelope)
| PAck (ack_id : MessageId) (message_ids : list MessageId)
| PReadReceiptAck (ack_id : MessageId) (receipt_ids : list MessageId)
| PPreKeyUpload (upload_id : MessageId) (prekeys : list Types.OneTimePreKey)
| PSignedPreKeyRotation (rotation_id : MessageId) (key_id : Z) (public_key signature : string).

Definition to_client_message (p : PendingOutbound) : ClientMessage :=
  match p with
  | PMessage r i e => SendMessage r i e
  | PReadReceipt r i e => SendReadReceipt r i e
  | PAck i ids => Ack i ids
  | PReadReceiptAck i ids => AckReadReceipt i ids
  | PPreKeyUpload i ks => UploadPreKeys i ks
  | PSignedPreKeyRotation i k pk sg => RotateSignedPreKey i k pk sg
  end.

Definition ciphertext_len (p : PendingOutbound) : Z :=
  match p with
  | PMessage _ _ e | PReadReceipt _ _ e => str_len (Types.ciphertext e)
  | PAck _ ids | PReadReceiptAck _ ids => Z.of_nat (length ids) * 36
  | PPreKeyUpload _ ks => Z.of_nat (length ks) * 48
  | PSignedPreKeyRotation _ _ pk sg => str_len pk + str_len sg
  end.

(** The id behind [correlation_id]. *)
Definition item_id (p : PendingOutbound) : MessageId :=
  match p with
  | PMessage _ i _ | PReadReceipt _ i _ | PAck i _ | PReadReceiptAck i _ | PPreKeyUpload i _
  | PSignedPreKeyRotation i _ _ _ => i
  end.

Definition usize_max : Z := u64_max.

Definition ensure_capacity (pending : list PendingOutbound) (additional_plaintext_bytes : Z)
  : result CryptoError unit :=
  if MAX_PENDING_OUTBOUND_ITEMS <=? Z.of_nat (length pending) then Err OutboxFull
  else
    let current_bytes := fold_right Z.add 0 (ciphertext_len <$> pending) in
    let additional_bytes := (additional_plaintext_bytes + 18) / 3 * 4 in
    if MAX_PENDING_OUTBOUND_BYTES <? saturating_add usize_max current_bytes additional_bytes
    then Err OutboxFull
    else Ok tt.

(** ** The core document *)

Record StoredSpk := mkStoredSpk {
  ss_key_id : Z; ss_secret : bytes; ss_public : bytes; ss_signature_b64 : string;
}.
Record StoredOpk := mkStoredOpk { so_key_id : Z; so_secret : bytes; so_public : bytes }.

Record StoredX3dhResult := mkStoredX3dhResult {
  sx_ephemeral_public : bytes;
  sx_recipient_signed_prekey_id : Z;
  sx_recipient_one_time_prekey_id : option Z;
}.

Record PeerSession := mkPeerSession {
  ps_ratchet : SessionState;
  ps_prekey_header : option StoredX3dhResult;
  ps_prekey_expires_at : option Z;
}.

(** [SessionState] as serialised: the skipped keys are a list of entries. *)
Record SessionDoc := mkSessionDoc { sd_state : SessionState; sd_skipped : list Entry }.
Definition session_to_doc (s : SessionState) : SessionDoc :=
  mkSessionDoc (set_skipped ∅ s) (serialize (skipped s)).
Definition session_of_doc (d : SessionDoc) : result AnyhowError SessionState :=
  let? m := map_err Bail (deserialize (sd_skipped d)) in
  Ok (set_skipped m (sd_state d)).

Record PeerSessionDoc := mkPeerSessionDoc {
  pd_ratchet : SessionDoc;
  pd_prekey_header : option StoredX3dhResult;
  pd_prekey_expires_at : option Z;
}.
Definition peer_to_doc (p : PeerSession) : PeerSessionDoc :=
  mkPeerSessionDoc (session_to_doc (ps_ratchet p)) (ps_prekey_header p) (ps_prekey_expires_at p).
Definition peer_of_doc (d : PeerSessionDoc) : option PeerSession :=
  match session_of_doc (pd_ratchet d) with
  | Ok s => Some (mkPeerSession s (pd_prekey_header d) (pd_prekey_expires_at d))
  | Err _ => None
  end.

(** [CoreStateRef], what is written, and [CoreState], what is read: the
    optional fields are absent in documents of older clients. *)
Record CoreState := mkCoreState {
  cs_signed_prekey : option StoredSpk;
  cs_previous_signed_prekeys : list StoredSpk;
  cs_signed_prekey_rotated_at : Z;
  cs_next_signed_prekey_id : option Z;
  cs_one_time_prekeys : list StoredOpk;
  cs_sessions : gmap string PeerSessionDoc;
  cs_next_one_time_prekey_id : option Z;
  cs_one_time_prekey_created_at : gmap Z Z;
}.
Definition CoreState_default : CoreState := mkCoreState None [] 0 None [] ∅ None ∅.

Record ProcessedMessage := mkProcessed {
  pending_plaintext : option string;
  processed_at : Z;
}.

(** ** The file *)

Record Disk := mkDisk {
  core_state_row : option CoreState;
  outbox : list (string * PendingOutbound);              (* correlation_id, payload *)
  processed_rows : gmap (string * string) ProcessedMessage;  (* (peer_id, message_id) *)
}.
Definition empty_disk : Disk := mkDisk None [] ∅.

Definition upsert_core_state (core : CoreState) (d : Disk) : Disk :=
  mkDisk (Some core) (outbox d) (processed_rows d).

Definition save_core (core : CoreState) (d : Disk) : option Disk := Some (upsert_core_state core d).

Definition insert_outbox (correlation_id : string) (p : PendingOutbound) (d : Disk) : option Disk :=
  if bool_decide (correlation_id ∈ (outbox d).*1) then None
  else Some (mkDisk (core_state_row d) (outbox d ++ [(correlation_id, p)]) (processed_rows d)).

Definition delete_outbox (correlation_id : string) (d : Disk) : Disk :=
  mkDisk (core_state_row d) (filter (fun r => r.1 <> correlation_id) (outbox d)) (processed_rows d).

Definition save_core_and_enqueue (core : CoreState) (correlation_id : string) (p : PendingOutbound)
  (d : Disk) : option Disk := insert_outbox correlation_id p (upsert_core_state core d).

Definition save_core_and_processed (core : CoreState) (peer_id message_id : string)
    (row : ProcessedMessage) (d : Disk) : option Disk :=
  match processed_rows d !! (peer_id, message_id) with
  | Some _ => None
  | None => Some (mkDisk (Some core) (outbox d)
              (<[(peer_id, message_id) := row]> (processed_rows d)))
  end.

Definition mark_processed_committed (peer_id message_id : string) (d : Disk) : option Disk :=
  Some (mkDisk (core_state_row d) (outbox d)
    (alter (fun r => mkProcessed None (processed_at r)) (peer_id, message_id) (processed_rows d))).

Definition delete_outbound (correlation_id : string) (d : Disk) : option Disk :=
  Some (delete_outbox correlation_id d).

Definition save_core_and_delete_outbound (core : CoreState) (correlation_id : string) (d : Disk)
  : option Disk := Some (delete_outbox correlation_id (upsert_core_state core d)).

Definition save_core_and_replace_outbound (core : CoreState) (old_correlation_id new_correlation_id : string)
    (p : PendingOutbound) (d : Disk) : option Disk :=
  insert_outbox new_correlation_id p (delete_outbox old_correlation_id (upsert_core_state core d)).

Definition confirm_ack (ack_id : string) (message_ids : list string) (d : Disk) : option Disk :=
  Some (mkDisk (core_state_row d) (filter (fun r => r.1 <> ack_id) (outbox d))
    (fold_left (fun t i => filter (fun r => r.1.2 <> i) t) message_ids (processed_rows d))).

Definition prune_processed_rows (cutoff : Z) (d : Disk) : option Disk :=
  Some (mkDisk (core_state_row d) (outbox d)
    (filter (fun r => ~ processed_at r.2 < cutoff) (processed_rows d))).

(** ** The client's environment *)

Class ClientEnv := {
  ce_fault : nat -> bool;         (* the store call fails *)
  ce_clock : nat -> Z;            (* now_secs() *)
  ce_random : nat -> nat -> bytes;  (* key material: the draw, and the key within it *)
  ce_uuid : nat -> MessageId;     (* MessageId::new() *)
}.
