(* ===== verification/CryptoMgr.v ===== *)
(** * The client's cryptographic manager ([crates/client/src/crypto_mgr.rs] and
    the modules [crypto_mgr_decrypt], [crypto_mgr_outbound],
    [crypto_mgr_persistence], [crypto_mgr_prekeys], with [crypto_decode.rs] and
    [crypto_replay.rs])

    Sessions per peer, the durable outbox, the replay ledger and the life cycle
    of the pre-keys.  An operation changes the manager in memory, writes the
    store, and undoes its change when the write fails; [CryptoMgrFacts] proves
    that memory and disk agree through all of it.

    The state is the manager with the store's file and a counter of the
    environment's events (store calls, clock reads, random draws). *)
From stdpp Require Import base numbers list strings gmap.
From Stdlib Require Import Strings.Byte.
From S2P Require Import Prelude Consts Types Primitives Aad Keys X3dh Ratchet SqlDb ServerWorld CryptoStore.
Local Open Scope Z_scope.
Local Open Scope cmp_scope.

Definition LEGACY_PREKEY_ID_FLOOR : Z := 2 ^ 31.
Definition RETENTION_SECS : Z := 31 * 24 * 60 * 60.
Definition SIGNED_PREKEY_PRIVATE_HISTORY : nat := 3.

Inductive InboundDecrypt :=
| Pending (text : string)
| Duplicate
| Failed.

Record CryptoManager := mkManager {
  identity : IdentityKeyPair;
  sessions : gmap string PeerSession;
  pending_inits : gset string;
  stored_spk : option SignedPreKey;
  previous_spks : list SignedPreKey;
  signed_prekey_rotated_at : Z;
  next_signed_prekey_id : Z;
  stored_opks : gmap Z Keys.OneTimePreKey;
  next_one_time_prekey_id : Z;
  one_time_prekey_created_at : gmap Z Z;
  pending_outbound : list PendingOutbound;
  processed_messages : gmap string (gmap string ProcessedMessage);
  fail_persistence : bool;
}.

Definition set_sessions v m := mkManager (identity m) v (pending_inits m) (stored_spk m)
  (previous_spks m) (signed_prekey_rotated_at m) (next_signed_prekey_id m) (stored_opks m)
  (next_one_time_prekey_id m) (one_time_prekey_created_at m) (pending_outbound m)
  (processed_messages m) (fail_persistence m).
Definition set_pending_inits v m := mkManager (identity m) (sessions m) v (stored_spk m)
  (previous_spks m) (signed_prekey_rotated_at m) (next_signed_prekey_id m) (stored_opks m)
  (next_one_time_prekey_id m) (one_time_prekey_created_at m) (pending_outbound m)
  (processed_messages m) (fail_persistence m).
(** The signed pre-keys: current, previous, time of rotation, next id. *)
Definition set_spks cur prev at_ next m := mkManager (identity m) (sessions m) (pending_inits m) cur
  prev at_ next (stored_opks m) (next_one_time_prekey_id m) (one_time_prekey_created_at m)
  (pending_outbound m) (processed_messages m) (fail_persistence m).
(** The one-time pre-keys: keys, next id, creation times. *)
Definition set_opks keys next created m := mkManager (identity m) (sessions m) (pending_inits m)
  (stored_spk m) (previous_spks m) (signed_prekey_rotated_at m) (next_signed_prekey_id m) keys
  next created (pending_outbound m) (processed_messages m) (fail_persistence m).
Definition set_outbound v m := mkManager (identity m) (sessions m) (pending_inits m) (stored_spk m)
  (previous_spks m) (signed_prekey_rotated_at m) (next_signed_prekey_id m) (stored_opks m)
  (next_one_time_prekey_id m) (one_time_prekey_created_at m) v (processed_messages m)
  (fail_persistence m).
Definition set_processed v m := mkManager (identity m) (sessions m) (pending_inits m) (stored_spk m)
  (previous_spks m) (signed_prekey_rotated_at m) (next_signed_prekey_id m) (stored_opks m)
  (next_one_time_prekey_id m) (one_time_prekey_created_at m) (pending_outbound m) v
  (fail_persistence m).

(** ** Library functions of Rust *)

(** [Vec::insert] *)
Definition vec_insert {A} (i : nat) (x : A) (l : list A) : list A := take i l ++ x :: drop i l.

(** [Iterator::position] *)
Fixpoint position {A} (p : A -> bool) (l : list A) : option nat :=
  match l with
  | [] => None
  | x :: l' => if p x then Some O else S <$> position p l'
  end.

(** [HashMap::extend] *)
Definition extend {A} (l : list (Z * A)) (m : gmap Z A) : gmap Z A :=
  fold_left (fun m kv => <[kv.1 := kv.2]> m) l m.

(** [ids.iter().filter_map(|id| map.remove(id).map(|v| (id, v))).collect()],
    with the map that is left. *)
Definition take_keys {A} (ids : list Z) (m : gmap Z A) : list (Z * A) * gmap Z A :=
  fold_left (fun acc k => match acc.2 !! k with
                          | Some v => (acc.1 ++ [(k, v)], delete k acc.2)
                          | None => acc
                          end) ids ([], m).

(** [str::from_utf8]: the well-formed byte sequences of the Unicode standard. *)
Definition between (a b x : Z) : bool := (a <=? x) && (x <=? b).
Fixpoint utf8_valid (bs : list Z) : bool :=
  match bs with
  | [] => true
  | a :: r1 =>
      if a <? 128 then utf8_valid r1
      else match r1 with
      | b :: r2 =>
          if between 194 223 a then between 128 191 b && utf8_valid r2
          else match r2 with
          | c :: r3 =>
              if between 224 239 a
              then between (if a =? 224 then 160 else 128) (if a =? 237 then 159 else 191) b
                   && between 128 191 c && utf8_valid r3
              else match r3 with
              | d :: r4 =>
                  between 240 244 a
                  && between (if a =? 240 then 144 else 128) (if a =? 244 then 143 else 191) b
                  && between 128 191 c && between 128 191 d && utf8_valid r4
              | [] => false
              end
          | [] => false
          end
      | [] => false
      end
  end.

(** [String::from_utf8(plaintext).unwrap_or_else(|_| "[invalid utf-8]")] *)
Definition text_of (plaintext : bytes) : string :=
  if utf8_valid (Z_of_byte <$> plaintext) then String.string_of_list_byte plaintext
  else "[invalid utf-8]".

(** ** Replay ledger ([crypto_replay.rs]) *)

Definition prune_processed (now : Z) (processed : gmap string (gmap string ProcessedMessage))
  : gmap string (gmap string ProcessedMessage) :=
  let cutoff := saturating_sub now RETENTION_SECS in
  filter (fun r => r.2 <> ∅)
    ((fun messages => filter (fun r => cutoff <= processed_at r.2) messages) <$> processed).

Definition processed_count (processed : gmap string (gmap string ProcessedMessage)) : Z :=
  fold_right Z.add 0 ((fun r => Z.of_nat (size r.2)) <$> map_to_list processed).

Definition lookup_processed (peer_id message_id : string)
    (processed : gmap string (gmap string ProcessedMessage)) : option ProcessedMessage :=
  processed !! peer_id ≫= (fun messages => messages !! message_id).

Definition validate_peer_ids {A} (by_peer : gmap string A) : result AnyhowError unit :=
  if forallb (fun r => negb (is_err (UserId_new r.1))) (map_to_list by_peer) then Ok tt
  else Err (Bail "invalid peer ID in persisted cryptographic state").

(** ** The manager and its file *)

Record Client := mkClient { c_mgr : CryptoManager; c_io : Disk * nat }.

Abbreviation iom A := (rm (Disk * nat) AnyhowError A).
Abbreviation am A := (rm Client AnyhowError A).
Abbreviation cm A := (rm Client CryptoError A).

Definition get_mgr {E} : rm Client E CryptoManager := fun c => (Ok (c_mgr c), c).
Definition modify_mgr {E} (f : CryptoManager -> CryptoManager) : rm Client E unit :=
  fun c => (Ok tt, mkClient (f (c_mgr c)) (c_io c)).
(** [match m { .. }] on a [Result]. *)
Definition rm_try {S E F A} (m : rm S E A) : rm S F (result E A) :=
  fun s => let '(r, s') := m s in (Ok r, s').
Definition rm_map_err {S E F A} (f : E -> F) (m : rm S E A) : rm S F A :=
  fun s => let '(r, s') := m s in (map_err f r, s').

Definition restore_entry (sessions : gmap string PeerSession) (peer_id : string)
    (previous : option PeerSession) : gmap string PeerSession :=
  match previous with
  | Some session => <[peer_id := session]> sessions
  | None => delete peer_id sessions
  end.

Definition take_one_time_prekey (key_id : Z) (m : CryptoManager)
  : option (Keys.OneTimePreKey * option Z) * CryptoManager :=
  match stored_opks m !! key_id with
  | Some prekey =>
      (Some (prekey, one_time_prekey_created_at m !! key_id),
       set_opks (delete key_id (stored_opks m)) (next_one_time_prekey_id m)
         (delete key_id (one_time_prekey_created_at m)) m)
  | None => (None, m)
  end.

Definition restore_one_time_prekey (key_id : Z) (prekey : Keys.OneTimePreKey) (created_at : option Z)
    (m : CryptoManager) : CryptoManager :=
  set_opks (<[key_id := prekey]> (stored_opks m)) (next_one_time_prekey_id m)
    (match created_at with
     | Some timestamp => <[key_id := timestamp]> (one_time_prekey_created_at m)
     | None => one_time_prekey_created_at m
     end) m.

Definition remove_processed (peer_id message_id : string) (m : CryptoManager) : CryptoManager :=
  match processed_messages m !! peer_id with
  | Some messages =>
      let messages' := delete message_id messages in
      set_processed (if bool_decide (messages' = ∅) then delete peer_id (processed_messages m)
                     else <[peer_id := messages']> (processed_messages m)) m
  | None => m
  end.

Section Manager.
Context `{CryptoPrims, Codecs, ClientEnv}.

(** A store call: it fails, or a constraint is violated, or it is done. *)
Definition store_io (f : Disk -> option Disk) : iom unit := fun '(d, t) =>
  if ce_fault t then (Err StoreFailure, (d, S t))
  else match f d with
       | Some d' => (Ok tt, (d', S t))
       | None => (Err StoreFailure, (d, S t))
       end.
Definition load_io {A} (f : Disk -> A) : iom A := fun '(d, t) =>
  if ce_fault t then (Err StoreFailure, (d, S t)) else (Ok (f d), (d, S t)).

Definition store (f : Disk -> option Disk) : am unit := fun c =>
  let '(r, io) := store_io f (c_io c) in (r, mkClient (c_mgr c) io).

Definition draw {E} : rm Client E nat := fun c =>
  (Ok (c_io c).2, mkClient (c_mgr c) ((c_io c).1, S (c_io c).2)).
Definition now_secs {E} : rm Client E Z := do! t <- draw; rm_ret (ce_clock t).
Definition new_message_id {E} : rm Client E MessageId := do! t <- draw; rm_ret (ce_uuid t).

Definition correlation_id (p : PendingOutbound) : string := uuid_to_string (item_id p).

(** *** Decoding ([crypto_decode.rs]) *)

Definition b64_decode_fixed (n : nat) (encoded : string) (error : CryptoError)
  : result CryptoError bytes :=
  let? b := ok_or error (b64_decode encoded) in
  if (length b =? n)%nat then Ok b else Err BadBundle.

Definition decode_ratchet_header (proto : Types.RatchetHeader) : result CryptoError Ratchet.RatchetHeader :=
  let? k := b64_decode_fixed 32 (Types.ratchet_key proto) BadEnvelope in
  Ok (mkHeader k (Types.previous_chain_length proto) (Types.message_number proto)).

(** *** Persistence ([crypto_mgr_persistence.rs]) *)

Definition spk_to_stored (spk : SignedPreKey) : StoredSpk :=
  mkStoredSpk (spk_key_id spk) (spk_secret spk) (spk_public spk) (b64_encode (spk_signature spk)).

Definition core_state (m : CryptoManager) : CoreState :=
  mkCoreState (spk_to_stored <$> stored_spk m) (spk_to_stored <$> previous_spks m)
    (signed_prekey_rotated_at m) (Some (next_signed_prekey_id m))
    ((fun r => mkStoredOpk (opk_key_id r.2) (opk_secret r.2) (opk_public r.2))
       <$> map_to_list (stored_opks m))
    (peer_to_doc <$> sessions m) (Some (next_one_time_prekey_id m)) (one_time_prekey_created_at m).

Definition check_persistence : am unit :=
  do! m <- get_mgr;
  if fail_persistence m then rm_fail StoreFailure else rm_ret tt.

Definition persist_state : am unit :=
  run! check_persistence;
  do! m <- get_mgr;
  store (save_core (core_state m)).

Definition persist_outbound (outbound : PendingOutbound) : am unit :=
  run! check_persistence;
  do! m <- get_mgr;
  store (save_core_and_enqueue (core_state m) (correlation_id outbound) outbound).

Definition persist_decrypt (peer_id : string) (message_id : option string) : am unit :=
  run! check_persistence;
  do! m <- get_mgr;
  match message_id with
  | None => store (save_core (core_state m))
  | Some message_id =>
      do! processed <- rm_lift (ok_or (Bail "processed message marker missing")
                          (lookup_processed peer_id message_id (processed_messages m)));
      store (save_core_and_processed (core_state m) peer_id message_id processed)
  end.

Definition decode_stored_spk (stored : StoredSpk) : result AnyhowError SignedPreKey :=
  let? sig_bytes := ok_or (Bail "base64") (b64_decode (ss_signature_b64 stored)) in
  if (length sig_bytes =? 64)%nat
  then Ok (SignedPreKey_from_parts (ss_key_id stored) (ss_secret stored) (ss_public stored) sig_bytes)
  else Err (Bail "corrupt signed prekey signature").

Fixpoint decode_all (stored : list StoredSpk) : result AnyhowError (list SignedPreKey) :=
  match stored with
  | [] => Ok []
  | s :: l => let? spk := decode_stored_spk s in let? spks := decode_all l in Ok (spk :: spks)
  end.

Definition decode_stored_spks (current : option StoredSpk) (previous : list StoredSpk)
  : result AnyhowError (option SignedPreKey * list SignedPreKey * Z) :=
  let? cur := match current with
              | Some s => let? spk := decode_stored_spk s in Ok (Some spk)
              | None => Ok None
              end in
  let next_id := match cur with Some k => saturating_add u32_max (spk_key_id k) 1 | None => 0 end in
  let? prev := decode_all previous in
  Ok (cur, prev, next_id).

Definition decode_stored_opks (stored : list StoredOpk) : gmap Z Keys.OneTimePreKey :=
  extend ((fun s => (so_key_id s, OneTimePreKey_from_parts (so_key_id s) (so_secret s) (so_public s)))
            <$> stored) ∅.

(** *** Loading *)

(** The first item with an envelope of another protocol version. *)
Fixpoint validate_pending_protocol_versions (pending : list PendingOutbound) : result AnyhowError unit :=
  match pending with
  | [] => Ok tt
  | (PMessage _ _ e | PReadReceipt _ _ e) :: l =>
      if version e =? PROTOCOL_VERSION then validate_pending_protocol_versions l
      else Err (Bail "pending ciphertext uses another protocol version")
  | _ :: l => validate_pending_protocol_versions l
  end.

(** The rows of the ledger, grouped by peer. *)
Definition group_processed (rows : gmap (string * string) ProcessedMessage)
  : gmap string (gmap string ProcessedMessage) :=
  fold_left (fun t r => <[r.1.1 := <[r.1.2 := r.2]> (default ∅ (t !! r.1.1))]> t)
    (map_to_list rows) ∅.

(** The sessions of the core document; one that does not decode fails the
    whole document. *)
Definition sessions_of_doc (docs : gmap string PeerSessionDoc) : result AnyhowError (gmap string PeerSession) :=
  if forallb (fun r => match peer_of_doc r.2 with Some _ => true | None => false end) (map_to_list docs)
  then Ok (omap peer_of_doc docs) else Err (Bail "session").

(** [load_or_generate] with its identity; the key file is [load_identity] of
    [ClientIdentity].  The clock is read once for the creation times and once for each of
    the two prunings. *)
Definition load_or_generate (identity : IdentityKeyPair) : iom CryptoManager := 
  do! persisted <- load_io (fun d => default CoreState_default (core_state_row d));
  do! persisted_sessions <- rm_lift (sessions_of_doc (cs_sessions persisted));
  do! pending_outbound <- load_io (fun d => (outbox d).*2);
  run! rm_lift (validate_pending_protocol_versions pending_outbound);
  do! rows <- load_io processed_rows;
  let processed_messages := group_processed rows in
  do! spks <- rm_lift (decode_stored_spks (cs_signed_prekey persisted)
                         (cs_previous_signed_prekeys persisted));
  let '(stored_spk, previous_spks, derived_next_signed_prekey_id) := spks in
  let stored_opks := decode_stored_opks (cs_one_time_prekeys persisted) in
  do! loaded_at <- (fun '(d, t) => (Ok (ce_clock t), (d, S t)));
  let created :=
    filter (fun r => is_Some (stored_opks !! r.1)) (cs_one_time_prekey_created_at persisted)
    ∪ ((fun _ => loaded_at) <$> stored_opks) in
  let derived_next_id :=
    match SqlDb.max_of (map_to_list stored_opks).*1 with
    | Some k => saturating_add u32_max k 1
    | None => 0
    end in
  let next_one_time_prekey_id :=
    Z.max (Z.max (default 0 (cs_next_one_time_prekey_id persisted)) derived_next_id)
      LEGACY_PREKEY_ID_FLOOR in
  run! rm_lift (validate_peer_ids persisted_sessions);
  run! rm_lift (validate_peer_ids processed_messages);
  do! now1 <- (fun '(d, t) => (Ok (ce_clock t), (d, S t)));
  run! store_io (prune_processed_rows (saturating_sub now1 RETENTION_SECS));
  do! now2 <- (fun '(d, t) => (Ok (ce_clock t), (d, S t)));
  rm_ret (mkManager identity persisted_sessions ∅ stored_spk previous_spks
    (cs_signed_prekey_rotated_at persisted)
    (Z.max (default 0 (cs_next_signed_prekey_id persisted)) derived_next_signed_prekey_id)
    stored_opks next_one_time_prekey_id created pending_outbound
    (prune_processed now2 processed_messages) false).

(** *** Sessions *)

Definition add_pending (peer_id : string) {E} : rm Client E unit :=
  modify_mgr (fun m => set_pending_inits ({[peer_id]} ∪ pending_inits m) m).

(** The decoded bundle of [init_session_from_bundle]. *)
Definition decode_bundle (bundle : PreKeyBundle) : result CryptoError PeerPreKeyBundle :=
  let? peer_vk := b64_decode_fixed 32 (identity_key bundle) BadBundle in
  if negb (ed25519_from_bytes peer_vk) then Err BadBundle
  else
  let? spk_public := b64_decode_fixed 32 (signed_prekey bundle) BadBundle in
  let? spk_sig := b64_decode_fixed 64 (signed_prekey_signature bundle) BadBundle in
  let? opk := match one_time_prekey bundle with
              | Some otk =>
                  let? pk := b64_decode_fixed 32 (Types.public_key otk) BadBundle in
                  Ok (Some (Types.key_id otk, pk))
              | None => Ok None
              end in
  Ok (mkPeerPreKeyBundle peer_vk spk_public (signed_prekey_id bundle) spk_sig opk).

Definition init_session_from_bundle (peer_id : string) (bundle : PreKeyBundle) : cm unit :=
  do! peer_bundle <- rm_lift (decode_bundle bundle);
  do! m <- get_mgr;
  do! t1 <- draw;
  do! x3dh_result <- rm_lift (map_err (fun _ => X3dhFailed)
                                (alice_initiate (identity m) peer_bundle (ce_random t1 0)));
  let x3dh_data := mkStoredX3dhResult (ephemeral_public x3dh_result) (signed_prekey_id bundle)
                     (fst <$> pb_one_time_prekey peer_bundle) in
  do! t2 <- draw;
  do! session <- rm_lift (map_err (fun _ => RatchetFailed)
                   (initialize_alice (shared_secret x3dh_result) (pb_signed_prekey peer_bundle)
                      (ce_random t2 0)));
  do! now <- now_secs;
  let previous := sessions m !! peer_id in
  run! modify_mgr (fun m => set_sessions (<[peer_id :=
         mkPeerSession session (Some x3dh_data)
           (Some (saturating_add u64_max now ONE_TIME_PREKEY_RESERVATION_SECS))]> (sessions m)) m);
  do! r <- rm_try persist_state;
  match r with
  | Err error =>
      run! modify_mgr (fun m => set_sessions (restore_entry (sessions m) peer_id previous) m);
      rm_fail (Persistence error)
  | Ok _ => modify_mgr (fun m => set_pending_inits (pending_inits m ∖ {[peer_id]}) m)
  end.

(** The wire header and the session after [session.prekey_header.take()]. *)
Definition advance_encryption (peer_id : string) (plaintext : bytes)
  : cm (PeerSession * EncryptedEnvelope) :=
  do! m <- get_mgr;
  do! session <- rm_lift (ok_or NoSession (sessions m !! peer_id));
  let identity_public := verifying_key (identity m) in
  let envelope_aad :=
    match ps_prekey_header session with
    | None => Aad.ratchet PROTOCOL_VERSION
    | Some x3dh_data =>
        Aad.prekey PROTOCOL_VERSION identity_public (sx_ephemeral_public x3dh_data)
          (sx_recipient_signed_prekey_id x3dh_data) (sx_recipient_one_time_prekey_id x3dh_data)
    end in
  let '(r, ratchet') := Ratchet.encrypt plaintext envelope_aad (ps_ratchet session) in
  run! modify_mgr (fun m => set_sessions
         (<[peer_id := mkPeerSession ratchet' (ps_prekey_header session)
                         (ps_prekey_expires_at session)]> (sessions m)) m);
  do! msg <- rm_lift (map_err (fun _ => RatchetFailed) r);
  let proto_ratchet := mkRatchetHeader (b64_encode (Ratchet.ratchet_key (Ratchet.header msg)))
                         (Ratchet.previous_chain_length (Ratchet.header msg))
                         (Ratchet.message_number (Ratchet.header msg)) in
  do! header <-
    match ps_prekey_header session with
    | Some x3dh_data =>
        run! modify_mgr (fun m => set_sessions
               (<[peer_id := mkPeerSession ratchet' None None]> (sessions m)) m);
        rm_ret (HPreKey (b64_encode (verifying_key (identity m)))
                  (b64_encode (sx_ephemeral_public x3dh_data))
                  (sx_recipient_signed_prekey_id x3dh_data)
                  (sx_recipient_one_time_prekey_id x3dh_data) proto_ratchet)
    | None => rm_ret (HRatchet proto_ratchet)
    end;
  rm_ret (session, mkEnvelope PROTOCOL_VERSION header (b64_encode (Ratchet.ciphertext msg))).

(** [push], persist, and on failure the given undo and [pop]. *)
Definition enqueue_outbound (pending : PendingOutbound) (undo : CryptoManager -> CryptoManager)
  : cm ClientMessage :=
  run! modify_mgr (fun m => set_outbound (pending_outbound m ++ [pending]) m);
  do! r <- rm_try (persist_outbound pending);
  match r with
  | Err error =>
      run! modify_mgr (fun m => undo (set_outbound (removelast (pending_outbound m)) m));
      rm_fail (Persistence error)
  | Ok _ => rm_ret (to_client_message pending)
  end.

(** A first message to [recipient_id] is waiting for its admission. *)
Definition awaiting_admission (recipient_id : UserId) (p : PendingOutbound) : bool :=
  match p with
  | PMessage r _ e =>
      bool_decide (r = recipient_id)
      && match Types.header e with HPreKey _ _ _ _ _ => true | HRatchet _ => false end
  | _ => false
  end.

Definition encrypt_message (peer_id : string) (recipient_id : UserId) (message_id : MessageId)
    (plaintext : bytes) : cm ClientMessage :=
  do! m <- get_mgr;
  if existsb (awaiting_admission recipient_id) (pending_outbound m)
  then rm_fail AwaitingPrekeyAdmission
  else
  run! rm_lift (ensure_capacity (pending_outbound m) (Z.of_nat (length plaintext)));
  do! x <- advance_encryption peer_id plaintext;
  let '(original_session, envelope) := x in
  enqueue_outbound (PMessage recipient_id message_id envelope)
    (fun m => set_sessions (<[peer_id := original_session]> (sessions m)) m).

(** [ids_json] is [serde_json::to_vec] of the id strings. *)
Definition encrypt_read_receipt (ids_json : list string -> option bytes) (peer_id : string)
    (recipient_id : UserId) (message_ids : list MessageId) : cm ClientMessage :=
  let capped := take (Z.to_nat MAX_RECEIPT_BATCH) message_ids in
  do! plaintext <- rm_lift (ok_or RatchetFailed (ids_json (uuid_to_string <$> capped)));
  let estimated_ct_len := (Z.of_nat (length plaintext) + 18) / 3 * 4 in
  if MAX_CIPHERTEXT_BYTES <? estimated_ct_len then rm_fail RatchetFailed
  else
  do! m <- get_mgr;
  run! rm_lift (ensure_capacity (pending_outbound m) (Z.of_nat (length plaintext)));
  do! receipt_id <- new_message_id;
  do! x <- advance_encryption peer_id plaintext;
  let '(original_session, envelope) := x in
  enqueue_outbound (PReadReceipt recipient_id receipt_id envelope)
    (fun m => set_sessions (<[peer_id := original_session]> (sessions m)) m).

Definition queue_ack (message_ids : list MessageId) : cm ClientMessage :=
  do! m <- get_mgr;
  run! rm_lift (ensure_capacity (pending_outbound m) (Z.of_nat (length message_ids) * 36));
  do! ack_id <- new_message_id;
  enqueue_outbound (PAck ack_id message_ids) (fun m => m).

Definition queue_read_receipt_ack (receipt_ids : list MessageId) : cm ClientMessage :=
  do! m <- get_mgr;
  run! rm_lift (ensure_capacity (pending_outbound m) (Z.of_nat (length receipt_ids) * 36));
  do! ack_id <- new_message_id;
  enqueue_outbound (PReadReceiptAck ack_id receipt_ids) (fun m => m).

(** *** Confirmations ([crypto_mgr_outbound.rs] and [crypto_mgr.rs]) *)

Definition is_message (i : MessageId) (p : PendingOutbound) : bool :=
  match p with PMessage _ j _ => bool_decide (j = i) | _ => false end.
Definition is_receipt (i : MessageId) (p : PendingOutbound) : bool :=
  match p with PReadReceipt _ j _ => bool_decide (j = i) | _ => false end.
Definition is_ack (i : MessageId) (p : PendingOutbound) : bool :=
  match p with PAck j _ | PReadReceiptAck j _ => bool_decide (j = i) | _ => false end.

(** Remove item [index] in memory, run the store operation, and put it back
    when that fails. *)
Definition remove_outbound (index : nat) (pending : PendingOutbound) (f : Disk -> option Disk)
  : am unit :=
  run! modify_mgr (fun m => set_outbound (delete index (pending_outbound m)) m);
  do! r <- rm_try (store f);
  match r with
  | Err error =>
      run! modify_mgr (fun m => set_outbound (vec_insert index pending (pending_outbound m)) m);
      rm_fail error
  | Ok _ => rm_ret tt
  end.

Definition confirm_message_sent (message_id : MessageId) : am unit :=
  do! m <- get_mgr;
  match position (is_message message_id) (pending_outbound m) with
  | None => rm_ret tt
  | Some index =>
      do! pending <- rm_lift (ok_or StoreFailure (pending_outbound m !! index));
      remove_outbound index pending (delete_outbound (uuid_to_string message_id))
  end.

Definition confirm_read_receipt_sent (receipt_id : MessageId) : am unit :=
  do! m <- get_mgr;
  match position (is_receipt receipt_id) (pending_outbound m) with
  | None => rm_ret tt
  | Some index =>
      do! pending <- rm_lift (ok_or StoreFailure (pending_outbound m !! index));
      remove_outbound index pending (delete_outbound (uuid_to_string receipt_id))
  end.

Definition reject_message (message_id : MessageId) : am (option UserId) :=
  do! m <- get_mgr;
  match position (is_message message_id) (pending_outbound m) with
  | None => rm_ret None
  | Some index =>
      match pending_outbound m !! index with
      | Some (PMessage recipient_id i e as pending) =>
          run! check_persistence;
          let previous_session := sessions m !! as_str recipient_id in
          run! modify_mgr (fun m => set_sessions (delete (as_str recipient_id) (sessions m)) m);
          run! modify_mgr (fun m => set_outbound (delete index (pending_outbound m)) m);
          do! m <- get_mgr;
          do! r <- rm_try (store (save_core_and_delete_outbound (core_state m)
                                    (uuid_to_string message_id)));
          match r with
          | Err error =>
              run! modify_mgr (fun m => set_sessions
                     (restore_entry (sessions m) (as_str recipient_id) previous_session) m);
              run! modify_mgr (fun m => set_outbound (vec_insert index pending (pending_outbound m)) m);
              rm_fail error
          | Ok _ => rm_ret (Some recipient_id)
          end
      | _ => rm_ret None
      end
  end.

(** The ledger without the given messages, of any peer. *)
Definition drop_processed (ids : list MessageId) (processed : gmap string (gmap string ProcessedMessage))
  : gmap string (gmap string ProcessedMessage) :=
  filter (fun r => r.2 <> ∅)
    (fold_left (fun t i => (fun messages => delete (uuid_to_string i) messages) <$> t) ids processed).

Definition confirm_acked (ack_id : MessageId) (message_ids : list MessageId) : am unit :=
  do! m <- get_mgr;
  match position (is_ack ack_id) (pending_outbound m) with
  | None => rm_ret tt
  | Some pending_index =>
      match pending_outbound m !! pending_index with
      | Some (PAck _ expected_ids | PReadReceiptAck _ expected_ids) =>
          if bool_decide (expected_ids <> message_ids) then rm_ret tt
          else
            do! pending <- rm_lift (ok_or StoreFailure (pending_outbound m !! pending_index));
            let previous := processed_messages m in
            run! modify_mgr (fun m => set_outbound (delete pending_index (pending_outbound m)) m);
            run! modify_mgr (fun m => set_processed
                   (drop_processed expected_ids (processed_messages m)) m);
            do! r <- rm_try (store (confirm_ack (uuid_to_string ack_id)
                                      (uuid_to_string <$> message_ids)));
            match r with
            | Err error =>
                run! modify_mgr (set_processed previous);
                run! modify_mgr (fun m => set_outbound
                       (vec_insert pending_index pending (pending_outbound m)) m);
                rm_fail error
            | Ok _ => rm_ret tt
            end
      | _ => rm_ret tt
      end
  end.

(** *** Receiving ([crypto_mgr_decrypt.rs]) *)

Definition confirm_inbound_stored (peer_id : string) (message_id : MessageId) : am unit :=
  do! m <- get_mgr;
  let id := uuid_to_string message_id in
  match lookup_processed peer_id id (processed_messages m) with
  | None => rm_ret tt
  | Some processed =>
      let put p := modify_mgr (fun m => set_processed
                     (alter (alter (fun r => mkProcessed p (processed_at r)) id) peer_id
                        (processed_messages m)) m) in
      run! put None;
      do! r <- rm_try (store (mark_processed_committed peer_id id));
      match r with
      | Err error => run! put (pending_plaintext processed); rm_fail error
      | Ok _ => rm_ret tt
      end
  end.

(** Whether the marker is new. *)
Definition mark_processed (peer_id message_id : string) (plaintext : bytes) : cm bool :=
  do! now <- now_secs;
  run! modify_mgr (fun m => set_processed (prune_processed now (processed_messages m)) m);
  do! now <- now_secs;
  do! m <- get_mgr;
  let messages := default ∅ (processed_messages m !! peer_id) in
  run! modify_mgr (set_processed
         (<[peer_id := <[message_id := mkProcessed (Some (text_of plaintext)) now]> messages]>
            (processed_messages m)));
  rm_ret (bool_decide (messages !! message_id = None)).

(** [processed_message_id.is_some_and(|id| self.mark_processed(..))] *)
Definition mark_if (peer_id : string) (message_id : option string) (plaintext : bytes) : cm bool :=
  match message_id with
  | Some i => mark_processed peer_id i plaintext
  | None => rm_ret false
  end.

Definition unmark (peer_id : string) (inserted_marker : bool) (message_id : option string)
    (m : CryptoManager) : CryptoManager :=
  if inserted_marker then remove_processed peer_id (default EmptyString message_id) m else m.

Definition decrypt_existing (peer_id : string) (header : Ratchet.RatchetHeader)
    (ciphertext envelope_aad : bytes) (processed_message_id : option string) : cm bytes :=
  do! m <- get_mgr;
  do! original <- rm_lift (ok_or NoSession (sessions m !! peer_id));
  do! t <- draw;
  let '(r, ratchet') := Ratchet.decrypt (ce_random t 0) header ciphertext envelope_aad
                          (ps_ratchet original) in
  run! modify_mgr (fun m => set_sessions
         (<[peer_id := mkPeerSession ratchet' (ps_prekey_header original)
                         (ps_prekey_expires_at original)]> (sessions m)) m);
  do! plaintext <- rm_lift (map_err (fun _ => DecryptFailed) r);
  do! inserted_marker <- mark_if peer_id processed_message_id plaintext;
  do! r <- rm_try (persist_decrypt peer_id processed_message_id);
  match r with
  | Err error =>
      run! modify_mgr (fun m => unmark peer_id inserted_marker processed_message_id
             (set_sessions (<[peer_id := original]> (sessions m)) m));
      rm_fail (Persistence error)
  | Ok _ => rm_ret plaintext
  end.

Definition create_bob_session (m : CryptoManager) (sender_identity_key sender_ephemeral_key : bytes)
    (expected_spk_id : Z) (opk_id : option Z) : result CryptoError SessionState :=
  let? spk := ok_or BadEnvelope
    (head (filter (fun spk => spk_key_id spk = expected_spk_id)
       (option_list (stored_spk m) ++ previous_spks m))) in
  if negb (ed25519_from_bytes sender_identity_key) then Err BadEnvelope
  else
  let? opk_ref := match opk_id with
                  | Some id => let? k := ok_or BadEnvelope (stored_opks m !! id) in Ok (Some k)
                  | None => Ok None
                  end in
  let? bob_secret := map_err (fun _ => X3dhFailed)
    (bob_respond (identity m) spk opk_ref sender_identity_key sender_ephemeral_key) in
  Ok (initialize_bob bob_secret (RatchetKeyPair_from_bytes (spk_secret spk) (spk_public spk))).

Definition decrypt_prekey_envelope (peer_id : string) (v : Z)
    (sender_identity_key sender_ephemeral_key : string) (recipient_signed_prekey_id : Z)
    (recipient_one_time_prekey_id : option Z) (ratchet : Types.RatchetHeader)
    (ciphertext_b64 : string) (processed_message_id : option string) : cm bytes :=
  do! header <- rm_lift (decode_ratchet_header ratchet);
  do! sender_identity_key <- rm_lift (b64_decode_fixed 32 sender_identity_key BadEnvelope);
  do! sender_ephemeral_key <- rm_lift (b64_decode_fixed 32 sender_ephemeral_key BadEnvelope);
  let envelope_aad := Aad.prekey v sender_identity_key sender_ephemeral_key
                        recipient_signed_prekey_id recipient_one_time_prekey_id in
  do! ciphertext <- rm_lift (ok_or BadEnvelope (b64_decode ciphertext_b64));
  do! m <- get_mgr;
  if bool_decide (is_Some (sessions m !! peer_id))
  then decrypt_existing peer_id header ciphertext envelope_aad processed_message_id
  else
  do! session <- rm_lift (create_bob_session m sender_identity_key sender_ephemeral_key
                            recipient_signed_prekey_id recipient_one_time_prekey_id);
  do! t <- draw;
  let '(r, session) := Ratchet.decrypt (ce_random t 0) header ciphertext envelope_aad session in
  do! plaintext <- rm_lift (map_err (fun _ => DecryptFailed) r);
  run! modify_mgr (fun m => set_sessions (<[peer_id := mkPeerSession session None None]> (sessions m)) m);
  do! m <- get_mgr;
  let '(consumed_opk, m) :=
    match recipient_one_time_prekey_id with
    | Some opk_id => let '(o, m) := take_one_time_prekey opk_id m in ((fun k => (opk_id, k)) <$> o, m)
    | None => (None, m)
    end in
  run! modify_mgr (fun _ => m);
  do! inserted_marker <- mark_if peer_id processed_message_id plaintext;
  do! r <- rm_try (persist_decrypt peer_id processed_message_id);
  match r with
  | Err error =>
      run! modify_mgr (fun m =>
        let m := set_sessions (delete peer_id (sessions m)) m in
        let m := match consumed_opk with
                 | Some (opk_id, (opk, created_at)) => restore_one_time_prekey opk_id opk created_at m
                 | None => m
                 end in
        unmark peer_id inserted_marker processed_message_id m);
      rm_fail (Persistence error)
  | Ok _ => rm_ret plaintext
  end.

Definition decrypt_with_marker (peer_id : string) (envelope : EncryptedEnvelope)
    (processed_message_id : option string) : cm bytes :=
  if negb (version envelope =? PROTOCOL_VERSION) then rm_fail (UnsupportedVersion (version envelope))
  else
  run! rm_map_err Persistence check_persistence;
  do! now <- now_secs;
  run! rm_map_err Persistence (store (prune_processed_rows (saturating_sub now RETENTION_SECS)));
  run! modify_mgr (fun m => set_processed (prune_processed now (processed_messages m)) m);
  do! m <- get_mgr;
  if bool_decide (is_Some processed_message_id)
     && (MAX_PROCESSED_MESSAGES <=? processed_count (processed_messages m))
  then rm_fail ReplayLedgerFull
  else
  match Types.header envelope with
  | HPreKey ik ek spk opk ratchet =>
      decrypt_prekey_envelope peer_id (version envelope) ik ek spk opk ratchet
        (Types.ciphertext envelope) processed_message_id
  | HRatchet ratchet_header =>
      do! header <- rm_lift (decode_ratchet_header ratchet_header);
      do! ciphertext <- rm_lift (ok_or BadEnvelope (b64_decode (Types.ciphertext envelope)));
      decrypt_existing peer_id header ciphertext (Aad.ratchet (version envelope)) processed_message_id
  end.

Definition decrypt_message_to_text (peer_id : string) (message_id : MessageId)
    (envelope : EncryptedEnvelope) {E} : rm Client E InboundDecrypt :=
  if negb (version envelope =? PROTOCOL_VERSION) then rm_ret Failed
  else
  let message_id := uuid_to_string message_id in
  do! m <- get_mgr;
  match lookup_processed peer_id message_id (processed_messages m) with
  | Some processed =>
      rm_ret (match pending_plaintext processed with Some text => Pending text | None => Duplicate end)
  | None =>
      do! r <- rm_try (decrypt_with_marker peer_id envelope (Some message_id));
      rm_ret (match r with Ok plaintext => Pending (text_of plaintext) | Err _ => Failed end)
  end.

(** *** Pre-keys ([crypto_mgr_prekeys.rs]) *)

(** The clock is read also when there is nothing to expire. *)
Definition expire_stale_prekey_session (peer_id : string) : cm bool :=
  do! m <- get_mgr;
  do! now <- now_secs;
  match sessions m !! peer_id with
  | Some (mkPeerSession _ (Some _) (Some expires_at) as session) =>
      if expires_at <? now
      then
        run! modify_mgr (fun m => set_sessions (delete peer_id (sessions m)) m);
        do! r <- rm_try persist_state;
        match r with
        | Err error =>
            run! modify_mgr (fun m => set_sessions (<[peer_id := session]> (sessions m)) m);
            rm_fail (Persistence error)
        | Ok _ => rm_ret true
        end
      else rm_ret false
  | _ => rm_ret false
  end.

Definition persist_registration_keys (spk : SignedPreKey) (opks : list Keys.OneTimePreKey) : am unit :=
  do! m <- get_mgr;
  do! rotated_at <- now_secs;
  do! created_at <- now_secs;
  let next := match max_of (opk_key_id <$> opks) with
              | Some k => saturating_add u32_max k 1
              | None => next_one_time_prekey_id m
              end in
  run! modify_mgr (set_spks (Some spk) [] rotated_at (saturating_add u32_max (spk_key_id spk) 1));
  run! modify_mgr (set_opks (extend ((fun k => (opk_key_id k, k)) <$> opks) ∅)
         (Z.max next (next_one_time_prekey_id m))
         (extend ((fun k => (opk_key_id k, created_at)) <$> opks) ∅));
  do! r <- rm_try persist_state;
  match r with
  | Err error =>
      run! modify_mgr (set_spks (stored_spk m) (previous_spks m) (signed_prekey_rotated_at m)
                         (next_signed_prekey_id m));
      run! modify_mgr (set_opks (stored_opks m) (next_one_time_prekey_id m)
                         (one_time_prekey_created_at m));
      rm_fail error
  | Ok _ => rm_ret tt
  end.

Definition is_rotation (p : PendingOutbound) : bool :=
  match p with PSignedPreKeyRotation _ _ _ _ => true | _ => false end.

Definition rotation_item (i : MessageId) (spk : SignedPreKey) : PendingOutbound :=
  PSignedPreKeyRotation i (spk_key_id spk) (b64_encode (spk_public spk))
    (b64_encode (spk_signature spk)).

Definition queue_signed_prekey_rotation : cm bool :=
  do! m <- get_mgr;
  if existsb is_rotation (pending_outbound m) then rm_ret false
  else
  do! now <- now_secs;
  if negb (signed_prekey_rotated_at m =? 0)
     && (saturating_sub now (signed_prekey_rotated_at m) <? SIGNED_PREKEY_ROTATION_SECS)
  then rm_ret false
  else
  do! current <- rm_lift (ok_or NoSession (stored_spk m));
  do! after_current <- rm_lift (ok_or RatchetFailed (checked_add u32_max (spk_key_id current) 1));
  let key_id := Z.max (next_signed_prekey_id m) after_current in
  do! next_key_id <- rm_lift (ok_or RatchetFailed (checked_add u32_max key_id 1));
  run! rm_lift (ensure_capacity (pending_outbound m) 96);
  do! t <- draw;
  let new_spk := SignedPreKey_generate key_id (identity m) (ce_random t 0) in
  do! rotation_id <- new_message_id;
  let pending := rotation_item rotation_id new_spk in
  run! modify_mgr (set_spks (Some new_spk) (current :: previous_spks m) now next_key_id);
  run! modify_mgr (fun m => set_outbound (pending_outbound m ++ [pending]) m);
  do! r <- rm_try (persist_outbound pending);
  match r with
  | Err error =>
      run! modify_mgr (fun m' => set_outbound (removelast (pending_outbound m')) m');
      run! modify_mgr (fun m' => set_spks (head (previous_spks m')) (tail (previous_spks m'))
             (signed_prekey_rotated_at m) (next_signed_prekey_id m) m');
      rm_fail (Persistence error)
  | Ok _ => rm_ret true
  end.

Definition is_rotation_of (i : MessageId) (p : PendingOutbound) : bool :=
  match p with PSignedPreKeyRotation j _ _ _ => bool_decide (j = i) | _ => false end.

Definition confirm_accepted_signed_prekey_rotation (index : nat) (rotation_id : MessageId) : am unit :=
  run! check_persistence;
  do! m <- get_mgr;
  let dropped := drop SIGNED_PREKEY_PRIVATE_HISTORY (previous_spks m) in
  run! modify_mgr (fun m => set_spks (stored_spk m)
         (take SIGNED_PREKEY_PRIVATE_HISTORY (previous_spks m)) (signed_prekey_rotated_at m)
         (next_signed_prekey_id m) m);
  do! m' <- get_mgr;
  do! r <- rm_try (store (save_core_and_delete_outbound (core_state m') (uuid_to_string rotation_id)));
  match r with
  | Err error =>
      run! modify_mgr (fun m => set_spks (stored_spk m) (previous_spks m ++ dropped)
             (signed_prekey_rotated_at m) (next_signed_prekey_id m) m);
      rm_fail error
  | Ok _ => modify_mgr (fun m => set_outbound (delete index (pending_outbound m)) m)
  end.

Definition reconcile_rejected_signed_prekey_rotation (index : nat) (rotation_id : MessageId)
    (previously_accepted : bool) (current_key_id : Z) : am ClientMessage :=
  run! check_persistence;
  do! m <- get_mgr;
  do! restored <- rm_lift (ok_or (Bail "previous signed prekey missing") (head (previous_spks m)));
  do! after_current <- rm_lift (ok_or (Bail "signed prekey ID exhausted")
                                  (checked_add u32_max current_key_id 1));
  let replacement_key_id :=
    Z.max (Z.max (next_signed_prekey_id m) (saturating_add u32_max (spk_key_id restored) 1))
      after_current in
  do! next_key_id <- rm_lift (ok_or (Bail "signed prekey ID exhausted")
                                (checked_add u32_max replacement_key_id 1));
  do! t <- draw;
  let replacement_key := SignedPreKey_generate replacement_key_id (identity m) (ce_random t 0) in
  do! new_id <- new_message_id;
  let replacement := rotation_item new_id replacement_key in
  if previously_accepted && bool_decide (stored_spk m = None)
  then rm_fail (Bail "published signed prekey missing")
  else
  do! rejected_pending <- rm_lift (ok_or StoreFailure (pending_outbound m !! index));
  let history := if previously_accepted then option_list (stored_spk m) ++ previous_spks m
                 else previous_spks m in
  let dropped_history := drop SIGNED_PREKEY_PRIVATE_HISTORY history in
  do! now <- now_secs;
  run! modify_mgr (set_spks (Some replacement_key) (take SIGNED_PREKEY_PRIVATE_HISTORY history)
                     now next_key_id);
  run! modify_mgr (fun m => set_outbound (<[index := replacement]> (pending_outbound m)) m);
  do! m' <- get_mgr;
  do! r <- rm_try (store (save_core_and_replace_outbound (core_state m') (uuid_to_string rotation_id)
                            (correlation_id replacement) replacement));
  match r with
  | Err error =>
      run! modify_mgr (fun m' =>
        let '(current, prev) := if previously_accepted
                                then (head (previous_spks m'), tail (previous_spks m'))
                                else (stored_spk m, previous_spks m') in
        set_spks current (prev ++ dropped_history) (signed_prekey_rotated_at m)
          (next_signed_prekey_id m) m');
      run! modify_mgr (fun m' => set_outbound (<[index := rejected_pending]> (pending_outbound m')) m');
      rm_fail error
  | Ok _ => rm_ret (to_client_message replacement)
  end.

Definition confirm_signed_prekey_rotated (rotation_id : MessageId) (accepted previously_accepted : bool)
    (current_key_id : Z) : am (option ClientMessage) :=
  do! m <- get_mgr;
  match position (is_rotation_of rotation_id) (pending_outbound m) with
  | None => rm_ret None
  | Some index =>
      match pending_outbound m !! index with
      | Some (PSignedPreKeyRotation _ candidate_key_id _ _) =>
          if accepted && (candidate_key_id =? current_key_id)
          then run! confirm_accepted_signed_prekey_rotation index rotation_id; rm_ret None
          else
            do! msg <- reconcile_rejected_signed_prekey_rotation index rotation_id
                         previously_accepted current_key_id;
            rm_ret (Some msg)
      | _ => rm_fail (Bail "signed prekey rotation missing")
      end
  end.

Definition is_upload (p : PendingOutbound) : bool :=
  match p with PPreKeyUpload _ _ => true | _ => false end.
Definition is_upload_of (i : MessageId) (p : PendingOutbound) : bool :=
  match p with PPreKeyUpload j _ => bool_decide (j = i) | _ => false end.

Definition queue_prekey_replenishment : cm ClientMessage :=
  do! m <- get_mgr;
  match List.find is_upload (pending_outbound m) with
  | Some pending => rm_ret (to_client_message pending)
  | None =>
  let count := PREKEY_TARGET in
  do! t <- draw;
  do! generated <- rm_lift (map_err (fun _ => RatchetFailed)
                     (generate_one_time_prekeys (next_one_time_prekey_id m) count (ce_random t)));
  let prekeys := (fun k => Types.mkOneTimePreKey (opk_key_id k) (b64_encode (opk_public k)))
                   <$> generated in
  run! rm_lift (ensure_capacity (pending_outbound m) (Z.of_nat (length prekeys) * 48));
  do! now <- now_secs;
  let cutoff := saturating_sub now ONE_TIME_PREKEY_PRIVATE_RETENTION_SECS in
  let stale_ids := (filter (fun r => r.2 < cutoff) (map_to_list (one_time_prekey_created_at m))).*1 in
  let '(stale_keys, opks) := take_keys stale_ids (stored_opks m) in
  let '(stale_created_at, created) := take_keys stale_ids (one_time_prekey_created_at m) in
  let previous_next_id := next_one_time_prekey_id m in
  run! modify_mgr (set_opks opks previous_next_id created);
  do! next_id <- rm_lift (ok_or RatchetFailed (checked_add u32_max previous_next_id count));
  let generated_ids := opk_key_id <$> generated in
  do! created_at <- now_secs;
  run! modify_mgr (set_opks (extend ((fun k => (opk_key_id k, k)) <$> generated) opks) next_id
                     (extend ((fun k => (k, created_at)) <$> generated_ids) created));
  do! upload_id <- new_message_id;
  let pending := PPreKeyUpload upload_id prekeys in
  run! modify_mgr (fun m => set_outbound (pending_outbound m ++ [pending]) m);
  do! r <- rm_try (persist_outbound pending);
  match r with
  | Err error =>
      run! modify_mgr (fun m =>
        set_opks (extend stale_keys (fold_left (fun t k => delete k t) generated_ids (stored_opks m)))
          previous_next_id
          (extend stale_created_at
             (fold_left (fun t k => delete k t) generated_ids (one_time_prekey_created_at m)))
          (set_outbound (removelast (pending_outbound m)) m));
      rm_fail (Persistence error)
  | Ok _ => rm_ret (to_client_message pending)
  end
  end.

Definition confirm_prekeys_uploaded (upload_id : MessageId) (accepted : bool) (remaining : Z)
  : am (option ClientMessage) :=
  do! m <- get_mgr;
  match position (is_upload_of upload_id) (pending_outbound m) with
  | None => rm_ret None
  | Some index =>
      match pending_outbound m !! index with
      | Some (PPreKeyUpload _ prekeys as pending) =>
          run! modify_mgr (fun m => set_outbound (delete index (pending_outbound m)) m);
          let '(removed_keys, opks) :=
            if accepted then ([], stored_opks m)
            else take_keys (Types.key_id <$> prekeys) (stored_opks m) in
          let '(removed_created_at, created) :=
            take_keys removed_keys.*1 (one_time_prekey_created_at m) in
          run! modify_mgr (set_opks opks (next_one_time_prekey_id m) created);
          do! replacement <-
            (if accepted && (remaining <? PREKEY_TARGET)
             then
               do! r <- rm_try queue_prekey_replenishment;
               match r with
               | Ok upload => rm_ret (Some upload)
               | Err error =>
                   run! modify_mgr (fun m => set_outbound
                          (vec_insert index pending (pending_outbound m)) m);
                   rm_fail (Crypto error)
               end
             else rm_ret None);
          do! m' <- get_mgr;
          do! result <- rm_try (store (if accepted then delete_outbound (uuid_to_string upload_id)
                                       else save_core_and_delete_outbound (core_state m')
                                              (uuid_to_string upload_id)));
          match result with
          | Err error =>
              run! modify_mgr (fun m =>
                set_outbound (vec_insert index pending (pending_outbound m))
                  (set_opks (extend removed_keys (stored_opks m)) (next_one_time_prekey_id m)
                     (extend removed_created_at (one_time_prekey_created_at m)) m));
              rm_fail error
          | Ok _ => rm_ret replacement
          end
      | _ => rm_ret None
      end
  end.
End Manager.
