(* ===== verification/CryptoMgrInv.v ===== *)
(** * Memory and disk of the client agree: the invariant

    The well-formedness of the manager ([opks_wf], [spks_wf], [sess_wf],
    [out_wf], [proc_wf]) and its agreement with the file ([synced]), with the
    lemmas by which single changes preserve them.  The outbox agrees up to the
    place of a pending key rotation (a replaced rotation keeps its place in
    memory and moves to the end of the table), and the ledger on every entry
    younger than the retention period. *)
From stdpp Require Import base numbers list strings gmap.
From S2P Require Import Prelude Consts Types Primitives Keys X3dh Ratchet SqlDb ServerWorld CryptoStore CryptoMgr.
Local Open Scope Z_scope.
Local Open Scope cmp_scope.

(** ** Lists and maps *)

Lemma position_lookup {A} (p : A -> bool) l i :
  position p l = Some i -> exists x, l !! i = Some x /\ p x = true.
Proof.
  revert i. induction l as [|x l IH]; intros i; simpl; [done|].
  destruct (p x) eqn:E; [intros [= <-]; simpl; eauto|].
  destruct (position p l) as [j|]; [|done]. intros [= <-]. apply IH. done.
Qed.

Lemma vec_insert_delete {A} i (x : A) l : l !! i = Some x -> vec_insert i x (delete i l) = l.
Proof.
  unfold vec_insert. revert i. induction l as [|y l IH]; intros [|i] Hi; simpl in *; try done.
  - by injection Hi as ->.
  - f_equal. by apply IH.
Qed.

Lemma removelast_snoc {A} (l : list A) x : removelast (l ++ [x]) = l.
Proof. apply removelast_last. Qed.

Lemma filter_delete {A B} `{!EqDecision B} (f : A -> B) l i x :
  NoDup (f <$> l) -> l !! i = Some x -> filter (fun y => f y <> f x) l = delete i l.
Proof.
  revert i. induction l as [|y l IH]; intros i Hnd Hi; [done|].
  rewrite fmap_cons in Hnd. apply NoDup_cons in Hnd as [Hni Hnd].
  destruct i as [|i]; simpl in Hi.
  - injection Hi as ->. rewrite filter_cons_False by tauto. simpl. apply filter_all.
    intros z Hz E. apply Hni. rewrite <- E. by apply list_elem_of_fmap_2.
  - rewrite filter_cons_True.
    + simpl. f_equal. by apply IH.
    + intros E. apply Hni. rewrite E. apply list_elem_of_fmap_2. by eapply list_elem_of_lookup_2.
Qed.

Lemma filter_comm {A} (P Q : A -> Prop) `{!forall x, Decision (P x), !forall x, Decision (Q x)}
    (l : list A) :
  filter P (filter Q l) = filter Q (filter P l).
Proof.
  induction l as [|x l IH]; [done|]. rewrite !filter_cons.
  destruct (decide (P x)), (decide (Q x)); rewrite ?filter_cons; repeat case_decide; try done; congruence.
Qed.

Lemma extend_cons {A} k (v : A) l m : extend ((k, v) :: l) m = extend l (<[k := v]> m).
Proof. done. Qed.

Lemma extend_lookup_notin {A} (l : list (Z * A)) m k : k ∉ l.*1 -> extend l m !! k = m !! k.
Proof.
  revert m. induction l as [|[j v] l IH]; intros m Hk; [done|].
  rewrite extend_cons. simpl in Hk. apply not_elem_of_cons in Hk as [Hj Hk].
  by rewrite IH, lookup_insert_ne.
Qed.

Lemma extend_insert_comm {A} (l : list (Z * A)) m k v :
  k ∉ l.*1 -> extend l (<[k := v]> m) = <[k := v]> (extend l m).
Proof.
  revert m. induction l as [|[j w] l IH]; intros m Hk; [done|].
  simpl in Hk. apply not_elem_of_cons in Hk as [Hj Hk].
  rewrite !extend_cons, insert_insert_ne by done. by apply IH.
Qed.

Lemma extend_nodup {A} (l : list (Z * A)) m :
  NoDup l.*1 -> (forall k, k ∈ l.*1 -> m !! k = None) -> extend l m = list_to_map l ∪ m.
Proof.
  revert m. induction l as [|[k v] l IH]; intros m Hnd Hm.
  - rewrite list_to_map_nil. by rewrite (left_id_L ∅ (∪)).
  - rewrite list_to_map_cons. cbn [fmap list_fmap fst] in *. apply NoDup_cons in Hnd as [Hni Hnd]. rewrite extend_cons, extend_insert_comm by done.
    rewrite IH, insert_union_l; [done|done|]. intros j Hj. apply Hm. by right.
Qed.

(** Taking keys out of a map and putting them back. *)
Lemma take_keys_gen {A} (ids : list Z) (acc : list (Z * A)) (m : gmap Z A) :
  NoDup acc.*1 -> (forall k, k ∈ acc.*1 -> m !! k = None) ->
  let x := fold_left (fun acc k => match acc.2 !! k with
                          | Some v => (acc.1 ++ [(k, v)], delete k acc.2)
                          | None => acc
                          end) ids (acc, m) in
  NoDup x.1.*1 /\ (forall k, k ∈ x.1.*1 -> x.2 !! k = None)
  /\ list_to_map x.1 ∪ x.2 = list_to_map acc ∪ m
  /\ (forall k, x.2 !! k = if decide (k ∈ ids) then None else m !! k).
Proof.
  revert acc m. induction ids as [|k ids IH]; intros acc m Hnd Hd; simpl.
  - split; [done|]. split; [done|]. split; [done|]. done.
  - destruct (m !! k) as [v|] eqn:Hk.
    + assert (k ∉ acc.*1) as Hka by (intros Hin; rewrite Hd in Hk by done; done).
      destruct (IH (acc ++ [(k, v)]) (delete k m)) as (H1 & H2 & H3 & H4).
      * rewrite fmap_app. apply NoDup_app. split; [done|]. split; [|apply NoDup_singleton].
        intros j Hj Hk'. apply list_elem_of_singleton in Hk' as ->. done.
      * rewrite fmap_app. intros j [Hj|Hj]%elem_of_app.
        -- rewrite lookup_delete_ne by congruence. by apply Hd.
        -- apply list_elem_of_singleton in Hj as ->. apply lookup_delete_eq.
      * cbv zeta in *. split; [done|]. split; [done|]. split.
        -- rewrite H3, list_to_map_snoc by done. rewrite <- insert_union_l, insert_union_r.
           { by rewrite insert_delete_id. }
           by apply not_elem_of_list_to_map_1.
        -- intros j. rewrite H4. destruct (decide (j = k)) as [->|Hne].
           { rewrite lookup_delete_eq. rewrite (decide_True (P := k ∈ k :: ids)) by (by left).
             by destruct (decide _). }
           rewrite lookup_delete_ne by done. destruct (decide (j ∈ ids)), (decide (j ∈ k :: ids)); set_solver.
    + destruct (IH acc m Hnd Hd) as (H1 & H2 & H3 & H4). cbv zeta in *.
      split; [done|]. split; [done|]. split; [done|]. intros j. rewrite H4.
      destruct (decide (j = k)) as [->|Hne].
      { rewrite Hk. by destruct (decide _), (decide _). }
      destruct (decide (j ∈ ids)), (decide (j ∈ k :: ids)); set_solver.
Qed.

Lemma take_keys_spec {A} (ids : list Z) (m : gmap Z A) :
  let x := take_keys ids m in
  extend x.1 x.2 = m /\ NoDup x.1.*1 /\ (forall k, k ∈ x.1.*1 -> x.2 !! k = None)
  /\ (forall k, x.2 !! k = if decide (k ∈ ids) then None else m !! k).
Proof.
  unfold take_keys. destruct (take_keys_gen ids [] m) as (H1 & H2 & H3 & H4).
  - apply NoDup_nil_2.
  - intros k Hk. by apply elem_of_nil in Hk.
  - cbv zeta in *. split; [|done]. rewrite extend_nodup by done. rewrite H3. simpl.
    apply (left_id_L ∅ (∪)).
Qed.

Lemma take_keys_ids {A} (ids : list Z) (m : gmap Z A) k :
  k ∈ (take_keys ids m).1.*1 -> k ∈ ids /\ is_Some (m !! k).
Proof.
  destruct (take_keys_spec ids m) as (E & Hnd & Hn & Hl). intros Hk.
  assert ((take_keys ids m).2 !! k = None) as Hnone by (by apply Hn).
  rewrite Hl in Hnone. split.
  - destruct (decide (k ∈ ids)) as [|Hni]; [done|]. exfalso.
    rewrite <- E in Hnone. rewrite extend_nodup in Hnone by done.
    apply lookup_union_None in Hnone as [Hnone _]. apply not_elem_of_list_to_map_2 in Hnone. done.
  - rewrite <- E, extend_nodup by done. apply list_elem_of_fmap in Hk as ([j v] & -> & Hin).
    exists v. apply lookup_union_Some_l. by apply elem_of_list_to_map_1.
Qed.

(** ** Well-formedness of the manager *)

Definition valid_peer (p : string) : Prop := is_err (UserId_new p) = false.

Definition opks_wf (opks : gmap Z Keys.OneTimePreKey) (next : Z) (created : gmap Z Z) : Prop :=
  (forall k o, opks !! k = Some o -> opk_key_id o = k /\ saturating_add u32_max k 1 <= next)
  /\ (forall k, is_Some (opks !! k) <-> is_Some (created !! k))
  /\ LEGACY_PREKEY_ID_FLOOR <= next.

Definition spks_wf (cur : option SignedPreKey) (prev : list SignedPreKey) (next : Z) : Prop :=
  (forall k, cur = Some k -> saturating_add u32_max (spk_key_id k) 1 <= next)
  /\ 0 <= next
  /\ Forall (fun k => length (spk_signature k) = 64%nat) (option_list cur ++ prev).

Definition sess_wf (ss : gmap string PeerSession) : Prop :=
  forall p s, ss !! p = Some s -> valid_peer p /\ session_wf (ps_ratchet s).

Definition current_version (p : PendingOutbound) : Prop :=
  match p with
  | PMessage _ _ e | PReadReceipt _ _ e => version e = PROTOCOL_VERSION
  | _ => True
  end.

Definition out_wf (l : list PendingOutbound) : Prop :=
  NoDup (item_id <$> l) /\ Forall current_version l.

Record mgr_wf (m : CryptoManager) : Prop := {
  mw_opks : opks_wf (stored_opks m) (next_one_time_prekey_id m) (one_time_prekey_created_at m);
  mw_spks : spks_wf (stored_spk m) (previous_spks m) (next_signed_prekey_id m);
  mw_sess : sess_wf (sessions m);
  mw_out : out_wf (pending_outbound m);
}.

Section Sync.
Context `{CryptoPrims, Codecs, !CodecLaws, ClientEnv}.

(** ** The outbox *)

Definition out_rows (l : list PendingOutbound) : list (string * PendingOutbound) :=
  (fun p => (correlation_id p, p)) <$> l.
Abbreviation non_rotation := (fun r : string * PendingOutbound => is_rotation r.2 = false).

(** The table holds the pending items, those other than rotations in order. *)
Definition out_sync (l : list PendingOutbound) (rows : list (string * PendingOutbound)) : Prop :=
  rows ≡ₚ out_rows l /\ filter non_rotation rows = filter non_rotation (out_rows l).

#[export] Instance uuid_to_string_inj : Inj (=) (=) uuid_to_string.
Proof.
  intros i j E. pose proof (uuid_roundtrip i) as Hi. rewrite E, uuid_roundtrip in Hi. by injection Hi.
Qed.

Lemma out_rows_ids l : (out_rows l).*1 = uuid_to_string <$> (item_id <$> l).
Proof. unfold out_rows. by rewrite <- !list_fmap_compose. Qed.

Lemma out_rows_delete l i p :
  NoDup (item_id <$> l) -> l !! i = Some p ->
  filter (fun r : string * PendingOutbound => r.1 <> correlation_id p) (out_rows l)
  = out_rows (delete i l).
Proof.
  intros Hnd Hi. transitivity (delete i (out_rows l)).
  2:{ unfold out_rows. by rewrite list_fmap_delete. }
  apply (filter_delete fst (out_rows l) i (correlation_id p, p)).
  - rewrite out_rows_ids. by apply NoDup_fmap_2; [apply _|].
  - unfold out_rows. by rewrite list_lookup_fmap, Hi.
Qed.

Lemma out_sync_snoc l rows p :
  out_sync l rows -> out_sync (l ++ [p]) (rows ++ [(correlation_id p, p)]).
Proof.
  intros [Hp Hf]. unfold out_sync, out_rows. rewrite fmap_app. split.
  - by apply Permutation_app_tail.
  - rewrite !filter_app. by rewrite Hf.
Qed.

Lemma out_sync_delete l rows i p :
  NoDup (item_id <$> l) -> l !! i = Some p -> out_sync l rows ->
  out_sync (delete i l) (filter (fun r => r.1 <> correlation_id p) rows).
Proof.
  intros Hnd Hi [Hp Hf]. split.
  - rewrite Hp. by rewrite (out_rows_delete l i p).
  - rewrite <- (out_rows_delete l i p) by done. rewrite !(filter_comm non_rotation). by rewrite Hf.
Qed.

(** A replaced rotation keeps its place in memory and is last in the table. *)
Lemma out_sync_replace l rows i p q :
  NoDup (item_id <$> l) -> l !! i = Some p -> is_rotation p = true -> is_rotation q = true ->
  out_sync l rows ->
  out_sync (<[i := q]> l) (filter (fun r => r.1 <> correlation_id p) rows ++ [(correlation_id q, q)]).
Proof.
  intros Hnd Hi Hrp Hrq Hs. destruct (out_sync_delete _ _ _ _ Hnd Hi Hs) as [Hp Hf].
  assert (i < length l)%nat as Hlt by (by eapply lookup_lt_Some).
  rewrite insert_take_drop by done. rewrite delete_take_drop in Hp, Hf. unfold out_sync, out_rows in *.
  rewrite fmap_app, fmap_cons. rewrite fmap_app in Hp, Hf. split.
  - rewrite Hp, <- app_assoc. apply Permutation_app_head. by rewrite Permutation_app_comm.
  - rewrite !filter_app in *. rewrite Hf, !filter_cons_False by (simpl; congruence).
    by rewrite filter_nil, app_nil_r.
Qed.

Lemma out_sync_fresh l rows p :
  out_sync l rows -> correlation_id p ∉ rows.*1 -> item_id p ∉ item_id <$> l.
Proof.
  intros [Hp _] Hn Hin. apply Hn. rewrite Hp, out_rows_ids.
  by apply (list_elem_of_fmap_2 uuid_to_string).
Qed.

(** ** The replay ledger *)

(** The newest end of the retention period seen up to event [t]. *)
Fixpoint high (t : nat) : Z :=
  match t with
  | O => 0
  | S t' => Z.max (high t') (saturating_sub (ce_clock t') RETENTION_SECS)
  end.

Lemma high_mono t t' : (t <= t')%nat -> high t <= high t'.
Proof. induction 1; simpl; lia. Qed.

Lemma high_clock t : saturating_sub (ce_clock t) RETENTION_SECS <= high (S t).
Proof. simpl. lia. Qed.

(** Memory and table have the same entries, those past retention aside. *)
Definition proc_sync (cut : Z) (mem : gmap string (gmap string ProcessedMessage))
    (rows : gmap (string * string) ProcessedMessage) : Prop :=
  forall p i r, cut <= processed_at r ->
    (lookup_processed p i mem = Some r <-> rows !! (p, i) = Some r).

Lemma proc_sync_mono cut cut' mem rows :
  cut <= cut' -> proc_sync cut mem rows -> proc_sync cut' mem rows.
Proof. intros Hc Hs p i r Hr. apply Hs. lia. Qed.

(** Dropping peers without entries loses no entry. *)
Lemma lookup_retain p i (t : gmap string (gmap string ProcessedMessage)) :
  lookup_processed p i (filter (fun r => r.2 <> ∅) t) = lookup_processed p i t.
Proof.
  unfold lookup_processed. rewrite map_lookup_filter.
  destruct (t !! p) as [ms|]; simpl; [|done]. destruct (decide (ms = ∅)) as [->|].
  - by rewrite option_guard_False by tauto.
  - by rewrite option_guard_True.
Qed.

Lemma lookup_prune now mem p i :
  lookup_processed p i (prune_processed now mem)
  = match lookup_processed p i mem with
    | Some r => if decide (saturating_sub now RETENTION_SECS <= processed_at r) then Some r else None
    | None => None
    end.
Proof.
  unfold prune_processed. rewrite lookup_retain. unfold lookup_processed. rewrite lookup_fmap.
  destruct (mem !! p) as [ms|]; simpl; [|done]. rewrite map_lookup_filter.
  destruct (ms !! i) as [r|]; simpl; [|done].
  case_decide; [by rewrite option_guard_True|by rewrite option_guard_False].
Qed.

Lemma proc_sync_prune cut now mem rows :
  saturating_sub now RETENTION_SECS <= cut -> proc_sync cut mem rows ->
  proc_sync cut (prune_processed now mem) rows.
Proof.
  intros Hc Hs p i r Hr. rewrite <- (Hs p i r Hr). rewrite lookup_prune.
  destruct (lookup_processed p i mem) as [r'|]; [|done].
  case_decide; [done|]. split; [done|]. intros [= ->]. lia.
Qed.

Lemma proc_sync_prune_rows (cut cut' : Z) (mem : gmap string (gmap string ProcessedMessage))
    (rows : gmap (string * string) ProcessedMessage) :
  cut' <= cut -> proc_sync cut mem rows ->
  proc_sync cut mem (filter (fun r => ~ processed_at r.2 < cut') rows).
Proof.
  intros Hc Hs p i r Hr. rewrite (Hs p i r Hr). rewrite map_lookup_filter_Some. simpl.
  split; [|tauto]. intros E. split; [done|lia].
Qed.

Lemma lookup_processed_insert p i x mem p' i' :
  lookup_processed p' i' (<[p := <[i := x]> (default ∅ (mem !! p))]> mem)
  = if decide (p' = p /\ i' = i) then Some x else lookup_processed p' i' mem.
Proof.
  unfold lookup_processed. destruct (decide (p' = p)) as [->|Hp].
  - rewrite lookup_insert_eq. simpl. destruct (decide (i' = i)) as [->|Hi].
    + rewrite lookup_insert_eq. by rewrite decide_True.
    + rewrite lookup_insert_ne, decide_False by naive_solver. by destruct (mem !! p).
  - rewrite lookup_insert_ne, decide_False by naive_solver. done.
Qed.

Lemma proc_sync_insert cut p i x mem rows :
  proc_sync cut mem rows ->
  proc_sync cut (<[p := <[i := x]> (default ∅ (mem !! p))]> mem) (<[(p, i) := x]> rows).
Proof.
  intros Hs p' i' r Hr. rewrite lookup_processed_insert.
  destruct (decide (p' = p /\ i' = i)) as [[-> ->]|Hne].
  - by rewrite lookup_insert_eq.
  - rewrite lookup_insert_ne by naive_solver. by apply Hs.
Qed.

Lemma lookup_remove_processed p i m p' i' :
  lookup_processed p' i' (processed_messages (remove_processed p i m))
  = if decide (p' = p /\ i' = i) then None else lookup_processed p' i' (processed_messages m).
Proof.
  unfold remove_processed, lookup_processed.
  destruct (processed_messages m !! p) as [ms|] eqn:Hp; simpl.
  - destruct (decide (p' = p)) as [->|Hne].
    + rewrite Hp. simpl. case_bool_decide as He.
      * rewrite lookup_delete_eq. simpl. destruct (decide (p = p /\ i' = i)) as [|Hn]; [done|].
        assert (delete i ms !! i' = None) as Hd by (by rewrite He).
        rewrite lookup_delete_ne in Hd by naive_solver. done.
      * rewrite lookup_insert_eq. simpl. destruct (decide (p = p /\ i' = i)) as [[_ ->]|Hn].
        -- apply lookup_delete_eq.
        -- rewrite lookup_delete_ne by naive_solver. done.
    + rewrite decide_False by naive_solver.
      case_bool_decide; [by rewrite lookup_delete_ne|by rewrite lookup_insert_ne].
  - destruct (decide (p' = p /\ i' = i)) as [[-> ->]|]; [by rewrite Hp|done].
Qed.

Lemma lookup_processed_alter p i f p' i' (mem : gmap string (gmap string ProcessedMessage)) :
  lookup_processed p' i' (alter (alter (fun r => mkProcessed f (processed_at r)) i) p mem)
  = (if decide (p' = p /\ i' = i) then (fun r => mkProcessed f (processed_at r)) else id)
    <$> lookup_processed p' i' mem.
Proof.
  unfold lookup_processed. destruct (decide (p' = p)) as [->|Hp].
  - rewrite lookup_alter_eq. destruct (mem !! p) as [ms|]; simpl; [|done].
    destruct (decide (i' = i)) as [->|Hi].
    + rewrite lookup_alter_eq, decide_True by done. by destruct (ms !! i).
    + rewrite lookup_alter_ne, decide_False by naive_solver. by destruct (ms !! i').
  - rewrite lookup_alter_ne, decide_False by naive_solver. by destruct (mem !! p' ≫= _).
Qed.

Lemma proc_sync_alter (cut : Z) (p i : string) (f : option string)
    (mem : gmap string (gmap string ProcessedMessage)) (rows : gmap (string * string) ProcessedMessage) :
  proc_sync cut mem rows ->
  proc_sync cut (alter (alter (fun r => mkProcessed f (processed_at r)) i) p mem)
    (alter (fun r => mkProcessed f (processed_at r)) (p, i) rows).
Proof.
  intros Hs p' i' r Hr.
  rewrite lookup_processed_alter.
  destruct (decide (p' = p /\ i' = i)) as [[-> ->]|Hne].
  - rewrite lookup_alter_eq, !fmap_Some. split; intros (x & Hx & ->); simpl in Hr;
      exists x; (split; [|done]); by apply Hs.
  - rewrite lookup_alter_ne by naive_solver. rewrite option_fmap_id. by apply Hs.
Qed.

Lemma lookup_drop_processed ids mem p i :
  lookup_processed p i (drop_processed ids mem)
  = if decide (i ∈ uuid_to_string <$> ids) then None else lookup_processed p i mem.
Proof.
  unfold drop_processed. rewrite lookup_retain. revert mem. induction ids as [|j ids IH]; intros mem; [done|].
  simpl. rewrite IH. unfold lookup_processed. rewrite lookup_fmap.
  destruct (mem !! p) as [ms|]; simpl; [|by repeat case_decide].
  destruct (decide (i = uuid_to_string j)) as [->|Hne].
  - rewrite lookup_delete_eq. rewrite (decide_True (P := _ ∈ _ :: _)) by (by left). by case_decide.
  - rewrite lookup_delete_ne by done. repeat case_decide; set_solver.
Qed.

Lemma confirm_ack_rows (ids : list string) (rows : gmap (string * string) ProcessedMessage) p i :
  fold_left (fun t i => filter (fun r : string * string * ProcessedMessage => r.1.2 <> i) t) ids rows
    !! (p, i)
  = if decide (i ∈ ids) then None else rows !! (p, i).
Proof.
  revert rows. induction ids as [|j ids IH]; intros rows; [done|].
  simpl. rewrite IH. rewrite map_lookup_filter.
  destruct (rows !! (p, i)) as [r|]; simpl; [|by repeat case_decide].
  destruct (decide (i = j)) as [->|Hne].
  - rewrite option_guard_False by tauto. rewrite (decide_True (P := _ ∈ _ :: _)) by (by left).
    by case_decide.
  - rewrite option_guard_True by done. repeat case_decide; set_solver.
Qed.

Lemma proc_sync_drop cut ids mem rows :
  proc_sync cut mem rows ->
  proc_sync cut (drop_processed ids mem)
    (fold_left (fun t i => filter (fun r : string * string * ProcessedMessage => r.1.2 <> i) t)
       (uuid_to_string <$> ids) rows).
Proof.
  intros Hs p i r Hr. rewrite lookup_drop_processed, confirm_ack_rows.
  case_decide; [done|]. by apply Hs.
Qed.

(** ** The core document *)

(** A manager with nothing to write, as loaded from an empty file. *)
Definition core_fresh (m : CryptoManager) : Prop :=
  stored_spk m = None /\ previous_spks m = [] /\ signed_prekey_rotated_at m = 0
  /\ next_signed_prekey_id m = 0 /\ stored_opks m = ∅ /\ sessions m = ∅
  /\ next_one_time_prekey_id m = LEGACY_PREKEY_ID_FLOOR /\ one_time_prekey_created_at m = ∅.

Definition core_sync (m : CryptoManager) (row : option CoreState) : Prop :=
  match row with Some c => c = core_state m | None => core_fresh m end.

(** ** The invariant *)

Record synced (m : CryptoManager) (d : Disk) (t : nat) : Prop := {
  sy_core : core_sync m (core_state_row d);
  sy_out : out_sync (pending_outbound m) (outbox d);
  sy_proc : proc_sync (high t) (processed_messages m) (processed_rows d);
  sy_peers : forall p i r, processed_rows d !! (p, i) = Some r -> valid_peer p;
}.

Record client_inv (c : Client) : Prop := {
  ci_wf : mgr_wf (c_mgr c);
  ci_sync : synced (c_mgr c) (c_io c).1 (c_io c).2;
}.

Lemma synced_tick m d t t' : (t <= t')%nat -> synced m d t -> synced m d t'.
Proof. intros Ht []. split; try done. by eapply proc_sync_mono; [apply high_mono|]. Qed.

(** Reading back what was written. *)

Lemma session_roundtrip s : session_wf s -> session_of_doc (session_to_doc s) = Ok s.
Proof.
  intros []. unfold session_of_doc, session_to_doc. simpl. rewrite deserialize_serialize by done.
  simpl. by destruct s.
Qed.

Lemma peer_roundtrip p : session_wf (ps_ratchet p) -> peer_of_doc (peer_to_doc p) = Some p.
Proof.
  intros Hp. unfold peer_of_doc, peer_to_doc. simpl. rewrite session_roundtrip by done.
  by destruct p.
Qed.

Lemma sessions_roundtrip ss : sess_wf ss -> sessions_of_doc (peer_to_doc <$> ss) = Ok ss.
Proof.
  intros Hs. unfold sessions_of_doc.
  assert (forallb (fun r => match peer_of_doc r.2 with Some _ => true | None => false end)
    (map_to_list (peer_to_doc <$> ss)) = true) as ->.
  { apply forallb_forall. intros [p d] Hin. apply list_elem_of_In, elem_of_map_to_list in Hin.
    apply lookup_fmap_Some in Hin as (s & <- & Hp). simpl.
    rewrite peer_roundtrip; [done|]. by eapply Hs. }
  f_equal. apply map_eq. intros p. rewrite lookup_omap, lookup_fmap.
  destruct (ss !! p) as [s|] eqn:Hp; simpl; [|done]. apply peer_roundtrip. by eapply Hs.
Qed.

Lemma spk_roundtrip k :
  length (spk_signature k) = 64%nat -> decode_stored_spk (spk_to_stored k) = Ok k.
Proof.
  intros Hl. unfold decode_stored_spk, spk_to_stored. simpl. rewrite b64_roundtrip. simpl.
  rewrite Hl. simpl. by destruct k.
Qed.

Lemma decode_all_roundtrip l :
  Forall (fun k => length (spk_signature k) = 64%nat) l -> decode_all (spk_to_stored <$> l) = Ok l.
Proof.
  induction 1 as [|k l Hk Hl IH]; [done|]. rewrite fmap_cons. cbn [decode_all].
  by rewrite spk_roundtrip, IH.
Qed.

Lemma spks_roundtrip cur prev next :
  spks_wf cur prev next ->
  exists n, decode_stored_spks (spk_to_stored <$> cur) (spk_to_stored <$> prev) = Ok (cur, prev, n)
    /\ n <= next.
Proof.
  intros (Hn & Hz & Hs). apply Forall_app in Hs as [Hc Hp]. unfold decode_stored_spks.
  rewrite decode_all_roundtrip by done. destruct cur as [k|].
  - apply (proj1 (Forall_singleton _ k)) in Hc. cbn [fmap option_fmap option_map]. rewrite (spk_roundtrip k Hc).
    eexists. split; [done|]. by apply Hn.
  - eexists. split; [done|]. done.
Qed.

Lemma opks_roundtrip opks next created :
  opks_wf opks next created ->
  decode_stored_opks ((fun r => mkStoredOpk (opk_key_id r.2) (opk_secret r.2) (opk_public r.2))
                        <$> map_to_list opks) = opks.
Proof.
  intros (Hk & _). unfold decode_stored_opks. rewrite <- list_fmap_compose.
  assert ((fun s => (so_key_id s, OneTimePreKey_from_parts (so_key_id s) (so_secret s) (so_public s)))
    ∘ (fun r : Z * Keys.OneTimePreKey => mkStoredOpk (opk_key_id r.2) (opk_secret r.2) (opk_public r.2))
    <$> map_to_list opks = map_to_list opks) as ->.
  { rewrite <- (list_fmap_id (map_to_list opks)) at 2. apply list_fmap_ext.
    intros i [k o] Hi. apply list_elem_of_lookup_2, elem_of_map_to_list in Hi.
    destruct (Hk _ _ Hi) as [E _]. simpl. rewrite E. destruct o. simpl in *. by subst. }
  rewrite extend_nodup.
  - rewrite list_to_map_to_list. apply (right_id_L ∅ (∪)).
  - apply NoDup_fst_map_to_list.
  - intros k _. apply lookup_empty.
Qed.

(** The creation times of a well-formed manager are exactly those it keeps. *)
Lemma created_roundtrip opks next created now :
  opks_wf opks next created ->
  filter (fun r => is_Some (opks !! r.1)) created ∪ ((fun _ => now) <$> opks) = created.
Proof.
  intros (_ & Hd & _). apply map_eq. intros k.
  destruct (created !! k) as [t|] eqn:Hc.
  - apply lookup_union_Some_l. apply map_lookup_filter_Some. split; [done|]. simpl.
    apply Hd. by rewrite Hc.
  - apply lookup_union_None. split.
    + apply map_lookup_filter_None. by left.
    + rewrite lookup_fmap. destruct (opks !! k) eqn:Ho; [|done].
      destruct (proj1 (Hd k)) as [x Hx]; [by rewrite Ho|]. congruence.
Qed.
End Sync.
