(* ===== verification/CryptoMgrFacts.v ===== *)
(** * Memory and disk of the client agree: sending and confirming

    A small weakest-precondition calculus for the manager's monad, and the
    proof that the operations that open sessions, enqueue outbound items and
    confirm them keep [client_inv] whatever store calls fail, and that an
    operation that reports an error has changed nothing durable. *)
From stdpp Require Import base numbers list strings gmap.
From S2P Require Import Prelude Consts Types Primitives Kdf Aad Keys X3dh Ratchet SqlDb ServerWorld CryptoStore CryptoMgr CryptoMgrInv.
Local Open Scope Z_scope.
Local Open Scope cmp_scope.

(** Everything of the manager that is written to the file, the ledger aside. *)
Definition durable (m : CryptoManager) :=
  (identity m, sessions m, stored_spk m, previous_spks m, signed_prekey_rotated_at m,
   next_signed_prekey_id m, stored_opks m, next_one_time_prekey_id m,
   one_time_prekey_created_at m, pending_outbound m).

(** ** Weakest preconditions *)

Definition wp {E A} (op : rm Client E A) (Q : result E A -> Client -> Prop) (c : Client) : Prop :=
  Q (op c).1 (op c).2.

Section Wp.
Context {E A : Type}.
Implicit Types (Q : result E A -> Client -> Prop).

Lemma wp_ret a Q c : Q (Ok a) c -> wp (rm_ret a) Q c.
Proof. done. Qed.
Lemma wp_fail e Q c : Q (Err e) c -> wp (rm_fail e) Q c.
Proof. done. Qed.
Lemma wp_lift r Q c : Q r c -> wp (rm_lift r) Q c.
Proof. done. Qed.
Lemma wp_mono Q Q' op c : wp op Q c -> (forall r c', Q r c' -> Q' r c') -> wp op Q' c.
Proof. unfold wp. auto. Qed.

Lemma wp_bind {B} (m : rm Client E B) (k : B -> rm Client E A) Q c :
  wp m (fun r c' => match r with Ok b => wp (k b) Q c' | Err e => Q (Err e) c' end) c ->
  wp (rm_bind m k) Q c.
Proof. unfold wp, rm_bind. destruct (m c) as [[b|e] c']; done. Qed.
End Wp.

Lemma wp_try {E F A} (op : rm Client E A) (Q : result F (result E A) -> Client -> Prop) c :
  wp op (fun r => Q (Ok r)) c -> wp (rm_try op) Q c.
Proof. unfold wp, rm_try. destruct (op c) as [r c']; done. Qed.
Lemma wp_map_err {E F A} (f : E -> F) (op : rm Client E A) Q c :
  wp op (fun r => Q (map_err f r)) c -> wp (rm_map_err f op) Q c.
Proof. unfold wp, rm_map_err. destruct (op c) as [r c']; done. Qed.
Lemma wp_get {E} (Q : result E CryptoManager -> Client -> Prop) m io :
  Q (Ok m) (mkClient m io) -> wp get_mgr Q (mkClient m io).
Proof. done. Qed.
Lemma wp_modify {E} f (Q : result E unit -> Client -> Prop) m io :
  Q (Ok tt) (mkClient (f m) io) -> wp (modify_mgr f) Q (mkClient m io).
Proof. done. Qed.
Lemma wp_check (Q : result AnyhowError unit -> Client -> Prop) m io :
  Q (Err StoreFailure) (mkClient m io) -> Q (Ok tt) (mkClient m io) ->
  wp check_persistence Q (mkClient m io).
Proof. intros He Ho. unfold wp, check_persistence, rm_bind. simpl. by destruct (fail_persistence m). Qed.

Section WpEnv.
Context `{ClientEnv}.

Lemma wp_draw {E} (Q : result E nat -> Client -> Prop) m d t :
  Q (Ok t) (mkClient m (d, S t)) -> wp draw Q (mkClient m (d, t)).
Proof. done. Qed.
Lemma wp_now {E} (Q : result E Z -> Client -> Prop) m d t :
  Q (Ok (ce_clock t)) (mkClient m (d, S t)) -> wp now_secs Q (mkClient m (d, t)).
Proof. done. Qed.
Lemma wp_new_id {E} (Q : result E MessageId -> Client -> Prop) m d t :
  Q (Ok (ce_uuid t)) (mkClient m (d, S t)) -> wp new_message_id Q (mkClient m (d, t)).
Proof. done. Qed.
Lemma wp_store f (Q : result AnyhowError unit -> Client -> Prop) m d t :
  Q (Err StoreFailure) (mkClient m (d, S t)) ->
  (forall d', f d = Some d' -> Q (Ok tt) (mkClient m (d', S t))) ->
  wp (store f) Q (mkClient m (d, t)).
Proof.
  intros He Ho. unfold wp, store, store_io. simpl. destruct (ce_fault t); [done|].
  destruct (f d) eqn:Ef; [by apply Ho|done].
Qed.
End WpEnv.

(** One step of the calculus. *)
Ltac wp_step :=
  lazymatch goal with
  | |- wp (rm_bind _ _) _ _ => apply wp_bind
  | |- wp (rm_ret _) _ _ => apply wp_ret
  | |- wp (rm_fail _) _ _ => apply wp_fail
  | |- wp (rm_lift _) _ _ => apply wp_lift
  | |- wp get_mgr _ _ => apply wp_get
  | |- wp (modify_mgr _) _ _ => apply wp_modify
  | |- wp draw _ _ => apply wp_draw
  | |- wp now_secs _ _ => apply wp_now
  | |- wp new_message_id _ _ => apply wp_new_id
  | |- wp (rm_try _) _ _ => apply wp_try
  | |- wp (rm_map_err _ _) _ _ => apply wp_map_err
  | |- wp check_persistence _ _ => apply wp_check
  | |- wp (store _) _ _ => apply wp_store; [|intros ? [= <-]]
  end.
Ltac wp_go := repeat (wp_step; cbv beta iota).

(** ** Safe operations *)

Section Safe.
Context `{CryptoPrims, Codecs, !CodecLaws, ClientEnv}.

(** What an operation on a client that agrees with its file gives: agreement
    again, and nothing durable changed when it failed. *)
Definition safe {E A} (m : CryptoManager) (r : result E A) (c : Client) : Prop :=
  client_inv c /\ identity (c_mgr c) = identity m
  /\ (is_err r = true -> durable (c_mgr c) = durable m).

Definition op_safe {E A} (op : rm Client E A) : Prop :=
  forall c, client_inv c -> safe (c_mgr c) (op c).1 (op c).2.

Lemma op_safe_intro {E A} (op : rm Client E A) :
  (forall m d t, client_inv (mkClient m (d, t)) -> wp op (safe m) (mkClient m (d, t))) -> op_safe op.
Proof. intros Hw [m [d t]]. apply Hw. Qed.

Lemma durable_core m m' : durable m' = durable m -> core_state m' = core_state m.
Proof.
  unfold durable, core_state. intros [= Ei Es Ek Ep Er En Eo Eno Ec Eq].
  by rewrite Es, Ek, Ep, Er, En, Eo, Eno, Ec.
Qed.

Lemma durable_wf m m' : durable m' = durable m -> mgr_wf m -> mgr_wf m'.
Proof.
  unfold durable. intros [= Ei Es Ek Ep Er En Eo Eno Ec Eq] []. split; by rewrite ?Es, ?Ek, ?Ep, ?En, ?Eo, ?Eno, ?Ec, ?Eq.
Qed.

Lemma durable_core_sync m m' row : durable m' = durable m -> core_sync m row -> core_sync m' row.
Proof.
  intros E. destruct row as [c|]; simpl.
  - by rewrite (durable_core m m').
  - unfold durable in E. injection E as Ei Es Ek Ep Er En Eo Eno Ec Eq.
    unfold core_fresh. by rewrite Es, Ek, Ep, Er, En, Eo, Eno, Ec.
Qed.

(** A changed manager with the same durable part. *)
Lemma inv_ledger m m' d rows t t' :
  client_inv (mkClient m (d, t)) -> durable m' = durable m ->
  proc_sync (high t') (processed_messages m') rows ->
  (forall p i r, rows !! (p, i) = Some r -> valid_peer p) ->
  client_inv (mkClient m' (mkDisk (core_state_row d) (outbox d) rows, t')).
Proof.
  intros [W [Sc So Sp Sv]] E Hp Hv. split; simpl in *.
  - by eapply durable_wf.
  - split; simpl; [by eapply durable_core_sync| |done|done].
    unfold durable in E. injection E as Ei Es Ek Ep Er En Eo Eno Ec Eq. by rewrite Eq.
Qed.

Lemma inv_keep m m' d t t' :
  client_inv (mkClient m (d, t)) -> durable m' = durable m ->
  processed_messages m' = processed_messages m -> (t <= t')%nat ->
  client_inv (mkClient m' (d, t')).
Proof.
  intros I E Ep Ht. destruct d as [row out rows].
  apply (inv_ledger m m' (mkDisk row out rows) rows t t' I E).
  - rewrite Ep. eapply proc_sync_mono; [by apply high_mono|]. apply I.
  - apply I.
Qed.

Lemma inv_pending_inits v m io :
  client_inv (mkClient m io) -> client_inv (mkClient (set_pending_inits v m) io).
Proof. destruct io as [d t]. intros I. by eapply inv_keep. Qed.

Lemma safe_err {E A} m m' d t t' (e : E) :
  client_inv (mkClient m (d, t)) -> durable m' = durable m ->
  processed_messages m' = processed_messages m -> (t <= t')%nat ->
  safe (A := A) m (Err e) (mkClient m' (d, t')).
Proof.
  intros I E' Ep Ht. split; [by eapply inv_keep|]. split; [|done]. simpl.
  by injection E'.
Qed.

Lemma safe_keep {E A} m d t t' (r : result E A) :
  client_inv (mkClient m (d, t)) -> (t <= t')%nat -> safe m r (mkClient m (d, t')).
Proof. intros I Ht. split; [by eapply inv_keep|]. done. Qed.

Lemma safe_ok {E A} m m' io (a : A) :
  client_inv (mkClient m' io) -> identity m' = identity m -> safe (E := E) m (Ok a) (mkClient m' io).
Proof. intros I Ei. split; [done|]. split; [done|]. done. Qed.

(** ** Well-formedness of a changed manager *)

Lemma wf_sessions ss m : mgr_wf m -> sess_wf ss -> mgr_wf (set_sessions ss m).
Proof. intros [] Hs. by split. Qed.
Lemma wf_pending_inits v m : mgr_wf m -> mgr_wf (set_pending_inits v m).
Proof. intros []. by split. Qed.
Lemma wf_processed v m : mgr_wf m -> mgr_wf (set_processed v m).
Proof. intros []. by split. Qed.
Lemma wf_outbound l m : mgr_wf m -> out_wf l -> mgr_wf (set_outbound l m).
Proof. intros [] Hl. by split. Qed.
Lemma wf_spks cur prev at_ next m :
  mgr_wf m -> spks_wf cur prev next -> mgr_wf (set_spks cur prev at_ next m).
Proof. intros [] Hl. by split. Qed.
Lemma wf_opks keys next created m :
  mgr_wf m -> opks_wf keys next created -> mgr_wf (set_opks keys next created m).
Proof. intros [] Hl. by split. Qed.

Lemma sess_wf_insert p s ss :
  valid_peer p -> session_wf (ps_ratchet s) -> sess_wf ss -> sess_wf (<[p := s]> ss).
Proof.
  intros Hp Hs Hss q x. destruct (decide (q = p)) as [->|Hne].
  - rewrite lookup_insert_eq. by intros [= <-].
  - rewrite lookup_insert_ne by done. apply Hss.
Qed.

Lemma sess_wf_delete p ss : sess_wf ss -> sess_wf (delete p ss).
Proof. intros Hss q x [_ Hx]%lookup_delete_Some. by eapply Hss. Qed.

Lemma out_wf_delete i l : out_wf l -> out_wf (delete i l).
Proof.
  intros [Hnd Hv]. split.
  - rewrite list_fmap_delete. eapply sublist_NoDup; [done|apply sublist_delete].
  - by apply Forall_delete.
Qed.

Lemma out_wf_snoc l rows p :
  out_wf l -> out_sync l rows -> correlation_id p ∉ rows.*1 -> current_version p ->
  out_wf (l ++ [p]).
Proof.
  intros [Hnd Hv] Hs Hf Hp. split.
  - rewrite fmap_app. apply NoDup_app. split; [done|]. split; [|apply NoDup_singleton].
    intros i Hi Hj. apply list_elem_of_singleton in Hj as ->. by eapply out_sync_fresh in Hf.
  - apply Forall_app. split; [done|]. by apply Forall_singleton.
Qed.

Lemma restore_entry_insert ss p s :
  restore_entry (<[p := s]> ss) p (ss !! p) = ss.
Proof.
  unfold restore_entry. destruct (ss !! p) as [x|] eqn:Hp.
  - by rewrite insert_insert_eq, insert_id.
  - by rewrite delete_insert_id.
Qed.

Lemma restore_entry_delete ss p : restore_entry (delete p ss) p (ss !! p) = ss.
Proof.
  unfold restore_entry. destruct (ss !! p) as [x|] eqn:Hp.
  - by rewrite insert_delete_id.
  - by rewrite (delete_id ss), (delete_id ss) by done.
Qed.

(** ** Writing the core document *)

Lemma wp_persist_state (Q : result AnyhowError unit -> Client -> Prop) m d t :
  (forall t', (t <= t')%nat -> Q (Err StoreFailure) (mkClient m (d, t'))) ->
  (forall t', (t <= t')%nat -> Q (Ok tt) (mkClient m (upsert_core_state (core_state m) d, t'))) ->
  wp persist_state Q (mkClient m (d, t)).
Proof. intros He Ho. unfold persist_state. wp_go; auto. Qed.

Lemma wp_persist_outbound p (Q : result AnyhowError unit -> Client -> Prop) m d t :
  (forall t', (t <= t')%nat -> Q (Err StoreFailure) (mkClient m (d, t'))) ->
  (forall t', (t <= t')%nat -> correlation_id p ∉ (outbox d).*1 ->
     Q (Ok tt) (mkClient m (mkDisk (Some (core_state m)) (outbox d ++ [(correlation_id p, p)])
                              (processed_rows d), t'))) ->
  wp (persist_outbound p) Q (mkClient m (d, t)).
Proof.
  intros He Ho. unfold persist_outbound. do 2 wp_step; [auto|]. do 2 wp_step. apply wp_store; [auto|].
  unfold save_core_and_enqueue, insert_outbox. intros d'. case_bool_decide; [done|].
  intros [= <-]. by apply Ho; [lia|].
Qed.

(** The client after a successful write of the core state. *)
Lemma saved_core_inv m m1 d t t' :
  client_inv (mkClient m (d, t)) -> mgr_wf m1 -> pending_outbound m1 = pending_outbound m ->
  processed_messages m1 = processed_messages m -> (t <= t')%nat ->
  client_inv (mkClient m1 (upsert_core_state (core_state m1) d, t')).
Proof.
  intros [_ S] W Eo Ep Ht. apply (synced_tick _ _ _ _ Ht) in S as [_ So Sp Sv]. split; [done|].
  split; simpl; try done; by rewrite ?Eo, ?Ep.
Qed.

(** The client after a successful write with a new outbox item. *)
Lemma enqueued_inv m m1 p d t t' :
  client_inv (mkClient m (d, t)) -> mgr_wf m1 -> correlation_id p ∉ (outbox d).*1 ->
  current_version p -> pending_outbound m1 = pending_outbound m ->
  processed_messages m1 = processed_messages m -> (t <= t')%nat ->
  client_inv (mkClient (set_outbound (pending_outbound m1 ++ [p]) m1)
    (mkDisk (Some (core_state m1)) (outbox d ++ [(correlation_id p, p)]) (processed_rows d), t')).
Proof.
  intros [W0 S] W Hf Hp Eo Ep Ht. apply (synced_tick _ _ _ _ Ht) in S as [_ So Sp Sv]. split.
  - apply wf_outbound; [done|]. rewrite Eo. by eapply out_wf_snoc; [apply W0| |..].
  - split; simpl; rewrite ?Eo, ?Ep; try done. by apply out_sync_snoc.
Qed.
End Safe.

(** Nothing happened but events of the environment. *)
Ltac keep_state :=
  match goal with I : client_inv (mkClient _ (_, ?t)) |- _ => apply (safe_keep _ _ t); [exact I|lia] end.

(** ** Sessions and sending *)

Section Sending.
Context `{CryptoPrims, Codecs, !CodecLaws, ClientEnv, !KdfLaws}.

Lemma init_session_safe peer bundle :
  valid_peer peer -> op_safe (init_session_from_bundle peer bundle).
Proof.
  intros Hpeer. apply op_safe_intro. intros m d t I. unfold init_session_from_bundle. wp_go.
  destruct (decode_bundle bundle) as [pb|e]; [|keep_state]. wp_go.
  destruct (alice_initiate _ _ _) as [x|e]; simpl; [|keep_state]. wp_go.
  destruct (initialize_alice_ok (shared_secret x) (pb_signed_prekey pb) (ce_random (S t) 0))
    as (s & -> & Hs). simpl. wp_go.
  apply wp_persist_state; intros t' Ht; wp_go.
  - apply (safe_err _ _ _ t); [done| |done|lia]. unfold durable. simpl. by rewrite restore_entry_insert.
  - apply safe_ok; [|done]. apply inv_pending_inits.
    eapply saved_core_inv; [done| |done|done|lia]. apply wf_sessions; [apply I|].
    apply sess_wf_insert; [done|done|apply I].
Qed.

Lemma expire_stale_safe peer : op_safe (expire_stale_prekey_session peer).
Proof.
  apply op_safe_intro. intros m d t I. unfold expire_stale_prekey_session. wp_go.
  destruct (sessions m !! peer) as [[ra [h|] [ex|]]|] eqn:Hs; wp_go;
    try (keep_state).
  destruct (ex <? ce_clock t); wp_go; [|keep_state].
  apply wp_persist_state; intros t' Ht; wp_go.
  - apply (safe_err _ _ _ t); [done| |done|lia]. unfold durable. simpl. by rewrite insert_delete_id.
  - apply safe_ok; [|done]. eapply saved_core_inv; [done| |done|done|lia].
    apply wf_sessions; [apply I|]. apply sess_wf_delete, I.
Qed.

(** Encrypting changes the session of the peer alone, and can be undone. *)
Lemma wp_advance_encryption peer pt (Q : result CryptoError (PeerSession * EncryptedEnvelope) -> Client -> Prop) m io :
  sess_wf (sessions m) ->
  (forall e, Q (Err e) (mkClient m io)) ->
  (forall s env ss, sess_wf ss -> <[peer := s]> ss = sessions m -> version env = PROTOCOL_VERSION ->
     Q (Ok (s, env)) (mkClient (set_sessions ss m) io)) ->
  wp (advance_encryption peer pt) Q (mkClient m io).
Proof.
  intros Hw He Ho. unfold advance_encryption. wp_go.
  destruct (sessions m !! peer) as [s|] eqn:Hs; [|apply He]. simpl.
  set (aad := match ps_prekey_header s with None => _ | Some _ => _ end).
  destruct (Hw _ _ Hs) as [Hp Hr].
  pose proof (encrypt_spec pt aad (ps_ratchet s)) as S.
  assert (session_wf (Ratchet.encrypt pt aad (ps_ratchet s)).2) as Hr'.
  { apply (session_wf_preserved _ pt aad [] (mkHeader [] 0 0) []); [done|]. by split. }
  destruct (Ratchet.encrypt pt aad (ps_ratchet s)) as [[msg|e] r']; simpl in Hr'; wp_go; cbn [map_err]; wp_go.
  - assert (forall h x, <[peer := s]> (<[peer := mkPeerSession r' h x]> (sessions m)) = sessions m) as Hb.
    { intros h x. rewrite insert_insert_eq. by apply insert_id. }
    assert (forall h x, sess_wf (<[peer := mkPeerSession r' h x]> (sessions m))) as Hi
      by (intros; by apply sess_wf_insert).
    destruct (ps_prekey_header s) as [x|]; wp_go.
    + assert (forall a b, set_sessions a (set_sessions b m) = set_sessions a m) as E by done.
      rewrite E. cbn [sessions set_sessions]. rewrite insert_insert_eq. by apply Ho.
    + by apply Ho.
  - destruct S as [-> _]. simpl.
    assert (mkPeerSession (ps_ratchet s) (ps_prekey_header s) (ps_prekey_expires_at s) = s) as ->
      by (by destruct s).
    rewrite insert_id by done. destruct m. apply He.
Qed.

(** [m] is the manager as written, [m1] the one that encrypted. *)
Lemma enqueue_outbound_safe p undo m m1 d t t' :
  client_inv (mkClient m (d, t)) -> mgr_wf m1 -> current_version p ->
  pending_outbound m1 = pending_outbound m -> processed_messages m1 = processed_messages m ->
  identity m1 = identity m -> (t <= t')%nat ->
  durable (undo m1) = durable m -> processed_messages (undo m1) = processed_messages m ->
  wp (enqueue_outbound p undo) (safe m) (mkClient m1 (d, t')).
Proof.
  intros I W Hp Eo Ep Ei Ht Eu Epu. unfold enqueue_outbound. wp_go.
  apply wp_persist_outbound; intros t2 Ht2; [|intros Hf]; wp_go.
  - cbn [pending_outbound set_outbound]. rewrite removelast_snoc.
    assert (set_outbound (pending_outbound m1) (set_outbound (pending_outbound m1 ++ [p]) m1) = m1) as ->
      by (by destruct m1).
    by apply (safe_err _ _ _ t); [| | |lia].
  - apply safe_ok; [|done]. by apply (enqueued_inv m m1 p d t); [| | | | | |lia].
Qed.

Lemma encrypt_message_safe peer recipient i pt : op_safe (encrypt_message peer recipient i pt).
Proof.
  apply op_safe_intro. intros m d t I. unfold encrypt_message. wp_go.
  destruct (existsb _ _); wp_go; [keep_state|].
  destruct (ensure_capacity _ _) as [[]|e]; [|keep_state]. wp_go.
  apply wp_advance_encryption; [apply I|intros; keep_state|].
  intros s env ss Hss Hb Hv. apply (enqueue_outbound_safe _ _ _ _ _ t); try done.
  - apply wf_sessions; [apply I|done].
  - unfold durable. simpl. by rewrite Hb.
Qed.

Lemma encrypt_read_receipt_safe json peer recipient ids :
  op_safe (encrypt_read_receipt json peer recipient ids).
Proof.
  apply op_safe_intro. intros m d t I. unfold encrypt_read_receipt. wp_go.
  destruct (ok_or _ _) as [pt|e]; [|keep_state].
  destruct (_ <? _); wp_go; [keep_state|].
  destruct (ensure_capacity _ _) as [[]|e]; [|keep_state]. wp_go.
  apply wp_advance_encryption; [apply I|intros; keep_state|].
  intros s env ss Hss Hb Hv. apply (enqueue_outbound_safe _ _ _ _ _ t); try done.
  - apply wf_sessions; [apply I|done].
  - lia.
  - unfold durable. simpl. by rewrite Hb.
Qed.

Lemma queue_ack_safe ids : op_safe (queue_ack ids).
Proof.
  apply op_safe_intro. intros m d t I. unfold queue_ack. wp_go.
  destruct (ensure_capacity _ _) as [[]|e]; [|keep_state]. wp_go.
  apply (enqueue_outbound_safe _ _ m m d t); try done; [apply I|lia].
Qed.

Lemma queue_read_receipt_ack_safe ids : op_safe (queue_read_receipt_ack ids).
Proof.
  apply op_safe_intro. intros m d t I. unfold queue_read_receipt_ack. wp_go.
  destruct (ensure_capacity _ _) as [[]|e]; [|keep_state]. wp_go.
  apply (enqueue_outbound_safe _ _ m m d t); try done; [apply I|lia].
Qed.

(** ** Confirmations *)

(** The file without an item that memory has dropped as well. *)
Lemma deleted_inv m m1 d d' t t' index p :
  client_inv (mkClient m (d, t)) -> pending_outbound m !! index = Some p -> mgr_wf m1 ->
  pending_outbound m1 = delete index (pending_outbound m) -> (t <= t')%nat ->
  core_sync m1 (core_state_row d') ->
  outbox d' = filter (fun r => r.1 <> correlation_id p) (outbox d) ->
  proc_sync (high t) (processed_messages m1) (processed_rows d') ->
  (forall p i r, processed_rows d' !! (p, i) = Some r -> valid_peer p) ->
  client_inv (mkClient m1 (d', t')).
Proof.
  intros [W [_ So _ _]] Hi W1 Eo Ht Hc Ed Hp Hv. split; [done|]. split; simpl; try done.
  - rewrite Eo, Ed. apply out_sync_delete; [apply W|done|done].
  - by eapply proc_sync_mono; [apply high_mono|].
Qed.

Lemma durable_put_back m index p :
  pending_outbound m !! index = Some p ->
  set_outbound (vec_insert index p (delete index (pending_outbound m)))
    (set_outbound (delete index (pending_outbound m)) m) = m.
Proof. intros Hi. rewrite vec_insert_delete by done. by destruct m. Qed.

Lemma remove_outbound_safe index p m d t :
  client_inv (mkClient m (d, t)) -> pending_outbound m !! index = Some p ->
  wp (remove_outbound index p (delete_outbound (correlation_id p))) (safe m) (mkClient m (d, t)).
Proof.
  intros I Hi. unfold remove_outbound. wp_go.
  - cbn [pending_outbound set_outbound]. rewrite durable_put_back by done.
    keep_state.
  - apply safe_ok; [|done]. destruct (I) as [W [Sc So Sp Sv]].
    eapply deleted_inv; [done|done| |done|lia|exact Sc|done|exact Sp|exact Sv].
    apply wf_outbound; [done|]. apply out_wf_delete, W.
Qed.

Lemma confirm_message_sent_safe i : op_safe (confirm_message_sent i).
Proof.
  apply op_safe_intro. intros m d t I. unfold confirm_message_sent. wp_go.
  destruct (position _ _) as [index|] eqn:Hpos; wp_go; [|keep_state].
  apply position_lookup in Hpos as (p & Hi & Hp). rewrite Hi. simpl.
  destruct p as [r j e| | | | |]; simpl in Hp; try done. apply bool_decide_eq_true in Hp as ->.
  by apply (remove_outbound_safe index (PMessage r i e)).
Qed.

Lemma confirm_read_receipt_sent_safe i : op_safe (confirm_read_receipt_sent i).
Proof.
  apply op_safe_intro. intros m d t I. unfold confirm_read_receipt_sent. wp_go.
  destruct (position _ _) as [index|] eqn:Hpos; wp_go; [|keep_state].
  apply position_lookup in Hpos as (p & Hi & Hp). rewrite Hi. simpl.
  destruct p as [|r j e| | | |]; simpl in Hp; try done. apply bool_decide_eq_true in Hp as ->.
  by apply (remove_outbound_safe index (PReadReceipt r i e)).
Qed.

Lemma reject_message_safe i : op_safe (reject_message i).
Proof.
  apply op_safe_intro. intros m d t I. unfold reject_message. wp_go.
  destruct (position _ _) as [index|] eqn:Hpos; wp_go; [|keep_state].
  apply position_lookup in Hpos as (p & Hi & Hp). rewrite Hi.
  destruct p as [r j e| | | | |]; simpl in Hp; try done. apply bool_decide_eq_true in Hp as ->. wp_go.
  - keep_state.
  - apply (safe_err _ _ _ t); [done| |done|lia]. unfold durable. simpl.
    by rewrite restore_entry_delete, vec_insert_delete.
  - apply safe_ok; [|done]. destruct (I) as [W [Sc So Sp Sv]].
    eapply deleted_inv; [done|done| |done|lia|done|done|exact Sp|exact Sv].
    apply wf_outbound; [apply wf_sessions; [done|apply sess_wf_delete, W]|]. apply out_wf_delete, W.
Qed.

Lemma confirm_acked_safe i ids : op_safe (confirm_acked i ids).
Proof.
  apply op_safe_intro. intros m d t I. unfold confirm_acked. wp_go.
  destruct (position _ _) as [index|] eqn:Hpos; wp_go; [|keep_state].
  apply position_lookup in Hpos as (p & Hi & Hp). rewrite Hi.
  assert (item_id p = i /\ exists a, p = PAck i a \/ p = PReadReceiptAck i a) as (Ei & a & Ea).
  { destruct p; simpl in Hp; try done; apply bool_decide_eq_true in Hp as ->; eauto. }
  assert (forall b, wp
     (if bool_decide (b <> ids) then rm_ret tt
      else do! pending <- rm_lift (ok_or StoreFailure (Some p));
           run! modify_mgr (fun m => set_outbound (delete index (pending_outbound m)) m);
           run! modify_mgr (fun m => set_processed (drop_processed b (processed_messages m)) m);
           do! r <- rm_try (store (confirm_ack (uuid_to_string i) (uuid_to_string <$> ids)));
           match r with
           | Err error =>
               run! modify_mgr (set_processed (processed_messages m));
               run! modify_mgr (fun m => set_outbound (vec_insert index pending (pending_outbound m)) m);
               rm_fail error
           | Ok _ => rm_ret tt
           end) (safe m) (mkClient m (d, t))) as Hgo.
  { intros b. case_bool_decide as Hb; wp_go; [keep_state|]. cbn [ok_or]. wp_go.
    - apply (safe_err _ _ _ t); [done| |done|lia]. unfold durable. simpl. by rewrite vec_insert_delete.
    - subst b. apply safe_ok; [|done]. destruct (I) as [W [Sc So Sp Sv]].
      eapply deleted_inv; [done|exact Hi| |done|lia|exact Sc| | |].
      + apply wf_processed, wf_outbound; [done|]. apply out_wf_delete, W.
      + simpl. unfold correlation_id. by rewrite Ei.
      + by apply proc_sync_drop.
      + simpl. intros q j r. rewrite confirm_ack_rows. case_decide; [done|]. apply Sv. }
  destruct Ea as [->| ->]; apply Hgo.
Qed.
End Sending.
