(* ===== verification/CryptoMgrRecv.v ===== *)
(** * Memory and disk of the client agree: receiving

    Decryption advances a session, may consume a one-time pre-key and enters
    the message into the replay ledger, all in one store transaction.  The
    operations keep [client_inv]; a failed one changes nothing durable; and a
    decrypted text stays retrievable until its storage is confirmed
    ([handoff_until_confirmed]). *)
From stdpp Require Import base numbers list strings gmap.
From S2P Require Import Prelude Consts Types Primitives Kdf Aad Keys X3dh Ratchet SqlDb ServerWorld CryptoStore CryptoMgr CryptoMgrInv CryptoMgrFacts.
Local Open Scope Z_scope.
Local Open Scope cmp_scope.

Abbreviation Rows := (gmap (string * string) ProcessedMessage).
Abbreviation Ledger := (gmap string (gmap string ProcessedMessage)).

Lemma alter_alter_processed (mem : Ledger) p i x :
  alter (alter (fun r => mkProcessed (pending_plaintext x) (processed_at r)) i) p
    (alter (alter (fun r => mkProcessed None (processed_at r)) i) p mem)
  = alter (alter (fun r => mkProcessed (pending_plaintext x) (processed_at r)) i) p mem.
Proof.
  rewrite alter_alter_eq. apply alter_ext. intros ms _. simpl.
  rewrite alter_alter_eq. by apply alter_ext.
Qed.

Lemma alter_processed_id (mem : Ledger) p i r :
  lookup_processed p i mem = Some r ->
  alter (alter (fun x => mkProcessed (pending_plaintext r) (processed_at x)) i) p mem = mem.
Proof.
  unfold lookup_processed. destruct (mem !! p) as [ms|] eqn:Hp; simpl; [|done]. intros Hi.
  apply alter_id. intros ms' Hms. assert (ms' = ms) as -> by congruence.
  apply alter_id. intros y Hy. assert (y = r) as -> by congruence. by destruct r.
Qed.

(** The wire headers carry [u32] counters. *)
Definition wire_u32 (h : Types.RatchetHeader) : Prop :=
  u32 (Types.previous_chain_length h) /\ u32 (Types.message_number h).
Definition envelope_u32 (e : EncryptedEnvelope) : Prop :=
  match Types.header e with HPreKey _ _ _ _ h | HRatchet h => wire_u32 h end.

Section Receiving.
Context `{CryptoPrims, Codecs, !CodecLaws, ClientEnv, !KdfLaws}.

Lemma confirm_inbound_stored_safe peer i : op_safe (confirm_inbound_stored peer i).
Proof.
  apply op_safe_intro. intros m d t I. unfold confirm_inbound_stored. wp_go.
  destruct (lookup_processed _ _ _) as [r|] eqn:Hr; wp_go; [| |keep_state].
  - apply (safe_err _ _ _ t); [done|done| |lia]. cbn [processed_messages set_processed].
    by rewrite alter_alter_processed, alter_processed_id.
  - apply safe_ok; [|done]. destruct (I) as [W [Sc So Sp Sv]].
    apply (inv_ledger m _ d _ t); [done|done| |].
    + apply proc_sync_alter. eapply proc_sync_mono; [|exact Sp]. apply high_mono. simpl. lia.
    + intros p j x Hx. destruct (decide ((peer, uuid_to_string i) = (p, j))) as [[= <- <-]|Hne].
      * rewrite lookup_alter_eq in Hx. apply fmap_Some in Hx as (y & Hy & _). by eapply Sv.
      * rewrite lookup_alter_ne in Hx by done. by eapply Sv.
Qed.

(** ** The ledger entry and the write *)

Lemma wp_persist_decrypt peer mid (Q : result AnyhowError unit -> Client -> Prop) m d t :
  (forall e t', (t <= t')%nat -> Q (Err e) (mkClient m (d, t'))) ->
  (forall t', (t <= t')%nat -> mid = None -> Q (Ok tt) (mkClient m (upsert_core_state (core_state m) d, t'))) ->
  (forall t' i x, (t <= t')%nat -> mid = Some i -> lookup_processed peer i (processed_messages m) = Some x ->
     Q (Ok tt) (mkClient m (mkDisk (Some (core_state m)) (outbox d)
                              (<[(peer, i) := x]> (processed_rows d)), t'))) ->
  wp (persist_decrypt peer mid) Q (mkClient m (d, t)).
Proof.
  intros He Hn Hs. unfold persist_decrypt. do 2 wp_step; [auto|]. do 2 wp_step.
  destruct mid as [i|].
  - do 2 wp_step. destruct (lookup_processed _ _ _) as [x|] eqn:Hx; simpl; [|auto].
    apply wp_store; [auto|]. unfold save_core_and_processed. intros d'.
    destruct (processed_rows d !! (peer, i)); [done|]. intros [= <-]. by apply Hs; [lia|..].
  - apply wp_store; [auto|]. intros d' [= <-]. by apply Hn; [lia|].
Qed.

(** The ledger after the entry is made, and after it is taken back. *)
Definition marked (peer i : string) (x : ProcessedMessage) (now : Z) (mem : Ledger) : Ledger :=
  <[peer := <[i := x]> (default ∅ (prune_processed now mem !! peer))]> (prune_processed now mem).

Lemma wp_mark_processed peer i pt (Q : result CryptoError bool -> Client -> Prop) m d t :
  lookup_processed peer i (processed_messages m) = None ->
  Q (Ok true) (mkClient (set_processed (marked peer i (mkProcessed (Some (text_of pt)) (ce_clock (S t)))
                                          (ce_clock t) (processed_messages m)) m) (d, S (S t))) ->
  wp (mark_processed peer i pt) Q (mkClient m (d, t)).
Proof.
  intros Hn Hq. unfold mark_processed. wp_go. cbn [processed_messages set_processed].
  assert (default ∅ (prune_processed (ce_clock t) (processed_messages m) !! peer) !! i = None) as Hi.
  { pose proof (lookup_prune (ce_clock t) (processed_messages m) peer i) as Hl. rewrite Hn in Hl.
    unfold lookup_processed in Hl. by destruct (prune_processed _ _ !! peer). }
  rewrite bool_decide_eq_true_2 by done. done.
Qed.

Lemma marked_sync (peer i : string) (x : ProcessedMessage) (t : nat) (mem : Ledger) (rows : Rows) (cut : Z) :
  proc_sync cut mem rows -> cut <= high (S t) ->
  proc_sync (high (S t)) (marked peer i x (ce_clock t) mem) (<[(peer, i) := x]> rows).
Proof.
  intros Hs Hc. apply proc_sync_insert, proc_sync_prune; [apply high_clock|].
  by eapply proc_sync_mono.
Qed.

Lemma unmarked_sync (peer i : string) (x : ProcessedMessage) (t : nat) (m : CryptoManager) (mem : Ledger)
    (rows : Rows) (cut : Z) :
  processed_messages m = marked peer i x (ce_clock t) mem ->
  lookup_processed peer i mem = None -> proc_sync cut mem rows -> cut <= high (S t) ->
  proc_sync (high (S t)) (processed_messages (remove_processed peer i m)) rows.
Proof.
  intros Em Hn Hs Hc p j r Hr. rewrite lookup_remove_processed, Em. unfold marked.
  rewrite lookup_processed_insert.
  destruct (decide (p = peer /\ j = i)) as [[-> ->]|Hne].
  - rewrite <- (Hs peer i r) by lia. by rewrite Hn.
  - apply (proc_sync_prune (high (S t))); [apply high_clock| |done]. by eapply proc_sync_mono.
Qed.

Lemma remove_processed_durable peer i m : durable (remove_processed peer i m) = durable m.
Proof. unfold remove_processed. by destruct (processed_messages m !! peer). Qed.

(** What a decryption of message [mid] gives: a [safe] result, and the text in
    the ledger when it succeeds. *)
Definition received (m : CryptoManager) (peer : string) (mid : option string)
    (r : result CryptoError bytes) (c : Client) : Prop :=
  safe m r c
  /\ forall i pt, mid = Some i -> r = Ok pt ->
       exists ts, lookup_processed peer i (processed_messages (c_mgr c))
                  = Some (mkProcessed (Some (text_of pt)) ts).

Lemma received_err m peer mid e c : safe (A := bytes) m (Err e) c -> received m peer mid (Err e) c.
Proof. by split. Qed.

(** The end of a decryption: [m] is the manager as written, [m1] the one with
    the advanced session, [undo] what a failure does to it. *)
Lemma commit_decrypt undo peer mid pt m m1 d t t' :
  client_inv (mkClient m (d, t)) -> mgr_wf m1 -> valid_peer peer ->
  pending_outbound m1 = pending_outbound m -> processed_messages m1 = processed_messages m ->
  identity m1 = identity m -> (t <= t')%nat ->
  (forall i, mid = Some i -> lookup_processed peer i (processed_messages m) = None) ->
  (forall v, durable (undo (set_processed v m1)) = durable m) ->
  (forall m', processed_messages (undo m') = processed_messages m') ->
  wp (do! inserted_marker <- mark_if peer mid pt;
      do! r <- rm_try (persist_decrypt peer mid);
      match r with
      | Err error =>
          run! modify_mgr (fun m => unmark peer inserted_marker mid (undo m));
          rm_fail (Persistence error)
      | Ok _ => rm_ret pt
      end) (received m peer mid) (mkClient m1 (d, t')).
Proof.
  intros I W Hv Eo Ep Ei Ht Hmid Hu Hup. destruct (I) as [W0 [Sc So Sp Sv]].
  wp_step. unfold mark_if. destruct mid as [i|].
  - specialize (Hmid i eq_refl). apply wp_mark_processed; [by rewrite Ep|].
    set (x := mkProcessed (Some (text_of pt)) (ce_clock (S t'))). rewrite Ep. set (mem' := marked _ _ _ _ _).
    assert (high t <= high (S t')) as Hh by (apply high_mono; lia).
    do 2 wp_step. apply wp_persist_decrypt; [intros e t2 Ht2|done|intros t2 i' y Ht2 [= <-] Hy]; wp_go.
    + apply received_err. unfold unmark. cbn [default]. split; [|split].
      * destruct d as [row out rows]. apply (inv_ledger m _ (mkDisk row out rows) rows t); [done| | |done].
        -- by rewrite remove_processed_durable.
        -- eapply proc_sync_mono; [apply (high_mono (S t') t2); lia|].
           apply (unmarked_sync peer i x t' _ (processed_messages m) _ (high t)); [|done|done|done].
           by rewrite Hup.
      * cbn [c_mgr]. pose proof (Hu mem') as E. rewrite <- (remove_processed_durable peer i) in E.
        by injection E.
      * intros _. cbn [c_mgr]. rewrite remove_processed_durable. apply Hu.
    + cbn [processed_messages set_processed] in Hy. unfold mem', marked in Hy.
      rewrite lookup_processed_insert, decide_True in Hy by done. injection Hy as <-.
      split.
      2:{ intros j pt' [= <-] [= <-]. exists (ce_clock (S t')). cbn. unfold mem', marked.
          rewrite lookup_processed_insert. by rewrite decide_True. }
      apply safe_ok; [|done]. split; [by apply wf_processed|]. split; simpl; [done|by rewrite Eo| |].
      * eapply proc_sync_mono; [apply (high_mono (S t') t2); lia|]. by eapply marked_sync.
      * intros p j r. destruct (decide ((peer, i) = (p, j))) as [[= <- <-]|Hne]; [done|].
        rewrite lookup_insert_ne by done. apply Sv.
  - wp_go. apply wp_persist_decrypt; [intros e t2 Ht2|intros t2 Ht2 _|done]; wp_go.
    + apply received_err. apply (safe_err _ _ _ t); [done| | |lia]; unfold unmark.
      * pose proof (Hu (processed_messages m1)) as E. by destruct m1.
      * by rewrite Hup.
    + split; [|done]. apply safe_ok; [|done]. apply (saved_core_inv m _ _ t); [done..|lia].
Qed.

(** ** Decryption *)

Lemma decode_header_u32 h h' : decode_ratchet_header h = Ok h' -> wire_u32 h -> header_u32 h'.
Proof.
  unfold decode_ratchet_header. destruct (b64_decode_fixed _ _ _); simpl; [|done]. by intros [= <-].
Qed.

Lemma decrypt_existing_safe peer h ct aad mid m d t t' :
  client_inv (mkClient m (d, t)) -> header_u32 h -> (t <= t')%nat ->
  (forall i, mid = Some i -> lookup_processed peer i (processed_messages m) = None) ->
  wp (decrypt_existing peer h ct aad mid) (received m peer mid) (mkClient m (d, t')).
Proof.
  intros I Hh Ht Hmid. unfold decrypt_existing. wp_go.
  destruct (sessions m !! peer) as [s|] eqn:Hs; [|apply received_err; keep_state]. simpl. wp_go.
  destruct (mw_sess _ (ci_wf _ I) _ _ Hs) as [Hp Hr]. cbn [c_mgr] in *.
  pose proof (session_wf_preserved (ps_ratchet s) [] aad (ce_random t' 0) h ct Hr Hh) as [_ Hr'].
  destruct (Ratchet.decrypt _ h ct aad (ps_ratchet s)) as [[pt|e] r'] eqn:Hd; wp_go; cbn [map_err].
  - apply (commit_decrypt (fun m => set_sessions (<[peer := s]> (sessions m)) m) _ _ _ _ _ _ t);
      try done; [|lia|].
    + apply wf_sessions; [apply I|]. apply sess_wf_insert; [done|done|apply I].
    + intros v. unfold durable. simpl. rewrite insert_insert_eq, insert_id by done. done.
  - apply decrypt_error_keeps_session in Hd as ->.
    assert (mkPeerSession (ps_ratchet s) (ps_prekey_header s) (ps_prekey_expires_at s) = s) as ->
      by (by destruct s).
    rewrite insert_id by done. apply received_err, (safe_err _ _ _ t); [done|done|done|lia].
Qed.

Lemma derive_x3dh_32 dh1 dh2 dh3 dh4 s : derive_x3dh_secret dh1 dh2 dh3 dh4 = Ok s -> key32 s.
Proof.
  unfold derive_x3dh_secret. set (ikm := _ ++ _).
  destruct (hkdf_expand_ok X3DH_SALT ikm HKDF_INFO_X3DH 32) as (x & -> & Hx); [lia|].
  by intros [= <-].
Qed.

Lemma create_bob_session_wf m ik ek spk opk s :
  create_bob_session m ik ek spk opk = Ok s -> session_wf s.
Proof.
  unfold create_bob_session. destruct (ok_or _ _) as [k|]; simpl; [|done].
  destruct (negb _); [done|]. destruct (match opk with Some _ => _ | None => _ end) as [o|]; simpl; [|done].
  destruct (bob_respond _ _ _ _ _) as [x|] eqn:Hb; simpl; [|done]. intros [= <-].
  apply initialize_bob_wf. by eapply derive_x3dh_32.
Qed.

(** Taking a one-time pre-key and putting it back. *)
Lemma opks_wf_delete keys next created k :
  opks_wf keys next created -> opks_wf (delete k keys) next (delete k created).
Proof.
  intros (Hk & Hd & Hn). split; [|split; [|done]].
  - intros j o [_ Ho]%lookup_delete_Some. by apply Hk.
  - intros j. destruct (decide (j = k)) as [->|Hne].
    + rewrite !lookup_delete_eq. done.
    + rewrite !lookup_delete_ne by done. apply Hd.
Qed.

Lemma insert_delete_or {A} (created : gmap Z A) k :
  match created !! k with Some x => <[k := x]> (delete k created) | None => delete k created end
  = created.
Proof.
  destruct (created !! k) eqn:E; [by apply insert_delete_id|by apply delete_id].
Qed.

Lemma decrypt_prekey_envelope_safe peer v ik ek spk opk h ct mid m d t t' :
  client_inv (mkClient m (d, t)) -> valid_peer peer -> wire_u32 h -> (t <= t')%nat ->
  (forall i, mid = Some i -> lookup_processed peer i (processed_messages m) = None) ->
  wp (decrypt_prekey_envelope peer v ik ek spk opk h ct mid) (received m peer mid) (mkClient m (d, t')).
Proof.
  intros I Hp Hh Ht Hmid. unfold decrypt_prekey_envelope. do 2 wp_step.
  destruct (decode_ratchet_header h) as [hd|e] eqn:Hhd; [|apply received_err; keep_state]. do 2 wp_step.
  destruct (b64_decode_fixed 32 ik _) as [ikb|e]; [|apply received_err; keep_state]. do 2 wp_step.
  destruct (b64_decode_fixed 32 ek _) as [ekb|e]; [|apply received_err; keep_state]. do 2 wp_step.
  destruct (ok_or BadEnvelope (b64_decode ct)) as [ctb|e]; [|apply received_err; keep_state]. do 2 wp_step.
  pose proof (decode_header_u32 _ _ Hhd Hh) as Hu.
  case_bool_decide as Hs; [by eapply decrypt_existing_safe|].
  apply eq_None_not_Some in Hs. do 2 wp_step.
  destruct (create_bob_session _ _ _ _ _) as [s|e] eqn:Hc; [|apply received_err; keep_state]. apply create_bob_session_wf in Hc.
  wp_go. set (aad := Aad.prekey v ikb ekb spk opk).
  pose proof (session_wf_preserved s [] aad (ce_random t' 0) hd ctb Hc Hu) as [_ Hr].
  destruct (Ratchet.decrypt _ hd ctb aad s) as [[pt|e] s'] eqn:Hd; wp_go; cbn [map_err];
    [|apply received_err, (safe_err _ _ _ t); [done|done|done|lia]]. wp_go.
  set (m1 := set_sessions _ m).
  assert (mgr_wf m1) as W1.
  { apply wf_sessions; [apply I|]. apply sess_wf_insert; [done|done|apply I]. }
  assert (delete peer (<[peer := mkPeerSession s' None None]> (sessions m)) = sessions m) as Hdel
    by (by apply delete_insert_id).
  destruct (match opk with Some _ => _ | None => _ end) as [co m2] eqn:Ho. wp_step. wp_step.
  unfold take_one_time_prekey in Ho.
  destruct opk as [k|]; [destruct (stored_opks m1 !! k) as [key|] eqn:Hk|];
    simpl in Ho; injection Ho as <- <-.
  - apply (commit_decrypt (fun m => restore_one_time_prekey k key (one_time_prekey_created_at m1 !! k)
      (set_sessions (delete peer (sessions m)) m)) _ _ _ _ _ _ t); try done; [|lia|].
    + apply wf_opks; [done|]. apply opks_wf_delete, I.
    + intros x. unfold restore_one_time_prekey, durable. simpl. rewrite Hdel.
      rewrite (insert_delete_id (stored_opks m)) by done. by rewrite insert_delete_or.
  - apply (commit_decrypt (fun m => set_sessions (delete peer (sessions m)) m) _ _ _ _ _ _ t); try done; [lia|].
    intros x. unfold durable. simpl. by rewrite Hdel.
  - apply (commit_decrypt (fun m => set_sessions (delete peer (sessions m)) m) _ _ _ _ _ _ t); try done; [lia|].
    intros x. unfold durable. simpl. by rewrite Hdel.
Qed.

Lemma safe_trans {E A} m m1 (r : result E A) c : durable m1 = durable m -> safe m1 r c -> safe m r c.
Proof.
  intros Ed (I & Ei & He). split; [done|]. split; [|by rewrite <- Ed].
  rewrite Ei. by injection Ed.
Qed.

Lemma pruned_inv m d t t' :
  client_inv (mkClient m (d, t)) -> (S t <= t')%nat ->
  client_inv (mkClient (set_processed (prune_processed (ce_clock t) (processed_messages m)) m)
    (mkDisk (core_state_row d) (outbox d)
       (filter (fun r => ~ processed_at r.2 < saturating_sub (ce_clock t) RETENTION_SECS)
          (processed_rows d)), t')).
Proof.
  intros I Ht. destruct (I) as [W [Sc So Sp Sv]]. simpl in *.
  pose proof (high_clock t) as Hc. pose proof (high_mono (S t) t' Ht) as Hm.
  pose proof (high_mono t (S t) ltac:(lia)) as Hm'.
  apply (inv_ledger m _ d _ t); [done|done| |].
  - apply proc_sync_prune; [lia|]. apply proc_sync_prune_rows; [lia|].
    by eapply proc_sync_mono; [|exact Sp]; lia.
  - intros p i r [Hr _]%map_lookup_filter_Some. by eapply Sv.
Qed.

Lemma decrypt_with_marker_safe peer env mid m d t :
  client_inv (mkClient m (d, t)) -> valid_peer peer -> envelope_u32 env ->
  (forall i, mid = Some i -> lookup_processed peer i (processed_messages m) = None) ->
  wp (decrypt_with_marker peer env mid) (received m peer mid) (mkClient m (d, t)).
Proof.
  intros I Hp Hu Hmid. unfold decrypt_with_marker.
  destruct (negb _); wp_go; cbn [map_err]; [apply received_err; keep_state|apply received_err; keep_state|wp_go]; cbn [map_err].
  - apply received_err; keep_state.
  - wp_go. set (m1 := set_processed (prune_processed (ce_clock t) (processed_messages m)) m).
    assert (client_inv (mkClient m1 (mkDisk (core_state_row d) (outbox d)
       (filter (fun r => ~ processed_at r.2 < saturating_sub (ce_clock t) RETENTION_SECS)
          (processed_rows d)), S (S t)))) as I1 by (apply pruned_inv; [done|lia]).
    assert (forall i, mid = Some i -> lookup_processed peer i (processed_messages m1) = None) as Hmid1.
    { intros i Hi. cbn. rewrite lookup_prune. by rewrite Hmid. }
    apply (wp_mono (received m1 peer mid)); [|intros r c' [Sa Hl]; split; [by apply (safe_trans m m1)|exact Hl]].
    destruct (_ && _); wp_go; [apply received_err; keep_state|]. unfold envelope_u32 in Hu.
    destruct (Types.header env) as [ik ek spk opk h|h].
    + by apply (decrypt_prekey_envelope_safe _ _ _ _ _ _ _ _ _ _ _ (S (S t))).
    + wp_go. destruct (decode_ratchet_header h) as [hd|] eqn:Hh; [|apply received_err; keep_state]. wp_go.
      destruct (ok_or BadEnvelope _); [|apply received_err; keep_state].
      apply (decrypt_existing_safe _ _ _ _ _ _ _ (S (S t))); try done. by eapply decode_header_u32.
Qed.

(** The verdict on a message, and the state after it: an unsupported version, a
    replay and a failure change nothing durable; a text is in the ledger. *)
Definition handed_off (m : CryptoManager) (peer : string) (i : MessageId) (r : InboundDecrypt)
    (c : Client) : Prop :=
  client_inv c /\ identity (c_mgr c) = identity m
  /\ match r with
     | Pending text => exists ts, lookup_processed peer (uuid_to_string i)
         (processed_messages (c_mgr c)) = Some (mkProcessed (Some text) ts)
     | _ => durable (c_mgr c) = durable m
     end.

Lemma decrypt_message_to_text_spec {E} peer i env c :
  client_inv c -> valid_peer peer -> envelope_u32 env ->
  exists r c', decrypt_message_to_text peer i env (E := E) c = (Ok r, c') /\ handed_off (c_mgr c) peer i r c'.
Proof.
  destruct c as [m [d t]]. intros I Hp Hu.
  assert (wp (decrypt_message_to_text peer i env (E := E))
    (fun r c' => exists x, r = Ok x /\ handed_off m peer i x c') (mkClient m (d, t))) as Hw.
  { unfold decrypt_message_to_text. destruct (negb _); wp_go; [by eexists|].
    destruct (lookup_processed _ _ _) as [[[tx|] ts]|] eqn:Hx; wp_go.
    - eexists. split; [done|]. split; [done|]. split; [done|]. by exists ts.
    - eexists. split; [done|]. by split.
    - eapply wp_mono; [by apply decrypt_with_marker_safe; [| | |intros j [= <-]]|].
      intros r c' [(I' & Ei & He) Hl]. wp_go. eexists. split; [done|]. split; [done|]. split; [done|].
      destruct r as [pt|e]; [by apply Hl|by apply He]. }
  unfold wp in Hw. destruct (decrypt_message_to_text _ _ _ _) as [r c']. cbn [fst snd] in Hw.
  destruct Hw as (x & Er & Hh). subst r. eauto.
Qed.

(** A known message is answered from the ledger, nothing touched. *)
Lemma decrypt_known {E} peer i env c p ts :
  version env = PROTOCOL_VERSION ->
  lookup_processed peer (uuid_to_string i) (processed_messages (c_mgr c)) = Some (mkProcessed p ts) ->
  decrypt_message_to_text peer i env (E := E) c
  = (Ok (match p with Some text => Pending text | None => Duplicate end), c).
Proof.
  intros Hv Hl. unfold decrypt_message_to_text. rewrite Hv, Z.eqb_refl. cbn [negb].
  unfold rm_bind, get_mgr. by rewrite Hl.
Qed.

(** The confirmation of storage leaves the bare entry. *)
Lemma confirm_inbound_entry peer i c c' p ts :
  lookup_processed peer (uuid_to_string i) (processed_messages (c_mgr c)) = Some (mkProcessed p ts) ->
  confirm_inbound_stored peer i c = (Ok tt, c') ->
  lookup_processed peer (uuid_to_string i) (processed_messages (c_mgr c')) = Some (mkProcessed None ts).
Proof.
  intros Hl E. pose proof (f_equal fst E) as E1. pose proof (f_equal snd E) as E2.
  cbn [fst snd] in E1, E2. subst c'.
  destruct c as [m [d t]]. cbn [c_mgr] in *. clear E.
  revert E1. change (wp (confirm_inbound_stored peer i) (fun r c' => r = Ok tt ->
    lookup_processed peer (uuid_to_string i) (processed_messages (c_mgr c')) = Some (mkProcessed None ts))
    (mkClient m (d, t))).
  unfold confirm_inbound_stored. wp_go. rewrite Hl. wp_go; [done|]. intros _.
  cbn. unfold lookup_processed in *. rewrite lookup_alter_eq.
  destruct (processed_messages m !! peer) as [ms|]; simpl in *; [|done].
  by rewrite lookup_alter_eq, Hl.
Qed.
End Receiving.
