(* ===== verification/CryptoMgrPrekeys.v ===== *)
(** * Memory and disk of the client agree: the life cycle of the pre-keys

    Registration, rotation of the signed pre-key and replenishment of the
    one-time pre-keys keep [client_inv].  A failed rotation or replenishment
    changes nothing durable; a confirmed upload whose removal fails after a
    new batch was queued leaves both in the outbox. *)
From stdpp Require Import base numbers list strings gmap.
From S2P Require Import Prelude Consts Types Primitives Kdf Aad Keys X3dh Ratchet SqlDb ServerWorld CryptoStore CryptoMgr CryptoMgrInv CryptoMgrFacts.
Local Open Scope Z_scope.
Local Open Scope cmp_scope.

(** ** Maps of keys *)

Lemma extend_lookup_cases {A} (l : list (Z * A)) (m : gmap Z A) k v :
  extend l m !! k = Some v -> (k, v) ∈ l \/ ((k ∉ l.*1) /\ m !! k = Some v).
Proof.
  revert m. induction l as [|[j w] l IH]; intros m.
  - intros Hk. right. split; [apply not_elem_of_nil|done].
  - rewrite extend_cons. intros [Hl|[Hn Hm]]%IH; [by left; right|].
    destruct (decide (k = j)) as [->|Hne].
    + rewrite lookup_insert_eq in Hm. injection Hm as ->. left. by left.
    + rewrite lookup_insert_ne in Hm by done. right. split; [|done].
      simpl. by apply not_elem_of_cons.
Qed.

Lemma extend_is_Some {A} (l : list (Z * A)) (m : gmap Z A) k :
  is_Some (extend l m !! k) <-> k ∈ l.*1 \/ is_Some (m !! k).
Proof.
  revert m. induction l as [|[j w] l IH]; intros m.
  - split; [by right|]. intros [Hk|Hm]; [by apply elem_of_nil in Hk|done].
  - rewrite extend_cons, IH, lookup_insert_is_Some. simpl. rewrite elem_of_cons.
    destruct (decide (j = k)); naive_solver.
Qed.

Lemma fold_delete_lookup {A} ids (m : gmap Z A) k :
  fold_left (fun t k => delete k t) ids m !! k = if decide (k ∈ ids) then None else m !! k.
Proof.
  revert m. induction ids as [|j ids IH]; intros m; [done|]. simpl. rewrite IH.
  destruct (decide (k = j)) as [->|Hne].
  - rewrite lookup_delete_eq. rewrite (decide_True (P := j ∈ j :: ids)) by (by left). by case_decide.
  - rewrite lookup_delete_ne by done. repeat case_decide; set_solver.
Qed.

(** Inserting fresh keys is undone by deleting them. *)
Lemma extend_undo {A} (l : list (Z * A)) (m : gmap Z A) :
  (forall k, k ∈ l.*1 -> m !! k = None) -> fold_left (fun t k => delete k t) l.*1 (extend l m) = m.
Proof.
  intros Hf. apply map_eq. intros k. rewrite fold_delete_lookup.
  case_decide as Hk; [by rewrite Hf|]. by apply extend_lookup_notin.
Qed.

Lemma take_keys_mem {A} ids (m : gmap Z A) k :
  k ∈ ids -> is_Some (m !! k) -> k ∈ (take_keys ids m).1.*1.
Proof.
  intros Hk Hm. destruct (take_keys_spec ids m) as (E & _ & _ & Hl).
  destruct (decide (k ∈ (take_keys ids m).1.*1)) as [|Hn]; [done|]. exfalso.
  rewrite <- E, extend_lookup_notin, Hl, decide_True in Hm by done. by destruct Hm.
Qed.

(** ** The one-time pre-keys *)

(** Keys that are held have been issued before the next identifier. *)
Lemma opks_fresh keys next created k :
  opks_wf keys next created -> next < u32_max -> next <= k -> keys !! k = None /\ created !! k = None.
Proof.
  intros (Hk & Hd & _) Hn Hle.
  destruct (keys !! k) as [o|] eqn:Ho.
  - destruct (Hk _ _ Ho) as [_ Hs]. unfold saturating_add in Hs. lia.
  - split; [done|]. apply eq_None_not_Some. rewrite <- Hd, Ho. by intros [? [=]].
Qed.

(** Dropping the same keys from both maps. *)
Lemma opks_wf_take keys next created keys' created' P :
  opks_wf keys next created ->
  (forall k, P k \/ ~ P k) ->
  (forall k, (P k -> keys' !! k = None) /\ (~ P k -> keys' !! k = keys !! k)) ->
  (forall k, (P k -> created' !! k = None) /\ (~ P k -> created' !! k = created !! k)) ->
  opks_wf keys' next created'.
Proof.
  intros (Hk & Hd & Hn) Dp Hk' Hc'. split; [|split; [|done]].
  - intros k o Ho. destruct (Dp k) as [Hp|Hp]; destruct (Hk' k) as [H1 H2].
    + rewrite H1 in Ho by done. done.
    + rewrite H2 in Ho by done. by apply Hk.
  - intros k. destruct (Dp k) as [Hp|Hp]; destruct (Hk' k) as [H1 H2], (Hc' k) as [H3 H4].
    + rewrite H1, H3 by done. by split; intros [? [=]].
    + rewrite H2, H4 by done. apply Hd.
Qed.

Lemma opks_wf_take_same keys next created ids :
  opks_wf keys next created -> opks_wf (take_keys ids keys).2 next (take_keys ids created).2.
Proof.
  intros W. apply (opks_wf_take keys next created _ _ (fun k => k ∈ ids) W).
  - intros k. destruct (decide (k ∈ ids)); auto.
  - intros k. destruct (take_keys_spec ids keys) as (_ & _ & _ & ->). case_decide; naive_solver.
  - intros k. destruct (take_keys_spec ids created) as (_ & _ & _ & ->). case_decide; naive_solver.
Qed.

(** As [confirm_prekeys_uploaded] does it: the creation times of the keys that
    were found. *)
Lemma opks_wf_take_found keys next created ids :
  opks_wf keys next created ->
  opks_wf (take_keys ids keys).2 next (take_keys (take_keys ids keys).1.*1 created).2.
Proof.
  intros W. apply (opks_wf_take keys next created _ _ (fun k => k ∈ (take_keys ids keys).1.*1) W).
  - intros k. destruct (decide (k ∈ (take_keys ids keys).1.*1)); auto.
  - intros k. destruct (take_keys_spec ids keys) as (_ & _ & Hn & Hl). split; [apply Hn|].
    intros Hni. rewrite Hl. case_decide as Hk; [|done].
    destruct (keys !! k) eqn:Ho; [|done]. exfalso. apply Hni, take_keys_mem; [done|by rewrite Ho].
  - intros k. destruct (take_keys_spec (take_keys ids keys).1.*1 created) as (_ & _ & _ & ->).
    case_decide; naive_solver.
Qed.

Lemma batch_ids (gen : list Keys.OneTimePreKey) :
  ((fun k => (opk_key_id k, k)) <$> gen).*1 = opk_key_id <$> gen.
Proof. by rewrite <- list_fmap_compose. Qed.
Lemma stamp_ids (ids : list Z) (now : Z) : ((fun k => (k, now)) <$> ids).*1 = ids.
Proof. rewrite <- list_fmap_compose. apply list_fmap_id. Qed.

(** Adding a freshly generated batch. *)
Lemma opks_wf_extend keys next created (gen : list Keys.OneTimePreKey) n now :
  opks_wf keys next created -> 0 <= n ->
  (forall k, k ∈ gen -> next <= opk_key_id k < next + n) ->
  opks_wf (extend ((fun k => (opk_key_id k, k)) <$> gen) keys) (next + n)
    (extend ((fun k => (k, now)) <$> (opk_key_id <$> gen)) created).
Proof.
  intros (Hk & Hd & Hn) Hn0 Hg. split; [|split; [|lia]].
  - intros k o [Hin|[_ Ho]]%extend_lookup_cases.
    + apply list_elem_of_fmap in Hin as (x & [= -> ->] & Hx). split; [done|].
      pose proof (Hg _ Hx). unfold saturating_add. lia.
    + destruct (Hk _ _ Ho). split; [done|]. lia.
  - intros k. rewrite !extend_is_Some, Hd, batch_ids, stamp_ids. done.
Qed.

Section Prekeys.
Context `{CryptoPrims, Codecs, !CodecLaws, ClientEnv, !SignatureLaws}.

Lemma generated_range start count rng ks :
  0 <= count -> generate_one_time_prekeys start count rng = Ok ks ->
  start + count <= u32_max /\ (forall k, k ∈ ks -> start <= opk_key_id k < start + count).
Proof.
  intros Hc. unfold generate_one_time_prekeys.
  destruct (checked_add u32_max start count) as [e|] eqn:He; simpl; [|done].
  apply checked_add_Some in He as [-> Hle]. intros [= <-]. split; [done|].
  intros k Hk. apply list_elem_of_fmap in Hk as (i & -> & Hi). simpl. apply elem_of_seq in Hi. lia.
Qed.

(** [queue_prekey_replenishment] from a manager whose one-time pre-keys are
    well formed: it fails and restores everything, returns the upload that is
    pending, or queues one. *)
Lemma wp_replenish (Q : result CryptoError ClientMessage -> Client -> Prop) m d t :
  opks_wf (stored_opks m) (next_one_time_prekey_id m) (one_time_prekey_created_at m) ->
  (forall e t', (t <= t')%nat -> Q (Err e) (mkClient m (d, t'))) ->
  (forall msg, Q (Ok msg) (mkClient m (d, t))) ->
  (forall t' p keys next created, (t <= t')%nat -> opks_wf keys next created -> is_upload p = true ->
     correlation_id p ∉ (outbox d).*1 ->
     let m1 := set_opks keys next created m in
     Q (Ok (to_client_message p)) (mkClient (set_outbound (pending_outbound m ++ [p]) m1)
       (mkDisk (Some (core_state m1)) (outbox d ++ [(correlation_id p, p)]) (processed_rows d), t'))) ->
  wp queue_prekey_replenishment Q (mkClient m (d, t)).
Proof.
  intros W He Hf Hs. unfold queue_prekey_replenishment. wp_go.
  destruct (List.find is_upload (pending_outbound m)) as [p|]; wp_go; [apply Hf|].
  destruct (generate_one_time_prekeys _ _ _) as [gen|e] eqn:Hg; cbn [map_err]; [|by apply He; lia].
  assert (0 <= PREKEY_TARGET) as Hc0 by (by vm_compute).
  destruct (generated_range _ _ _ _ Hc0 Hg) as [Hle Hr]. wp_go.
  destruct (ensure_capacity _ _) as [[]|e]; [|by apply He; lia]. wp_go.
  set (stale := (filter _ (map_to_list (one_time_prekey_created_at m))).*1).
  destruct (take_keys_spec stale (stored_opks m)) as (Eo & _ & _ & Lo).
  destruct (take_keys_spec stale (one_time_prekey_created_at m)) as (Ec & _ & _ & Lc).
  pose proof (opks_wf_take_same _ _ _ stale W) as W1.
  destruct (take_keys stale (stored_opks m)) as [sk opks] eqn:E1.
  destruct (take_keys stale (one_time_prekey_created_at m)) as [sc created] eqn:E2. simpl in *.
  wp_go. rewrite checked_add_fits by done. cbn [ok_or]. wp_go.
  assert (forall k, k ∈ opk_key_id <$> gen -> opks !! k = None /\ created !! k = None) as Hfresh.
  { intros k Hk. apply list_elem_of_fmap in Hk as (x & -> & Hx). apply Hr in Hx.
    eapply opks_fresh; [exact W1|lia|lia]. }
  apply wp_persist_outbound; [intros t' Ht|intros t' Ht Hfr]; wp_go.
  - cbn [stored_opks one_time_prekey_created_at set_opks set_outbound pending_outbound].
    rewrite removelast_snoc.
    pose proof (extend_undo ((fun k => (opk_key_id k, k)) <$> gen) opks) as U1.
    pose proof (extend_undo ((fun k => (k, ce_clock (S (S t)))) <$> (opk_key_id <$> gen)) created) as U2.
    rewrite batch_ids in U1. rewrite stamp_ids in U2.
    rewrite U1, U2, Eo, Ec by (intros k Hk; by apply Hfresh).
    assert (forall a b, set_opks (stored_opks m) (next_one_time_prekey_id m) (one_time_prekey_created_at m)
      (set_outbound (pending_outbound m) (set_outbound a b)) = set_opks (stored_opks m)
        (next_one_time_prekey_id m) (one_time_prekey_created_at m) (set_outbound (pending_outbound m) b)) as -> by done.
    destruct m. by apply He; lia.
  - apply (Hs t' (PPreKeyUpload (ce_uuid (S (S (S t)))) _)
      (extend ((fun k => (opk_key_id k, k)) <$> gen) opks) (next_one_time_prekey_id m + PREKEY_TARGET)
      (extend ((fun k => (k, ce_clock (S (S t)))) <$> (opk_key_id <$> gen)) created));
      [lia| |done|done]. by apply opks_wf_extend.
Qed.

Lemma queue_prekey_replenishment_safe : op_safe queue_prekey_replenishment.
Proof.
  apply op_safe_intro. intros m d t I. apply wp_replenish; [apply I|intros; keep_state|intros; keep_state|].
  intros t' p keys next created Ht W Hp Hf. cbv zeta. apply safe_ok; [|done].
  apply (enqueued_inv m (set_opks keys next created m) p d t); try done.
  - apply wf_opks; [apply I|done].
  - by destruct p.
Qed.

(** The keys generated at registration. *)
Lemma registration_opks_wf keys next created (opks : list Keys.OneTimePreKey) now :
  opks_wf keys next created ->
  let n := match max_of (opk_key_id <$> opks) with
           | Some k => saturating_add u32_max k 1 | None => next end in
  opks_wf (extend ((fun k => (opk_key_id k, k)) <$> opks) ∅) (Z.max n next)
    (extend ((fun k => (opk_key_id k, now)) <$> opks) ∅).
Proof.
  intros (_ & _ & Hn). cbv zeta. split; [|split; [|lia]].
  - intros k o [Hin|[_ Ho]]%extend_lookup_cases; [|by rewrite lookup_empty in Ho].
    apply list_elem_of_fmap in Hin as (x & [= -> ->] & Hx). split; [done|].
    assert (opk_key_id x ∈ opk_key_id <$> opks) as Hid by (by apply list_elem_of_fmap_2).
    pose proof (max_of_Some _ _ Hid) as (mx & -> & Hle). unfold saturating_add. lia.
  - intros k. rewrite !extend_is_Some, !lookup_empty, batch_ids. rewrite <- list_fmap_compose. split; intros [Hk|[? [=]]]; by left.
Qed.

Lemma persist_registration_keys_safe spk opks :
  length (spk_signature spk) = 64%nat -> 0 <= spk_key_id spk ->
  op_safe (persist_registration_keys spk opks).
Proof.
  intros Hl Hid. apply op_safe_intro. intros m d t I. unfold persist_registration_keys. wp_go.
  apply wp_persist_state; intros t' Ht; wp_go.
  - apply (safe_err _ _ _ t); [done|done|done|lia].
  - apply safe_ok; [|done]. apply (saved_core_inv m _ _ t); [done| |done|done|lia].
    apply wf_opks; [apply wf_spks; [apply I|]|].
    + split; [|split].
      * intros k [= <-]. lia.
      * unfold saturating_add, u32_max. lia.
      * by repeat constructor.
    + eapply registration_opks_wf. apply I.
Qed.

(** ** Rotation of the signed pre-key *)

Lemma spks_wf_generate key_id ik rng prev :
  0 <= key_id -> Forall (fun k => length (spk_signature k) = 64%nat) prev ->
  spks_wf (Some (SignedPreKey_generate key_id ik rng)) prev (key_id + 1).
Proof.
  intros Hk Hp. split; [|split; [lia|]].
  - intros k [= <-]. unfold saturating_add. simpl. lia.
  - simpl. constructor; [apply length_sign|done].
Qed.

Lemma queue_signed_prekey_rotation_safe : op_safe queue_signed_prekey_rotation.
Proof.
  apply op_safe_intro. intros m d t I. unfold queue_signed_prekey_rotation. wp_go.
  destruct (existsb _ _); wp_go; [keep_state|]. destruct (_ && _); wp_go; [keep_state|].
  destruct (stored_spk m) as [cur|] eqn:Hcur; [|keep_state]. cbn [ok_or]. wp_go.
  destruct (checked_add _ (spk_key_id cur) _) as [ac|] eqn:Hac; [|keep_state]. cbn [ok_or]. wp_go.
  destruct (checked_add _ (Z.max _ _) _) as [nk|] eqn:Hnk; [|keep_state].
  apply checked_add_Some in Hnk as [-> _]. cbn [ok_or]. wp_go.
  destruct (ensure_capacity _ _) as [[]|e]; [|keep_state]. wp_go.
  destruct (mw_spks _ (ci_wf _ I)) as (_ & Hn & Hs). cbn [c_mgr] in *. rewrite Hcur in Hs.
  apply wp_persist_outbound; [intros t' Ht|intros t' Ht Hf]; wp_go.
  - apply (safe_err _ _ _ t); [done| |done|lia]. unfold durable. simpl. by rewrite removelast_snoc, Hcur.
  - apply safe_ok; [|done].
    apply (enqueued_inv m (set_spks (Some _) (cur :: previous_spks m) _ _ m) _ d t); try done; [|lia].
    apply wf_spks; [apply I|]. apply spks_wf_generate; [lia|done].
Qed.

Lemma confirm_accepted_safe index i k pk sg m d t :
  client_inv (mkClient m (d, t)) ->
  pending_outbound m !! index = Some (PSignedPreKeyRotation i k pk sg) ->
  wp (confirm_accepted_signed_prekey_rotation index i) (safe m) (mkClient m (d, t)).
Proof.
  intros I Hi. unfold confirm_accepted_signed_prekey_rotation. wp_go; [keep_state|..].
  - apply (safe_err _ _ _ t); [done| |done|lia]. unfold durable. cbn -[take drop].
    by rewrite take_drop.
  - apply safe_ok; [|done]. destruct (I) as [W [Sc So Sp Sv]].
    eapply deleted_inv; [done|done| |done|lia|done|done|exact Sp|exact Sv].
    apply wf_outbound; [|by apply out_wf_delete, W]. apply wf_spks; [done|].
    destruct (mw_spks _ W) as (Hn1 & Hn2 & [Hs1 Hs2]%Forall_app). split; [done|]. split; [done|].
    apply Forall_app. split; [done|]. by apply Forall_take.
Qed.

Lemma out_wf_replace l rows i p q :
  out_wf l -> out_sync l rows -> l !! i = Some p -> current_version q ->
  correlation_id q ∉ (filter (fun r => r.1 <> correlation_id p) rows).*1 ->
  out_wf (<[i := q]> l).
Proof.
  intros [Hnd Hv] Hs Hi Hq Hf. split; [|by apply Forall_insert].
  apply (out_sync_fresh (delete i l)) in Hf; [|by apply out_sync_delete].
  pose proof (out_wf_delete i l (conj Hnd Hv)) as [Hnd' _].
  rewrite insert_take_drop by (by eapply lookup_lt_Some).
  rewrite delete_take_drop in Hnd', Hf. rewrite <- Permutation_middle, fmap_cons.
  by apply NoDup_cons.
Qed.

Lemma reconcile_rejected_safe index i k pk sg acc cur m d t :
  client_inv (mkClient m (d, t)) ->
  pending_outbound m !! index = Some (PSignedPreKeyRotation i k pk sg) ->
  wp (reconcile_rejected_signed_prekey_rotation index i acc cur) (safe m) (mkClient m (d, t)).
Proof.
  intros I Hi. unfold reconcile_rejected_signed_prekey_rotation. wp_go; [keep_state|].
  destruct (head (previous_spks m)) as [re|] eqn:Hre; [|keep_state]. cbn [ok_or]. wp_go.
  destruct (checked_add _ cur _) as [ac|]; [|keep_state]. cbn [ok_or]. wp_go.
  destruct (checked_add _ (Z.max _ _) _) as [nk|] eqn:Hnk; [|keep_state].
  apply checked_add_Some in Hnk as [-> _]. cbn [ok_or]. wp_go.
  destruct (acc && _) eqn:Hacc; wp_go; [keep_state|]. rewrite Hi. cbn [ok_or]. wp_go.
  set (hist := if acc then option_list (stored_spk m) ++ previous_spks m else previous_spks m).
  destruct (I) as [W [Sc So Sp Sv]]. cbn [c_mgr c_io fst snd] in *.
  destruct (mw_spks _ W) as (_ & Hn & Hs).
  apply wp_store; [|intros d' Hd']; wp_go.
  - apply (safe_err _ _ _ t); [done| | |lia]; [|by destruct acc].
    unfold durable. destruct acc; cbn -[take drop head tail].
    + destruct (stored_spk m) as [cu|] eqn:Hcu; [|done]. unfold hist. cbn.
      rewrite list_insert_insert_eq, list_insert_id by done. by rewrite take_drop.
    + rewrite list_insert_insert_eq, list_insert_id by done. unfold hist. by rewrite take_drop.
  - unfold save_core_and_replace_outbound, insert_outbox in Hd'. case_bool_decide as Hf; [done|].
    injection Hd' as <-. cbn [outbox delete_outbox upsert_core_state] in Hf.
    apply safe_ok; [|done]. split.
    + apply wf_outbound; [apply wf_spks; [done|]|].
      * apply spks_wf_generate; [lia|]. apply Forall_take. unfold hist. destruct acc; [done|].
        by apply Forall_app in Hs as [_ Hs].
      * by eapply (out_wf_replace _ _ _ (PSignedPreKeyRotation i k pk sg)); [apply W|..].
    + split; simpl; [done| |by eapply proc_sync_mono; [|exact Sp]; lia|done].
      by apply (out_sync_replace _ _ _ (PSignedPreKeyRotation i k pk sg)); [apply W|..].
Qed.

Lemma confirm_signed_prekey_rotated_safe i acc prev cur :
  op_safe (confirm_signed_prekey_rotated i acc prev cur).
Proof.
  apply op_safe_intro. intros m d t I. unfold confirm_signed_prekey_rotated. wp_go.
  destruct (position _ _) as [index|] eqn:Hpos; wp_go; [|keep_state].
  apply position_lookup in Hpos as (p & Hi & Hp). rewrite Hi.
  destruct p as [| | | | |j k pk sg]; simpl in Hp; try done. apply bool_decide_eq_true in Hp as ->.
  destruct (acc && _); wp_go; eapply wp_mono;
    [by eapply confirm_accepted_safe| |by eapply reconcile_rejected_safe|];
    intros [x|e] c' S; wp_go; exact S.
Qed.

(** ** Confirmation of an upload *)

(** As [safe], but the failed confirmation of an accepted upload may have
    queued a further one. *)
Definition upload_safe {E A} (accepted : bool) (m : CryptoManager) (r : result E A) (c : Client) : Prop :=
  client_inv c /\ identity (c_mgr c) = identity m
  /\ (is_err r = true -> durable (c_mgr c) = durable m
      \/ exists p keys next created, accepted = true /\ is_upload p = true
         /\ c_mgr c = set_outbound (pending_outbound m ++ [p]) (set_opks keys next created m)).

Lemma safe_upload {E A} acc m (r : result E A) c : safe m r c -> upload_safe acc m r c.
Proof. intros (I & Ei & He). split; [done|]. split; [done|]. auto. Qed.

Lemma vec_insert_delete_snoc {A} i (x y : A) l :
  l !! i = Some x -> vec_insert i x (delete i l ++ [y]) = l ++ [y].
Proof.
  intros Hi. rewrite <- (vec_insert_delete i x (l ++ [y])).
  - rewrite delete_take_drop, delete_take_drop. f_equal.
    apply lookup_lt_Some in Hi. rewrite take_app_le, drop_app_le by lia. by rewrite app_assoc.
  - by apply lookup_app_l_Some.
Qed.

Lemma delete_app_l {A} i (x : A) l k : l !! i = Some x -> delete i (l ++ k) = delete i l ++ k.
Proof.
  intros Hi%lookup_lt_Some. rewrite !delete_take_drop, take_app_le, drop_app_le by lia.
  by rewrite app_assoc.
Qed.

(** The removal after the keys are dealt with: [m1] is the manager with the
    upload still pending that agrees with the file. *)
Lemma removal_inv index p m1 d t t' :
  client_inv (mkClient m1 (d, t)) -> pending_outbound m1 !! index = Some p -> (t <= t')%nat ->
  client_inv (mkClient (set_outbound (delete index (pending_outbound m1)) m1)
                (delete_outbox (correlation_id p) d, t')).
Proof.
  intros I Hi Ht. destruct (I) as [W [Sc So Sp Sv]].
  eapply deleted_inv; [done|done| |done|done|exact Sc|done|exact Sp|exact Sv].
  apply wf_outbound; [done|]. apply out_wf_delete, W.
Qed.

Lemma upload_rejected index i ks m d t :
  client_inv (mkClient m (d, t)) -> pending_outbound m !! index = Some (PPreKeyUpload i ks) ->
  let ids := Types.key_id <$> ks in
  let rem := take_keys ids (stored_opks m) in
  let cre := take_keys rem.1.*1 (one_time_prekey_created_at m) in
  let m1 := set_opks rem.2 (next_one_time_prekey_id m) cre.2
              (set_outbound (delete index (pending_outbound m)) m) in
  client_inv (mkClient m1 (delete_outbox (uuid_to_string i) (upsert_core_state (core_state m1) d), S t))
  /\ durable (set_outbound (vec_insert index (PPreKeyUpload i ks) (pending_outbound m1))
       (set_opks (extend rem.1 (stored_opks m1)) (next_one_time_prekey_id m1)
          (extend cre.1 (one_time_prekey_created_at m1)) m1)) = durable m.
Proof.
  intros I Hi ids rem cre m1. destruct (I) as [W [Sc So Sp Sv]]. split.
  - eapply deleted_inv; [done|exact Hi| |done|lia|done|done|exact Sp|exact Sv].
    apply wf_opks; [apply wf_outbound; [done|by apply out_wf_delete, W]|].
    apply opks_wf_take_found, W.
  - unfold durable, m1. cbn. rewrite vec_insert_delete by done.
    destruct (take_keys_spec ids (stored_opks m)) as [Ek _].
    destruct (take_keys_spec rem.1.*1 (one_time_prekey_created_at m)) as [Ec _].
    fold rem in Ek. fold cre in Ec. by rewrite Ek, Ec.
Qed.

Lemma confirm_prekeys_uploaded_safe i acc rem c :
  client_inv c -> upload_safe acc (c_mgr c) (confirm_prekeys_uploaded i acc rem c).1
                    (confirm_prekeys_uploaded i acc rem c).2.
Proof.
  destruct c as [m [d t]]. intros I.
  change (wp (confirm_prekeys_uploaded i acc rem) (upload_safe acc m) (mkClient m (d, t))).
  unfold confirm_prekeys_uploaded. wp_go.
  destruct (position _ _) as [index|] eqn:Hpos; wp_go; [|apply safe_upload; keep_state].
  apply position_lookup in Hpos as (p & Hi & Hp). rewrite Hi.
  destruct p as [| | | |j ks|]; simpl in Hp; try done. apply bool_decide_eq_true in Hp as ->.
  destruct acc; cbn [andb].
  - cbn [fmap list_fmap take_keys fold_left]. wp_go.
    destruct (rem <? PREKEY_TARGET); wp_go.
    + apply wp_replenish.
      * apply I.
      * intros e t' Ht. wp_go. cbn [pending_outbound set_opks set_outbound].
        apply safe_upload. apply (safe_err _ _ _ t); [done| |done|lia].
        unfold durable. cbn. by rewrite vec_insert_delete.
      * intros msg. wp_go; cbn [pending_outbound set_opks set_outbound]; apply safe_upload.
        -- apply (safe_err _ _ _ t); [done| |done|lia]. unfold durable. cbn. by rewrite vec_insert_delete.
        -- apply safe_ok; [|done]. pose proof (removal_inv index _ m d t (S t) I Hi) as X.
           destruct m. apply X. lia.
      * intros t' p keys next created Ht Wk Hup Hf m1.
        assert (client_inv (mkClient (set_outbound (pending_outbound m ++ [p]) (set_opks keys next created m))
          (mkDisk (Some (core_state m1)) (outbox d ++ [(correlation_id p, p)]) (processed_rows d), t'))) as I2.
        { apply (enqueued_inv m (set_opks keys next created m) p d t); try done.
          - apply wf_opks; [apply I|done].
          - by destruct p. }
        wp_go; cbn [pending_outbound set_opks set_outbound].
        -- rewrite vec_insert_delete_snoc by done. split; [|split; [done|]].
           ++ eapply (inv_keep _ _ _ t'); [exact I2|done|done|lia].
           ++ intros _. right. by exists p, keys, next, created.
        -- apply safe_upload, safe_ok; [|done].
           pose proof (removal_inv index (PPreKeyUpload i ks) _ _ t' (S t') I2) as X.
           cbn [pending_outbound set_outbound] in X. rewrite (delete_app_l _ (PPreKeyUpload i ks)) in X by done.
           apply X; [|lia]. by apply lookup_app_l_Some.
    + cbn [pending_outbound set_opks set_outbound]. apply safe_upload.
      apply (safe_err _ _ _ t); [done| |done|lia]. unfold durable. cbn. by rewrite vec_insert_delete.
    + apply safe_upload, safe_ok; [|done]. pose proof (removal_inv index _ m d t (S t) I Hi) as X.
      destruct m. apply X. lia.
  - destruct (upload_rejected index i ks m d t I Hi) as [I2 Ed]. cbv zeta in *.
    destruct (take_keys (Types.key_id <$> ks) (stored_opks m)) as [rk opks] eqn:E1. cbn [fst snd] in *.
    destruct (take_keys rk.*1 (one_time_prekey_created_at m)) as [rc created] eqn:E2. cbn [fst snd] in *.
    wp_go; apply safe_upload.
    + apply (safe_err _ _ _ t); [done|exact Ed|done|lia].
    + by apply safe_ok.
Qed.
End Prekeys.
