(* ===== verification/CryptoMgrLedger.v ===== *)
(** * What the manager remembers as handled

    An acknowledgement in the outbox names only messages that were handled, and
    an entry of the replay ledger that is marked as stored was stored.  [K] is
    the set of ids that may be named; every operation of the manager keeps
    [ledger_ok K], where [queue_ack] and [confirm_inbound_stored] need that the
    ids they are given are in [K].

    [preserves] is a small Hoare logic for invariants of the manager: one rule
    per construct of the monad, applied by the tactic [pres_go]. *)
From stdpp Require Import base numbers list strings gmap.
From S2P Require Import Prelude Consts Types Primitives Keys X3dh Ratchet SqlDb ServerWorld CryptoStore CryptoMgr CryptoMgrInv.
Local Open Scope Z_scope.
Local Open Scope cmp_scope.

(** ** Invariants of the manager and of its file *)

Definition preserves {E A} (P : CryptoManager -> Prop) (D : Disk -> Prop) (op : rm Client E A) : Prop :=
  forall c, P (c_mgr c) -> D (c_io c).1 -> P (c_mgr (op c).2) /\ D (c_io (op c).2).1.

Section Rules.
Context (P : CryptoManager -> Prop) (D : Disk -> Prop).

Lemma pres_ret {E A} (a : A) : preserves (E := E) P D (rm_ret a).
Proof. by intros c Hc Hd. Qed.
Lemma pres_fail {E A} (e : E) : preserves (A := A) P D (rm_fail e).
Proof. by intros c Hc Hd. Qed.
Lemma pres_lift {E A} (r : result E A) : preserves P D (rm_lift r).
Proof. by intros c Hc Hd. Qed.
Lemma pres_bind {E A B} (m : rm Client E A) (k : A -> rm Client E B) :
  preserves P D m -> (forall a, preserves P D (k a)) -> preserves P D (rm_bind m k).
Proof.
  intros Hm Hk c Hc Hd. unfold rm_bind. destruct (Hm c Hc Hd). destruct (m c) as [[a|e] c']; [|done].
  by apply Hk.
Qed.
Lemma pres_get {E B} (k : CryptoManager -> rm Client E B) :
  (forall m, P m -> preserves P D (k m)) -> preserves P D (rm_bind get_mgr k).
Proof. intros Hk c Hc Hd. by apply Hk. Qed.
Lemma pres_lift_bind {E A B} (r : result E A) (k : A -> rm Client E B) :
  (forall a, r = Ok a -> preserves P D (k a)) -> preserves P D (rm_bind (rm_lift r) k).
Proof. intros Hk c Hc Hd. unfold rm_bind, rm_lift. destruct r; [by apply Hk|done]. Qed.
Lemma pres_modify {E} f : (forall m, P m -> P (f m)) -> preserves (E := E) P D (modify_mgr f).
Proof. intros Hf [m io] Hc Hd. split; [by apply Hf|done]. Qed.
Lemma pres_try {E F A} (op : rm Client E A) : preserves P D op -> preserves (E := F) P D (rm_try op).
Proof. intros Ho c Hc Hd. unfold rm_try. destruct (Ho c Hc Hd). by destruct (op c). Qed.
Lemma pres_map_err {E F A} (f : E -> F) (op : rm Client E A) :
  preserves P D op -> preserves P D (rm_map_err f op).
Proof. intros Ho c Hc Hd. unfold rm_map_err. destruct (Ho c Hc Hd). by destruct (op c). Qed.
Lemma pres_check : preserves P D check_persistence.
Proof. intros c Hc Hd. unfold check_persistence, rm_bind. simpl. by destruct (fail_persistence _). Qed.

Context `{ClientEnv}.
Lemma pres_draw {E} : preserves (E := E) P D draw.
Proof. by intros [m [d t]]. Qed.
Lemma pres_now {E} : preserves (E := E) P D now_secs.
Proof. by intros [m [d t]]. Qed.
Lemma pres_new_id {E} : preserves (E := E) P D new_message_id.
Proof. by intros [m [d t]]. Qed.
Lemma pres_store f : (forall d d', D d -> f d = Some d' -> D d') -> preserves P D (store f).
Proof.
  intros Hf [m [d t]] Hc Hd. unfold store, store_io. cbn. destruct (ce_fault t); [done|].
  destruct (f d) eqn:E; [|done]. split; [done|]. by eapply Hf.
Qed.
End Rules.

Ltac pres_step P D :=
  lazymatch goal with
  | |- preserves _ _ (rm_ret _) => apply (pres_ret P D)
  | |- preserves _ _ (rm_fail _) => apply (pres_fail P D)
  | |- preserves _ _ (rm_bind get_mgr _) => apply (pres_get P D); intros ? ?
  | |- preserves _ _ (rm_bind (rm_lift _) _) => apply (pres_lift_bind P D); intros ? ?
  | |- preserves _ _ (rm_lift _) => apply (pres_lift P D)
  | |- preserves _ _ (rm_bind _ _) => apply (pres_bind P D); [|intros ?]
  | |- preserves _ _ (rm_try _) => apply (pres_try P D)
  | |- preserves _ _ (rm_map_err _ _) => apply (pres_map_err P D)
  | |- preserves _ _ check_persistence => apply (pres_check P D)
  | |- preserves _ _ draw => apply (pres_draw P D)
  | |- preserves _ _ now_secs => apply (pres_now P D)
  | |- preserves _ _ new_message_id => apply (pres_new_id P D)
  | |- preserves _ _ (modify_mgr _) => apply (pres_modify P D); intros ? ?; try assumption
  | |- preserves _ _ (match ?x with _ => _ end) => destruct x eqn:?
  end.
Ltac pres_go P D := repeat (pres_step P D; cbv beta zeta).

(** ** Handled ids *)

Definition acks_ok (K : string -> Prop) `{Codecs} (l : list PendingOutbound) : Prop :=
  forall i ids x, PAck i ids ∈ l -> x ∈ ids -> K (uuid_to_string x).

Definition stored_ok (K : string -> Prop) (t : gmap string (gmap string ProcessedMessage)) : Prop :=
  forall p i r, lookup_processed p i t = Some r -> pending_plaintext r = None -> K i.

Definition ledger_ok (K : string -> Prop) `{Codecs} (m : CryptoManager) : Prop :=
  acks_ok K (pending_outbound m) /\ stored_ok K (processed_messages m).

Definition rows_ok (K : string -> Prop) (d : Disk) : Prop :=
  forall p i r, processed_rows d !! (p, i) = Some r -> pending_plaintext r = None -> K i.

Definition is_plain_ack (p : PendingOutbound) : bool :=
  match p with PAck _ _ => true | _ => false end.

Section Ledger.
Context `{CryptoPrims, Codecs, !CodecLaws, ClientEnv}.
Context (K : string -> Prop).

Lemma acks_sub l l' : (forall p, p ∈ l' -> p ∈ l \/ is_plain_ack p = false) -> acks_ok K l -> acks_ok K l'.
Proof. intros Hs Ha i ids x Hp Hx. destruct (Hs _ Hp) as [Hl|[=]]. by eapply Ha. Qed.

Lemma acks_snoc l p : is_plain_ack p = false -> acks_ok K l -> acks_ok K (l ++ [p]).
Proof.
  intros Hp. apply acks_sub. intros q [Hq|Hq]%elem_of_app; [by left|].
  apply list_elem_of_singleton in Hq as ->. by right.
Qed.

Lemma acks_delete i l : acks_ok K l -> acks_ok K (delete i l).
Proof.
  apply acks_sub. intros p Hp. left. apply list_elem_of_lookup in Hp as [j Hj].
  rewrite list_lookup_delete in Hj. case_decide; by eapply list_elem_of_lookup_2.
Qed.

Lemma acks_removelast l : acks_ok K l -> acks_ok K (removelast l).
Proof.
  apply acks_sub. intros p Hp. left. destruct l as [|x l] using rev_ind; [done|].
  rewrite removelast_snoc in Hp. set_solver.
Qed.

Lemma acks_insert i p l : is_plain_ack p = false -> acks_ok K l -> acks_ok K (<[i := p]> l).
Proof.
  intros Hp. apply acks_sub. intros q Hq. apply list_elem_of_lookup in Hq as [j Hj].
  destruct (decide (i = j)) as [->|Hne].
  - destruct (decide (j < length l)%nat) as [Hl|Hl].
    + rewrite list_lookup_insert_eq in Hj by done. injection Hj as <-. by right.
    + rewrite list_insert_ge in Hj by lia. left. by eapply list_elem_of_lookup_2.
  - rewrite list_lookup_insert_ne in Hj by done. left. by eapply list_elem_of_lookup_2.
Qed.

Lemma acks_insert_old i j p l k :
  acks_ok K k -> k !! j = Some p -> acks_ok K l -> acks_ok K (<[i := p]> l).
Proof.
  intros Hk Hj Hl i' ids x Hin Hx. apply list_elem_of_lookup in Hin as [n Hn].
  apply list_lookup_insert_Some in Hn as [(-> & -> & _)|[_ Hn]].
  - eapply Hk; [|done]. by eapply list_elem_of_lookup_2.
  - eapply Hl; [|done]. by eapply list_elem_of_lookup_2.
Qed.

(** An item that was in an outbox with allowed acknowledgements. *)
Lemma acks_vec_insert i j p l k :
  acks_ok K k -> k !! j = Some p -> acks_ok K l -> acks_ok K (vec_insert i p l).
Proof.
  intros Hk Hj Hl i' ids x Hin Hx. unfold vec_insert in Hin.
  assert (PAck i' ids ∈ l \/ PAck i' ids = p) as [Hin'|Hin'].
  { apply elem_of_app in Hin as [Hin|Hin]; [left|].
    - rewrite <- (take_drop i l). apply elem_of_app. by left.
    - apply elem_of_cons in Hin as [->|Hin]; [by right|left].
      rewrite <- (take_drop i l). apply elem_of_app. by right. }
  - by eapply Hl.
  - eapply Hk; [|done]. rewrite Hin'. by eapply list_elem_of_lookup_2.
Qed.

Lemma stored_sub t t' :
  (forall p i r, lookup_processed p i t' = Some r -> pending_plaintext r = None ->
     exists r', lookup_processed p i t = Some r' /\ pending_plaintext r' = None) ->
  stored_ok K t -> stored_ok K t'.
Proof. intros Hs Ht p i r Hl Hr. destruct (Hs p i r Hl Hr) as (r' & Hl' & Hr'). by eapply Ht. Qed.

Lemma stored_prune now t : stored_ok K t -> stored_ok K (prune_processed now t).
Proof.
  apply stored_sub. intros p i r. rewrite lookup_prune.
  destruct (lookup_processed p i t) as [r'|]; [|done]. case_decide; [|done]. intros [= <-]. eauto.
Qed.
Lemma stored_insert p i text now t :
  stored_ok K t ->
  stored_ok K (<[p := <[i := mkProcessed (Some text) now]> (default ∅ (t !! p))]> t).
Proof.
  apply stored_sub. intros p' i' r. rewrite lookup_processed_insert.
  case_decide; [by intros [= <-]|eauto].
Qed.
Lemma stored_remove p i m :
  stored_ok K (processed_messages m) -> stored_ok K (processed_messages (remove_processed p i m)).
Proof.
  apply stored_sub. intros p' i' r. rewrite lookup_remove_processed. case_decide; [done|eauto].
Qed.
Lemma stored_drop ids t : stored_ok K t -> stored_ok K (drop_processed ids t).
Proof. apply stored_sub. intros p i r. rewrite lookup_drop_processed. case_decide; [done|eauto]. Qed.

Lemma remove_processed_outbound p i m : pending_outbound (remove_processed p i m) = pending_outbound m.
Proof. unfold remove_processed. by destruct (_ !! _). Qed.

Lemma ledger_unmark p b i m : ledger_ok K m -> ledger_ok K (unmark p b i m).
Proof.
  intros [Ha Hs]. unfold unmark. destruct b; [|done]. split; [by rewrite remove_processed_outbound|].
  by apply stored_remove.
Qed.

(** *** Stores *)

Lemma store_same f :
  (forall d d', f d = Some d' -> processed_rows d' = processed_rows d) ->
  preserves (ledger_ok K) (rows_ok K) (store f).
Proof. intros Hf. apply pres_store. intros d d' Hd E p i r. rewrite (Hf d d' E). apply Hd. Qed.

Lemma store_save_core c : preserves (ledger_ok K) (rows_ok K) (store (save_core c)).
Proof. apply store_same. by intros d d' [= <-]. Qed.
Lemma store_enqueue c i p : preserves (ledger_ok K) (rows_ok K) (store (save_core_and_enqueue c i p)).
Proof. apply store_same. unfold save_core_and_enqueue, insert_outbox. intros d d'. case_bool_decide; [done|]. by intros [= <-]. Qed.
Lemma store_replace c i j p : preserves (ledger_ok K) (rows_ok K) (store (save_core_and_replace_outbound c i j p)).
Proof. apply store_same. unfold save_core_and_replace_outbound, insert_outbox. intros d d'. case_bool_decide; [done|]. by intros [= <-]. Qed.
Lemma store_delete i : preserves (ledger_ok K) (rows_ok K) (store (delete_outbound i)).
Proof. apply store_same. by intros d d' [= <-]. Qed.
Lemma store_delete_core c i : preserves (ledger_ok K) (rows_ok K) (store (save_core_and_delete_outbound c i)).
Proof. apply store_same. by intros d d' [= <-]. Qed.
Lemma store_prune cut : preserves (ledger_ok K) (rows_ok K) (store (prune_processed_rows cut)).
Proof.
  apply pres_store. intros d d' Hd [= <-] p i r [Hr _]%map_lookup_filter_Some. by eapply Hd.
Qed.
Lemma store_confirm_ack i l : preserves (ledger_ok K) (rows_ok K) (store (confirm_ack i l)).
Proof.
  apply pres_store. intros d d' Hd [= <-] p j r. cbn. rewrite confirm_ack_rows. case_decide; [done|apply Hd].
Qed.
Lemma store_processed c p i r :
  (pending_plaintext r = None -> K i) ->
  preserves (ledger_ok K) (rows_ok K) (store (save_core_and_processed c p i r)).
Proof.
  intros Hr. apply pres_store. unfold save_core_and_processed. intros d d' Hd. case_match; [done|].
  intros [= <-] p' i' r'. cbn. rewrite lookup_insert_Some. intros [[[= <- <-] <-]|[_ Hl]]; [done|by eapply Hd].
Qed.
Lemma store_committed p i :
  K i -> preserves (ledger_ok K) (rows_ok K) (store (mark_processed_committed p i)).
Proof.
  intros Hi. apply pres_store. intros d d' Hd [= <-] p' i' r. cbn.
  rewrite lookup_alter_Some. intros [([= -> ->] & _)|[_ Hl]] Hr; [done|by eapply Hd].
Qed.

Create HintDb ledger.
Hint Resolve store_save_core store_enqueue store_replace store_delete store_delete_core store_prune
  store_confirm_ack store_committed : ledger.
Hint Resolve acks_snoc acks_delete acks_removelast acks_insert acks_insert_old acks_vec_insert stored_prune stored_insert
  stored_drop ledger_unmark : ledger.

(** The item at the index, as the confirmations read it. *)
Lemma ok_or_lookup {E A} (e : E) (o : option A) a : ok_or e o = Ok a -> o = Some a.
Proof. destruct o; [by intros [= ->]|done]. Qed.

(** Close a goal about a changed manager. *)
Ltac ledger_done :=
  repeat match goal with H : ledger_ok _ _ |- _ => destruct H end;
  repeat match goal with H : ok_or _ _ = Ok _ |- _ => apply ok_or_lookup in H end; simplify_eq;
  split; cbn; eauto with ledger.

Lemma persist_state_ledger : preserves (ledger_ok K) (rows_ok K) persist_state.
Proof. unfold persist_state. pres_go (ledger_ok K) (rows_ok K). eauto with ledger. Qed.
Lemma persist_outbound_ledger p : preserves (ledger_ok K) (rows_ok K) (persist_outbound p).
Proof. unfold persist_outbound. pres_go (ledger_ok K) (rows_ok K). eauto with ledger. Qed.
Lemma persist_decrypt_ledger p i : preserves (ledger_ok K) (rows_ok K) (persist_decrypt p i).
Proof.
  unfold persist_decrypt. pres_go (ledger_ok K) (rows_ok K); [|eauto with ledger].
  apply store_processed. destruct (lookup_processed _ _ _) as [x|] eqn:Hx; simplify_eq/=.
  match goal with Hm : ledger_ok K _ |- _ => by apply Hm in Hx end.
Qed.

Lemma enqueue_ledger p undo :
  (forall m, ledger_ok K m -> ledger_ok K (set_outbound (pending_outbound m ++ [p]) m)) ->
  (forall m, ledger_ok K m -> ledger_ok K (undo m)) ->
  preserves (ledger_ok K) (rows_ok K) (enqueue_outbound p undo).
Proof.
  intros Hp Hu. unfold enqueue_outbound. pres_go (ledger_ok K) (rows_ok K); [by apply Hp|apply persist_outbound_ledger|].
  apply Hu. ledger_done.
Qed.

Lemma enqueue_plain_ledger p undo :
  is_plain_ack p = false -> (forall m, ledger_ok K m -> ledger_ok K (undo m)) ->
  preserves (ledger_ok K) (rows_ok K) (enqueue_outbound p undo).
Proof. intros Hp. apply enqueue_ledger. intros m Hm. ledger_done. Qed.

(** ** The operations *)

Hint Resolve persist_state_ledger persist_outbound_ledger persist_decrypt_ledger : ledger.
Ltac led := pres_go (ledger_ok K) (rows_ok K); eauto with ledger; try ledger_done.

Lemma add_pending_ledger p {E} : preserves (E := E) (ledger_ok K) (rows_ok K) (add_pending p).
Proof. unfold add_pending. led. Qed.
Lemma init_session_ledger p b : preserves (ledger_ok K) (rows_ok K) (init_session_from_bundle p b).
Proof. unfold init_session_from_bundle. led. Qed.
Lemma expire_ledger p : preserves (ledger_ok K) (rows_ok K) (expire_stale_prekey_session p).
Proof. unfold expire_stale_prekey_session. led. Qed.
Lemma advance_ledger p t : preserves (ledger_ok K) (rows_ok K) (advance_encryption p t).
Proof. unfold advance_encryption. led. Qed.
Hint Resolve advance_ledger : ledger.
Hint Extern 1 (preserves _ _ (enqueue_outbound _ _)) => apply enqueue_plain_ledger; [done|] : ledger.
Lemma encrypt_message_ledger p r i t : preserves (ledger_ok K) (rows_ok K) (encrypt_message p r i t).
Proof. unfold encrypt_message. led. Qed.
Lemma encrypt_receipt_ledger j p r l : preserves (ledger_ok K) (rows_ok K) (encrypt_read_receipt j p r l).
Proof. unfold encrypt_read_receipt. led. Qed.
Lemma queue_receipt_ack_ledger l : preserves (ledger_ok K) (rows_ok K) (queue_read_receipt_ack l).
Proof. unfold queue_read_receipt_ack. led. Qed.
Lemma queue_ack_ledger l :
  (forall x, x ∈ l -> K (uuid_to_string x)) -> preserves (ledger_ok K) (rows_ok K) (queue_ack l).
Proof.
  intros Hl. unfold queue_ack. pres_go (ledger_ok K) (rows_ok K). apply enqueue_ledger; [|done].
  intros m' [Ha Hs]. split; [|done]. cbn. intros i ids x [Hi|Hi]%elem_of_app; [by eapply Ha|].
  apply list_elem_of_singleton in Hi as [= _ ->]. apply Hl.
Qed.

Lemma remove_outbound_ledger i j p f k :
  acks_ok K k -> k !! j = Some p -> preserves (ledger_ok K) (rows_ok K) (store f) ->
  preserves (ledger_ok K) (rows_ok K) (remove_outbound i p f).
Proof. intros Hk Hj Hf. unfold remove_outbound. led. Qed.

Ltac remove_done :=
  match goal with
  | Hm : ledger_ok K ?m, Ho : ok_or _ _ = Ok _ |- _ =>
      apply ok_or_lookup in Ho; destruct Hm; eapply remove_outbound_ledger; [done|done|apply store_delete]
  end.

Lemma confirm_message_sent_ledger i : preserves (ledger_ok K) (rows_ok K) (confirm_message_sent i).
Proof. unfold confirm_message_sent. pres_go (ledger_ok K) (rows_ok K). remove_done. Qed.
Lemma confirm_receipt_sent_ledger i : preserves (ledger_ok K) (rows_ok K) (confirm_read_receipt_sent i).
Proof. unfold confirm_read_receipt_sent. pres_go (ledger_ok K) (rows_ok K). remove_done. Qed.
Lemma reject_ledger i : preserves (ledger_ok K) (rows_ok K) (reject_message i).
Proof. unfold reject_message. led. Qed.
Lemma confirm_acked_ledger i l : preserves (ledger_ok K) (rows_ok K) (confirm_acked i l).
Proof. unfold confirm_acked. led. Qed.

Lemma confirm_stored_ledger p i :
  K (uuid_to_string i) -> preserves (ledger_ok K) (rows_ok K) (confirm_inbound_stored p i).
Proof.
  intros Hi. unfold confirm_inbound_stored.
  assert (forall f m, ledger_ok K m -> ledger_ok K (set_processed
    (alter (alter (fun r => mkProcessed f (processed_at r)) (uuid_to_string i)) p (processed_messages m)) m)) as Hp.
  { intros f m [Ha Hs]. split; [done|]. intros p' i' r. cbn. rewrite lookup_processed_alter.
    case_decide as Hd; [by destruct Hd as [-> ->]|]. rewrite option_fmap_id. apply Hs. }
  pres_go (ledger_ok K) (rows_ok K); eauto with ledger; by apply Hp.
Qed.

Lemma mark_if_ledger p i t : preserves (ledger_ok K) (rows_ok K) (mark_if p i t).
Proof. unfold mark_if, mark_processed. led. Qed.
Hint Resolve mark_if_ledger : ledger.
Lemma decrypt_existing_ledger p h c a i : preserves (ledger_ok K) (rows_ok K) (decrypt_existing p h c a i).
Proof. unfold decrypt_existing. led. Qed.
Hint Resolve decrypt_existing_ledger : ledger.
Lemma decrypt_prekey_ledger p v ik ek spk opk r c i :
  preserves (ledger_ok K) (rows_ok K) (decrypt_prekey_envelope p v ik ek spk opk r c i).
Proof.
  unfold decrypt_prekey_envelope. pres_go (ledger_ok K) (rows_ok K); eauto with ledger.
  - unfold take_one_time_prekey in *. repeat case_match; by simplify_eq.
  - apply ledger_unmark. by destruct o as [[k [opk' cr]]|].
Qed.
Hint Resolve decrypt_prekey_ledger : ledger.
Lemma decrypt_with_marker_ledger p e i : preserves (ledger_ok K) (rows_ok K) (decrypt_with_marker p e i).
Proof. unfold decrypt_with_marker. led. Qed.
Hint Resolve decrypt_with_marker_ledger : ledger.
Lemma decrypt_ledger p i e {E} : preserves (E := E) (ledger_ok K) (rows_ok K) (decrypt_message_to_text p i e).
Proof. unfold decrypt_message_to_text. led. Qed.

Lemma register_ledger k ks : preserves (ledger_ok K) (rows_ok K) (persist_registration_keys k ks).
Proof. unfold persist_registration_keys. led. Qed.
Lemma rotation_ledger : preserves (ledger_ok K) (rows_ok K) queue_signed_prekey_rotation.
Proof. unfold queue_signed_prekey_rotation. led. Qed.
Lemma rotated_ledger i a b k : preserves (ledger_ok K) (rows_ok K) (confirm_signed_prekey_rotated i a b k).
Proof.
  unfold confirm_signed_prekey_rotated, confirm_accepted_signed_prekey_rotation,
    reconcile_rejected_signed_prekey_rotation. led; by destruct b.
Qed.
Lemma replenish_ledger : preserves (ledger_ok K) (rows_ok K) queue_prekey_replenishment.
Proof. unfold queue_prekey_replenishment. led. Qed.
Hint Resolve replenish_ledger : ledger.
Lemma uploaded_ledger i a n : preserves (ledger_ok K) (rows_ok K) (confirm_prekeys_uploaded i a n).
Proof. unfold confirm_prekeys_uploaded. destruct a; led. Qed.
End Ledger.
