(* ===== verification/CryptoMgrEntry.v ===== *)
(** * The entries of the replay ledger through the operations

    What each operation of the manager does to the ledger in memory: most leave
    it alone ([quiet]), decryption enters the message and may drop entries that
    are past retention ([pruned]), and the confirmations of storage and of
    acknowledgements change the entries they name, and nothing when they fail.
    The counter of the environment's events only advances ([advances]). *)
From stdpp Require Import base numbers list strings gmap.
From S2P Require Import Prelude Consts Types Primitives Keys X3dh Ratchet SqlDb ServerWorld CryptoStore CryptoMgr CryptoMgrInv CryptoMgrFacts CryptoMgrRecv CryptoMgrLedger.
Local Open Scope Z_scope.
Local Open Scope cmp_scope.

(** [mem'] is [mem] without entries made before [cut]. *)
Definition pruned (cut : Z) (mem mem' : Ledger) : Prop :=
  forall p i r, (lookup_processed p i mem' = Some r -> lookup_processed p i mem = Some r)
    /\ (cut <= processed_at r -> lookup_processed p i mem = Some r -> lookup_processed p i mem' = Some r).

Lemma pruned_refl cut mem : pruned cut mem mem.
Proof. done. Qed.
Lemma pruned_trans cut cut' mem mem1 mem2 :
  cut <= cut' -> pruned cut mem mem1 -> pruned cut' mem1 mem2 -> pruned cut' mem mem2.
Proof.
  intros Hc P1 P2 p i r. destruct (P1 p i r) as [A1 B1], (P2 p i r) as [A2 B2].
  split; [auto|]. intros Hr Hl. apply B2; [done|]. apply B1; [lia|done].
Qed.
Lemma pruned_mono cut cut' mem mem' : cut <= cut' -> pruned cut mem mem' -> pruned cut' mem mem'.
Proof. intros Hc P. by apply (pruned_trans cut cut' mem mem'). Qed.

(** ** Time advances *)

Section Time.
Context `{CryptoPrims, Codecs, ClientEnv}.

Definition advances {E A} (op : rm Client E A) : Prop := forall c, ((c_io c).2 <= (c_io (op c).2).2)%nat.

Lemma adv_ret {E A} (a : A) : advances (E := E) (rm_ret a).
Proof. by intros c. Qed.
Lemma adv_fail {E A} (e : E) : advances (A := A) (rm_fail e).
Proof. by intros c. Qed.
Lemma adv_lift {E A} (r : result E A) : advances (rm_lift r).
Proof. by intros c. Qed.
Lemma adv_get {E} : advances (E := E) get_mgr.
Proof. by intros c. Qed.
Lemma adv_modify {E} f : advances (E := E) (modify_mgr f).
Proof. by intros c. Qed.
Lemma adv_bind {E A B} (m : rm Client E A) (k : A -> rm Client E B) :
  advances m -> (forall a, advances (k a)) -> advances (rm_bind m k).
Proof.
  intros Hm Hk c. specialize (Hm c). unfold rm_bind. destruct (m c) as [[a|e] c1]; cbn in *; [|done].
  specialize (Hk a c1). lia.
Qed.
Lemma adv_try {E F A} (op : rm Client E A) : advances op -> advances (E := F) (rm_try op).
Proof. intros Ho c. specialize (Ho c). unfold rm_try. by destruct (op c). Qed.
Lemma adv_map_err {E F A} (f : E -> F) (op : rm Client E A) : advances op -> advances (rm_map_err f op).
Proof. intros Ho c. specialize (Ho c). unfold rm_map_err. by destruct (op c). Qed.
Lemma adv_draw {E} : advances (E := E) draw.
Proof. intros c. cbn. lia. Qed.
Lemma adv_now {E} : advances (E := E) now_secs.
Proof. intros c. cbn. lia. Qed.
Lemma adv_new_id {E} : advances (E := E) new_message_id.
Proof. intros c. cbn. lia. Qed.
Lemma adv_check : advances check_persistence.
Proof. intros c. unfold check_persistence, rm_bind. cbn. by destruct (fail_persistence _). Qed.
Lemma adv_store f : advances (store f).
Proof. intros [m [d t]]. unfold store, store_io. cbn. destruct (ce_fault t); [cbn; lia|]. destruct (f d); cbn; lia. Qed.
End Time.

Ltac adv_step :=
  lazymatch goal with
  | |- advances (rm_ret _) => apply adv_ret
  | |- advances (rm_fail _) => apply adv_fail
  | |- advances (rm_lift _) => apply adv_lift
  | |- advances get_mgr => apply adv_get
  | |- advances (modify_mgr _) => apply adv_modify
  | |- advances (rm_bind _ _) => apply adv_bind; [|intros ?]
  | |- advances (rm_try _) => apply adv_try
  | |- advances (rm_map_err _ _) => apply adv_map_err
  | |- advances draw => apply adv_draw
  | |- advances now_secs => apply adv_now
  | |- advances new_message_id => apply adv_new_id
  | |- advances check_persistence => apply adv_check
  | |- advances (store _) => apply adv_store
  | |- advances (match ?x with _ => _ end) => destruct x
  end.
Ltac adv_go := repeat (adv_step; cbv beta zeta).

Section Advancing.
Context `{CryptoPrims, Codecs, ClientEnv}.

Lemma persist_state_adv : advances persist_state.
Proof. unfold persist_state. adv_go. Qed.
Lemma persist_outbound_adv p : advances (persist_outbound p).
Proof. unfold persist_outbound. adv_go. Qed.
Lemma persist_decrypt_adv p i : advances (persist_decrypt p i).
Proof. unfold persist_decrypt. adv_go. Qed.
Lemma enqueue_adv p undo : advances (enqueue_outbound p undo).
Proof. unfold enqueue_outbound. adv_go. apply persist_outbound_adv. Qed.
Lemma advance_adv p t : advances (advance_encryption p t).
Proof. unfold advance_encryption. adv_go. Qed.
Lemma init_session_adv p b : advances (init_session_from_bundle p b).
Proof. unfold init_session_from_bundle. adv_go; apply persist_state_adv. Qed.
Lemma expire_adv p : advances (expire_stale_prekey_session p).
Proof. unfold expire_stale_prekey_session. adv_go; apply persist_state_adv. Qed.
Lemma encrypt_message_adv p r i t : advances (encrypt_message p r i t).
Proof. unfold encrypt_message. adv_go; [apply advance_adv|apply enqueue_adv]. Qed.
Lemma encrypt_receipt_adv j p r l : advances (encrypt_read_receipt j p r l).
Proof. unfold encrypt_read_receipt. adv_go; [apply advance_adv|apply enqueue_adv]. Qed.
Lemma queue_ack_adv l : advances (queue_ack l).
Proof. unfold queue_ack. adv_go. apply enqueue_adv. Qed.
Lemma queue_receipt_ack_adv l : advances (queue_read_receipt_ack l).
Proof. unfold queue_read_receipt_ack. adv_go. apply enqueue_adv. Qed.
Lemma remove_adv j p f : advances (remove_outbound j p f).
Proof. unfold remove_outbound. adv_go. Qed.
Lemma confirm_message_sent_adv i : advances (confirm_message_sent i).
Proof. unfold confirm_message_sent. adv_go. apply remove_adv. Qed.
Lemma confirm_receipt_sent_adv i : advances (confirm_read_receipt_sent i).
Proof. unfold confirm_read_receipt_sent. adv_go. apply remove_adv. Qed.
Lemma reject_adv i : advances (reject_message i).
Proof. unfold reject_message. adv_go. Qed.
Lemma acked_adv i l : advances (confirm_acked i l).
Proof. unfold confirm_acked. adv_go. Qed.
Lemma stored_adv p i : advances (confirm_inbound_stored p i).
Proof. unfold confirm_inbound_stored. adv_go. Qed.
Lemma register_adv k ks : advances (persist_registration_keys k ks).
Proof. unfold persist_registration_keys. adv_go. apply persist_state_adv. Qed.
Lemma rotation_adv : advances queue_signed_prekey_rotation.
Proof. unfold queue_signed_prekey_rotation. adv_go. apply persist_outbound_adv. Qed.
Lemma rotated_adv i a b k : advances (confirm_signed_prekey_rotated i a b k).
Proof.
  unfold confirm_signed_prekey_rotated, confirm_accepted_signed_prekey_rotation, reconcile_rejected_signed_prekey_rotation.
  adv_go.
Qed.
Lemma replenish_adv : advances queue_prekey_replenishment.
Proof. unfold queue_prekey_replenishment. adv_go. apply persist_outbound_adv. Qed.
Lemma uploaded_adv i a n : advances (confirm_prekeys_uploaded i a n).
Proof. unfold confirm_prekeys_uploaded. adv_go; apply replenish_adv. Qed.
Lemma mark_if_adv p i t : advances (mark_if p i t).
Proof. unfold mark_if, mark_processed. adv_go. Qed.
Lemma decrypt_existing_adv p h c a i : advances (decrypt_existing p h c a i).
Proof. unfold decrypt_existing. adv_go; [apply mark_if_adv|apply persist_decrypt_adv]. Qed.
Lemma decrypt_adv p i e {E} : advances (decrypt_message_to_text (E := E) p i e).
Proof.
  unfold decrypt_message_to_text, decrypt_with_marker, decrypt_prekey_envelope.
  adv_go; first [apply decrypt_existing_adv|apply mark_if_adv|apply persist_decrypt_adv].
Qed.
End Advancing.

Section Entries.
Context `{CryptoPrims, Codecs, !CodecLaws, ClientEnv}.

Lemma prune_pruned (mem : Ledger) t : pruned (high (S t)) mem (prune_processed (ce_clock t) mem).
Proof.
  intros p i r. rewrite lookup_prune. pose proof (high_clock t).
  destruct (lookup_processed p i mem) as [r'|]; [|done]. case_decide; [done|].
  split; [done|]. intros Hr [= ->]. lia.
Qed.

(** ** Operations that leave the ledger alone *)

Definition quiet {E A} (op : rm Client E A) : Prop :=
  forall mem, preserves (fun m => processed_messages m = mem) (fun _ => True) op.

Lemma quiet_ledger {E A} (op : rm Client E A) c :
  quiet op -> processed_messages (c_mgr (op c).2) = processed_messages (c_mgr c).
Proof. intros Hq. by apply (Hq (processed_messages (c_mgr c)) c). Qed.

Lemma store_quiet f : quiet (store f).
Proof. intros mem. by apply pres_store. Qed.

Create HintDb quiet.
Hint Resolve store_quiet : quiet.
Ltac still := intros mem; pres_go (fun m => processed_messages m = mem) (fun _ : Disk => True); eauto with quiet.

Lemma persist_state_quiet : quiet persist_state.
Proof. unfold persist_state. still; apply store_quiet. Qed.
Lemma persist_outbound_quiet p : quiet (persist_outbound p).
Proof. unfold persist_outbound. still; apply store_quiet. Qed.
Hint Resolve persist_state_quiet persist_outbound_quiet : quiet.

Lemma init_session_quiet q b : quiet (init_session_from_bundle q b).
Proof. unfold init_session_from_bundle. still; apply persist_state_quiet. Qed.
Lemma expire_quiet q : quiet (expire_stale_prekey_session q).
Proof. unfold expire_stale_prekey_session. still; apply persist_state_quiet. Qed.
Lemma advance_quiet q t : quiet (advance_encryption q t).
Proof. unfold advance_encryption. still. Qed.
Lemma enqueue_quiet q undo :
  (forall m, processed_messages (undo m) = processed_messages m) -> quiet (enqueue_outbound q undo).
Proof. intros Hu. unfold enqueue_outbound. still; [apply persist_outbound_quiet|by rewrite Hu]. Qed.
Hint Resolve advance_quiet : quiet.
Hint Extern 1 (preserves _ _ (enqueue_outbound _ _)) => apply enqueue_quiet; done : quiet.
Lemma encrypt_message_quiet q r i t : quiet (encrypt_message q r i t).
Proof. unfold encrypt_message. still. apply advance_quiet. Qed.
Lemma encrypt_receipt_quiet j q r l : quiet (encrypt_read_receipt j q r l).
Proof. unfold encrypt_read_receipt. still. apply advance_quiet. Qed.
Lemma queue_ack_quiet l : quiet (queue_ack l).
Proof. unfold queue_ack. still. Qed.
Lemma queue_receipt_ack_quiet l : quiet (queue_read_receipt_ack l).
Proof. unfold queue_read_receipt_ack. still. Qed.
Lemma remove_quiet j q f : quiet (remove_outbound j q f).
Proof. unfold remove_outbound. still; apply store_quiet. Qed.
Hint Resolve remove_quiet : quiet.
Lemma confirm_message_sent_quiet i : quiet (confirm_message_sent i).
Proof. unfold confirm_message_sent. still; apply remove_quiet. Qed.
Lemma confirm_receipt_sent_quiet i : quiet (confirm_read_receipt_sent i).
Proof. unfold confirm_read_receipt_sent. still; apply remove_quiet. Qed.
Lemma reject_quiet i : quiet (reject_message i).
Proof. unfold reject_message. still; apply store_quiet. Qed.
Lemma register_quiet k ks : quiet (persist_registration_keys k ks).
Proof. unfold persist_registration_keys. still; apply persist_state_quiet. Qed.
Lemma rotation_quiet : quiet queue_signed_prekey_rotation.
Proof. unfold queue_signed_prekey_rotation. still; apply persist_outbound_quiet. Qed.
Lemma rotated_quiet i a b k : quiet (confirm_signed_prekey_rotated i a b k).
Proof.
  unfold confirm_signed_prekey_rotated, confirm_accepted_signed_prekey_rotation, reconcile_rejected_signed_prekey_rotation.
  still; try apply store_quiet. by repeat case_match.
Qed.
Lemma replenish_quiet : quiet queue_prekey_replenishment.
Proof. unfold queue_prekey_replenishment. still; apply persist_outbound_quiet. Qed.
Hint Resolve replenish_quiet : quiet.
Lemma uploaded_quiet i a n : quiet (confirm_prekeys_uploaded i a n).
Proof. unfold confirm_prekeys_uploaded. still; first [apply replenish_quiet|apply store_quiet]. Qed.

(** ** Confirmations *)

(** A confirmed acknowledgement drops the entries it names; a failed
    confirmation drops none. *)
Lemma acked_entries i ids m d t :
  wp (confirm_acked i ids) (fun r c =>
    (is_err r = true -> processed_messages (c_mgr c) = processed_messages m)
    /\ forall p j, j ∉ uuid_to_string <$> ids ->
         lookup_processed p j (processed_messages (c_mgr c)) = lookup_processed p j (processed_messages m))
    (mkClient m (d, t)).
Proof.
  unfold confirm_acked. wp_go. destruct (position _ _) as [k|]; wp_go; [|done].
  destruct (pending_outbound m !! k) as [[]|]; wp_go; try done; case_bool_decide as Hb; wp_go; try done;
    cbn [ok_or]; wp_go; try done; (split; [done|]);
    intros p j Hj; cbn; rewrite lookup_drop_processed; rewrite decide_False; try done;
    by subst.
Qed.

(** A confirmed storage takes the text from the entry it names. *)
Lemma stored_entries peer i m d t :
  wp (confirm_inbound_stored peer i) (fun r c =>
    (is_err r = true -> processed_messages (c_mgr c) = processed_messages m)
    /\ forall p j x, lookup_processed p j (processed_messages m) = Some x ->
         lookup_processed p j (processed_messages (c_mgr c)) = Some x
         \/ (p, j) = (peer, uuid_to_string i)
            /\ lookup_processed p j (processed_messages (c_mgr c)) = Some (mkProcessed None (processed_at x)))
    (mkClient m (d, t)).
Proof.
  unfold confirm_inbound_stored. wp_go. destruct (lookup_processed _ _ _) as [r|] eqn:Hr; wp_go; [| |by auto].
  - cbn [c_mgr processed_messages set_processed]. rewrite alter_alter_processed, alter_processed_id by done. auto.
  - split; [done|]. intros p j x Hx. cbn. destruct (decide ((p, j) = (peer, uuid_to_string i))) as [[= -> ->]|Hne].
    + right. split; [done|]. unfold lookup_processed in *. rewrite lookup_alter_eq.
      destruct (processed_messages m !! peer) as [ms|]; [|done]. cbn in *. by rewrite lookup_alter_eq, Hx.
    + left. unfold lookup_processed in *. destruct (decide (p = peer)) as [->|Hp].
      * rewrite lookup_alter_eq. destruct (processed_messages m !! peer) as [ms|]; [|done]. cbn in *.
        rewrite lookup_alter_ne; [done|]. intros <-. by apply Hne.
      * by rewrite lookup_alter_ne by done.
Qed.

(** ** Decryption *)

(** After the decryption of message [i] of [peer], begun at [t] with the ledger
    [mem]: a failure has at most dropped old entries; a text was entered with
    a time read during the call, and the other entries are as they were, old ones
    aside. *)
Definition made_entry (mem : Ledger) (peer i : string) (t : nat) (r : result CryptoError bytes) (c : Client) : Prop :=
  let mem' := processed_messages (c_mgr c) in
  let cut := high (c_io c).2 in
  (t <= (c_io c).2)%nat /\
  match r with
  | Err _ => pruned cut mem mem'
  | Ok pt =>
      exists n, (t <= n < (c_io c).2)%nat
        /\ lookup_processed peer i mem' = Some (mkProcessed (Some (text_of pt)) (ce_clock n))
        /\ pruned cut mem (processed_messages (remove_processed peer i (c_mgr c)))
  end.

Lemma marked_pruned peer i x t (mem : Ledger) m :
  lookup_processed peer i mem = None -> processed_messages m = marked peer i x (ce_clock t) mem ->
  pruned (high (S t)) mem (processed_messages (remove_processed peer i m)).
Proof.
  intros Hn Em p j r. rewrite lookup_remove_processed, Em. unfold marked. rewrite lookup_processed_insert.
  destruct (decide (p = peer /\ j = i)) as [[-> ->]|Hne]; [by rewrite Hn|]. apply prune_pruned.
Qed.

Lemma remove_processed_messages peer i m m' :
  processed_messages m = processed_messages m' ->
  processed_messages (remove_processed peer i m) = processed_messages (remove_processed peer i m').
Proof. intros E. unfold remove_processed. rewrite E. by destruct (processed_messages m' !! peer). Qed.

(** The end of a decryption; [undo] is what a failure does to the rest. *)
Lemma commit_entry undo peer i pt mem m d t t' :
  processed_messages m = mem -> lookup_processed peer i mem = None -> (t <= t')%nat ->
  (forall m', processed_messages (undo m') = processed_messages m') ->
  wp (do! inserted_marker <- mark_if peer (Some i) pt;
      do! r <- rm_try (persist_decrypt peer (Some i));
      match r with
      | Err error =>
          run! modify_mgr (fun m => unmark peer inserted_marker (Some i) (undo m));
          rm_fail (Persistence error)
      | Ok _ => rm_ret pt
      end) (made_entry mem peer i t) (mkClient m (d, t')).
Proof.
  intros Em Hn Ht Hu. wp_step. unfold mark_if. apply wp_mark_processed; [by rewrite Em|]. rewrite Em.
  set (x := mkProcessed _ _). do 2 wp_step.
  apply wp_persist_decrypt; [intros e t2 Ht2|done|intros t2 j y Ht2 _ _]; wp_go; unfold made_entry; cbn [c_mgr c_io snd]; (split; [lia|]).
  - eapply pruned_mono; [apply (high_mono (S t') t2); lia|]. unfold unmark. cbn [default].
    rewrite (remove_processed_messages _ _ _ _ (Hu _)). by apply (marked_pruned peer i x).
  - exists (S t'). split; [lia|]. split.
    + cbn. unfold marked. rewrite lookup_processed_insert. by rewrite decide_True.
    + eapply pruned_mono; [apply (high_mono (S t') t2); lia|]. by apply (marked_pruned peer i x).
Qed.

Ltac refused := split; [cbn; lia|cbn; apply pruned_refl].

Lemma decrypt_existing_entry peer h ct aad i mem m d t t' :
  processed_messages m = mem -> lookup_processed peer i mem = None -> (t <= t')%nat ->
  wp (decrypt_existing peer h ct aad (Some i)) (made_entry mem peer i t) (mkClient m (d, t')).
Proof.
  intros Em Hn Ht. unfold decrypt_existing. wp_go.
  destruct (sessions m !! peer) as [s|]; cbn [ok_or]; [|subst; refused]. wp_go.
  destruct (Ratchet.decrypt _ h ct aad _) as [[pt|e] r']; wp_go; cbn [map_err]; [|subst; refused].
  by apply (commit_entry (fun m => set_sessions (<[peer := s]> (sessions m)) m)); [| |lia|].
Qed.

Lemma decrypt_prekey_entry peer v ik ek spk opk h ct i mem m d t t' :
  processed_messages m = mem -> lookup_processed peer i mem = None -> (t <= t')%nat ->
  wp (decrypt_prekey_envelope peer v ik ek spk opk h ct (Some i)) (made_entry mem peer i t) (mkClient m (d, t')).
Proof.
  intros Em Hn Ht. unfold decrypt_prekey_envelope. do 2 wp_step.
  destruct (decode_ratchet_header h) as [hd|e]; [|subst; refused]. do 2 wp_step.
  destruct (b64_decode_fixed 32 ik _) as [ikb|e]; [|subst; refused]. do 2 wp_step.
  destruct (b64_decode_fixed 32 ek _) as [ekb|e]; [|subst; refused]. do 2 wp_step.
  destruct (ok_or BadEnvelope (b64_decode ct)) as [ctb|e]; [|subst; refused]. do 2 wp_step.
  case_bool_decide; [by apply decrypt_existing_entry|]. do 2 wp_step.
  destruct (create_bob_session _ _ _ _ _) as [s|e]; [|subst; refused]. wp_go.
  destruct (Ratchet.decrypt _ hd ctb _ s) as [[pt|e] s']; wp_go; cbn [map_err]; [|subst; refused]. wp_go.
  set (m1 := set_sessions _ m). destruct (match opk with Some _ => _ | None => _ end) as [co m2] eqn:Ho. wp_step. wp_step.
  assert (processed_messages m2 = mem) as Em2.
  { unfold take_one_time_prekey in Ho. repeat case_match; by simplify_eq. }
  apply (commit_entry (fun m => match co with
    | Some (opk_id, (opk, created_at)) => restore_one_time_prekey opk_id opk created_at (set_sessions (delete peer (sessions m)) m)
    | None => set_sessions (delete peer (sessions m)) m end)); [done|done|lia|].
  intros m'. by destruct co as [[k [o cr]]|].
Qed.

Lemma made_entry_pruned (mem mem1 : Ledger) peer i t t1 r c :
  (t <= t1)%nat -> pruned (high t1) mem mem1 -> made_entry mem1 peer i t1 r c -> made_entry mem peer i t r c.
Proof.
  intros Ht P [Ht' Hr]. pose proof (high_mono _ _ Ht') as Hh. split; [lia|]. destruct r as [pt|e].
  - destruct Hr as (n & Hle & Hl & P'). exists n. split; [lia|]. split; [done|]. by eapply pruned_trans.
  - by eapply pruned_trans.
Qed.

Lemma decrypt_with_marker_entry peer env i m d t :
  lookup_processed peer i (processed_messages m) = None ->
  wp (decrypt_with_marker peer env (Some i)) (made_entry (processed_messages m) peer i t) (mkClient m (d, t)).
Proof.
  intros Hn. unfold decrypt_with_marker.
  destruct (negb _); wp_go; cbn [map_err]; [refused|refused|wp_go; cbn [map_err]; [refused|]]. wp_go.
  set (m1 := set_processed _ m).
  assert (lookup_processed peer i (processed_messages m1) = None) as Hn1 by (cbn; by rewrite lookup_prune, Hn).
  apply (wp_mono (made_entry (processed_messages m1) peer i (S (S t)))).
  2: { intros r c'. apply made_entry_pruned; [lia|].
       eapply pruned_mono; [apply (high_mono (S t)); lia|]. apply prune_pruned. }
  destruct (_ && _); wp_go; [refused|]. destruct (Types.header env) as [ik ek spk opk h|h].
  - by apply decrypt_prekey_entry.
  - wp_go. destruct (decode_ratchet_header h); [|refused]. wp_go.
    destruct (ok_or BadEnvelope _); [|refused]. by apply decrypt_existing_entry.
Qed.

(** The verdict on a message, and the ledger after it: a text was in the ledger
    already, or was entered now; any other verdict has entered nothing. *)
Lemma decrypt_entry {E} peer i env c :
  let x := decrypt_message_to_text peer i env (E := E) c in
  let id := uuid_to_string i in
  let mem := processed_messages (c_mgr c) in
  match x.1 with
  | Ok (Pending text) =>
      x.2 = c /\ (exists ts, lookup_processed peer id mem = Some (mkProcessed (Some text) ts))
      \/ lookup_processed peer id mem = None
         /\ exists n, ((c_io c).2 <= n < (c_io x.2).2)%nat
            /\ lookup_processed peer id (processed_messages (c_mgr x.2)) = Some (mkProcessed (Some text) (ce_clock n))
            /\ pruned (high (c_io x.2).2) mem (processed_messages (remove_processed peer id (c_mgr x.2)))
  | _ => pruned (high (c_io x.2).2) mem (processed_messages (c_mgr x.2))
  end.
Proof.
  cbv zeta. unfold decrypt_message_to_text. destruct (negb _); [apply pruned_refl|]. unfold rm_bind, get_mgr, rm_try, rm_ret. cbv beta iota.
  destruct (lookup_processed _ _ _) as [[[tx|] ts]|] eqn:Hx; [|apply pruned_refl|].
  - left. split; [done|]. by exists ts.
  - destruct c as [m [d t]]. pose proof (decrypt_with_marker_entry peer env (uuid_to_string i) m d t Hx) as Hw.
    unfold wp in Hw. destruct (decrypt_with_marker _ _ _ _) as [[pt|e] c'].
    + right. split; [done|]. destruct Hw as (_ & n & Hle & Hl & P). by exists n.
    + apply Hw.
Qed.
End Entries.
