(* ===== verification/CryptoMgrOutbox.v ===== *)
(** * What leaves the outbox of the client

    A message in the outbox of the manager stays there through every operation,
    whatever it answers and whatever store calls fail, except the one that
    takes the relay's answer for that very message.  [stays p] is proved of
    each operation on [preserves] of [CryptoMgrLedger] or, where the operation
    changes the outbox and may put it back, on the weakest preconditions of
    [CryptoMgrFacts]. *)
From stdpp Require Import base numbers list strings gmap.
From S2P Require Import Prelude Consts Types Primitives Keys X3dh Ratchet SqlDb ServerWorld CryptoStore CryptoMgr CryptoMgrInv CryptoMgrFacts CryptoMgrLedger.
Local Open Scope Z_scope.
Local Open Scope cmp_scope.

(** ** Lists with an item taken out *)

Lemma elem_of_delete_ne {A} (l : list A) i x y : l !! i = Some y -> x <> y -> x ∈ l -> x ∈ delete i l.
Proof.
  intros Hi Hne [j Hj]%list_elem_of_lookup. assert (i <> j) as Hij by (intros ->; congruence).
  apply list_elem_of_lookup. destruct (decide (j < i)%nat).
  - exists j. by rewrite list_lookup_delete_lt.
  - exists (j - 1)%nat. rewrite list_lookup_delete_ge by lia. by replace (S (j - 1)) with j by lia.
Qed.
Lemma elem_of_insert_ne {A} (l : list A) i x y z : l !! i = Some y -> x <> y -> x ∈ l -> x ∈ <[i := z]> l.
Proof.
  intros Hi Hne [j Hj]%list_elem_of_lookup. apply list_elem_of_lookup. exists j.
  rewrite list_lookup_insert_ne; [done|]. intros ->. congruence.
Qed.
Lemma elem_of_vec_insert {A} i (x y : A) l : x ∈ l -> x ∈ vec_insert i y l.
Proof. unfold vec_insert. rewrite <- (take_drop i l) at 1. rewrite !elem_of_app, elem_of_cons. tauto. Qed.

Section Outbox.
Context `{CryptoPrims, Codecs, ClientEnv}.

Definition is_outgoing (p : PendingOutbound) : bool :=
  match p with PMessage _ _ _ => true | _ => false end.

Definition in_outbox (p : PendingOutbound) (m : CryptoManager) : Prop := p ∈ pending_outbound m.

(** [p] stays in the outbox. *)
Definition stays {E A} (p : PendingOutbound) (op : rm Client E A) : Prop :=
  preserves (in_outbox p) (fun _ => True) op.

Context (p : PendingOutbound).

(** Pointwise: what is known of the manager as read. *)
Lemma stays_wp {E A} (op : rm Client E A) :
  (forall m d t, in_outbox p m -> wp op (fun _ c => in_outbox p (c_mgr c)) (mkClient m (d, t))) -> stays p op.
Proof. intros Hw [m [d t]] Hm _. split; [by apply Hw|done]. Qed.

Lemma store_stays f : stays p (store f).
Proof. by apply pres_store. Qed.

(** A write of the file does not touch the manager. *)
Lemma wp_outbound_any q (Q : result AnyhowError unit -> Client -> Prop) m d t :
  (forall r d' t', Q r (mkClient m (d', t'))) -> wp (persist_outbound q) Q (mkClient m (d, t)).
Proof.
  intros HQ. unfold persist_outbound. do 2 wp_step; [apply HQ|]. do 2 wp_step.
  apply wp_store; intros; apply HQ.
Qed.

Create HintDb outbox.
Hint Resolve store_stays elem_of_delete_ne elem_of_insert_ne elem_of_vec_insert : outbox.
Ltac out := unfold stays; pres_go (in_outbox p) (fun _ : Disk => True); eauto with outbox.

Lemma persist_state_stays : stays p persist_state.
Proof. unfold persist_state. out; apply store_stays. Qed.
Lemma persist_decrypt_stays q i : stays p (persist_decrypt q i).
Proof. unfold persist_decrypt. out; apply store_stays. Qed.
Hint Resolve persist_state_stays persist_decrypt_stays : outbox.

(** ** Operations that do not touch the outbox *)

Lemma new_id_stays {E} : stays p (new_message_id (E := E)).
Proof. apply pres_new_id. Qed.
Lemma add_pending_stays q {E} : stays p (add_pending (E := E) q).
Proof. unfold add_pending. out. Qed.
Lemma init_session_stays q b : stays p (init_session_from_bundle q b).
Proof. unfold init_session_from_bundle. out; apply persist_state_stays. Qed.
Lemma expire_stays q : stays p (expire_stale_prekey_session q).
Proof. unfold expire_stale_prekey_session. out; apply persist_state_stays. Qed.
Lemma advance_stays q t : stays p (advance_encryption q t).
Proof. unfold advance_encryption. out. Qed.
Lemma confirm_stored_stays q i : stays p (confirm_inbound_stored q i).
Proof. unfold confirm_inbound_stored. out; apply store_stays. Qed.
Lemma register_stays k ks : stays p (persist_registration_keys k ks).
Proof. unfold persist_registration_keys. out; apply persist_state_stays. Qed.

Lemma unmark_stays q b i m : in_outbox p m -> in_outbox p (unmark q b i m).
Proof. unfold unmark, in_outbox. destruct b; [by rewrite remove_processed_outbound|done]. Qed.
Hint Resolve unmark_stays : outbox.
Lemma mark_if_stays q i t : stays p (mark_if q i t).
Proof. unfold mark_if, mark_processed. out. Qed.
Lemma decrypt_existing_stays q h c a i : stays p (decrypt_existing q h c a i).
Proof.
  unfold decrypt_existing. out; first [apply mark_if_stays|apply persist_decrypt_stays|by apply unmark_stays].
Qed.
Lemma decrypt_prekey_stays q v ik ek spk opk r c i : stays p (decrypt_prekey_envelope q v ik ek spk opk r c i).
Proof.
  unfold decrypt_prekey_envelope. out; try apply decrypt_existing_stays; try apply mark_if_stays;
    try apply persist_decrypt_stays.
  - unfold take_one_time_prekey in *. by repeat case_match; simplify_eq.
  - apply unmark_stays. by destruct o as [[k [opk' cr]]|].
Qed.
Lemma decrypt_stays q i e {E} : stays p (decrypt_message_to_text (E := E) q i e).
Proof.
  unfold decrypt_message_to_text, decrypt_with_marker. out; try apply store_stays;
    [apply decrypt_prekey_stays|apply decrypt_existing_stays].
Qed.

(** ** Operations that add to it *)

Lemma enqueue_stays q undo :
  (forall m, pending_outbound (undo m) = pending_outbound m) -> stays p (enqueue_outbound q undo).
Proof.
  intros Hu. apply stays_wp. intros m d t Hm. unfold enqueue_outbound, in_outbox in *. wp_go.
  apply wp_outbound_any. intros [x|e] d' t'; wp_go; cbn [c_mgr].
  - cbn. set_solver.
  - rewrite Hu. cbn. by rewrite removelast_snoc.
Qed.
Hint Extern 1 (preserves _ _ (enqueue_outbound _ _)) => apply enqueue_stays; done : outbox.
Hint Resolve advance_stays : outbox.

Lemma encrypt_message_stays q r i t : stays p (encrypt_message q r i t).
Proof. unfold encrypt_message. out. apply advance_stays. Qed.
Lemma encrypt_receipt_stays j q r l : stays p (encrypt_read_receipt j q r l).
Proof. unfold encrypt_read_receipt. out. apply advance_stays. Qed.
Lemma queue_ack_stays l : stays p (queue_ack l).
Proof. unfold queue_ack. out. Qed.
Lemma queue_receipt_ack_stays l : stays p (queue_read_receipt_ack l).
Proof. unfold queue_read_receipt_ack. out. Qed.

Ltac added := intros [?x|?e] ?d' ?t'; wp_go; cbn; [set_solver|by rewrite removelast_snoc].

Lemma rotation_stays : stays p queue_signed_prekey_rotation.
Proof.
  apply stays_wp. intros m d t Hm. unfold queue_signed_prekey_rotation, in_outbox in *. wp_go.
  destruct (existsb _ _); wp_go; [done|]. destruct (_ && _); wp_go; [done|].
  destruct (stored_spk m); cbn [ok_or]; [|done]. wp_go.
  destruct (ok_or _ _); [|done]. wp_go. destruct (ok_or _ _); [|done]. wp_go.
  destruct (ensure_capacity _ _); [|done]. wp_go. apply wp_outbound_any. added.
Qed.
Lemma replenish_stays : stays p queue_prekey_replenishment.
Proof.
  apply stays_wp. intros m d t Hm. unfold queue_prekey_replenishment, in_outbox in *. wp_go.
  destruct (List.find _ _); wp_go; [done|].
  destruct (map_err _ _); [|done]. wp_go. destruct (ensure_capacity _ _); [|done]. wp_go.
  destruct (take_keys _ (stored_opks m)), (take_keys _ (one_time_prekey_created_at m)). wp_go.
  destruct (ok_or _ _); [|done]. wp_go. apply wp_outbound_any. added.
Qed.

(** ** Operations that take from it *)

Lemma remove_stays j q f m d t :
  in_outbox p m -> pending_outbound m !! j = Some q -> p <> q ->
  wp (remove_outbound j q f) (fun _ c => in_outbox p (c_mgr c)) (mkClient m (d, t)).
Proof.
  intros Hm Hj Hne. unfold remove_outbound, in_outbox in *. wp_step. wp_step. wp_step. wp_step.
  assert (p ∈ delete j (pending_outbound m)) as Hd by by eapply elem_of_delete_ne.
  apply wp_store; [|intros d' _]; wp_go; cbn; [by apply elem_of_vec_insert|done].
Qed.

(** What is confirmed or replaced is another item. *)
Lemma confirm_message_sent_stays i : item_id p <> i -> stays p (confirm_message_sent i).
Proof.
  intros Hi. apply stays_wp. intros m d t Hm. unfold confirm_message_sent. wp_go.
  destruct (position _ _) as [j|] eqn:Hpos; wp_go; [|done].
  apply position_lookup in Hpos as (q & Hj & Hq). rewrite Hj. cbn. apply remove_stays; [done|done|].
  intros <-. destruct p; try done. by apply bool_decide_eq_true in Hq.
Qed.
Lemma reject_stays i : item_id p <> i -> stays p (reject_message i).
Proof.
  intros Hi. apply stays_wp. intros m d t Hm. unfold reject_message, in_outbox in *. wp_go.
  destruct (position _ _) as [j|] eqn:Hpos; wp_go; [|done].
  apply position_lookup in Hpos as (q & Hj & Hq). rewrite Hj.
  assert (p ∈ delete j (pending_outbound m)) as Hd.
  { eapply elem_of_delete_ne; [done| |done]. intros <-. destruct p; try done. by apply bool_decide_eq_true in Hq. }
  destruct q; wp_go; try done. cbn. by apply elem_of_vec_insert.
Qed.

Context (Hp : is_outgoing p = true).

Lemma confirm_receipt_sent_stays i : stays p (confirm_read_receipt_sent i).
Proof.
  apply stays_wp. intros m d t Hm. unfold confirm_read_receipt_sent. wp_go.
  destruct (position _ _) as [j|] eqn:Hpos; wp_go; [|done].
  apply position_lookup in Hpos as (q & Hj & Hq). rewrite Hj. cbn. apply remove_stays; [done|done|].
  intros <-. by destruct p.
Qed.
Lemma confirm_acked_stays i l : stays p (confirm_acked i l).
Proof.
  apply stays_wp. intros m d t Hm. unfold confirm_acked, in_outbox in *. wp_go.
  destruct (position _ _) as [j|] eqn:Hpos; wp_go; [|done].
  apply position_lookup in Hpos as (q & Hj & Hq). rewrite Hj.
  assert (p ∈ delete j (pending_outbound m)) as Hd.
  { eapply elem_of_delete_ne; [done| |done]. intros <-. by destruct p. }
  destruct q; wp_go; try done; case_bool_decide; wp_go; try done; cbn [ok_or]; wp_go; cbn;
    try done; by apply elem_of_vec_insert.
Qed.

(** A rotation is confirmed, or replaced. *)
Lemma rotated_stays i a b k : stays p (confirm_signed_prekey_rotated i a b k).
Proof.
  apply stays_wp. intros m d t Hm. unfold confirm_signed_prekey_rotated, in_outbox in *. wp_go.
  destruct (position _ _) as [j|] eqn:Hpos; wp_go; [|done].
  apply position_lookup in Hpos as (q & Hj & Hq). rewrite Hj. destruct q; try done.
  assert (forall z, p ∈ <[j := z]> (pending_outbound m)) as Hi.
  { intros z. eapply elem_of_insert_ne; [done| |done]. intros E. by rewrite E in Hp. }
  assert (p ∈ delete j (pending_outbound m)) as Hd.
  { eapply elem_of_delete_ne; [done| |done]. intros E. by rewrite E in Hp. }
  destruct (a && _); wp_go.
  - unfold confirm_accepted_signed_prekey_rotation. wp_go; cbn; done.
  - unfold reconcile_rejected_signed_prekey_rotation. wp_go; [done|].
    destruct (ok_or _ _); [|done]. wp_go. destruct (ok_or _ _); [|done]. wp_go.
    destruct (ok_or _ _); [|done]. wp_go. destruct (b && _); wp_go; [done|].
    rewrite Hj. cbn [ok_or]. wp_go. apply wp_store; [|intros d' _]; wp_go; [|apply Hi].
    destruct b; cbn; rewrite list_insert_insert_eq; apply Hi.
Qed.

(** An upload is confirmed; a further one may be queued, and kept when the
    removal of the first fails. *)
Lemma uploaded_stays i a n : stays p (confirm_prekeys_uploaded i a n).
Proof.
  apply stays_wp. intros m d t Hm. unfold confirm_prekeys_uploaded, in_outbox in *. wp_go.
  destruct (position _ _) as [j|] eqn:Hpos; wp_go; [|done].
  apply position_lookup in Hpos as (q & Hj & Hq). rewrite Hj. destruct q; try done. wp_go.
  assert (p ∈ delete j (pending_outbound m)) as Hd.
  { eapply elem_of_delete_ne; [done| |done]. intros E. by rewrite E in Hp. }
  match goal with |- wp ?op _ (mkClient ?m' ?io) =>
    cut (stays p op); [intros Hs; exact (proj1 (Hs (mkClient m' io) Hd I))|] end.
  unfold stays. pres_go (in_outbox p) (fun _ : Disk => True); eauto with outbox; try apply replenish_stays;
    try apply store_stays; by apply elem_of_vec_insert.
Qed.
End Outbox.
