(* ===== verification/CryptoMgrCrash.v ===== *)
(** * Restarting the client

    [load_or_generate] rebuilds from the file the manager that wrote it
    ([load_recovers]).  Over any history of operations, store failures and
    restarts, memory and file agree ([reachable_inv]), so that killing the
    client loses nothing ([crash_safe]), an operation that fails changes nothing
    ([failed_operation_undone]), and a text once decrypted is answered until it
    is confirmed stored, and never again after ([handoff_until_confirmed]). *)
From stdpp Require Import base numbers list strings gmap.
From S2P Require Import Prelude Consts Types Primitives Kdf Aad Keys X3dh Ratchet SqlDb ServerWorld CryptoStore CryptoMgr CryptoMgrInv CryptoMgrFacts CryptoMgrRecv CryptoMgrPrekeys CryptoMgrEntry.
Local Open Scope Z_scope.
Local Open Scope cmp_scope.

(** ** The ledger as loaded *)

Abbreviation group_step :=
  (fun (t : Ledger) (r : string * string * ProcessedMessage) =>
     <[r.1.1 := <[r.1.2 := r.2]> (default ∅ (t !! r.1.1))]> t).

Lemma group_fold_notin (l : list (string * string * ProcessedMessage)) (t : Ledger) p i :
  (p, i) ∉ l.*1 -> lookup_processed p i (fold_left group_step l t) = lookup_processed p i t.
Proof.
  revert t. induction l as [|[[q j] r] l IH]; intros t Hn; [done|].
  cbn [fmap list_fmap fst] in Hn. apply not_elem_of_cons in Hn as [Hne Hn].
  cbn [fold_left]. rewrite IH by done. cbn [fst snd]. rewrite lookup_processed_insert.
  rewrite decide_False; [done|]. naive_solver.
Qed.

Lemma group_fold_in (l : list (string * string * ProcessedMessage)) (t : Ledger) p i r :
  NoDup l.*1 -> ((p, i), r) ∈ l -> lookup_processed p i (fold_left group_step l t) = Some r.
Proof.
  revert t. induction l as [|[[q j] x] l IH]; intros t Hnd Hin; [by apply elem_of_nil in Hin|].
  cbn [fmap list_fmap fst] in Hnd. apply NoDup_cons in Hnd as [Hn Hnd]. cbn [fold_left fst snd].
  apply elem_of_cons in Hin as [[= -> -> ->]|Hin]; [|by apply IH].
  rewrite group_fold_notin by done. rewrite lookup_processed_insert. by rewrite decide_True.
Qed.

Lemma lookup_group (rows : Rows) p i :
  lookup_processed p i (group_processed rows) = rows !! (p, i).
Proof.
  unfold group_processed. destruct (rows !! (p, i)) as [r|] eqn:Hr.
  - apply group_fold_in; [apply NoDup_fst_map_to_list|]. by apply elem_of_map_to_list.
  - rewrite group_fold_notin; [done|]. intros Hin.
    apply list_elem_of_fmap in Hin as ([k r] & E & Hin). simpl in E. subst k.
    apply elem_of_map_to_list in Hin. congruence.
Qed.

Lemma group_fold_peers (l : list (string * string * ProcessedMessage)) (t : Ledger) p ms :
  fold_left group_step l t !! p = Some ms -> (exists i r, ((p, i), r) ∈ l) \/ is_Some (t !! p).
Proof.
  revert t. induction l as [|[[q j] x] l IH]; intros t; [by right|].
  cbn [fold_left fst snd]. intros [(i & r & Hin)|Hs]%IH.
  - left. exists i, r. by right.
  - rewrite lookup_insert_is_Some in Hs. destruct (decide (q = p)) as [->|Hne].
    + left. exists j, x. by left.
    + right. by destruct Hs as [?|[_ ?]].
Qed.

Lemma validate_peer_ids_ok {A} (t : gmap string A) :
  (forall p x, t !! p = Some x -> valid_peer p) -> validate_peer_ids t = Ok tt.
Proof.
  intros Hv. unfold validate_peer_ids. rewrite (proj2 (forallb_forall _ _)); [done|].
  intros [p x] Hin. apply list_elem_of_In, elem_of_map_to_list in Hin. simpl.
  by rewrite (Hv p x).
Qed.

Lemma validate_versions_ok l : Forall current_version l -> validate_pending_protocol_versions l = Ok tt.
Proof.
  induction 1 as [|p l Hp Hl IH]; [done|]. destruct p; simpl in *; try done; by rewrite Hp, Z.eqb_refl.
Qed.

Section Crash.
Context `{CryptoPrims, Codecs, !CodecLaws, ClientEnv}.

(** ** The core document as loaded *)

Lemma next_opk_loaded keys next created :
  opks_wf keys next created ->
  Z.max (Z.max next (match max_of (map_to_list keys).*1 with
                     | Some k => saturating_add u32_max k 1 | None => 0 end)) LEGACY_PREKEY_ID_FLOOR
  = next.
Proof.
  intros (Hk & _ & Hn). destruct (max_of _) as [k|] eqn:Hm.
  - apply max_of_spec in Hm as [Hin _]. apply list_elem_of_fmap in Hin as ([j o] & -> & Hj).
    apply elem_of_map_to_list in Hj. destruct (Hk _ _ Hj) as [_ Hs]. simpl. lia.
  - unfold LEGACY_PREKEY_ID_FLOOR in *. lia.
Qed.

Lemma loaded_core m row now :
  mgr_wf m -> core_sync m row ->
  let p := default CoreState_default row in
  let opks := decode_stored_opks (cs_one_time_prekeys p) in
  sessions_of_doc (cs_sessions p) = Ok (sessions m)
  /\ (exists n, decode_stored_spks (cs_signed_prekey p) (cs_previous_signed_prekeys p)
        = Ok (stored_spk m, previous_spks m, n)
      /\ Z.max (default 0 (cs_next_signed_prekey_id p)) n = next_signed_prekey_id m)
  /\ opks = stored_opks m
  /\ filter (fun r => is_Some (stored_opks m !! r.1)) (cs_one_time_prekey_created_at p)
       ∪ ((fun _ => now) <$> stored_opks m) = one_time_prekey_created_at m
  /\ Z.max (Z.max (default 0 (cs_next_one_time_prekey_id p))
       (match max_of (map_to_list (stored_opks m)).*1 with
        | Some k => saturating_add u32_max k 1 | None => 0 end)) LEGACY_PREKEY_ID_FLOOR
     = next_one_time_prekey_id m
  /\ cs_signed_prekey_rotated_at p = signed_prekey_rotated_at m.
Proof.
  intros W. destruct (W) as [Wo Ws We _]. destruct row as [c|]; simpl.
  - intros ->. cbn. split; [by apply sessions_roundtrip|]. split.
    { destruct (spks_roundtrip _ _ _ Ws) as (n & -> & Hn). exists n. split; [done|lia]. }
    split; [by eapply opks_roundtrip|]. split; [by eapply created_roundtrip|].
    split; [by eapply next_opk_loaded|done].
  - intros (Ek & Ep & Er & En & Eo & Es & Eno & Ec). rewrite Ek, Ep, Er, En, Eo, Es, Eno, Ec.
    split; [done|]. split; [by exists 0|]. split; [done|]. split; [done|]. split; done.
Qed.

(** ** Loading *)

(** The outbox as loaded is the one in memory, rotations moved at most. *)
Lemma out_sync_rows l rows : out_sync l rows -> out_rows rows.*2 = rows.
Proof.
  intros [Hp _]. unfold out_rows. rewrite <- list_fmap_compose.
  rewrite <- (list_fmap_id rows) at 2. apply list_fmap_ext. intros i [c p] Hi. simpl.
  apply list_elem_of_lookup_2 in Hi. rewrite Hp in Hi. unfold out_rows in Hi.
  apply list_elem_of_fmap in Hi as (q & [= -> ->] & _). done.
Qed.

Lemma out_rows_snd l : (out_rows l).*2 = l.
Proof. unfold out_rows. rewrite <- list_fmap_compose. apply list_fmap_id. Qed.

Lemma out_sync_perm l rows : out_sync l rows -> rows.*2 ≡ₚ l.
Proof. intros [Hp _]. rewrite Hp. by rewrite out_rows_snd. Qed.

Lemma out_wf_perm l l' : l' ≡ₚ l -> out_wf l -> out_wf l'.
Proof. intros E [Hn Hf]. split; by rewrite E. Qed.

Lemma filter_fmap_snd (rows : list (string * PendingOutbound)) :
  filter (fun p => is_rotation p = false) rows.*2 = (filter (fun r => is_rotation r.2 = false) rows).*2.
Proof.
  induction rows as [|[c p] rows IH]; [done|]. cbn [fmap list_fmap snd]. rewrite !filter_cons.
  cbn [snd]. case_decide; [|done]. cbn. by rewrite IH.
Qed.

(** What a restart gives back: everything durable, with the outbox items other
    than key rotations in order and the replay entries still in retention. *)
Definition recovered (cut : Z) (m m' : CryptoManager) : Prop :=
  durable (set_outbound [] m') = durable (set_outbound [] m)
  /\ pending_outbound m' ≡ₚ pending_outbound m
  /\ filter (fun p => is_rotation p = false) (pending_outbound m')
     = filter (fun p => is_rotation p = false) (pending_outbound m)
  /\ (forall p i r, cut <= processed_at r ->
        (lookup_processed p i (processed_messages m') = Some r
         <-> lookup_processed p i (processed_messages m) = Some r)).

Lemma load_io_ok {A} (f : Disk -> A) d t : ce_fault t = false -> load_io f (d, t) = (Ok (f d), (d, S t)).
Proof. intros E. unfold load_io. by rewrite E. Qed.

Lemma bind_ok {S E A B} (m : rm S E A) (k : A -> rm S E B) s a s' :
  m s = (Ok a, s') -> rm_bind m k s = k a s'.
Proof. intros E'. unfold rm_bind. by rewrite E'. Qed.

(** The store calls of [load_or_generate] at time [t] succeed. *)
Definition load_unfaulted (t : nat) : Prop :=
  ce_fault t = false /\ ce_fault (S t) = false /\ ce_fault (S (S t)) = false
  /\ ce_fault (S (S (S (S (S t))))) = false.

Lemma load_ok_unfaulted ik d t m io : load_or_generate ik (d, t) = (Ok m, io) -> load_unfaulted t.
Proof.
  unfold load_or_generate, rm_bind, load_io, store_io, rm_lift, rm_ret, load_unfaulted.
  repeat (break_match; try done); intros; simplify_eq; auto.
Qed.

Lemma load_recovers m d t :
  client_inv (mkClient m (d, t)) -> load_unfaulted t ->
  exists m' d' t', (t <= t')%nat /\ load_or_generate (identity m) (d, t) = (Ok m', (d', t'))
    /\ client_inv (mkClient m' (d', t')) /\ recovered (high t') m m'.
Proof.
  intros [W [Sc So Sp Sv]] (F1 & F2 & F3 & F4). cbn [c_mgr c_io fst snd] in *.
  assert (Forall current_version (outbox d).*2) as Hver.
  { rewrite (out_sync_perm _ _ So). apply W. }
  set (now0 := ce_clock (S (S (S t)))).
  destruct (loaded_core m (core_state_row d) now0 W Sc) as (Es & (n & Ek & En) & Eo & Ec & Eno & Er).
  set (ledger := prune_processed (ce_clock (S (S (S (S (S (S t))))))) (group_processed (processed_rows d))).
  set (m' := mkManager (identity m) (sessions m) ∅ (stored_spk m) (previous_spks m)
    (signed_prekey_rotated_at m) (next_signed_prekey_id m) (stored_opks m) (next_one_time_prekey_id m)
    (one_time_prekey_created_at m) (outbox d).*2 ledger false).
  set (t' := S (S (S (S (S (S (S t))))))).
  set (cut := saturating_sub (ce_clock (S (S (S (S t))))) RETENTION_SECS).
  set (rows' := filter (fun r => ~ processed_at r.2 < cut) (processed_rows d)).
  exists m', (mkDisk (core_state_row d) (outbox d) rows'), t'. split; [unfold t'; lia|]. split.
  { unfold load_or_generate. erewrite bind_ok by (by apply load_io_ok).
    erewrite bind_ok by (unfold rm_lift; by rewrite Es).
    erewrite bind_ok by (by apply load_io_ok).
    erewrite bind_ok by (unfold rm_lift; by rewrite (validate_versions_ok _ Hver)).
    erewrite bind_ok by (by apply load_io_ok).
    erewrite bind_ok by (unfold rm_lift; by rewrite Ek). cbv beta iota zeta.
    erewrite bind_ok by done. fold now0. rewrite Eo, Ec, Eno, Er, En.
    erewrite bind_ok by (unfold rm_lift; rewrite validate_peer_ids_ok; [done|apply W]).
    erewrite bind_ok; cycle 1.
    { unfold rm_lift. rewrite validate_peer_ids_ok; [done|]. intros p x Hp.
      apply group_fold_peers in Hp as [(i & r & Hin)|Hs].
      - apply elem_of_map_to_list in Hin. by eapply Sv.
      - rewrite lookup_empty in Hs. by destruct Hs. }
    erewrite bind_ok by done.
    erewrite bind_ok by (unfold store_io; by rewrite F4).
    by erewrite bind_ok. }
  assert (cut <= high t' /\ saturating_sub (ce_clock (S (S (S (S (S (S t))))))) RETENTION_SECS <= high t'
    /\ high t <= high t') as (Hc1 & Hc2 & Hc3).
  { split; [|split].
    - etrans; [apply high_clock|]. apply high_mono. unfold t'. lia.
    - apply high_clock.
    - apply high_mono. unfold t'. lia. }
  assert (forall c, proc_sync c (group_processed (processed_rows d)) (processed_rows d)) as Hg.
  { intros c p i r _. by rewrite lookup_group. }
  split.
  - split; cbn [c_mgr c_io fst snd].
    + destruct W. split; try done. by eapply out_wf_perm; [apply out_sync_perm|].
    + split; cbn.
      * by destruct (core_state_row d).
      * by split; rewrite (out_sync_rows _ _ So).
      * by apply proc_sync_prune, proc_sync_prune_rows.
      * intros p i r [Hr _]%map_lookup_filter_Some. by eapply Sv.
  - split; [done|]. split; [by apply out_sync_perm|]. split.
    + cbn. rewrite filter_fmap_snd. destruct So as [_ ->]. rewrite <- filter_fmap_snd.
      by rewrite out_rows_snd.
    + intros p i r Hr. rewrite (Sp p i r) by lia. cbn. unfold ledger.
      rewrite <- (proc_sync_prune (high t') (ce_clock (S (S (S (S (S (S t)))))))
        (group_processed (processed_rows d)) (processed_rows d) Hc2 (Hg _) p i r Hr). done.
Qed.

Lemma load_advances ik d t m io : load_or_generate ik (d, t) = (Ok m, io) -> (t <= io.2)%nat.
Proof.
  unfold load_or_generate, rm_bind, load_io, store_io, rm_lift, rm_ret.
  repeat (break_match; try done); intros; simplify_eq; cbn; lia.
Qed.

(** A failed start changes nothing in the file. *)
Lemma load_failed ik d t e d' t' :
  load_or_generate ik (d, t) = (Err e, (d', t')) -> d' = d /\ (t <= t')%nat.
Proof.
  unfold load_or_generate, rm_bind, load_io, store_io, rm_lift, rm_ret.
  repeat (break_match; try done); intros; simplify_eq; split; try done; lia.
Qed.

(** ** Histories *)

(** A client that was never run. *)
Definition fresh_manager (ik : IdentityKeyPair) : CryptoManager :=
  mkManager ik ∅ ∅ None [] 0 0 ∅ LEGACY_PREKEY_ID_FLOOR ∅ [] ∅ false.

Lemma fresh_inv ik t : client_inv (mkClient (fresh_manager ik) (empty_disk, t)).
Proof.
  split; [split|split]; cbn [c_mgr c_io fst snd]; try done.
  - split; [done|]. split; [|done]. intros k. cbn. rewrite !lookup_empty. by split; intros [? [=]].
  - split; constructor.
Qed.
End Crash.

(** The operations of the manager, with their arguments. *)
Inductive ClientOp :=
| OInit (peer_id : string) (bundle : PreKeyBundle)
| OExpire (peer_id : string)
| OEncrypt (peer_id : string) (recipient_id : UserId) (message_id : MessageId) (plaintext : bytes)
| OReadReceipt (ids_json : list string -> option bytes) (peer_id : string) (recipient_id : UserId)
    (message_ids : list MessageId)
| OQueueAck (message_ids : list MessageId)
| OQueueReceiptAck (receipt_ids : list MessageId)
| OSent (message_id : MessageId)
| OReceiptSent (receipt_id : MessageId)
| OReject (message_id : MessageId)
| OAcked (ack_id : MessageId) (message_ids : list MessageId)
| ODecrypt (peer_id : string) (message_id : MessageId) (envelope : EncryptedEnvelope)
| OStored (peer_id : string) (message_id : MessageId)
| ORegister (spk : SignedPreKey) (opks : list Keys.OneTimePreKey)
| ORotate
| ORotated (rotation_id : MessageId) (accepted previously_accepted : bool) (current_key_id : Z)
| OReplenish
| OUploaded (upload_id : MessageId) (accepted : bool) (remaining : Z).

(** Peers are validated user ids, wire counters are [u32], a registered signed
    pre-key is one that was generated. *)
Definition op_wf (op : ClientOp) : Prop :=
  match op with
  | OInit p _ => valid_peer p
  | ODecrypt p _ e => valid_peer p /\ envelope_u32 e
  | ORegister k _ => length (spk_signature k) = 64%nat /\ 0 <= spk_key_id k
  | _ => True
  end.

Section History.
Context `{CryptoPrims, Codecs, !CodecLaws, ClientEnv, !KdfLaws, !SignatureLaws}.

(** Whether the operation succeeded, and the client after it. *)
Definition outcome {E A} (x : result E A * Client) : bool * Client := (negb (is_err x.1), x.2).

Definition exec (op : ClientOp) (c : Client) : bool * Client :=
  match op with
  | OInit p b => outcome (init_session_from_bundle p b c)
  | OExpire p => outcome (expire_stale_prekey_session p c)
  | OEncrypt p r i t => outcome (encrypt_message p r i t c)
  | OReadReceipt j p r l => outcome (encrypt_read_receipt j p r l c)
  | OQueueAck l => outcome (queue_ack l c)
  | OQueueReceiptAck l => outcome (queue_read_receipt_ack l c)
  | OSent i => outcome (confirm_message_sent i c)
  | OReceiptSent i => outcome (confirm_read_receipt_sent i c)
  | OReject i => outcome (reject_message i c)
  | OAcked i l => outcome (confirm_acked i l c)
  | ODecrypt p i e =>
      let '(r, c') := decrypt_message_to_text p i e (E := Empty_set) c in
      (match r with Ok (Pending _) => true | _ => false end, c')
  | OStored p i => outcome (confirm_inbound_stored p i c)
  | ORegister k ks => outcome (persist_registration_keys k ks c)
  | ORotate => outcome (queue_signed_prekey_rotation c)
  | ORotated i a pa k => outcome (confirm_signed_prekey_rotated i a pa k c)
  | OReplenish => outcome (queue_prekey_replenishment c)
  | OUploaded i a n => outcome (confirm_prekeys_uploaded i a n c)
  end.

Definition exec_safe (op : ClientOp) (c : Client) : Prop :=
  client_inv (exec op c).2 /\ identity (c_mgr (exec op c).2) = identity (c_mgr c)
  /\ ((exec op c).1 = false -> durable (c_mgr (exec op c).2) = durable (c_mgr c)
      \/ exists i n p keys next created, op = OUploaded i true n /\ is_upload p = true
         /\ c_mgr (exec op c).2 = set_outbound (pending_outbound (c_mgr c) ++ [p])
                                    (set_opks keys next created (c_mgr c))).

Lemma exec_safe_of {E A} op (m : rm Client E A) c :
  exec op c = outcome (m c) -> op_safe m -> client_inv c -> exec_safe op c.
Proof.
  intros Eo Hs I. unfold exec_safe. rewrite Eo. destruct (Hs c I) as (I' & Ei & He).
  split; [done|]. split; [done|]. simpl. intros Hf. left. apply He. by destruct (is_err _).
Qed.

Hint Resolve expire_stale_safe encrypt_message_safe encrypt_read_receipt_safe queue_ack_safe
  queue_read_receipt_ack_safe confirm_message_sent_safe confirm_read_receipt_sent_safe
  reject_message_safe confirm_acked_safe confirm_inbound_stored_safe
  queue_signed_prekey_rotation_safe confirm_signed_prekey_rotated_safe
  queue_prekey_replenishment_safe : core.

Lemma exec_ok op c : client_inv c -> op_wf op -> exec_safe op c.
Proof.
  intros I Hw.
  destruct op; try (by eapply exec_safe_of; [done|eauto|done]).
  - by eapply exec_safe_of; [done|by apply init_session_safe|done].
  - destruct Hw as [Hp Hu]. unfold exec_safe, exec.
    destruct (decrypt_message_to_text_spec (E := Empty_set) peer_id message_id envelope c I Hp Hu)
      as (r & c' & -> & I' & Ei & Hr). cbn. split; [done|]. split; [done|].
    destruct r; [done|by left..].
  - destruct Hw as [Hl Hk]. by eapply exec_safe_of; [done|by apply persist_registration_keys_safe|done].
  - destruct (confirm_prekeys_uploaded_safe upload_id accepted remaining c I) as (I' & Ei & He).
    unfold exec_safe, exec, outcome. cbn [fst snd]. split; [done|]. split; [done|].
    intros Hf. destruct He as [|(p & k & n & cr & -> & Hp & Em)]; [by destruct (is_err _)|by left|].
    right. by exists upload_id, remaining, p, k, n, cr.
Qed.

(** A first start on an empty file, operations whatever store calls fail, and
    restarts at any later time (an attempt that fails leaves the file alone,
    [load_failed]). *)
Inductive reachable (ik : IdentityKeyPair) : Client -> Prop :=
| reach_start t m io :
    load_or_generate ik (empty_disk, t) = (Ok m, io) -> reachable ik (mkClient m io)
| reach_op c op : reachable ik c -> op_wf op -> reachable ik (exec op c).2
| reach_restart c t m io :
    reachable ik c -> ((c_io c).2 <= t)%nat ->
    load_or_generate ik ((c_io c).1, t) = (Ok m, io) -> reachable ik (mkClient m io).

Lemma load_step m d t t' m' io :
  client_inv (mkClient m (d, t)) -> (t <= t')%nat ->
  load_or_generate (identity m) (d, t') = (Ok m', io) ->
  client_inv (mkClient m' io) /\ recovered (high io.2) m m'.
Proof.
  intros I Ht E. pose proof (load_ok_unfaulted _ _ _ _ _ E) as Hu.
  apply (inv_keep m m _ t t') in I; [|done|done|done].
  destruct (load_recovers m d t' I Hu) as (m2 & d2 & t2 & _ & E' & I' & R).
  rewrite E in E'. injection E' as <- ->. done.
Qed.

Lemma recovered_identity cut m m' : recovered cut m m' -> identity m' = identity m.
Proof. intros [E _]. by injection E. Qed.

Lemma reachable_ok ik c : reachable ik c -> client_inv c /\ identity (c_mgr c) = ik.
Proof.
  induction 1 as [t m io E|c op _ [I Ei] Hw|c t m io _ [I Ei] Ht E].
  - destruct (load_step (fresh_manager ik) empty_disk t t m io (fresh_inv ik t)) as [I R]; [done|done|].
    split; [done|]. exact (recovered_identity _ _ _ R).
  - destruct (exec_ok op c I Hw) as (I' & Ei' & _). by rewrite Ei'.
  - destruct c as [mc [d tc]]. simpl in *. subst ik.
    destruct (load_step mc d tc t m io I Ht E) as [I' R]. split; [done|].
    exact (recovered_identity _ _ _ R).
Qed.

(** Through every history of operations, store failures and restarts the
    manager is well formed and agrees with its file: the core document is the
    serialisation of the manager, the outbox table holds the pending items
    (those other than key rotations in order), and the ledger table holds the
    replay entries that are in retention. *)
Lemma client_memory_and_file_agree ik c : reachable ik c -> client_inv c.
Proof. intros R. by apply (reachable_ok ik). Qed.

(** C10: After any history the client can be killed at any time: starting it
    again gives back all sessions, pre-keys and key counters, the same outbox
    (items other than key rotations in order) and the replay ledger; the start
    fails only if the store fails, and then leaves the file as it was. *)
Theorem crash_safe ik c t :
  reachable ik c -> ((c_io c).2 <= t)%nat ->
  match load_or_generate ik ((c_io c).1, t) with
  | (Ok m', io') => recovered (high io'.2) (c_mgr c) m'
  | (Err _, io') => io'.1 = (c_io c).1 /\ ~ load_unfaulted t
  end.
Proof.
  intros R Ht. destruct (reachable_ok ik c R) as [I <-]. destruct c as [m [d tc]]. simpl in *.
  destruct (load_or_generate (identity m) (d, t)) as [[m'|e] [d' t']] eqn:E.
  - by destruct (load_step m d tc t m' (d', t') I Ht E).
  - split; [by apply load_failed in E as [-> _]|]. intros Hu.
    apply (inv_keep m m _ tc t) in I; [|done|done|done].
    destruct (load_recovers m d t I Hu) as (m2 & d2 & t2 & _ & E' & _). congruence.
Qed.

(** ** The ledger through histories *)

Hint Resolve init_session_quiet expire_quiet encrypt_message_quiet encrypt_receipt_quiet queue_ack_quiet
  queue_receipt_ack_quiet confirm_message_sent_quiet confirm_receipt_sent_quiet reject_quiet register_quiet
  rotation_quiet rotated_quiet replenish_quiet uploaded_quiet : core.

Definition ledger (c : Client) : Ledger := processed_messages (c_mgr c).

(** The operations that change entries. *)
Definition enters (op : ClientOp) : bool :=
  match op with OAcked _ _ | ODecrypt _ _ _ | OStored _ _ => true | _ => false end.

Lemma exec_quiet op c : enters op = false -> ledger (exec op c).2 = ledger c.
Proof.
  intros He. unfold ledger. destruct op; try done; unfold exec, outcome; cbn [snd]; apply quiet_ledger; auto.
Qed.

(** A failed operation has at most dropped entries past retention. *)
Lemma exec_failed_ledger op c :
  (exec op c).1 = false -> pruned (high (c_io (exec op c).2).2) (ledger c) (ledger (exec op c).2).
Proof.
  intros Hf. destruct (enters op) eqn:He; [|rewrite exec_quiet by done; apply pruned_refl].
  destruct op; try done; unfold ledger, exec, outcome in *; cbn [fst snd] in *.
  - destruct c as [m [d t]]. destruct (acked_entries ack_id message_ids m d t) as [E _].
    rewrite E; [apply pruned_refl|]. by destruct (is_err _).
  - pose proof (decrypt_entry (E := Empty_set) peer_id message_id envelope c) as Hd.
    destruct (decrypt_message_to_text _ _ _ c) as [[[]|] c']; done.
  - destruct c as [m [d t]]. destruct (stored_entries peer_id message_id m d t) as [E _].
    rewrite E; [apply pruned_refl|]. by destruct (is_err _).
Qed.

(** An entry in retention stays, unless it is acknowledged; and it changes only
    when its storage is confirmed. *)
Lemma exec_entry op c p j r :
  high (c_io (exec op c).2).2 <= processed_at r -> lookup_processed p j (ledger c) = Some r ->
  (forall a ids, op = OAcked a ids -> j ∉ uuid_to_string <$> ids) ->
  lookup_processed p j (ledger (exec op c).2) = Some r
  \/ (exists i, op = OStored p i /\ uuid_to_string i = j)
     /\ lookup_processed p j (ledger (exec op c).2) = Some (mkProcessed None (processed_at r)).
Proof.
  intros Hr Hl Ha. destruct (enters op) eqn:He; [|left; by rewrite exec_quiet].
  destruct op; try done; unfold ledger, exec, outcome in *; cbn [fst snd] in *.
  - destruct c as [m [d t]]. destruct (acked_entries ack_id message_ids m d t) as [_ E].
    left. rewrite E; [done|]. by eapply Ha.
  - left. pose proof (decrypt_entry (E := Empty_set) peer_id message_id envelope c) as Hd. cbv zeta in Hd.
    destruct (decrypt_message_to_text _ _ _ c) as [[[text| |]|[]] c']; cbn [fst snd] in *;
      [|by apply (Hd p j r)..].
    destruct Hd as [[-> _]|(Hn & n & _ & _ & P)]; [done|]. apply (P p j r) in Hl; [|done].
    rewrite lookup_remove_processed in Hl. by case_decide.
  - destruct c as [m [d t]]. destruct (stored_entries peer_id message_id m d t) as [_ E].
    destruct (E p j r Hl) as [->|[[= -> ->] ->]]; [by left|right]. split; [by exists message_id|done].
Qed.

(** The error type does not matter: there is none. *)
Lemma decrypt_any_error {E F} peer i env c r c' :
  decrypt_message_to_text peer i env (E := E) c = (Ok r, c') ->
  decrypt_message_to_text peer i env (E := F) c = (Ok r, c').
Proof.
  unfold decrypt_message_to_text. destruct (negb _); [by intros [= <- <-]|]. unfold rm_bind, get_mgr, rm_ret, rm_try.
  destruct (lookup_processed _ _ _); [by intros [= <- <-]|]. destruct (decrypt_with_marker _ _ _ c).
  by intros [= <- <-].
Qed.

(** What may follow: operations that [allowed] admits, and restarts. *)
Inductive later (ik : IdentityKeyPair) (allowed : ClientOp -> Prop) (c : Client) : Client -> Prop :=
| later_here : later ik allowed c c
| later_op c' op : later ik allowed c c' -> op_wf op -> allowed op -> later ik allowed c (exec op c').2
| later_restart c' t m io :
    later ik allowed c c' -> ((c_io c').2 <= t)%nat ->
    load_or_generate ik ((c_io c').1, t) = (Ok m, io) -> later ik allowed c (mkClient m io).

Lemma later_reachable ik allowed c c' : reachable ik c -> later ik allowed c c' -> reachable ik c'.
Proof. intros R. induction 1; [done|by apply reach_op|by eapply reach_restart]. Qed.

Hint Resolve init_session_adv expire_adv encrypt_message_adv encrypt_receipt_adv queue_ack_adv
  queue_receipt_ack_adv confirm_message_sent_adv confirm_receipt_sent_adv reject_adv acked_adv stored_adv register_adv
  rotation_adv rotated_adv replenish_adv uploaded_adv decrypt_adv : core.

Lemma exec_advances op c : ((c_io c).2 <= (c_io (exec op c).2).2)%nat.
Proof.
  destruct op; unfold exec, outcome; cbn [snd];
    try (match goal with |- context [(?m c).2] => cut (advances m); [intros Ha; apply Ha|auto] end).
  pose proof (decrypt_adv (E := Empty_set) peer_id message_id envelope c) as Ha.
  by destruct (decrypt_message_to_text _ _ _ c).
Qed.

Lemma later_advances ik allowed c c' : later ik allowed c c' -> ((c_io c).2 <= (c_io c').2)%nat.
Proof.
  induction 1 as [|c' op _ IH _ _|c' t m io _ IH Ht E]; [done|..].
  - etrans; [done|apply exec_advances].
  - apply load_advances in E. cbn. lia.
Qed.

(** An entry in retention through a history that confirms neither its storage
    nor its acknowledgement: as it was; and one without text stays without text
    through any history that does not confirm its acknowledgement. *)
Definition unacked (j : string) (op : ClientOp) : Prop :=
  forall a ids, op = OAcked a ids -> j ∉ uuid_to_string <$> ids.
Definition unconfirmed (p j : string) (op : ClientOp) : Prop :=
  unacked j op /\ forall i, op = OStored p i -> uuid_to_string i <> j.

Lemma later_entry ik allowed c c' p j r :
  reachable ik c -> later ik allowed c c' ->
  (forall op, allowed op -> unacked j op) ->
  (pending_plaintext r = None \/ forall op, allowed op -> unconfirmed p j op) ->
  high (c_io c').2 <= processed_at r -> lookup_processed p j (ledger c) = Some r ->
  lookup_processed p j (ledger c') = Some r.
Proof.
  intros R L Hu Hc Hh Hl. induction L as [|c' op L IH Hw Ha|c' t m io L IH Ht E]; [done|..].
  - specialize (IH ltac:(etrans; [apply high_mono, (exec_advances op c')|done])).
    destruct (exec_entry op c' p j r) as [|[(i & -> & Ei) El]]; [done|done|by apply Hu|done|].
    destruct Hc as [Hn|Hc]; [|by destruct (proj2 (Hc _ Ha) i eq_refl)].
    rewrite El. destruct r as [x ts]. cbn in *. by rewrite Hn.
  - pose proof (later_reachable _ _ _ _ R L) as R'. pose proof (reachable_ok ik c' R') as [I <-].
    destruct c' as [mc [d tc]]. cbn in *.
    destruct (load_step mc d tc t m io I Ht E) as [_ (_ & _ & _ & Hrec)].
    pose proof (load_advances _ _ _ _ _ E) as Hle.
    assert (tc <= io.2)%nat as Hle' by lia. clear Hle.
    apply Hrec; [done|]. apply IH. etrans; [apply high_mono, Hle'|done].
Qed.

(** C21: An operation that reports an error (for a received message, any verdict
    but a text) has changed nothing durable: its changes were undone, in memory
    and in the file.  Sessions, keys, counters and outbox are as they were; the
    replay ledger has no new entry and has lost none but entries past
    retention, which a decryption drops before it begins, and in the file it has
    exactly the entries in retention that memory had before.  The one exception is
    the confirmation of an accepted pre-key upload. *)
Theorem failed_operation_undone ik c op :
  reachable ik c -> op_wf op -> (exec op c).1 = false ->
  (forall i n, op <> OUploaded i true n) ->
  let c' := (exec op c).2 in
  durable (c_mgr c') = durable (c_mgr c)
  /\ core_sync (c_mgr c) (core_state_row (c_io c').1)
  /\ out_sync (pending_outbound (c_mgr c)) (outbox (c_io c').1)
  /\ pruned (high (c_io c').2) (processed_messages (c_mgr c)) (processed_messages (c_mgr c'))
  /\ proc_sync (high (c_io c').2) (processed_messages (c_mgr c)) (processed_rows (c_io c').1).
Proof.
  intros R Hw Hf Hne c'. destruct (reachable_ok ik c R) as [I _]. pose proof (exec_failed_ledger op c Hf) as P.
  destruct (exec_ok op c I Hw) as ([W [Sc So Sp _]] & _ & [E|(i & n & p & k & nx & cr & -> & _)]);
    [done| |by destruct (Hne i n)].
  split; [done|]. split; [by eapply durable_core_sync|]. split; [by injection E as _ _ _ _ _ _ _ _ _ <-|].
  split; [done|]. intros p i r Hr. destruct (Sp p i r Hr) as [S1 S2], (P p i r) as [P1 P2].
  split; [intros Hl; by apply S1, P2|intros Hl; by apply P1, S2].
Qed.

(** C11: Hand-off of a decrypted message.  Once a message has been decrypted, the
    ledger has its text with a time [ts], read from the clock during that call
    unless the text was there already.  Through any later operations, store failures and
    restarts, as long as [ts] is in retention, a copy of the message, in whatever
    envelope of the current version, is answered with the same text and changes
    nothing, until the client confirms that it stored the text or the relay that it
    has the acknowledgement.  Once storage is confirmed, every copy is
    a duplicate, again through any later operations, store failures and
    restarts, until the relay confirms the acknowledgement or [ts] is past
    retention. *)
Theorem handoff_until_confirmed ik c peer i env text c1 :
  reachable ik c -> valid_peer peer -> envelope_u32 env ->
  decrypt_message_to_text peer i env (E := CryptoError) c = (Ok (Pending text), c1) ->
  let id := uuid_to_string i in
  exists ts,
    (lookup_processed peer id (ledger c) = Some (mkProcessed (Some text) ts)
     \/ exists n, ((c_io c).2 <= n < (c_io c1).2)%nat /\ ts = ce_clock n)
    /\ forall c2, later ik (unconfirmed peer id) c1 c2 ->
      (forall env', version env' = PROTOCOL_VERSION -> high (c_io c2).2 <= ts ->
         decrypt_message_to_text peer i env' (E := CryptoError) c2 = (Ok (Pending text), c2))
      /\ forall c3 c4 env', version env' = PROTOCOL_VERSION ->
         confirm_inbound_stored peer i c2 = (Ok tt, c3) -> later ik (unacked id) c3 c4 ->
         high (c_io c4).2 <= ts ->
         decrypt_message_to_text peer i env' (E := CryptoError) c4 = (Ok Duplicate, c4).
Proof.
  intros R Hp Hu E id. pose proof (decrypt_entry (E := CryptoError) peer i env c) as Hd. rewrite E in Hd. cbv zeta in Hd. cbn [fst snd] in Hd.
  assert (reachable ik c1) as R1.
  { pose proof (reach_op ik c (ODecrypt peer i env) R (conj Hp Hu)) as R1. unfold exec in R1.
    by rewrite (decrypt_any_error _ _ _ _ _ _ E) in R1. }
  assert (exists ts, lookup_processed peer id (ledger c1) = Some (mkProcessed (Some text) ts)
    /\ (lookup_processed peer id (ledger c) = Some (mkProcessed (Some text) ts)
        \/ exists n, ((c_io c).2 <= n < (c_io c1).2)%nat /\ ts = ce_clock n)) as (ts & Hl & Hts).
  { destruct Hd as [[-> [ts Hl]]|(_ & n & Hn & Hl & _)]; [exists ts|exists (ce_clock n)]; eauto. }
  exists ts. split; [done|]. intros c2 L2.
  assert (high (c_io c2).2 <= ts -> lookup_processed peer id (ledger c2) = Some (mkProcessed (Some text) ts)) as Hk2.
  { intros Hh. eapply later_entry; [exact R1|exact L2|by intros op [? _]|by right|done|done]. }
  split; [intros env' Hv Hh; by rewrite (decrypt_known peer i env' c2 (Some text) ts Hv (Hk2 Hh))|].
  intros c3 c4 env' Hv E3 L4 Hh.
  assert (reachable ik c2) as R2 by (by eapply later_reachable).
  assert (reachable ik c3) as R3.
  { pose proof (reach_op ik c2 (OStored peer i) R2 I) as R3. unfold exec, outcome in R3. by rewrite E3 in R3. }
  pose proof (later_advances _ _ _ _ L4) as Ha4. pose proof (stored_adv peer i c2) as Ha3. rewrite E3 in Ha3. cbn in Ha3.
  assert (high (c_io c2).2 <= ts) as Hh2 by (etrans; [apply high_mono|exact Hh]; lia).
  pose proof (confirm_inbound_entry peer i c2 c3 (Some text) ts (Hk2 Hh2) E3) as Hk3.
  rewrite (decrypt_known peer i env' c4 None ts Hv); [done|].
  eapply (later_entry ik (unacked id) c3 c4 peer id (mkProcessed None ts)); [exact R3|exact L4|done|by left|done|exact Hk3].
Qed.
End History.
