(* ===== verification/CryptoMgrContact.v ===== *)
(** * First contact of two clients

    Alice opens a session from the bundle of Bob's published pre-keys and sends
    her first message; Bob, who has never heard of her, decrypts it
    ([first_contact]).  The theorem composes X3DH, the first Diffie-Hellman step
    of the ratchet, the associated data of a pre-key envelope and both
    managers' bookkeeping. *)
From stdpp Require Import base numbers list strings gmap.
From S2P Require Import Prelude Consts Types Primitives Kdf Aead Aad Keys X3dh Ratchet SqlDb ServerWorld CryptoStore CryptoMgr CryptoMgrInv CryptoMgrFacts CryptoMgrRecv CryptoMgrPrekeys CryptoMgrCrash.
Local Open Scope Z_scope.
Local Open Scope cmp_scope.

(** ** The ratchet *)

Section FirstMessage.
Context `{CryptoPrims, !DhLaws, !KdfLaws, !AeadLaws}.

Lemma ratchet_first_message ss spk_secret rng fresh pt aad s msg s' :
  initialize_alice ss (x25519_public spk_secret) rng = Ok s ->
  Ratchet.encrypt pt aad s = (Ok msg, s') ->
  header msg = mkHeader (x25519_public rng) 0 0
  /\ exists b, Ratchet.decrypt fresh (header msg) (Ratchet.ciphertext msg) aad
       (initialize_bob ss (RatchetKeyPair_from_bytes spk_secret (x25519_public spk_secret))) = (Ok pt, b).
Proof.
  unfold initialize_alice. rewrite kdf_rk_eq. intros [= <-] E.
  match type of E with Ratchet.encrypt _ _ ?st = _ => pose proof (encrypt_spec pt aad st) as S end.
  rewrite E in S.
  destruct S as (ck & o & Hck & Ho & _ & _ & Hh & He). simpl in Hck, Hh. injection Hck as <-.
  rewrite kdf_ck_eq in Ho. injection Ho as <-. split; [exact Hh|].
  apply decrypt_encrypt in He. cbn [ck_message_key] in He.
  unfold Ratchet.decrypt. cbn [skipped initialize_bob]. rewrite lookup_empty. rewrite try_decrypt_inner_eq.
  rewrite bool_decide_eq_false_2 by done. rewrite dh_step_eq. cbn [receiving_chain_key initialize_bob].
  rewrite skip_message_keys_eq. cbn [recv_count dh_state]. rewrite Hh. cbn [message_number].
  rewrite Z.leb_refl. cbn [receiving_chain_key dh_state initialize_bob root_key our_ratchet ratchet_key
    RatchetKeyPair_from_bytes secret_bytes].
  rewrite dh_comm. rewrite Hh in He. unfold diffie_hellman in He. simpl in He. rewrite He.
  rewrite checked_add_fits by (unfold u32_max; lia). simpl. eauto.
Qed.
End FirstMessage.

(** ** The bundle on the wire *)

Section Bundle.
Context `{CryptoPrims, Codecs, !CodecLaws, !PublicKeyLaws}.

(** The bundle of published keys as the relay hands it out. *)
Definition wire_bundle (bob : IdentityKeyPair) (spk : SignedPreKey) (opk : option Keys.OneTimePreKey)
  : PreKeyBundle :=
  mkPreKeyBundle (b64_encode (verifying_key bob)) (b64_encode (spk_public spk)) (spk_key_id spk)
    (b64_encode (spk_signature spk))
    ((fun k => Types.mkOneTimePreKey (opk_key_id k) (b64_encode (opk_public k))) <$> opk).

Lemma b64_fixed_roundtrip n b e : length b = n -> b64_decode_fixed n (b64_encode b) e = Ok b.
Proof. intros <-. unfold b64_decode_fixed. rewrite b64_roundtrip. simpl. by rewrite Nat.eqb_refl. Qed.

(** Keys as they are generated: 32-byte secrets with their public halves. *)
Definition published (bob : IdentityKeyPair) (spk : SignedPreKey) (opk : option Keys.OneTimePreKey) : Prop :=
  length (signing_key bob) = 32%nat
  /\ spk_wf bob spk /\ length (spk_secret spk) = 32%nat /\ length (spk_signature spk) = 64%nat
  /\ (forall k, opk = Some k -> opk_wf k /\ length (opk_secret k) = 32%nat).

Lemma decode_wire_bundle bob spk opk :
  published bob spk opk -> decode_bundle (wire_bundle bob spk opk) = Ok (bundle_of bob spk opk).
Proof.
  intros (Hi & [Hp _] & Hs & Hg & Ho). unfold decode_bundle, wire_bundle, verifying_key. cbn [identity_key signed_prekey
    signed_prekey_signature one_time_prekey signed_prekey_id].
  rewrite b64_fixed_roundtrip by (by apply ed25519_public_32). simpl.
  rewrite ed25519_public_valid by done. simpl.
  rewrite b64_fixed_roundtrip by (rewrite Hp; by apply x25519_public_32). simpl.
  rewrite b64_fixed_roundtrip by done. simpl. destruct opk as [k|]; simpl; [|done].
  destruct (Ho k eq_refl) as [Hk Hl].
  rewrite b64_fixed_roundtrip by (rewrite Hk; by apply x25519_public_32). done.
Qed.
End Bundle.

(** ** Alice *)

Section Alice.
Context `{CryptoPrims, Codecs, !CodecLaws, ClientEnv, !PublicKeyLaws, !DhLaws, !IdentityLaws, !KdfLaws}.
Context (rng_32 : forall t i, length (ce_random t i) = 32%nat).

(** The session of an initiator who has not sent yet. *)
Definition initiated (alice : IdentityKeyPair) (bob : IdentityKeyPair) (spk : SignedPreKey)
    (opk : option Keys.OneTimePreKey) (ss : PeerSession) : Prop :=
  exists x rng1 rng2 s exp,
    length rng1 = 32%nat /\ length rng2 = 32%nat
    /\ alice_initiate alice (bundle_of bob spk opk) rng1 = Ok x
    /\ ephemeral_public x = x25519_public rng1
    /\ initialize_alice (shared_secret x) (spk_public spk) rng2 = Ok s
    /\ ss = mkPeerSession s (Some (mkStoredX3dhResult (ephemeral_public x) (spk_key_id spk)
                                     (opk_key_id <$> opk))) exp.

Lemma init_session_result peer bob spk opk m d t :
  published bob spk opk ->
  wp (init_session_from_bundle peer (wire_bundle bob spk opk))
    (fun r c => r = Ok tt -> identity (c_mgr c) = identity m
       /\ exists ss, sessions (c_mgr c) !! peer = Some ss /\ initiated (identity m) bob spk opk ss)
    (mkClient m (d, t)).
Proof.
  intros Hp. unfold init_session_from_bundle. wp_go. rewrite decode_wire_bundle by done. wp_go.
  destruct (alice_initiate _ _ _) as [x|e] eqn:Ex; cbn [map_err]; [|done]. wp_go.
  destruct (initialize_alice _ _ _) as [s|e] eqn:Es; cbn [map_err]; [|done]. wp_go.
  apply wp_persist_state; intros t' _; wp_go; [done|]. intros _. split; [done|].
  cbn [sessions set_pending_inits set_sessions c_mgr]. rewrite lookup_insert_eq.
  eexists. split; [done|]. exists x, (ce_random t 0), (ce_random (S t) 0), s. eexists.
  split; [done|]. split; [done|]. split; [done|]. split; [|split; [done|]].
  - unfold alice_initiate in Ex. destruct (negb _); [done|].
    destruct (derive_x3dh_secret _ _ _ _); simpl in Ex; [|done]. by injection Ex as <-.
  - cbn [wire_bundle signed_prekey_id pb_one_time_prekey bundle_of]. by destruct opk.
Qed.

(** The envelope of a first message. *)
Definition first_envelope (alice : IdentityKeyPair) (x : X3dhInitResult) (spk : SignedPreKey)
    (opk : option Keys.OneTimePreKey) (msg : RatchetMessage) : EncryptedEnvelope :=
  mkEnvelope PROTOCOL_VERSION
    (HPreKey (b64_encode (verifying_key alice)) (b64_encode (ephemeral_public x)) (spk_key_id spk)
       (opk_key_id <$> opk)
       (mkRatchetHeader (b64_encode (Ratchet.ratchet_key (Ratchet.header msg)))
          (Ratchet.previous_chain_length (Ratchet.header msg)) (Ratchet.message_number (Ratchet.header msg))))
    (b64_encode (Ratchet.ciphertext msg)).

Lemma encrypt_first_result peer recipient i pt bob spk opk ss m d t :
  sessions m !! peer = Some ss -> initiated (identity m) bob spk opk ss ->
  wp (encrypt_message peer recipient i pt)
    (fun r _ => forall out, r = Ok out -> exists x rng1 rng2 s msg s',
       length rng1 = 32%nat /\ length rng2 = 32%nat
       /\ alice_initiate (identity m) (bundle_of bob spk opk) rng1 = Ok x
       /\ ephemeral_public x = x25519_public rng1
       /\ initialize_alice (shared_secret x) (spk_public spk) rng2 = Ok s
       /\ Ratchet.encrypt pt (Aad.prekey PROTOCOL_VERSION (verifying_key (identity m)) (ephemeral_public x)
            (spk_key_id spk) (opk_key_id <$> opk)) s = (Ok msg, s')
       /\ out = SendMessage recipient i (first_envelope (identity m) x spk opk msg))
    (mkClient m (d, t)).
Proof.
  intros Hs (x & rng1 & rng2 & s & exp & Hl1 & Hl2 & Ex & Ee & Es & ->).
  unfold encrypt_message. wp_go. destruct (existsb _ _); wp_go; [done|].
  destruct (ensure_capacity _ _) as [[]|e]; [|done]. wp_step. unfold advance_encryption. wp_go.
  rewrite Hs. cbn [ok_or ps_prekey_header ps_ratchet sx_ephemeral_public sx_recipient_signed_prekey_id
    sx_recipient_one_time_prekey_id].
  destruct (Ratchet.encrypt _ _ s) as [[msg|e] s'] eqn:Er; wp_go; cbn [map_err]; [|done]. wp_go.
  unfold enqueue_outbound. wp_go. apply wp_persist_outbound; [intros t' _|intros t' _ _]; wp_go; [done|].
  intros out [= <-]. exists x, rng1, rng2, s, msg, s'. done.
Qed.
End Alice.

(** ** Bob *)

Section Bob.
Context `{CryptoPrims, Codecs, !CodecLaws, ClientEnv, !PublicKeyLaws, !DhLaws, !IdentityLaws, !KdfLaws, !AeadLaws}.

(** A client that holds the published keys, does not know the peer, has not
    seen the message, and whose store and ledger have room. *)
Record awaits (peer : string) (i : MessageId) (spk : SignedPreKey) (opk : option Keys.OneTimePreKey)
    (c : Client) : Prop := {
  aw_spk : head (filter (fun k => spk_key_id k = spk_key_id spk)
             (option_list (stored_spk (c_mgr c)) ++ previous_spks (c_mgr c))) = Some spk;
  aw_opk : forall k, opk = Some k -> stored_opks (c_mgr c) !! opk_key_id k = Some k;
  aw_session : sessions (c_mgr c) !! peer = None;
  aw_ledger : lookup_processed peer (uuid_to_string i) (processed_messages (c_mgr c)) = None;
  aw_rows : processed_rows (c_io c).1 !! (peer, uuid_to_string i) = None;
  aw_room : processed_count (prune_processed (ce_clock (c_io c).2) (processed_messages (c_mgr c)))
            < MAX_PROCESSED_MESSAGES;
  aw_persist : fail_persistence (c_mgr c) = false;
  aw_store : forall t, ((c_io c).2 <= t)%nat -> ce_fault t = false;
}.

Lemma wp_store_ok f (Q : result AnyhowError unit -> Client -> Prop) m d d' t :
  ce_fault t = false -> f d = Some d' -> Q (Ok tt) (mkClient m (d', S t)) ->
  wp (store f) Q (mkClient m (d, t)).
Proof. intros Hf Hd HQ. unfold wp, store, store_io. simpl. by rewrite Hf, Hd. Qed.

Lemma wp_check_ok (Q : result AnyhowError unit -> Client -> Prop) m io :
  fail_persistence m = false -> Q (Ok tt) (mkClient m io) -> wp check_persistence Q (mkClient m io).
Proof. intros Hf HQ. unfold wp, check_persistence, rm_bind. simpl. by rewrite Hf. Qed.

(** The end of a decryption when nothing fails. *)
Lemma commit_ok peer i pt K (Q : result CryptoError bytes -> Client -> Prop) m d t :
  lookup_processed peer i (processed_messages m) = None -> processed_rows d !! (peer, i) = None ->
  fail_persistence m = false -> (forall t', (t <= t')%nat -> ce_fault t' = false) ->
  (forall v d' t', Q (Ok pt) (mkClient (set_processed v m) (d', t'))) ->
  wp (do! inserted_marker <- mark_if peer (Some i) pt;
      do! r <- rm_try (persist_decrypt peer (Some i));
      match r with Err error => K inserted_marker error | Ok _ => rm_ret pt end) Q (mkClient m (d, t)).
Proof.
  intros Hl Hr Hf Hn HQ. wp_step. unfold mark_if. apply wp_mark_processed; [done|].
  do 2 wp_step. unfold persist_decrypt. wp_step. apply wp_check_ok; [done|]. do 2 wp_step.
  cbn [processed_messages set_processed]. do 2 wp_step. unfold marked.
  rewrite lookup_processed_insert, decide_True by done. cbn [ok_or].
  eapply wp_store_ok; [apply Hn; lia|unfold save_core_and_processed; by rewrite Hr|].
  wp_step. apply HQ.
Qed.

Lemma bob_session alice m spk opk x :
  published (identity m) spk opk -> length (signing_key alice) = 32%nat ->
  head (filter (fun k => spk_key_id k = spk_key_id spk)
    (option_list (stored_spk m) ++ previous_spks m)) = Some spk ->
  (forall k, opk = Some k -> stored_opks m !! opk_key_id k = Some k) ->
  bob_respond (identity m) spk opk (verifying_key alice) (ephemeral_public x) = Ok (shared_secret x) ->
  create_bob_session m (verifying_key alice) (ephemeral_public x) (spk_key_id spk) (opk_key_id <$> opk)
  = Ok (initialize_bob (shared_secret x)
          (RatchetKeyPair_from_bytes (spk_secret spk) (x25519_public (spk_secret spk)))).
Proof.
  intros (_ & [Hp _] & _) Ha Hs Ho Hb. unfold create_bob_session. rewrite Hs. cbn [ok_or].
  unfold verifying_key at 1. rewrite ed25519_public_valid by done. cbn [negb].
  destruct opk as [k|]; simpl.
  - rewrite (Ho k) by done. simpl. rewrite Hb. simpl. by rewrite Hp.
  - rewrite Hb. simpl. by rewrite Hp.
Qed.

Lemma receive_first alice peer i pt spk opk x rng1 rng2 s msg s' c :
  awaits peer i spk opk c -> published (identity (c_mgr c)) spk opk -> length (signing_key alice) = 32%nat ->
  length rng1 = 32%nat -> length rng2 = 32%nat ->
  alice_initiate alice (bundle_of (identity (c_mgr c)) spk opk) rng1 = Ok x ->
  ephemeral_public x = x25519_public rng1 ->
  initialize_alice (shared_secret x) (spk_public spk) rng2 = Ok s ->
  Ratchet.encrypt pt (Aad.prekey PROTOCOL_VERSION (verifying_key alice) (ephemeral_public x)
    (spk_key_id spk) (opk_key_id <$> opk)) s = (Ok msg, s') ->
  wp (decrypt_with_marker peer (first_envelope alice x spk opk msg) (Some (uuid_to_string i)))
    (fun r c' => r = Ok pt /\ is_Some (sessions (c_mgr c') !! peer)
       /\ forall k, opk = Some k -> stored_opks (c_mgr c') !! opk_key_id k = None) c.
Proof.
  intros [] Hpub Ha Hl1 Hl2 Ex Ee Es Er. destruct c as [m [d t]]. simpl in *.
  destruct (Hpub) as (Hi & [Hp Hv] & Hsl & Hsg & Hopk). rewrite Hp in Es.
  destruct (x3dh_agree alice (identity m) spk opk rng1) as (x' & Ex' & Eb & _);
    [done|intros k Hk; by apply Hopk|]. rewrite Ex in Ex'. injection Ex' as <-.
  destruct (ratchet_first_message _ _ _ (ce_random (S (S t)) 0) _ _ _ _ _ Es Er) as (Hh & b & Ed).
  unfold decrypt_with_marker, first_envelope. cbn [version Types.header Types.ciphertext].
  rewrite Z.eqb_refl. cbn [negb].
  wp_step. wp_step. apply wp_check_ok; [done|]. cbn [map_err]. do 2 wp_step. wp_step. wp_step.
  eapply wp_store_ok; [by apply aw_store0; lia|done|]. cbn [map_err]. do 2 wp_step. do 2 wp_step.
  cbn [processed_messages set_processed]. rewrite bool_decide_eq_true_2 by eauto.
  destruct (Z.leb_spec MAX_PROCESSED_MESSAGES (processed_count (prune_processed (ce_clock t) (processed_messages m))));
    [lia|]. cbn [andb]. unfold decrypt_prekey_envelope, decode_ratchet_header. cbn [Types.ratchet_key].
  do 2 wp_step. rewrite b64_fixed_roundtrip by (rewrite Hh; by apply x25519_public_32).
  cbn [Types.previous_chain_length Types.message_number].
  do 2 wp_step. rewrite b64_fixed_roundtrip by (by apply ed25519_public_32).
  do 2 wp_step. rewrite b64_fixed_roundtrip by (rewrite Ee; by apply x25519_public_32).
  do 2 wp_step. rewrite b64_roundtrip. cbn [ok_or]. do 2 wp_step.
  cbn [sessions set_processed]. rewrite aw_session0. rewrite bool_decide_eq_false_2 by (by intros [? [=]]).
  do 2 wp_step.
  rewrite (bob_session alice _ spk opk x) by done. do 2 wp_step.
  assert (mkHeader (Ratchet.ratchet_key (header msg)) (Ratchet.previous_chain_length (header msg))
    (Ratchet.message_number (header msg)) = header msg) as -> by (by destruct (header msg)).
  rewrite Ed. do 2 wp_step. cbn [map_err]. do 2 wp_step. do 2 wp_step.
  set (m1 := set_sessions _ _). cbv beta iota.
  assert (lookup_processed peer (uuid_to_string i) (processed_messages m1) = None) as Hl.
  { unfold m1. cbn. by rewrite lookup_prune, aw_ledger0. }
  assert (forall t', (S (S (S t)) <= t')%nat -> ce_fault t' = false) as Hnf
    by (intros t' Ht; apply aw_store0; lia).
  assert (is_Some (sessions m1 !! peer)) as Hse by (unfold m1; cbn; rewrite lookup_insert_eq; eauto).
  destruct opk as [k|]; cbn [fmap option_fmap option_map].
  - unfold take_one_time_prekey. unfold m1 at 1. cbn [stored_opks set_sessions set_processed].
    rewrite (aw_opk0 k eq_refl). cbv beta iota. do 2 wp_step.
    apply commit_ok; [done|by apply map_lookup_filter_None; left|done|done|].
    intros v d' t'. split; [done|]. split; [done|]. intros k' [= <-]. apply lookup_delete_eq.
  - do 2 wp_step. apply commit_ok; [done|by apply map_lookup_filter_None; left|done|done|].
    intros v d' t'. done.
Qed.
End Bob.

(** ** Together *)

Section Contact.
Context `{CryptoPrims, Codecs, !CodecLaws, !PublicKeyLaws, !DhLaws, !IdentityLaws, !KdfLaws, !AeadLaws}.
Context (EA EB : ClientEnv).

(** First contact.  When Alice has opened a session from the bundle of Bob's
    published keys, with or without a one-time pre-key, and her first message
    has been accepted into her outbox, Bob's client decrypts exactly that
    text from the envelope, has a session with Alice, and has deleted the
    one-time pre-key so that it cannot be used again. *)
Lemma first_contact alice_id bob_id bob_user i text spk opk cA cA1 cA2 cB out :
  (forall t n, length (@ce_random EA t n) = 32%nat) ->
  length (signing_key (identity (c_mgr cA))) = 32%nat ->
  utf8_valid (Z_of_byte <$> str_bytes text) = true ->
  published (identity (c_mgr cB)) spk opk ->
  @awaits _ EB alice_id i spk opk cB ->
  @init_session_from_bundle _ _ EA bob_id (wire_bundle (identity (c_mgr cB)) spk opk) cA = (Ok tt, cA1) ->
  @encrypt_message _ _ EA bob_id bob_user i (str_bytes text) cA1 = (Ok out, cA2) ->
  exists env cB', out = SendMessage bob_user i env
    /\ @decrypt_message_to_text _ _ EB alice_id i env CryptoError cB = (Ok (Pending text), cB')
    /\ is_Some (sessions (c_mgr cB') !! alice_id)
    /\ (forall k, opk = Some k -> stored_opks (c_mgr cB') !! opk_key_id k = None).
Proof.
  intros Hrng Ha Hutf Hpub Haw Hinit Henc. destruct cA as [mA [dA tA]], cA1 as [m1 [d1 t1]].
  pose proof (init_session_result Hrng bob_id (identity (c_mgr cB)) spk opk mA dA tA Hpub) as Hi.
  unfold wp in Hi. rewrite Hinit in Hi. destruct (Hi eq_refl) as (Eid & ss & Hss & Hini). simpl in *.
  rewrite <- Eid in Hini, Ha.
  pose proof (encrypt_first_result (H2 := EA) bob_id bob_user i (str_bytes text) _ spk opk ss m1 d1 t1 Hss Hini) as He.
  unfold wp in He. rewrite Henc in He.
  destruct (He out eq_refl) as (x & rng1 & rng2 & s & msg & s' & Hl1 & Hl2 & Ex & Ee & Es & Er & ->).
  exists (first_envelope (identity m1) x spk opk msg).
  pose proof (receive_first (H2 := EB) (identity m1) alice_id i (str_bytes text) spk opk x rng1 rng2 s msg s' cB
    Haw Hpub Ha Hl1 Hl2 Ex Ee Es Er) as Hb.
  unfold wp in Hb. unfold decrypt_message_to_text, rm_bind, get_mgr, rm_try. cbn [version first_envelope].
  rewrite Z.eqb_refl. cbn [negb]. rewrite (aw_ledger _ _ _ _ _ Haw).
  destruct (decrypt_with_marker _ _ _ _) as [r cB']. simpl in Hb. destruct Hb as (-> & Hs & Hk).
  exists cB'. split; [done|]. split; [|done]. unfold rm_ret, text_of. rewrite Hutf. unfold str_bytes.
  by rewrite String.string_of_list_byte_of_string.
Qed.
End Contact.
