(* ===== verification/ClientDb.v ===== *)
(** * The client's message database ([crates/client/src/db.rs])

    Chat history, the identity keys of peers and the verification records, in
    one SQLite file.  A table is absent until [open] has created it.  The
    time columns ([created_at], [first_seen], [verified_at]) are written and
    never read, so they are left out.

    Every statement may fail ([ce_fault]); one that fails changes nothing, and
    a transaction that does not commit is rolled back. *)
From stdpp Require Import base numbers list strings gmap sorting.
From S2P Require Import Prelude Consts Types SqlDb ServerWorld CryptoStore CryptoMgr.
Local Open Scope Z_scope.
Local Open Scope cmp_scope.

Definition CURRENT_VERSION : Z := 2.
Definition HISTORY_LOAD_LIMIT : nat := 100.

Inductive MessageDirection := DirSent | DirReceived.

(** [direction as u8] *)
Definition direction_u8 (d : MessageDirection) : Z :=
  match d with DirSent => 0 | DirReceived => 1 end.

Record StoredMessage := mkStored {
  sm_peer_id : string; sm_direction : MessageDirection; sm_body : string;
}.

(** [ChatEntry] of [app.rs]. *)
Inductive ChatEntry :=
| ESent (text : string)
| EReceived (sender text : string)
| EStatus (text : string)
| EWarning (text : string).

(** [impl From<StoredMessage> for ChatEntry] *)
Definition entry_of_stored (msg : StoredMessage) : ChatEntry :=
  match sm_direction msg with
  | DirSent => ESent (sm_body msg)
  | DirReceived => EReceived (sm_peer_id msg) (sm_body msg)
  end.

(** ** The file *)

Record MessageRow := mkRow {
  row_id : Z;
  row_peer : string;
  row_direction : Z;
  row_message_id : option string;
  row_body : string;
}.

Record ClientDb := mkClientDb {
  user_version : Z;
  messages : option (list MessageRow);    (* in the order of [id] *)
  messages_sequence : Z;                  (* the largest [id] ever given (AUTOINCREMENT) *)
  peer_identity_keys : option (gmap string string);
  verified_contacts : option (gmap string string);
}.
Definition empty_client_db : ClientDb := mkClientDb 0 None 0 None None.

Definition set_messages rows seq d :=
  mkClientDb (user_version d) rows seq (peer_identity_keys d) (verified_contacts d).
Definition set_keys keys d :=
  mkClientDb (user_version d) (messages d) (messages_sequence d) keys (verified_contacts d).
Definition set_verified v d :=
  mkClientDb (user_version d) (messages d) (messages_sequence d) (peer_identity_keys d) v.
Definition set_user_version v d :=
  mkClientDb v (messages d) (messages_sequence d) (peer_identity_keys d) (verified_contacts d).

Abbreviation dbm A := (rm (ClientDb * nat) AnyhowError A).

(** ** SQL *)

(** [ORDER BY key DESC] *)
Fixpoint insert_desc {A} (key : A -> Z) (x : A) (l : list A) : list A :=
  match l with
  | [] => [x]
  | y :: l' => if key x <? key y then y :: insert_desc key x l' else x :: l
  end.
Definition order_desc {A} (key : A -> Z) (l : list A) : list A :=
  foldr (insert_desc key) [] l.

(** [GROUP BY peer_id] with [MAX(id)]. *)
Definition group_map (rows : list MessageRow) : gmap string Z :=
  foldl (fun t r => <[row_peer r := match t !! row_peer r with
                                    | Some m => Z.max m (row_id r)
                                    | None => row_id r
                                    end]> t) ∅ rows.

Definition group_max (rows : list MessageRow) : list (string * Z) := map_to_list (group_map rows).

Section Statements.
Context `{ClientEnv}.

Definition stmt {A} (f : ClientDb -> option (A * ClientDb)) : dbm A := fun '(d, t) =>
  if ce_fault t then (Err StoreFailure, (d, S t))
  else match f d with
       | Some (a, d') => (Ok a, (d', S t))
       | None => (Err StoreFailure, (d, S t))
       end.

(** [transaction()], the body, [commit()]; dropping it undoes the body. *)
Definition transaction {A} (body : dbm A) : dbm A := fun '(d, t) =>
  if ce_fault t then (Err StoreFailure, (d, S t))
  else match body (d, S t) with
       | (Ok a, (d', t')) => if ce_fault t' then (Err StoreFailure, (d, S t')) else (Ok a, (d', S t'))
       | (Err e, (_, t')) => (Err e, (d, t'))
       end.

(** [.ok()] *)
Definition rm_ok {S E F A} (m : rm S E A) : rm S F (option A) :=
  do! r <- rm_try m; rm_ret (match r with Ok a => Some a | Err _ => None end).

(** ** Operations *)

Definition create_v1 (d : ClientDb) : option (unit * ClientDb) :=
  Some (tt, set_messages (Some (default [] (messages d))) (messages_sequence d) d).
Definition create_v2 (d : ClientDb) : option (unit * ClientDb) :=
  Some (tt, set_verified (Some (default ∅ (verified_contacts d)))
              (set_keys (Some (default ∅ (peer_identity_keys d))) d)).

(** [open], on an open connection; [user_version] is read as a [u32]. *)
Definition open : dbm unit :=
  do! version <- stmt (fun d => if 0 <=? user_version d then Some (user_version d, d) else None);
  run! (if version <? 1
        then transaction (run! stmt create_v1; stmt (fun d => Some (tt, set_user_version 1 d)))
        else rm_ret tt);
  if version <? 2
  then transaction (run! stmt create_v2;
                    stmt (fun d => Some (tt, set_user_version CURRENT_VERSION d)))
  else rm_ret tt.

(** Whether a row was inserted. *)
Definition insert_message (peer_id : string) (direction : MessageDirection) (message_id body : string)
  : dbm bool :=
  stmt (fun d =>
    rows ← messages d;
    if bool_decide (Some message_id ∈ row_message_id <$> rows) then Some (false, d)
    else if i64_max <=? messages_sequence d then None
    else let id := messages_sequence d + 1 in
      Some (true, set_messages
        (Some (rows ++ [mkRow id peer_id (direction_u8 direction) (Some message_id) body])) id d)).

Inductive IdentityKeyStatus := KeyNew | KeyUnchanged | KeyChanged.

Definition select_peer_key (peer_id : string) : dbm string :=
  stmt (fun d => keys ← peer_identity_keys d; k ← keys !! peer_id; Some (k, d)).

Definition store_peer_identity_key (peer_id identity_key_b64 : string) : dbm IdentityKeyStatus :=
  transaction (
    do! existing <- rm_ok (select_peer_key peer_id);
    match existing with
    | Some stored =>
        if bool_decide (stored = identity_key_b64) then rm_ret KeyUnchanged
        else
          run! stmt (fun d => keys ← peer_identity_keys d;
                 Some (tt, set_keys (Some (alter (fun _ => identity_key_b64) peer_id keys)) d));
          run! stmt (fun d => v ← verified_contacts d;
                 Some (tt, set_verified (Some (delete peer_id v)) d));
          rm_ret KeyChanged
    | None =>
        run! stmt (fun d => keys ← peer_identity_keys d;
               match keys !! peer_id with
               | Some _ => None
               | None => Some (tt, set_keys (Some (<[peer_id := identity_key_b64]> keys)) d)
               end);
        rm_ret KeyNew
    end).

Definition get_peer_identity_key {E} (peer_id : string) : rm (ClientDb * nat) E (option string) :=
  rm_ok (select_peer_key peer_id).

Definition store_verification (peer_id fingerprint : string) : dbm unit :=
  stmt (fun d => v ← verified_contacts d;
    Some (tt, set_verified (Some (<[peer_id := fingerprint]> v)) d)).

Definition get_verification {E} (peer_id : string) : rm (ClientDb * nat) E (option string) :=
  rm_ok (stmt (fun d => v ← verified_contacts d; f ← v !! peer_id; Some (f, d))).

Definition remove_verification (peer_id : string) : dbm unit :=
  stmt (fun d => v ← verified_contacts d; Some (tt, set_verified (Some (delete peer_id v)) d)).

Definition decode_row (r : MessageRow) : option StoredMessage :=
  if row_direction r =? 0 then Some (mkStored (row_peer r) DirSent (row_body r))
  else if row_direction r =? 1 then Some (mkStored (row_peer r) DirReceived (row_body r))
  else None.

Definition load_recent_messages (peer_id : string) : dbm (list StoredMessage) :=
  stmt (fun d =>
    rows ← messages d;
    let selected := take HISTORY_LOAD_LIMIT
      (order_desc row_id (filter (fun r => row_peer r = peer_id) rows)) in
    decoded ← mapM decode_row selected;
    Some (rev decoded, d)).

Definition list_conversation_peers : dbm (list string) :=
  stmt (fun d => rows ← messages d; Some ((order_desc snd (group_max rows)).*1, d)).
End Statements.

(** ** Ordering *)

Lemma elem_of_rev {A} (x : A) l : x ∈ rev l <-> x ∈ l.
Proof. by rewrite !list_elem_of_In, <- in_rev. Qed.

Section Ordering.
Context {A : Type} (key : A -> Z).

Lemma insert_desc_perm x l : insert_desc key x l ≡ₚ x :: l.
Proof.
  induction l as [|y l IH]; simpl; [done|]. destruct (key x <? key y); [|done].
  rewrite IH. apply Permutation_swap.
Qed.

Lemma order_desc_perm l : order_desc key l ≡ₚ l.
Proof. induction l as [|x l IH]; simpl; [done|]. by rewrite insert_desc_perm, IH. Qed.

Lemma order_desc_rev l : StronglySorted Z.lt (key <$> l) -> order_desc key l = rev l.
Proof.
  induction l as [|x l IH]; intros Hs; [done|]. cbn [fmap list_fmap] in Hs.
  apply StronglySorted_inv in Hs as [Hs Hx]. simpl. rewrite (IH Hs).
  assert (Forall (fun y => key x < key y) (rev l)) as Hr.
  { apply Forall_forall. intros y Hy. rewrite elem_of_rev in Hy. rewrite Forall_fmap, Forall_forall in Hx. exact (Hx y Hy). }
  clear IH Hs Hx. induction Hr as [|y l' Hy Hr IHr]; [done|]. simpl. apply Z.ltb_lt in Hy. by rewrite Hy, IHr.
Qed.

Definition above (x y : A) : Prop := key y < key x.

Lemma insert_desc_sorted x l :
  key x ∉ key <$> l -> StronglySorted above l -> StronglySorted above (insert_desc key x l).
Proof.
  intros Hx Hs. induction Hs as [|y l Hs IH Hy]; simpl; [repeat constructor|].
  cbn [fmap list_fmap] in Hx. apply not_elem_of_cons in Hx as [Hne Hx].
  destruct (Z.ltb_spec (key x) (key y)) as [Hlt|Hge].
  - constructor; [by apply IH|]. rewrite insert_desc_perm. by constructor.
  - constructor; [by constructor|]. constructor; [unfold above; lia|].
    eapply Forall_impl; [exact Hy|]. unfold above. simpl. lia.
Qed.

Lemma order_desc_sorted l : NoDup (key <$> l) -> StronglySorted above (order_desc key l).
Proof.
  induction l as [|x l IH]; intros Hn; simpl; [constructor|].
  cbn [fmap list_fmap] in Hn. apply NoDup_cons in Hn as [Hx Hn].
  apply insert_desc_sorted; [by rewrite order_desc_perm|by apply IH].
Qed.

(** [ORDER BY] gives the list that is in order. *)
Lemma order_desc_unique l k : k ≡ₚ l -> StronglySorted above k -> order_desc key l = k.
Proof.
  intros Hp Hk. assert (AntiSymm (=) above) by (unfold above; intros x y ? ?; lia).
  apply (StronglySorted_unique above); [|done|by rewrite order_desc_perm].
  apply order_desc_sorted. rewrite <- Hp. clear Hp l. induction Hk as [|y k Hk IH Hy]; [constructor|].
  cbn. constructor; [|done]. intros (z & Ez & Hz)%list_elem_of_fmap.
  rewrite Forall_forall in Hy. specialize (Hy z Hz). unfold above in Hy. lia.
Qed.
End Ordering.

(** ** Conversations by their latest message *)

(** Each element once, at its first place. *)
Fixpoint first_seen (l : list string) : list string :=
  match l with
  | [] => []
  | x :: l' => x :: filter (fun y => y <> x) (first_seen l')
  end.

Lemma first_seen_in l x : x ∈ first_seen l <-> x ∈ l.
Proof.
  induction l as [|y l IH]; simpl; [done|]. rewrite !elem_of_cons, list_elem_of_filter, IH.
  destruct (decide (x = y)); tauto.
Qed.

Lemma first_seen_nodup l : NoDup (first_seen l).
Proof.
  induction l as [|y l IH]; simpl; constructor.
  - rewrite list_elem_of_filter. tauto.
  - by apply NoDup_filter.
Qed.

Definition latest (t : gmap string Z) (p : string) : Z := default 0 (t !! p).

Lemma StronglySorted_weaken {A} (R R' : A -> A -> Prop) l :
  (forall x y, x ∈ l -> y ∈ l -> R x y -> R' x y) -> StronglySorted R l -> StronglySorted R' l.
Proof.
  intros Hr Hs. induction Hs as [|x l Hs IH Hx]; constructor.
  - apply IH. intros y z Hy Hz. apply Hr; by right.
  - rewrite Forall_forall in Hx |- *. intros y Hy. apply Hr; [by left|by right|by apply Hx].
Qed.

Lemma StronglySorted_filter {A} (R : A -> A -> Prop) (P : A -> Prop) `{!forall x, Decision (P x)} l :
  StronglySorted R l -> StronglySorted R (filter P l).
Proof.
  induction 1 as [|x l Hs IH Hx]; [constructor|]. rewrite filter_cons.
  case_decide; [|done]. constructor; [done|]. rewrite Forall_forall in Hx |- *.
  intros y [_ Hy]%list_elem_of_filter. by apply Hx.
Qed.

Lemma group_map_spec rows :
  StronglySorted Z.lt (row_id <$> rows) ->
  (forall p, is_Some (group_map rows !! p) <-> p ∈ row_peer <$> rows)
  /\ (forall p m, group_map rows !! p = Some m -> m ∈ row_id <$> rows)
  /\ StronglySorted (above (latest (group_map rows))) (first_seen (rev (row_peer <$> rows))).
Proof.
  induction rows as [|r rows IH] using rev_ind; intros Hs.
  { split; [|split; [|constructor]]; unfold group_map; simpl.
    - intros p. rewrite lookup_empty, elem_of_nil. split; [by intros [? [=]]|done].
    - intros p m. by rewrite lookup_empty. }
  rewrite fmap_app in Hs. apply StronglySorted_app in Hs as (Hlt & Hs & _).
  destruct (IH Hs) as (I1 & I2 & I3). clear IH.
  assert (group_map (rows ++ [r]) = <[row_peer r := row_id r]> (group_map rows)) as ->.
  { unfold group_map. rewrite foldl_app. cbn [foldl]. fold (group_map rows).
    destruct (group_map rows !! row_peer r) as [m|] eqn:E; [|done].
    rewrite Z.max_r; [done|]. apply I2 in E. apply Z.lt_le_incl, (Hlt m (row_id r)); set_solver. }
  rewrite !fmap_app, rev_app_distr. cbn [fmap list_fmap rev app first_seen].
  split; [|split].
  - intros p. rewrite elem_of_app, <- I1, list_elem_of_singleton.
    destruct (decide (p = row_peer r)) as [->|Hne].
    + rewrite lookup_insert_eq. naive_solver.
    + rewrite lookup_insert_ne by done. naive_solver.
  - intros p m. rewrite lookup_insert_Some. intros [[_ <-]|[_ Hm]]; [set_solver|].
    apply I2 in Hm. set_solver.
  - assert (forall q, q ∈ filter (fun y => y <> row_peer r) (first_seen (rev (row_peer <$> rows))) ->
      latest (<[row_peer r := row_id r]> (group_map rows)) q = latest (group_map rows) q
      /\ latest (group_map rows) q ∈ row_id <$> rows) as Hq.
    { intros q [Hne Hin]%list_elem_of_filter. unfold latest. rewrite lookup_insert_ne by done.
      split; [done|]. rewrite first_seen_in, elem_of_rev in Hin. apply I1 in Hin as [m E]. rewrite E. by eapply I2. }
    constructor.
    + eapply StronglySorted_weaken; [|apply StronglySorted_filter, I3].
      intros x y Hx Hy. unfold above. destruct (Hq x Hx) as [-> _], (Hq y Hy) as [-> _]. done.
    + apply Forall_forall. intros q Hin. destruct (Hq q Hin) as [E Hr]. unfold above. rewrite E.
      unfold latest at 2. rewrite lookup_insert_eq. simpl. apply (Hlt _ (row_id r)); set_solver.
Qed.

Lemma conversation_peers_recent rows :
  StronglySorted Z.lt (row_id <$> rows) ->
  (order_desc snd (group_max rows)).*1 = first_seen (rev (row_peer <$> rows)).
Proof.
  intros Hs. destruct (group_map_spec rows Hs) as (H1 & _ & H3).
  set (t := group_map rows) in *. set (ps := first_seen (rev (row_peer <$> rows))) in *.
  rewrite (order_desc_unique snd (group_max rows) ((fun p => (p, latest t p)) <$> ps)).
  - rewrite <- list_fmap_compose. apply list_fmap_id.
  - unfold group_max. fold t. apply NoDup_Permutation.
    + apply NoDup_fmap; [intros ?? [=]; done|apply first_seen_nodup].
    + apply NoDup_map_to_list.
    + intros [p m]. rewrite elem_of_map_to_list, list_elem_of_fmap. split.
      * intros (q & [= -> ->] & Hq). unfold ps in Hq. rewrite first_seen_in, elem_of_rev in Hq. apply H1 in Hq as [m E]. unfold latest. by rewrite E.
      * intros E. exists p. unfold latest. rewrite E. split; [done|].
        unfold ps. rewrite first_seen_in, elem_of_rev. apply H1. by exists m.
  - clear -H3. induction H3 as [|p ps Hs IH Hp]; [constructor|]. cbn. constructor; [done|].
    by rewrite Forall_fmap.
Qed.

(** ** The history as a log

    [history_ok log d]: the table holds the messages of [log] (id and message),
    in order. *)

Definition row_holds (r : MessageRow) (e : string * StoredMessage) : Prop :=
  row_message_id r = Some e.1 /\ row_peer r = sm_peer_id e.2
  /\ row_direction r = direction_u8 (sm_direction e.2) /\ row_body r = sm_body e.2.

Definition history_ok (log : list (string * StoredMessage)) (d : ClientDb) : Prop :=
  exists rows, messages d = Some rows /\ Forall2 row_holds rows log
    /\ NoDup log.*1 /\ StronglySorted Z.lt (row_id <$> rows)
    /\ Forall (fun i => i <= messages_sequence d) (row_id <$> rows).

(** The last [n] elements. *)
Definition last_n {A} (n : nat) (l : list A) : list A := drop (length l - n) l.

Definition recent_of (peer : string) (log : list (string * StoredMessage)) : list StoredMessage :=
  last_n HISTORY_LOAD_LIMIT (filter (fun m => sm_peer_id m = peer) log.*2).

Definition recent_peers (log : list (string * StoredMessage)) : list string :=
  first_seen (rev (sm_peer_id <$> log.*2)).

Lemma row_ids rows log :
  Forall2 row_holds rows log -> row_message_id <$> rows = Some <$> log.*1.
Proof. induction 1 as [|r e rows log (E & _) _ IH]; [done|]. cbn. by rewrite E, IH. Qed.

Lemma row_peers rows log :
  Forall2 row_holds rows log -> row_peer <$> rows = sm_peer_id <$> log.*2.
Proof. induction 1 as [|r e rows log (_ & E & _) _ IH]; [done|]. cbn. by rewrite E, IH. Qed.

Lemma decode_row_holds r e : row_holds r e -> decode_row r = Some e.2.
Proof.
  intros (_ & Ep & Ed & Eb). unfold decode_row. rewrite Ep, Ed, Eb.
  by destruct e as [i [p [] b]].
Qed.

Lemma row_filter p rows log :
  Forall2 row_holds rows log ->
  mapM decode_row (filter (fun r => row_peer r = p) rows)
  = Some (filter (fun m => sm_peer_id m = p) log.*2).
Proof.
  induction 1 as [|r e rows log Hr _ IH]; [done|]. cbn [fmap list_fmap]. rewrite !filter_cons.
  destruct Hr as (Hi & Hp & Hd). rewrite Hp. case_decide; [|done].
  cbn. erewrite decode_row_holds by (split; [exact Hi|split; [exact Hp|exact Hd]]). cbn. by rewrite IH.
Qed.

Lemma mapM_rev {A B} (f : A -> option B) l k : mapM f l = Some k -> mapM f (rev l) = Some (rev k).
Proof.
  rewrite !mapM_Some. induction 1; simpl; [constructor|]. apply Forall2_app; [done|]. by constructor.
Qed.

Lemma mapM_take {A B} (f : A -> option B) n l k : mapM f l = Some k -> mapM f (take n l) = Some (take n k).
Proof. rewrite !mapM_Some. apply Forall2_take. Qed.

Lemma ids_filter_sorted (P : MessageRow -> Prop) `{!forall x, Decision (P x)} rows :
  StronglySorted Z.lt (row_id <$> rows) -> StronglySorted Z.lt (row_id <$> filter P rows).
Proof.
  induction rows as [|r rows IH]; [done|]. cbn [fmap list_fmap]. intros [Hs Hr]%StronglySorted_inv.
  rewrite filter_cons. case_decide; [|by apply IH]. cbn. constructor; [by apply IH|].
  rewrite Forall_fmap, Forall_forall in Hr |- *. intros x [_ Hx]%list_elem_of_filter. by apply Hr.
Qed.

Lemma history_nodup log d : history_ok log d -> NoDup log.*1.
Proof. by intros (rows & _ & _ & Hn & _). Qed.

(** The table determines the log. *)
Lemma row_holds_functional r e e' : row_holds r e -> row_holds r e' -> e = e'.
Proof.
  intros (Ei & Ep & Ed & Eb) (Ei' & Ep' & Ed' & Eb'). destruct e as [i [p dir b]], e' as [i' [p' dir' b']]. cbn in *.
  assert (dir = dir') as -> by (destruct dir, dir'; cbn in *; congruence). congruence.
Qed.
Lemma history_functional log log' d : history_ok log d -> history_ok log' d -> log = log'.
Proof.
  intros (rows & Er & Hr & _) (rows' & Er' & Hr' & _). rewrite Er in Er'. injection Er' as <-. clear Er. revert log' Hr'.
  induction Hr as [|r e rows log He _ IH]; intros log' Hr'; inversion Hr' as [|? e' ? ? He' Hr'']; [done|].
  subst. by rewrite (row_holds_functional r e e' He He'), (IH _ Hr'').
Qed.

Section History.
Context `{ClientEnv}.

Lemma stmt_cases {A} (f : ClientDb -> option (A * ClientDb)) d t :
  stmt f (d, t) = (Err StoreFailure, (d, S t))
  \/ exists a d', ce_fault t = false /\ f d = Some (a, d') /\ stmt f (d, t) = (Ok a, (d', S t)).
Proof.
  unfold stmt. destruct (ce_fault t); [by left|]. destruct (f d) as [[a d']|]; [|by left].
  right. by exists a, d'.
Qed.

Lemma stmt_ok {A} (f : ClientDb -> option (A * ClientDb)) d t a d' :
  ce_fault t = false -> f d = Some (a, d') -> stmt f (d, t) = (Ok a, (d', S t)).
Proof. intros Hf E. unfold stmt. by rewrite Hf, E. Qed.

Lemma get_key_spec {E} p keys d t :
  peer_identity_keys d = Some keys ->
  get_peer_identity_key (E := E) p (d, t) = (Ok (if ce_fault t then None else keys !! p), (d, S t)).
Proof.
  intros Ek. unfold get_peer_identity_key, rm_ok, rm_try, rm_bind, select_peer_key, stmt. rewrite Ek.
  destruct (ce_fault t); [done|]. cbn. by destruct (keys !! p).
Qed.

Lemma get_verification_spec {E} p v d t :
  verified_contacts d = Some v ->
  get_verification (E := E) p (d, t) = (Ok (if ce_fault t then None else v !! p), (d, S t)).
Proof.
  intros Ev. unfold get_verification, rm_ok, rm_try, rm_bind, stmt. rewrite Ev.
  destruct (ce_fault t); [done|]. cbn. by destruct (v !! p).
Qed.

(** Some statement of the interval fails. *)
Definition faulted (t t' : nat) : Prop := exists n, (t <= n < t')%nat /\ ce_fault n = true.

Lemma faulted_at t n t' : ce_fault n = true -> (t <= n < t')%nat -> faulted t t'.
Proof. intros. by exists n. Qed.

Lemma faulted_sub t t' n n' : faulted n n' -> (t <= n)%nat -> (n' <= t')%nat -> faulted t t'.
Proof. intros (x & ? & ?) ? ?. exists x. split; [lia|done]. Qed.

(** The outcome and the file when no statement fails. *)
Definition key_stored (p k : string) (keys v : gmap string string) (d : ClientDb)
  : IdentityKeyStatus * ClientDb :=
  match keys !! p with
  | Some k' =>
      if bool_decide (k' = k) then (KeyUnchanged, d)
      else (KeyChanged, set_verified (Some (delete p v)) (set_keys (Some (<[p := k]> keys)) d))
  | None => (KeyNew, set_keys (Some (<[p := k]> keys)) d)
  end.

Lemma store_peer_key_spec p k keys v d t :
  peer_identity_keys d = Some keys -> verified_contacts d = Some v ->
  exists t', (t <= t')%nat
    /\ (store_peer_identity_key p k (d, t)
         = (Ok (key_stored p k keys v d).1, ((key_stored p k keys v d).2, t'))
        \/ store_peer_identity_key p k (d, t) = (Err StoreFailure, (d, t')) /\ faulted t t').
Proof.
  intros Ek Ev. unfold store_peer_identity_key, select_peer_key, key_stored, transaction, rm_ok, rm_try,
    stmt, rm_bind, rm_ret.
  assert (forall n t', (t <= n < t')%nat -> ce_fault n = true -> faulted t t') as F by (intros n; by exists n).
  destruct (ce_fault t) eqn:F0; [exists (S t); split; [lia|]; right; split; [done|by apply (F t); [lia|]]|].
  assert (forall k', keys !! p = Some k' -> alter (fun _ => k) p keys = <[p := k]> keys) as Ea.
  { intros k' E. rewrite <- (insert_id keys p k' E) at 1. apply alter_insert_eq. }
  rewrite Ek. cbn [mbind option_bind].
  destruct (keys !! p) as [k'|] eqn:Ep, (ce_fault (S t)) eqn:F1; cbn [option_bind mbind];
    try case_bool_decide as Hk; rewrite ?Ek; cbn [option_bind mbind]; rewrite ?Ep, ?(Ea _ eq_refl);
    repeat match goal with
      |- context [if ce_fault ?n then _ else _] => destruct (ce_fault n) eqn:?;
        cbn [option_bind mbind set_keys verified_contacts]; rewrite ?Ev; cbn [option_bind mbind] end;
    eexists; (split; [|first [left; reflexivity|right; split; [reflexivity|]]]);
    try lia; try (eapply F; [|eassumption]; lia).
Qed.

(** The file before [id]s run out. *)
Definition ids_left (d : ClientDb) : Prop := messages_sequence d < i64_max.

Lemma insert_message_log log d t p dir i b :
  history_ok log d ->
  (exists d', insert_message p dir i b (d, t) = (Ok true, (d', S t)) /\ (i ∉ log.*1)
     /\ history_ok (log ++ [(i, mkStored p dir b)]) d'
     /\ peer_identity_keys d' = peer_identity_keys d /\ verified_contacts d' = verified_contacts d
     /\ messages_sequence d' = messages_sequence d + 1 /\ user_version d' = user_version d)
  \/ (insert_message p dir i b (d, t) = (Ok false, (d, S t)) /\ i ∈ log.*1)
  \/ (insert_message p dir i b (d, t) = (Err StoreFailure, (d, S t))
      /\ (ce_fault t = true \/ ~ ids_left d /\ i ∉ log.*1)).
Proof.
  intros (rows & Er & Hrows & Hn & Hs & Hle). unfold insert_message, stmt. rewrite Er. cbn [mbind option_bind].
  destruct (ce_fault t); [by right; right; split; [|left]|].
  assert (Some i ∈ row_message_id <$> rows <-> i ∈ log.*1) as Hin.
  { rewrite (row_ids _ _ Hrows), list_elem_of_fmap. naive_solver. }
  case_bool_decide as Hi; [by right; left; rewrite <- Hin|].
  destruct (Z.leb_spec i64_max (messages_sequence d)) as [Hf|Hf].
  - right; right. split; [done|]. right. rewrite <- Hin. unfold ids_left. split; [lia|done].
  - left. eexists. split; [done|]. split; [by rewrite <- Hin|]. split; [|done]. eexists. split; [done|].
    rewrite Forall_fmap, Forall_forall in Hle. split; [|rewrite fmap_app; split; [|rewrite fmap_app; split]].
    + apply Forall2_app; [done|]. by constructor.
    + apply NoDup_app. split; [done|]. split; [|apply NoDup_singleton].
      intros x Hx Hx'. apply list_elem_of_singleton in Hx' as ->. by apply Hi, Hin.
    + apply StronglySorted_app. split; [|split; [done|repeat constructor]].
      intros x y (r & -> & Hr)%list_elem_of_fmap Hy. cbn in Hy.
      apply list_elem_of_singleton in Hy as ->. specialize (Hle r Hr). simpl in Hle. lia.
    + apply Forall_app. cbn. split; [|repeat constructor; lia].
      apply Forall_fmap, Forall_forall. intros r Hr. specialize (Hle r Hr). simpl in *. lia.
Qed.

Lemma load_recent_log log d t p :
  history_ok log d -> ce_fault t = false ->
  load_recent_messages p (d, t) = (Ok (recent_of p log), (d, S t)).
Proof.
  intros (rows & Er & Hrows & _ & Hs & _) Hf. apply stmt_ok; [done|]. rewrite Er. cbn [mbind option_bind].
  rewrite order_desc_rev by by apply ids_filter_sorted.
  rewrite (mapM_take _ _ _ _ (mapM_rev _ _ _ (row_filter p rows log Hrows))). cbn.
  by rewrite firstn_rev, rev_involutive.
Qed.

Lemma list_peers_log log d t :
  history_ok log d -> ce_fault t = false ->
  list_conversation_peers (d, t) = (Ok (recent_peers log), (d, S t)).
Proof.
  intros (rows & Er & Hrows & _ & Hs & _) Hf. apply stmt_ok; [done|]. rewrite Er. cbn [mbind option_bind].
  rewrite conversation_peers_recent by done. unfold recent_peers. by rewrite <- (row_peers rows).
Qed.
End History.
