(* ===== verification/Verification.v ===== *)
(** * Contact verification ([crates/client/src/verification.rs])

    The safety number of a contact, the identity keys seen from peers (trusted
    on first use) and the verification records.  [TrustState] is what this is
    meant to keep: for each peer the latest key and whether the user confirmed
    that key; [trust_rel] relates it to the tables. *)
From stdpp Require Import base numbers list strings gmap.
From Stdlib Require Import Strings.Byte.
From S2P Require Import Prelude Consts Types Primitives Fingerprint SqlDb ServerWorld CryptoStore CryptoMgr ClientDb.
Local Open Scope Z_scope.
Local Open Scope cmp_scope.

(** [str::split(' ')] *)
Fixpoint split_spaces (s : bytes) : list bytes :=
  match s with
  | [] => [[]]
  | b :: s' =>
      if bool_decide (b = x20) then [] :: split_spaces s'
      else match split_spaces s' with
           | g :: gs => (b :: g) :: gs
           | [] => [[b]]
           end
  end.

(** [slice::chunks(n)], [fuel] at least the number of chunks. *)
Fixpoint chunks_fuel {A} (fuel n : nat) (l : list A) : list (list A) :=
  match fuel, l with
  | _, [] => []
  | O, _ => []
  | S f, _ => take n l :: chunks_fuel f n (drop n l)
  end.
Definition chunks {A} (n : nat) (l : list A) : list (list A) := chunks_fuel (length l) n l.

(** [join(" ")] *)
Fixpoint join_spaces (gs : list bytes) : bytes :=
  match gs with
  | [] => []
  | [g] => g
  | g :: gs' => g ++ [x20] ++ join_spaces gs'
  end.

Section Verification.
Context `{CryptoPrims, Codecs, ClientEnv}.

Abbreviation dbv A := (rm (ClientDb * nat) Empty_set A).

(** The error is the text of the [anyhow] error. *)
Definition decode_identity_key (b64 : string) : result string bytes :=
  match b64_decode b64 with
  | None => Err "Invalid base64"
  | Some b => if (length b =? 32)%nat then Ok b else Err "identity key must be 32 bytes"
  end.

Definition key_changed_warning (peer_id : string) : string :=
  "security alert: " +:+ peer_id +:+ "'s identity key has changed! "
  +:+ "Previous verification is no longer valid. "
  +:+ "Open verification to see the new safety number.".

Definition check_peer_identity {E} (peer_id identity_key_b64 : string)
  : rm (ClientDb * nat) E (option string) :=
  if is_err (decode_identity_key identity_key_b64) then rm_ret None
  else
  do! r <- rm_try (store_peer_identity_key peer_id identity_key_b64);
  rm_ret (match r with
          | Ok KeyChanged => Some (key_changed_warning peer_id)
          | _ => None
          end).

Definition safety_number (local_user_id : string) (local_key : bytes) (peer_id : string)
    (peer_key : bytes) : bytes :=
  display_grouped (compute (str_bytes local_user_id) local_key
                     (str_bytes peer_id) peer_key).

Definition resolve_safety_number (local_user_id local_key_b64 peer_id : string)
  : rm (ClientDb * nat) ChatEntry bytes :=
  do! key <- get_peer_identity_key peer_id;
  match key with
  | None => rm_fail (EStatus ("no identity key stored for " +:+ peer_id
                              +:+ " — send or receive a message first"))
  | Some peer_key_b64 =>
      let failed e := EStatus ("failed to compute safety number: " +:+ e) in
      do! local_key <- rm_lift (map_err failed (decode_identity_key local_key_b64));
      do! peer_key <- rm_lift (map_err failed (decode_identity_key peer_key_b64));
      rm_ret (safety_number local_user_id local_key peer_id peer_key)
  end.

Definition clear_verification {E} (peer_id : string) (conn : bool)
  : rm (ClientDb * nat) E (list ChatEntry) :=
  if negb conn then rm_ret [EStatus "database unavailable"]
  else
  do! r <- rm_try (remove_verification peer_id);
  rm_ret (match r with
          | Ok _ => [EStatus ("verification cleared for " +:+ peer_id)]
          | Err _ => [EStatus "failed to clear verification"]
          end).

Definition confirm_verification {E} (local_user_id local_key_b64 peer_id : string)
  : rm (ClientDb * nat) E (list ChatEntry) :=
  do! n <- rm_try (resolve_safety_number local_user_id local_key_b64 peer_id);
  match n with
  | Err entry => rm_ret [entry]
  | Ok number =>
      do! r <- rm_try (store_verification peer_id (String.string_of_list_byte number));
      rm_ret (match r with
              | Ok _ => [EStatus ("✅ " +:+ peer_id +:+ " marked as verified")]
              | Err _ => [EStatus "failed to store verification"]
              end)
  end.

Definition verified_line : ChatEntry := EStatus "✅ this contact is verified".
Definition outdated_line : ChatEntry :=
  EWarning "stored verification is outdated — key has changed since verification".
Definition unverified_line : ChatEntry :=
  EStatus "not yet verified — press y after comparing numbers".

Definition number_row (row : list bytes) : ChatEntry :=
  EStatus ("  " +:+ String.string_of_list_byte (join_spaces row)).

Definition format_verify_output {E} (local_user_id local_key_b64 peer_id : string) (conn : bool)
  : rm (ClientDb * nat) E (list ChatEntry) :=
  if negb conn then rm_ret [EStatus "database unavailable"]
  else
  do! n <- rm_try (resolve_safety_number local_user_id local_key_b64 peer_id);
  match n with
  | Err entry => rm_ret [entry]
  | Ok number =>
      let lines := [EStatus ("safety number with " +:+ peer_id +:+ ":")]
        ++ (number_row <$> chunks 4 (split_spaces number))
        ++ [EStatus "compare this number with your contact out-of-band to verify E2EE"] in
      do! stored <- get_verification peer_id;
      rm_ret (lines ++ [match stored with
                        | Some stored_fp =>
                            if bool_decide (stored_fp = String.string_of_list_byte number)
                            then verified_line else outdated_line
                        | None => unverified_line
                        end])
  end.

(** [conn] is whether the database could be opened. *)
Definition handle_action {E} (local_user_id local_key_b64 peer_id text : string) (conn : bool)
  : rm (ClientDb * nat) E (list ChatEntry) :=
  if bool_decide (text = "clear") then clear_verification peer_id conn
  else if bool_decide (text = "confirm") then
    if negb conn then rm_ret [EStatus "database unavailable"]
    else confirm_verification local_user_id local_key_b64 peer_id
  else format_verify_output local_user_id local_key_b64 peer_id conn.
End Verification.

(** ** The number as displayed *)

Definition digit_byte (b : byte) : Prop := exists d, 0 <= d <= 9 /\ b = byte_of_Z (48 + d).

(** Twelve groups of five digits. *)
Definition number_groups (gs : list bytes) : Prop :=
  length gs = 12%nat /\ Forall (fun g => length g = 5%nat /\ Forall digit_byte g) gs.

Lemma digit_byte_not_space b : digit_byte b -> b <> x20.
Proof.
  intros (d & Hd & ->) E. apply (f_equal Z_of_byte) in E. rewrite Z_of_byte_of_Z in E.
  rewrite Z.mod_small in E by lia. change (Z_of_byte x20) with 32 in E. lia.
Qed.

Lemma split_group g s : Forall digit_byte g -> split_spaces (g ++ x20 :: s) = g :: split_spaces s.
Proof.
  induction 1 as [|b g Hb _ IH]; simpl; [done|].
  rewrite bool_decide_eq_false_2 by by apply digit_byte_not_space. by rewrite IH.
Qed.

Lemma split_final g : Forall digit_byte g -> split_spaces g = [g].
Proof.
  induction 1 as [|b g Hb _ IH]; simpl; [done|].
  rewrite bool_decide_eq_false_2 by by apply digit_byte_not_space. by rewrite IH.
Qed.

Lemma split_join gs :
  gs <> [] -> Forall (Forall digit_byte) gs -> split_spaces (join_spaces gs) = gs.
Proof.
  intros Hne Hg. destruct Hg as [|g gs Hg Hgs]; [done|]. clear Hne. revert g Hg.
  induction Hgs as [|g' gs Hg' Hgs IH]; intros g Hg; [by apply split_final|].
  change (join_spaces (g :: g' :: gs)) with (g ++ x20 :: join_spaces (g' :: gs)).
  rewrite split_group by done. by rewrite IH.
Qed.

Lemma display_groups ds :
  length ds = 60%nat -> Forall (fun d => 0 <= d <= 9) ds ->
  exists gs, number_groups gs /\ display_grouped ds = join_spaces gs.
Proof.
  intros Hl Hd. do 60 (destruct ds as [|? ds]; [done|]). destruct ds; [|done].
  repeat match goal with H : Forall _ (_ :: _) |- _ => apply Forall_cons in H as [? H] end.
  assert (forall d, 0 <= d <= 9 -> digit_byte (byte_of_Z (48 + d))) as Hb by (intros d ?; by exists d).
  pose (e := fun d => byte_of_Z (48 + d)).
  match goal with |- context [display_grouped ?l] =>
    exists (map (map e) (chunks 5 l)) end.
  split; [|reflexivity]. split; [reflexivity|]. cbn.
  repeat (constructor; [split; [reflexivity|repeat (constructor; [by apply Hb|]); constructor]|]).
  constructor.
Qed.

Lemma chunks_number gs :
  number_groups gs -> exists r1 r2 r3, chunks 4 gs = [r1; r2; r3] /\ gs = r1 ++ r2 ++ r3
    /\ length r1 = 4%nat /\ length r2 = 4%nat /\ length r3 = 4%nat.
Proof.
  intros [Hl _]. do 12 (destruct gs as [|? gs]; [done|]). destruct gs; [|done].
  eexists [_; _; _; _], [_; _; _; _], [_; _; _; _]. done.
Qed.

(** ** What the tables are meant to keep *)

(** For each peer the latest key and whether the user confirmed it. *)
Abbreviation TrustState := (gmap string (string * bool)).

(** The calls of the database and of this module; [DOpen] is a restart. *)
Inductive DbOp :=
| DOpen
| DInsert (peer_id : string) (direction : MessageDirection) (message_id body : string)
| DSee (peer_id identity_key_b64 : string)
| DAction (peer_id text : string).

Section Trust.
Context `{CryptoPrims, Codecs, ClientEnv}.
Variables local_user_id local_key_b64 : string.

Definition number_of (peer_id key : string) : option string :=
  match decode_identity_key local_key_b64, decode_identity_key key with
  | Ok local_key, Ok peer_key =>
      Some (String.string_of_list_byte (safety_number local_user_id local_key peer_id peer_key))
  | _, _ => None
  end.

(** What the operation does to the trust state when no statement fails. *)
Definition trust_next (op : DbOp) (tr : TrustState) : TrustState :=
  match op with
  | DSee p k =>
      if is_err (decode_identity_key k) then tr
      else match tr !! p with
           | Some (k', _) => if bool_decide (k' = k) then tr else <[p := (k, false)]> tr
           | None => <[p := (k, false)]> tr
           end
  | DAction p text =>
      if bool_decide (text = "clear") then alter (fun x => (x.1, false)) p tr
      else if bool_decide (text = "confirm") then
        match tr !! p with
        | Some (k, _) => match number_of p k with Some _ => <[p := (k, true)]> tr | None => tr end
        | None => tr
        end
      else tr
  | _ => tr
  end.

Definition trust_rel (tr : TrustState) (d : ClientDb) : Prop :=
  peer_identity_keys d = Some (fst <$> tr)
  /\ (forall p k b, tr !! p = Some (k, b) -> is_err (decode_identity_key k) = false)
  /\ exists v, verified_contacts d = Some v
     /\ forall p, v !! p = match tr !! p with
                           | Some (k, true) => number_of p k
                           | _ => None
                           end
        /\ forall k, tr !! p = Some (k, true) -> is_Some (number_of p k).

(** The messages inserted, and the state after. *)
Definition db_exec (op : DbOp) (s : ClientDb * nat) : list (string * StoredMessage) * (ClientDb * nat) :=
  match op with
  | DOpen => ([], (open s).2)
  | DInsert p dir i b =>
      let '(r, s') := insert_message p dir i b s in
      (match r with Ok true => [(i, mkStored p dir b)] | _ => [] end, s')
  | DSee p k => ([], (check_peer_identity (E := Empty_set) p k s).2)
  | DAction p text =>
      ([], (handle_action (E := Empty_set) local_user_id local_key_b64 p text true s).2)
  end.

Fixpoint db_run (ops : list DbOp) (s : ClientDb * nat) : list (string * StoredMessage) * (ClientDb * nat) :=
  match ops with
  | [] => ([], s)
  | op :: ops' =>
      let '(new, s1) := db_exec op s in
      let '(news, s2) := db_run ops' s1 in
      (new ++ news, s2)
  end.

(** An operation has its effect or, a statement having failed, none. *)
Inductive trust_run : list DbOp -> TrustState -> TrustState -> Prop :=
| trust_nil tr : trust_run [] tr tr
| trust_done op ops tr tr' : trust_run ops (trust_next op tr) tr' -> trust_run (op :: ops) tr tr'
| trust_failed op ops tr tr' : trust_run ops tr tr' -> trust_run (op :: ops) tr tr'.

(** What an operation started at [t] with [tr] leaves: the tables of its effect,
    or those of before if a statement failed. *)
Definition simulates (op : DbOp) (tr : TrustState) (t : nat) (s' : ClientDb * nat) : Prop :=
  (t <= s'.2)%nat /\ (trust_rel (trust_next op tr) s'.1 \/ trust_rel tr s'.1 /\ faulted t s'.2).

Lemma trust_see tr d p k :
  trust_rel tr d -> is_err (decode_identity_key k) = false ->
  trust_rel (<[p := (k, false)]> tr)
    (set_verified (delete p <$> verified_contacts d) (set_keys (Some (<[p := k]> (fst <$> tr))) d)).
Proof.
  intros (Ek & Hd & v & Ev & Hv) Hk. split; [|split]; cbn.
  - by rewrite fmap_insert.
  - intros q k' b [[_ [= <- _]]|[_ Hq]]%lookup_insert_Some; [done|]. by eapply Hd.
  - exists (delete p v). rewrite Ev. split; [done|]. intros q.
    destruct (decide (q = p)) as [->|Hne].
    + rewrite lookup_delete_eq, lookup_insert_eq. done.
    + rewrite lookup_delete_ne, lookup_insert_ne by done. apply Hv.
Qed.

Lemma trust_mark tr d p k b b' :
  trust_rel tr d -> tr !! p = Some (k, b) -> (b' = true -> is_Some (number_of p k)) ->
  trust_rel (<[p := (k, b')]> tr)
    (set_verified ((if b' then partial_alter (fun _ => number_of p k) p else delete p)
                     <$> verified_contacts d) d).
Proof.
  intros (Ek & Hd & v & Ev & Hv) Hp Hb. split; [|split]; cbn.
  - rewrite fmap_insert, Ek. f_equal. rewrite insert_id; [done|]. by rewrite lookup_fmap, Hp.
  - intros q k' b2 [[<- [= <- _]]|[_ Hq]]%lookup_insert_Some; by eapply Hd.
  - eexists. rewrite Ev. split; [done|]. intros q.
    destruct (decide (q = p)) as [->|Hne].
    + rewrite lookup_insert_eq. destruct b'; rewrite ?lookup_partial_alter_eq, ?lookup_delete_eq.
      * split; [done|]. intros k' [= <-]. by apply Hb.
      * done.
    + rewrite lookup_insert_ne by done.
      destruct b'; rewrite ?lookup_partial_alter_ne, ?lookup_delete_ne by done; apply Hv.
Qed.

(** The tables hold [log] and [tr]. *)
Definition db_ok (log : list (string * StoredMessage)) (tr : TrustState) (d : ClientDb) : Prop :=
  history_ok log d /\ trust_rel tr d /\ user_version d = CURRENT_VERSION.

Lemma see_simulates tr d t p k :
  trust_rel tr d ->
  simulates (DSee p k) tr t (check_peer_identity (E := Empty_set) p k (d, t)).2.
Proof.
  intros R. pose proof R as (Ek & Hd & v & Ev & Hv). unfold check_peer_identity, simulates, trust_next.
  destruct (is_err (decode_identity_key k)) eqn:Hk; [split; [done|by left]|].
  destruct (store_peer_key_spec p k _ _ d t Ek Ev) as (t' & Ht & [E|[E Hf]]);
    unfold rm_bind, rm_try; rewrite E; cbn [fst snd]; (split; [done|]); [left|by right].
  unfold key_stored. rewrite lookup_fmap. pose proof (trust_see tr d p k R Hk) as R'. rewrite Ev in R'.
  destruct (tr !! p) as [[k' b]|] eqn:Ep; cbn [fmap option_fmap option_map fst].
  - by case_bool_decide.
  - cbn in *. rewrite delete_id in R'; [|by rewrite (proj1 (Hv p)), Ep].
    by destruct d; simpl in *; subst.
Qed.

Lemma clear_simulates tr d t p :
  trust_rel tr d ->
  simulates (DAction p "clear") tr t (clear_verification (E := Empty_set) p true (d, t)).2.
Proof.
  intros R. pose proof R as (Ek & Hd & v & Ev & Hv).
  unfold clear_verification, simulates, remove_verification, rm_bind, rm_try, stmt, rm_ret. cbn [negb].
  destruct (ce_fault t) eqn:Hf; cbn [fst snd].
  { split; [lia|]. right. split; [done|]. apply (faulted_at t t); [done|lia]. }
  rewrite Ev. cbn. split; [lia|]. left. destruct (tr !! p) as [[k b]|] eqn:Ep.
  - pose proof (trust_mark tr d p k b false R Ep ltac:(done)) as R'. rewrite Ev in R'.
    assert (alter (fun x => (x.1, false)) p tr = <[p := (k, false)]> tr) as ->; [|done].
    rewrite <- (insert_id tr p (k, b) Ep) at 1. by rewrite alter_insert_eq.
  - rewrite alter_id by (rewrite Ep; done). rewrite delete_id by by rewrite (proj1 (Hv p)), Ep.
    by destruct d; simpl in *; subst.
Qed.

Lemma resolve_spec tr d t p :
  trust_rel tr d ->
  exists r, resolve_safety_number local_user_id local_key_b64 p (d, t) = (r, (d, S t))
    /\ match r with
       | Ok number => ce_fault t = false /\ exists k b lk pk, tr !! p = Some (k, b)
           /\ decode_identity_key local_key_b64 = Ok lk /\ decode_identity_key k = Ok pk
           /\ number = safety_number local_user_id lk p pk
           /\ number_of p k = Some (String.string_of_list_byte number)
       | Err e => (e <> verified_line /\ e <> outdated_line)
                  /\ (ce_fault t = true \/ tr !! p = None
                      \/ exists k b, tr !! p = Some (k, b) /\ number_of p k = None)
       end.
Proof.
  intros (Ek & Hd & _). unfold resolve_safety_number, rm_bind. rewrite (get_key_spec p _ d t Ek).
  destruct (ce_fault t); [eexists; split; [done|split; [done|by left]]|]. rewrite lookup_fmap.
  destruct (tr !! p) as [[k b]|] eqn:Ep; cbn [fmap option_fmap option_map fst]; [|eexists; split; [done|split; [done|by right; left]]].
  unfold rm_lift, number_of. specialize (Hd p k b Ep).
  destruct (decode_identity_key local_key_b64) as [lk|] eqn:El; cbn [map_err].
  - destruct (decode_identity_key k) as [pk|] eqn:Ek'; [|done]. cbn. eexists. split; [done|].
    split; [done|]. exists k, b, lk, pk. by rewrite Ek'.
  - eexists. split; [done|]. split; [done|]. right; right. by exists k, b.
Qed.

Lemma confirm_simulates tr d t p :
  trust_rel tr d ->
  simulates (DAction p "confirm") tr t
    (confirm_verification (E := Empty_set) local_user_id local_key_b64 p (d, t)).2.
Proof.
  intros R. pose proof R as (Ek & Hd & v & Ev & Hv).
  unfold confirm_verification, simulates, rm_bind, rm_try, rm_ret.
  destruct (resolve_spec tr d t p R) as ([number|e] & -> & Hr); cbn [fst snd trust_next].
  - destruct Hr as (Hf & k & b & lk & pk & Ep & El & Epk & -> & En).
    unfold store_verification, stmt. destruct (ce_fault (S t)) eqn:Hf1; cbn [fst snd].
    { split; [lia|]. right. split; [done|]. apply (faulted_at t (S t)); [done|lia]. }
    rewrite Ev. cbn. split; [lia|]. left. rewrite Ep, En.
    pose proof (trust_mark tr d p k b true R Ep ltac:(by eauto)) as R'. by rewrite Ev, En in R'.
  - split; [lia|]. destruct Hr as (_ & [Hf|[En|(k & b & Ep & En)]]).
    + right. split; [done|]. apply (faulted_at t t); [done|lia].
    + left. by cbn; rewrite En.
    + left. by cbn; rewrite Ep, En.
Qed.

Lemma view_simulates tr d t p text :
  trust_rel tr d -> trust_next (DAction p text) tr = tr ->
  simulates (DAction p text) tr t
    (format_verify_output (E := Empty_set) local_user_id local_key_b64 p true (d, t)).2.
Proof.
  intros R Et. pose proof R as (Ek & Hd & v & Ev & Hv).
  unfold format_verify_output, simulates, rm_bind, rm_try, rm_ret. cbn [negb].
  destruct (resolve_spec tr d t p R) as ([number|e] & -> & Hr); cbn [fst snd].
  - rewrite (get_verification_spec p v d (S t) Ev). cbn [fst snd]. split; [lia|]. left. by rewrite Et.
  - split; [lia|]. left. by rewrite Et.
Qed.

Lemma action_simulates tr d t p text :
  trust_rel tr d ->
  simulates (DAction p text) tr t
    (handle_action (E := Empty_set) local_user_id local_key_b64 p text true (d, t)).2.
Proof.
  intros R. unfold handle_action.
  case_bool_decide as Hc; [subst; by apply clear_simulates|].
  case_bool_decide as Hd; [subst; by apply confirm_simulates|].
  apply view_simulates; [done|]. simpl. by rewrite !bool_decide_eq_false_2.
Qed.

(** *** The other operations leave the tables of the other groups alone *)

Definition same_history (d d' : ClientDb) : Prop :=
  messages d' = messages d /\ messages_sequence d' = messages_sequence d
  /\ user_version d' = user_version d.

Lemma same_history_ok log d d' :
  same_history d d' -> history_ok log d -> history_ok log d'.
Proof. intros (Em & Es & _). unfold history_ok. by rewrite Em, Es. Qed.

(** The statements of a piece of code keep a relation to the file before it. *)
Definition keeps {E A} (R : relation ClientDb) (m : rm (ClientDb * nat) E A) : Prop :=
  forall d t, R d (m (d, t)).2.1.

Section Keeps.
Context (R : relation ClientDb) `{!PreOrder R}.

Lemma keeps_ret {E A} (a : A) : keeps (E := E) R (rm_ret a).
Proof. intros d t. by simpl. Qed.
Lemma keeps_fail {E A} (e : E) : keeps (A := A) R (rm_fail e).
Proof. intros d t. by simpl. Qed.
Lemma keeps_lift {E A} (r : result E A) : keeps R (rm_lift r).
Proof. intros d t. by simpl. Qed.
Lemma keeps_bind {E A B} (m : rm (ClientDb * nat) E A) (k : A -> rm (ClientDb * nat) E B) :
  keeps R m -> (forall a, keeps R (k a)) -> keeps R (rm_bind m k).
Proof.
  intros Hm Hk d t. unfold rm_bind. specialize (Hm d t).
  destruct (m (d, t)) as [[a|e] [d1 t1]]; cbn in *; [|done]. etrans; [exact Hm|apply Hk].
Qed.
Lemma keeps_try {E F A} (m : rm (ClientDb * nat) E A) : keeps R m -> keeps (E := F) R (rm_try m).
Proof. intros Hm d t. unfold rm_try. specialize (Hm d t). by destruct (m (d, t)). Qed.
Lemma keeps_stmt {A} (f : ClientDb -> option (A * ClientDb)) :
  (forall d a d', f d = Some (a, d') -> R d d') -> keeps R (stmt f).
Proof.
  intros Hf d t. destruct (stmt_cases f d t) as [->|(a & d' & _ & E & ->)]; cbn; [done|by eapply Hf].
Qed.
Lemma keeps_transaction {A} (m : dbm A) : keeps R m -> keeps R (transaction m).
Proof.
  intros Hm d t. unfold transaction. destruct (ce_fault t); [done|]. specialize (Hm d (S t)).
  destruct (m (d, S t)) as [[a|e] [d' t']]; [|done]. by destruct (ce_fault t').
Qed.
End Keeps.

#[local] Instance same_history_preorder : PreOrder same_history.
Proof. split; [by intros d|]. intros d1 d2 d3 (? & ? & ?) (? & ? & ?). repeat split; congruence. Qed.

(** Prove [keeps] by the structure of the code. *)
Ltac keeps_go R :=
  repeat first
    [ apply (keeps_ret R) | apply (keeps_fail R) | apply (keeps_lift R)
    | apply (keeps_bind R); [|intros ?] | apply (keeps_try R) | apply (keeps_transaction R)
    | match goal with |- keeps _ (match ?x with _ => _ end) => destruct x end
    | apply (keeps_stmt R) ].

Ltac history_stmt := intros ??? Eq; simplify_option_eq; repeat case_match; simplify_eq; by repeat split.

Lemma check_peer_identity_history {E} p k : keeps same_history (check_peer_identity (E := E) p k).
Proof.
  unfold check_peer_identity, store_peer_identity_key, rm_ok, select_peer_key. keeps_go same_history.
  all: history_stmt.
Qed.

Lemma handle_action_history {E} p text :
  keeps same_history (handle_action (E := E) local_user_id local_key_b64 p text true).
Proof.
  unfold handle_action, clear_verification, confirm_verification, format_verify_output,
    resolve_safety_number, get_peer_identity_key, get_verification, rm_ok, remove_verification,
    store_verification, select_peer_key.
  keeps_go same_history. all: history_stmt.
Qed.

Lemma db_exec_ok log tr d t op :
  db_ok log tr d ->
  let '(new, s') := db_exec op (d, t) in
  exists tr', db_ok (log ++ new) tr' s'.1 /\ (t <= s'.2)%nat
    /\ (tr' = trust_next op tr \/ tr' = tr /\ faulted t s'.2).
Proof.
  intros Hok. pose proof Hok as (Hh & R & Hv).
  assert (forall s', simulates op tr t s' -> same_history d s'.1 ->
    exists tr', db_ok (log ++ []) tr' s'.1 /\ (t <= s'.2)%nat
      /\ (tr' = trust_next op tr \/ tr' = tr /\ faulted t s'.2)) as Hsim.
  { intros s' [Ht Hs] Hd. rewrite app_nil_r.
    assert (history_ok log s'.1 /\ user_version s'.1 = CURRENT_VERSION) as [Hh' Hv'].
    { split; [by eapply same_history_ok|]. destruct Hd as (_ & _ & ->). done. }
    destruct Hs as [R'|[R' Hf]]; [exists (trust_next op tr)|exists tr];
      (split; [split; [done|by split]|split; [done|auto]]). }
  destruct op as [|p dir i b|p k|p text]; unfold db_exec.
  - unfold open, rm_bind, stmt. destruct (ce_fault t); [|rewrite Hv]; cbn [fst snd];
      exists tr; rewrite app_nil_r; (split; [done|]); (split; [cbn; lia|by left]).
  - destruct (insert_message_log log d t p dir i b Hh)
      as [(d' & -> & _ & Hh' & Ek & Ev & _ & Eu)|[[-> _]|[-> _]]]; exists tr; cbn [fst snd];
      (split; [|split; [lia|by left]]); rewrite ?app_nil_r; try done.
    split; [done|]. split; [|by rewrite Eu]. unfold trust_rel. by rewrite Ek, Ev.
  - apply Hsim; [by apply see_simulates|]. apply check_peer_identity_history.
  - apply Hsim; [by apply action_simulates|]. apply handle_action_history.
Qed.

Definition trust_after (ops : list DbOp) (tr : TrustState) : TrustState :=
  foldl (fun tr op => trust_next op tr) tr ops.

Lemma db_run_ok ops : forall log tr d t,
  db_ok log tr d ->
  let '(new, s') := db_run ops (d, t) in
  exists tr', db_ok (log ++ new) tr' s'.1 /\ (t <= s'.2)%nat /\ trust_run ops tr tr'
    /\ (tr' = trust_after ops tr \/ faulted t s'.2).
Proof.
  induction ops as [|op ops IH]; intros log tr d t Hok; cbn [db_run].
  { exists tr. rewrite app_nil_r. split; [done|]. split; [done|]. split; [constructor|by left]. }
  pose proof (db_exec_ok log tr d t op Hok) as H1'. destruct (db_exec op (d, t)) as [new [d1 t1]].
  destruct H1' as (tr1 & Hok1 & Ht1 & Htr). cbn [fst snd] in *.
  specialize (IH (log ++ new) tr1 d1 t1 Hok1). destruct (db_run ops (d1, t1)) as [news [d2 t2]].
  destruct IH as (tr2 & Hok2 & Ht2 & Hrun & Hf). cbn [fst snd] in *. exists tr2.
  rewrite app_assoc. split; [done|]. split; [lia|]. destruct Htr as [->|[-> Hf1]].
  - split; [by constructor|]. destruct Hf as [->|Hf]; [by left|right]. by eapply faulted_sub.
  - split; [by apply trust_failed|]. right. by eapply faulted_sub.
Qed.

(** A new file. *)
Lemma open_new t s : open (empty_client_db, t) = (Ok tt, s) -> db_ok [] ∅ s.1.
Proof.
  unfold open, rm_bind, transaction, stmt, create_v1, create_v2, set_user_version. cbn.
  repeat (case_match; try done); intros; simplify_eq. cbn. split; [|split; [|done]].
  - exists []. repeat split; constructor.
  - split; [by rewrite fmap_empty|]. split; [done|]. exists ∅. split; [done|].
    intros p. by rewrite !lookup_empty.
Qed.

(** ** Properties *)

(** C36: Chat history is a log.  After any sequence of database calls on a new
    file (whatever statements fail, restarts included), with [log] the messages
    whose insertion reported success, in order: no message id occurs twice, a
    conversation shows its last hundred messages in the order they were stored,
    and the conversations are listed once each, the latest first. *)
Theorem chat_history_is_log ops t0 s0 log d t :
  open (empty_client_db, t0) = (Ok tt, s0) -> db_run ops s0 = (log, (d, t)) ->
  NoDup log.*1
  /\ (forall p t', ce_fault t' = false ->
        load_recent_messages p (d, t') = (Ok (recent_of p log), (d, S t')))
  /\ (forall t', ce_fault t' = false ->
        list_conversation_peers (d, t') = (Ok (recent_peers log), (d, S t'))).
Proof.
  intros Ho Er. destruct s0 as [d0 t1]. apply open_new in Ho.
  pose proof (db_run_ok ops [] ∅ d0 t1 Ho) as H1'. rewrite Er in H1'.
  destruct H1' as (tr & (Hh & _) & _). cbn in Hh.
  split; [by eapply history_nodup|]. split; intros; [by apply load_recent_log|by apply list_peers_log].
Qed.

(** C18: Verification refines its meaning.  After any sequence of database calls on
    a new file, the tables represent, for each peer, the latest key seen and
    whether the user confirmed that very key: each call had its effect on this
    state ([trust_next]: a new key is unverified, so a changed key takes the
    verification away) or, if a statement of it failed, none; a verification
    record is always the safety number of the key that is stored. *)
Theorem verification_refines_trust ops t0 s0 log d t :
  open (empty_client_db, t0) = (Ok tt, s0) -> db_run ops s0 = (log, (d, t)) ->
  exists tr, trust_rel tr d /\ trust_run ops ∅ tr
    /\ (tr = trust_after ops ∅ \/ faulted s0.2 t).
Proof.
  intros Ho Er. destruct s0 as [d0 t1]. apply open_new in Ho.
  pose proof (db_run_ok ops [] ∅ d0 t1 Ho) as H1'. rewrite Er in H1'.
  destruct H1' as (tr & (_ & R & _) & _ & Hrun & Hf). by exists tr.
Qed.

Lemma view_lines tr d t p text :
  trust_rel tr d -> text <> "clear" -> text <> "confirm" ->
  exists t', (handle_action (E := Empty_set) local_user_id local_key_b64 p text true (d, t)).2 = (d, t')
    /\ match (handle_action (E := Empty_set) local_user_id local_key_b64 p text true (d, t)).1 with
       | Ok lines =>
           (exists e, lines = [e] /\ e <> verified_line /\ e <> outdated_line
              /\ (tr !! p = None \/ faulted t t' \/ exists k b, tr !! p = Some (k, b) /\ number_of p k = None))
           \/ exists k (b : bool) number r1 r2 r3 line, tr !! p = Some (k, b)
              /\ number_of p k = Some (String.string_of_list_byte number)
              /\ number = join_spaces (r1 ++ r2 ++ r3) /\ number_groups (r1 ++ r2 ++ r3)
              /\ length r1 = 4%nat /\ length r2 = 4%nat
              /\ lines = [EStatus ("safety number with " +:+ p +:+ ":"); number_row r1; number_row r2;
                          number_row r3;
                          EStatus "compare this number with your contact out-of-band to verify E2EE";
                          line]
              /\ (line = (if b then verified_line else unverified_line)
                  \/ line = unverified_line /\ faulted t t')
       | Err _ => False
       end.
Proof.
  intros R Hc Hc'. pose proof R as (Ek & Hd & v & Ev & Hv).
  unfold handle_action. rewrite !bool_decide_eq_false_2 by done.
  unfold format_verify_output, rm_bind, rm_try, rm_ret. cbn [negb].
  destruct (resolve_spec tr d t p R) as ([number|e] & -> & Hr); cbn [fst snd].
  - destruct Hr as (Hf & k & b & lk & pk & Ep & _ & _ & En & Enum).
    rewrite (get_verification_spec p v d (S t) Ev). cbn [fst snd]. eexists. split; [done|]. right.
    destruct (display_groups (compute (str_bytes local_user_id) lk (str_bytes p) pk)) as (gs & Hg & Egs).
    1, 2: apply fingerprint_digits.
    destruct (chunks_number gs Hg) as (r1 & r2 & r3 & Ech & Eg & L1 & L2 & L3).
    assert (number = join_spaces gs) as Ej by (rewrite En; exact Egs).
    assert (split_spaces number = gs) as Esp.
    { rewrite Ej. apply split_join; [by intros ->|]. destruct Hg as [_ Hg].
      eapply Forall_impl; [exact Hg|]. by intros g [_ ?]. }
    rewrite Esp, Ech. subst gs. exists k, b, number, r1, r2, r3. eexists. split; [done|]. split; [done|].
    split; [done|]. split; [done|]. split; [done|]. split; [done|]. split; [done|].
    destruct (ce_fault (S t)) eqn:Hf1; [right; split; [done|]; apply (faulted_at t (S t)); [done|lia]|left].
    destruct (Hv p) as [-> _]. rewrite Ep. destruct b; [|done]. rewrite Enum.
    by rewrite bool_decide_eq_true_2.
  - destruct Hr as [[Hv1 Hv2] Hr]. eexists. split; [done|]. left. exists e. split; [done|].
    split; [done|]. split; [done|]. destruct Hr as [Hf|[Hn|Hn]]; [right; left|by left|by right; right].
    apply (faulted_at t t); [done|lia].
Qed.

(** The screen of a peer whose current key is [k]: the safety number of the two
    keys, the one that the peer's own client computes, in three rows of four
    groups of five digits, and a last line. *)
Definition number_screen (p k : string) (lines : list ChatEntry) (line : ChatEntry) : Prop :=
  exists local_key peer_key r1 r2 r3,
    decode_identity_key local_key_b64 = Ok local_key /\ decode_identity_key k = Ok peer_key
    /\ join_spaces (r1 ++ r2 ++ r3) = safety_number local_user_id local_key p peer_key
    /\ join_spaces (r1 ++ r2 ++ r3) = safety_number p peer_key local_user_id local_key
    /\ number_groups (r1 ++ r2 ++ r3) /\ length r1 = 4%nat /\ length r2 = 4%nat
    /\ lines = [EStatus ("safety number with " +:+ p +:+ ":"); number_row r1; number_row r2; number_row r3;
                EStatus "compare this number with your contact out-of-band to verify E2EE"; line].

Lemma screen_of_number p k number r1 r2 r3 line :
  number_of p k = Some (String.string_of_list_byte number) ->
  number = join_spaces (r1 ++ r2 ++ r3) -> number_groups (r1 ++ r2 ++ r3) ->
  length r1 = 4%nat -> length r2 = 4%nat ->
  number_screen p k
    [EStatus ("safety number with " +:+ p +:+ ":"); number_row r1; number_row r2; number_row r3;
     EStatus "compare this number with your contact out-of-band to verify E2EE"; line] line.
Proof.
  unfold number_of. intros En Ej Hg L1 L2.
  destruct (decode_identity_key local_key_b64) as [lk|] eqn:El; [|done].
  destruct (decode_identity_key k) as [pk|] eqn:Ek; [|done]. injection En as En.
  assert (number = safety_number local_user_id lk p pk) as En'.
  { apply (f_equal String.list_byte_of_string) in En. by rewrite !String.list_byte_of_string_of_list_byte in En. }
  exists lk, pk, r1, r2, r3. rewrite <- Ej, En'. repeat (split; [done|]). split; [|done].
  unfold safety_number. by rewrite fingerprint_symmetric.
Qed.

(** C37: What the verification screen shows.  After any sequence of database calls
    on a new file, viewing a peer changes nothing and never reports an outdated
    record.  If a key of the peer is known, both keys decode and no statement
    fails, the screen is the safety number of the stored key and the local
    one, which is the number the peer's own client computes for the two keys,
    whether or not the contact is verified, followed by the line that says
    whether the user confirmed that very key.  If the number was shown but the
    record could not be read, the last line says not verified; in all the other
    cases (unknown peer, a key that does not decode, a failed statement) the
    screen is one error line and no number. *)
Theorem verification_screen ops t0 s0 log d t p :
  open (empty_client_db, t0) = (Ok tt, s0) -> db_run ops s0 = (log, (d, t)) ->
  exists tr : gmap string (string * bool), trust_run ops ∅ tr /\ trust_rel tr d
  /\ forall t1, exists lines t2,
     handle_action (E := Empty_set) local_user_id local_key_b64 p "view" true (d, t1) = (Ok lines, (d, t2))
     /\ (outdated_line ∉ lines)
     /\ (tr !! p = None -> exists e, lines = [e] /\ e <> verified_line)
     /\ (forall k (b : bool), tr !! p = Some (k, b) ->
          number_screen p k lines (if b then verified_line else unverified_line)
          \/ faulted t1 t2 /\ number_screen p k lines unverified_line
          \/ (number_of p k = None \/ faulted t1 t2) /\ exists e, lines = [e] /\ e <> verified_line)
     /\ (forall k (b : bool), tr !! p = Some (k, b) -> is_Some (number_of p k) -> ~ faulted t1 t2 ->
          number_screen p k lines (if b then verified_line else unverified_line)).
Proof.
  intros Ho Er. destruct s0 as [d0 t1]. apply open_new in Ho.
  pose proof (db_run_ok ops [] ∅ d0 t1 Ho) as H1'. rewrite Er in H1'.
  destruct H1' as (tr & (_ & R & _) & _ & Hrun & _). exists tr. split; [done|]. split; [done|].
  intros t2. destruct (view_lines tr d t2 p "view" R) as (t3 & E2 & Hl); [done|done|].
  destruct (handle_action (E := Empty_set) local_user_id local_key_b64 p "view" true (d, t2)) as [[lines|[]] s']. cbn [fst snd] in *. subst s'.
  exists lines, t3. split; [done|].
  destruct Hl as [(e & -> & Hv & Ho' & Hc)|(k & b & number & r1 & r2 & r3 & line & Ep & En & Ej & Hg & L1 & L2 & -> & Hline)].
  - split; [set_solver|]. split; [by exists e|].
    assert (forall k b, tr !! p = Some (k, b) -> number_of p k = None \/ faulted t2 t3) as Hc'
      by (intros k b Ep; destruct Hc as [?|[?|(? & ? & ? & ?)]]; simplify_eq; auto).
    split; [intros k b Ep; right; right; eauto|].
    intros k b Ep [x Hx] Hnf. destruct (Hc' k b Ep); [congruence|done].
  - assert (line = verified_line \/ line = unverified_line) as Hl by (destruct b; naive_solver).
    split; [rewrite !not_elem_of_cons; repeat split; try done; [by destruct Hl as [->| ->]|set_solver]|].
    rewrite Ep. pose proof (screen_of_number p k number r1 r2 r3 line En Ej Hg L1 L2) as Hs.
    split; [done|]. destruct Hline as [->|[-> Hf]]; split; intros k' b' [= <- <-]; auto.
    intros _ Hnf. done.
Qed.
End Trust.
