(* ===== verification/ClientApp.v ===== *)
(** * The client application ([crates/client/src/app.rs], [app_inbound.rs],
    [app_prekeys.rs], [status_bar.rs])

    The state of the terminal client and its event handlers: what a user's
    message, a server message, a change of the connection and the passing of
    time do to the application, the cryptographic manager, the two databases
    and the channel to the network task.

    [World] is the application with the manager's file, the message database,
    the counter of the environment's events and the channel, as the list of
    messages put on it ([send] on the unbounded channel never blocks, and its
    error is ignored).  The text editor widget is the parameter [TextArea]. *)
From stdpp Require Import base numbers list strings gmap pretty sorting.
From Stdlib Require Import Strings.Byte.
From S2P Require Import Prelude Consts Types Primitives Keys Ratchet Fingerprint SqlDb ServerWorld CryptoStore CryptoMgr ClientDb Verification.
Local Open Scope Z_scope.
Local Open Scope cmp_scope.

(** ** Parameters *)

(** Keys as [crossterm] reports them. *)
Inductive KeyCode :=
| KChar (c : Z) | KF (n : Z) | KEnter | KEsc | KTab | KUp | KDown | KPageUp | KPageDown | KEnd
| KOther (n : Z).
#[export] Instance KeyCode_eq_dec : EqDecision KeyCode.
Proof. solve_decision. Defined.
Inductive KeyEventKind := Press | Repeat | Release.
(** [modifiers] is the bit set of [KeyModifiers]. *)
Record KeyEvent := mkKeyEvent { code : KeyCode; modifiers : Z; kind : KeyEventKind }.
Definition MOD_NONE : Z := 0.
Definition MOD_SHIFT : Z := 1.
Definition MOD_CONTROL : Z := 2.

(** The widget of [tui_textarea]: a new composer and a new one-line input, and
    the calls the client makes. *)
Class TextArea := {
  text_area : Type;
  ta_composer : text_area;
  ta_new_chat : text_area;
  ta_lines : text_area -> list string;
  ta_clear : text_area -> text_area;
  ta_insert_str : string -> text_area -> bool * text_area;
  ta_insert_newline : text_area -> text_area;
  ta_input : KeyEvent -> text_area -> bool * text_area;
}.

(** The monotonic clock, in nanoseconds, and the JSON form of a list of ids. *)
Class AppEnv := {
  ae_instant : nat -> Z;
  ids_json : list string -> option bytes;
  ids_of_json : string -> option (list string);
}.

(** ** Library functions of Rust *)

Definition secs (n : Z) : Z := n * 1000000000.
(** [later.duration_since(earlier)], which saturates. *)
Definition duration_since (later earlier : Z) : Z := saturating_sub later earlier.

Fixpoint trim_start (fuel : nat) (bs : list Z) : list Z :=
  match fuel with
  | O => bs
  | S f => match strip_whitespace bs with Some r => trim_start f r | None => bs end
  end.

(** Drop one white-space scalar value at the end: its last one to three bytes. *)
Definition strip_whitespace_end (bs : list Z) : option (list Z) :=
  let cut k := take (length bs - k) bs in
  let is_ws k := bool_decide (strip_whitespace (drop (length bs - k) bs) = Some []) in
  match bs with
  | [] => None
  | _ => if is_ws 1%nat then Some (cut 1%nat)
         else if is_ws 2%nat then Some (cut 2%nat)
         else if is_ws 3%nat then Some (cut 3%nat) else None
  end.
Fixpoint trim_end (fuel : nat) (bs : list Z) : list Z :=
  match fuel with
  | O => bs
  | S f => match strip_whitespace_end bs with Some r => trim_end f r | None => bs end
  end.

(** [str::trim]; each step drops a byte, so the length is enough fuel. *)
Definition trim (s : string) : string :=
  let bs := codes s in
  let bs := trim_start (length bs) bs in
  let bs := trim_end (length bs) bs in
  String.string_of_list_byte (byte_of_Z <$> bs).

(** [slice::join] *)
Fixpoint join (sep : string) (l : list string) : string :=
  match l with
  | [] => ""
  | [s] => s
  | s :: l' => s +:+ sep +:+ join sep l'
  end.

Definition newline : string := String (Ascii.ascii_of_nat 10) EmptyString.

(** [str] order. *)
Definition str_le (a b : string) : Prop := bytes_cmp (str_bytes a) (str_bytes b) <> Gt.
#[export] Instance str_le_dec a b : Decision (str_le a b).
Proof. unfold str_le. apply _. Defined.

(** The text of [InvalidUserId]. *)
Definition invalid_user_id (e : string) : string := "invalid user id: " +:+ e.

(** [#[error(..)]] of [CryptoError]. *)
Definition error_text (e : CryptoError) : string :=
  match e with
  | BadBundle => "invalid pre-key bundle"
  | BadEnvelope => "invalid envelope"
  | UnsupportedVersion v => "unsupported protocol version " +:+ pretty v
  | X3dhFailed => "key agreement failed"
  | RatchetFailed => "ratchet error"
  | NoSession => "no session with peer"
  | DecryptFailed => "decryption failed"
  | Persistence _ => "cryptographic state could not be persisted"
  | OutboxFull => "durable message queue is full"
  | AwaitingPrekeyAdmission => "waiting for the server to accept the first message"
  | ReplayLedgerFull => "processed-message ledger is full"
  end.

(** ** Queries of the manager *)

Definition needs_registration (m : CryptoManager) : bool := bool_decide (stored_spk m = None).
Definition is_pending (peer_id : string) (m : CryptoManager) : bool := bool_decide (peer_id ∈ pending_inits m).
(** In the order of the hash set. *)
Definition pending_peers (m : CryptoManager) : list string := elements (pending_inits m).
Definition has_session (peer_id : string) (m : CryptoManager) : bool :=
  bool_decide (is_Some (sessions m !! peer_id)).
Definition session_peers (m : CryptoManager) : list string :=
  merge_sort str_le (map_to_list (sessions m)).*1.
Definition pending_messages (m : CryptoManager) : list ClientMessage :=
  to_client_message <$> pending_outbound m.

(** ** Status bar ([status_bar.rs]) *)

Inductive ConnectionStatus :=
| Connecting
| Authenticating
| Authenticated (since : Z)
| AuthFailed (reason : string)
| Disconnected.

Record StatusBar := mkStatusBar {
  connection : option ConnectionStatus;
  typing : option (string * Z);
}.
Definition StatusBar_new : StatusBar := mkStatusBar None None.
Definition TYPING_TIMEOUT : Z := secs 5.
Definition AUTHENTICATED_TIMEOUT : Z := secs 5.

Definition set_connection (status : ConnectionStatus) (b : StatusBar) : StatusBar :=
  mkStatusBar (Some status) (typing b).
Definition set_typing (who : string) (now : Z) (b : StatusBar) : StatusBar :=
  mkStatusBar (connection b) (Some (who, now)).
Definition clear_typing (b : StatusBar) : StatusBar := mkStatusBar (connection b) None.

Definition needs_tick (b : StatusBar) : bool :=
  match typing b, connection b with
  | Some _, _ => true
  | None, Some (Authenticated _) => true
  | None, _ => false
  end.

(** The two [elapsed()] read the clock separately. *)
Definition tick (now now2 : Z) (b : StatusBar) : StatusBar :=
  let typing' := match typing b with
                 | Some (who, ts) => if TYPING_TIMEOUT <? duration_since now ts then None else typing b
                 | None => None
                 end in
  let connection' := match connection b with
                     | Some (Authenticated ts) =>
                         if AUTHENTICATED_TIMEOUT <? duration_since now2 ts then None else connection b
                     | c => c
                     end in
  mkStatusBar connection' typing'.

Definition connection_span (b : StatusBar) : option string :=
  match connection b with
  | None => None
  | Some Connecting => Some "connecting..."
  | Some Authenticating => Some "connected, authenticating..."
  | Some (Authenticated _) => Some "authenticated ✓"
  | Some (AuthFailed reason) => Some ("auth failed: " +:+ reason)
  | Some Disconnected => Some "disconnected, reconnecting..."
  end.

Definition typing_span (now : Z) (b : StatusBar) : option string :=
  match typing b with
  | None => None
  | Some (who, ts) =>
      if TYPING_TIMEOUT <=? duration_since now ts then None else Some (who +:+ " is typing...")
  end.

(** The spans of the line. *)
Definition render_status_line (now : Z) (b : StatusBar) : list string :=
  match connection_span b, typing_span now b with
  | Some c, Some t => ["  "; c; "  "; t]
  | Some c, None => ["  "; c]
  | None, Some t => ["  "; t]
  | None, None => [""]
  end.

(** ** The application *)

Inductive AppEvent :=
| EvConnecting | EvConnected | EvAuthenticated | EvAuthFailed (reason : string) | EvDisconnected
| EvServer (msg : ServerMessage).

Inductive Focus := Conversations | Composer.
#[export] Instance Focus_eq_dec : EqDecision Focus.
Proof. solve_decision. Defined.

Record Notice := mkNotice { notice_body : string; created_at : Z }.

Section AppState.
Context `{TextArea}.

Inductive Modal :=
| NewChat (input : text_area)
| Help
| VerificationModal (entries : list ChatEntry).

(** [db] is whether the message database could be opened; scrolls are [usize]. *)
Record App := mkApp {
  user_id : UserId;
  composer : text_area;
  target_user : option UserId;
  running : bool;
  authenticated : bool;
  crypto : CryptoManager;
  last_typing_sent : option Z;
  status_bar : StatusBar;
  pending_msg_ids : list MessageId;
  unread_messages : gmap string (list MessageId);
  identity_warnings : gmap string string;
  chat_history : list ChatEntry;
  db : bool;
  focus : Focus;
  modal : option Modal;
  selected_conversation : option string;
  message_scroll : Z;
  last_rendered_max_scroll : option Z;
  notice : option Notice;
}.

Definition set_composer (v : text_area) (a : App) : App :=
  mkApp (user_id a) v (target_user a) (running a) (authenticated a) (crypto a) (last_typing_sent
  a) (status_bar a) (pending_msg_ids a) (unread_messages a) (identity_warnings a) (chat_history
  a) (db a) (focus a) (modal a) (selected_conversation a) (message_scroll a)
  (last_rendered_max_scroll a) (notice a).
Definition set_target_user (v : option UserId) (a : App) : App :=
  mkApp (user_id a) (composer a) v (running a) (authenticated a) (crypto a) (last_typing_sent a)
  (status_bar a) (pending_msg_ids a) (unread_messages a) (identity_warnings a) (chat_history a)
  (db a) (focus a) (modal a) (selected_conversation a) (message_scroll a)
  (last_rendered_max_scroll a) (notice a).
Definition set_running (v : bool) (a : App) : App :=
  mkApp (user_id a) (composer a) (target_user a) v (authenticated a) (crypto a) (last_typing_sent
  a) (status_bar a) (pending_msg_ids a) (unread_messages a) (identity_warnings a) (chat_history
  a) (db a) (focus a) (modal a) (selected_conversation a) (message_scroll a)
  (last_rendered_max_scroll a) (notice a).
Definition set_authenticated (v : bool) (a : App) : App :=
  mkApp (user_id a) (composer a) (target_user a) (running a) v (crypto a) (last_typing_sent a)
  (status_bar a) (pending_msg_ids a) (unread_messages a) (identity_warnings a) (chat_history a)
  (db a) (focus a) (modal a) (selected_conversation a) (message_scroll a)
  (last_rendered_max_scroll a) (notice a).
Definition set_crypto (v : CryptoManager) (a : App) : App :=
  mkApp (user_id a) (composer a) (target_user a) (running a) (authenticated a) v
  (last_typing_sent a) (status_bar a) (pending_msg_ids a) (unread_messages a) (identity_warnings
  a) (chat_history a) (db a) (focus a) (modal a) (selected_conversation a) (message_scroll a)
  (last_rendered_max_scroll a) (notice a).
Definition set_last_typing_sent (v : option Z) (a : App) : App :=
  mkApp (user_id a) (composer a) (target_user a) (running a) (authenticated a) (crypto a) v
  (status_bar a) (pending_msg_ids a) (unread_messages a) (identity_warnings a) (chat_history a)
  (db a) (focus a) (modal a) (selected_conversation a) (message_scroll a)
  (last_rendered_max_scroll a) (notice a).
Definition set_status_bar (v : StatusBar) (a : App) : App :=
  mkApp (user_id a) (composer a) (target_user a) (running a) (authenticated a) (crypto a)
  (last_typing_sent a) v (pending_msg_ids a) (unread_messages a) (identity_warnings a)
  (chat_history a) (db a) (focus a) (modal a) (selected_conversation a) (message_scroll a)
  (last_rendered_max_scroll a) (notice a).
Definition set_pending_msg_ids (v : list MessageId) (a : App) : App :=
  mkApp (user_id a) (composer a) (target_user a) (running a) (authenticated a) (crypto a)
  (last_typing_sent a) (status_bar a) v (unread_messages a) (identity_warnings a) (chat_history
  a) (db a) (focus a) (modal a) (selected_conversation a) (message_scroll a)
  (last_rendered_max_scroll a) (notice a).
Definition set_unread_messages (v : gmap string (list MessageId)) (a : App) : App :=
  mkApp (user_id a) (composer a) (target_user a) (running a) (authenticated a) (crypto a)
  (last_typing_sent a) (status_bar a) (pending_msg_ids a) v (identity_warnings a) (chat_history
  a) (db a) (focus a) (modal a) (selected_conversation a) (message_scroll a)
  (last_rendered_max_scroll a) (notice a).
Definition set_identity_warnings (v : gmap string string) (a : App) : App :=
  mkApp (user_id a) (composer a) (target_user a) (running a) (authenticated a) (crypto a)
  (last_typing_sent a) (status_bar a) (pending_msg_ids a) (unread_messages a) v (chat_history a)
  (db a) (focus a) (modal a) (selected_conversation a) (message_scroll a)
  (last_rendered_max_scroll a) (notice a).
Definition set_chat_history (v : list ChatEntry) (a : App) : App :=
  mkApp (user_id a) (composer a) (target_user a) (running a) (authenticated a) (crypto a)
  (last_typing_sent a) (status_bar a) (pending_msg_ids a) (unread_messages a) (identity_warnings
  a) v (db a) (focus a) (modal a) (selected_conversation a) (message_scroll a)
  (last_rendered_max_scroll a) (notice a).
Definition set_focus (v : Focus) (a : App) : App :=
  mkApp (user_id a) (composer a) (target_user a) (running a) (authenticated a) (crypto a)
  (last_typing_sent a) (status_bar a) (pending_msg_ids a) (unread_messages a) (identity_warnings
  a) (chat_history a) (db a) v (modal a) (selected_conversation a) (message_scroll a)
  (last_rendered_max_scroll a) (notice a).
Definition set_modal (v : option Modal) (a : App) : App :=
  mkApp (user_id a) (composer a) (target_user a) (running a) (authenticated a) (crypto a)
  (last_typing_sent a) (status_bar a) (pending_msg_ids a) (unread_messages a) (identity_warnings
  a) (chat_history a) (db a) (focus a) v (selected_conversation a) (message_scroll a)
  (last_rendered_max_scroll a) (notice a).
Definition set_selected_conversation (v : option string) (a : App) : App :=
  mkApp (user_id a) (composer a) (target_user a) (running a) (authenticated a) (crypto a)
  (last_typing_sent a) (status_bar a) (pending_msg_ids a) (unread_messages a) (identity_warnings
  a) (chat_history a) (db a) (focus a) (modal a) v (message_scroll a) (last_rendered_max_scroll
  a) (notice a).
Definition set_message_scroll (v : Z) (a : App) : App :=
  mkApp (user_id a) (composer a) (target_user a) (running a) (authenticated a) (crypto a)
  (last_typing_sent a) (status_bar a) (pending_msg_ids a) (unread_messages a) (identity_warnings
  a) (chat_history a) (db a) (focus a) (modal a) (selected_conversation a) v
  (last_rendered_max_scroll a) (notice a).
Definition set_last_rendered_max_scroll (v : option Z) (a : App) : App :=
  mkApp (user_id a) (composer a) (target_user a) (running a) (authenticated a) (crypto a)
  (last_typing_sent a) (status_bar a) (pending_msg_ids a) (unread_messages a) (identity_warnings
  a) (chat_history a) (db a) (focus a) (modal a) (selected_conversation a) (message_scroll a) v
  (notice a).
Definition set_notice (v : option Notice) (a : App) : App :=
  mkApp (user_id a) (composer a) (target_user a) (running a) (authenticated a) (crypto a)
  (last_typing_sent a) (status_bar a) (pending_msg_ids a) (unread_messages a) (identity_warnings
  a) (chat_history a) (db a) (focus a) (modal a) (selected_conversation a) (message_scroll a)
  (last_rendered_max_scroll a) v.

(** [App::new] *)
Definition App_new (user_id : UserId) (crypto : CryptoManager) (db : bool) : App :=
  mkApp user_id ta_composer None true false crypto None StatusBar_new [] ∅ ∅ [] db Composer None None
    0 None None.

Definition notice_text (a : App) : option string := notice_body <$> notice a.
Definition composer_text (a : App) : string := join newline (ta_lines (composer a)).
End AppState.

Record World `{TextArea} := mkWorld {
  w_app : App;
  w_disk : Disk;
  w_db : ClientDb;
  w_tick : nat;
  w_out : list ClientMessage;
}.

Section Application.
Context `{CryptoPrims, Codecs, ClientEnv, TextArea, AppEnv}.

Abbreviation wm E A := (rm World E A).

Definition get_app {E} : wm E App := fun w => (Ok (w_app w), w).
Definition modify_app {E} (f : App -> App) : wm E unit := fun w =>
  (Ok tt, mkWorld _ (f (w_app w)) (w_disk w) (w_db w) (w_tick w) (w_out w)).
Definition send {E} (m : ClientMessage) : wm E unit := fun w =>
  (Ok tt, mkWorld _ (w_app w) (w_disk w) (w_db w) (w_tick w) (w_out w ++ [m])).

(** A call of the manager. *)
Definition crypto_call {E A} (op : rm Client E A) : wm E A := fun w =>
  let '(r, c) := op (mkClient (crypto (w_app w)) (w_disk w, w_tick w)) in
  (r, mkWorld _ (set_crypto (c_mgr c) (w_app w)) (c_io c).1 (w_db w) (c_io c).2 (w_out w)).
(** A call of the message database. *)
Definition db_call {E A} (op : rm (ClientDb * nat) E A) : wm E A := fun w =>
  let '(r, s) := op (w_db w, w_tick w) in
  (r, mkWorld _ (w_app w) (w_disk w) s.1 s.2 (w_out w)).
(** [Instant::now()] *)
Definition instant_now {E} : wm E Z := fun w =>
  (Ok (ae_instant (w_tick w)), mkWorld _ (w_app w) (w_disk w) (w_db w) (S (w_tick w)) (w_out w)).

Definition status {E} (text : string) : wm E unit :=
  do! now <- instant_now; modify_app (set_notice (Some (mkNotice text now))).

(** [elapsed()] is read only when there is a notice. *)
Definition tick_notice {E} : wm E unit :=
  do! a <- get_app;
  match notice a with
  | Some n =>
      do! now <- instant_now;
      if secs 5 <? duration_since now (created_at n) then modify_app (set_notice None) else rm_ret tt
  | None => rm_ret tt
  end.

Definition clear_input {E} : wm E unit := modify_app (fun a => set_composer (ta_clear (composer a)) a).

Definition push_entry {E} (e : ChatEntry) : wm E unit :=
  modify_app (fun a => set_chat_history (chat_history a ++ [e]) a).

Definition load_chat_history {E} (peer_id : string) : wm E unit :=
  run! modify_app (fun a => set_last_rendered_max_scroll None
                              (set_message_scroll 0 (set_chat_history [] a)));
  do! a <- get_app;
  if db a then
    do! r <- rm_try (db_call (load_recent_messages peer_id));
    match r with
    | Ok messages => modify_app (fun a => set_chat_history
                       (chat_history a ++ (entry_of_stored <$> messages)) a)
    | Err _ => rm_ret tt
    end
  else rm_ret tt.

(** [if seen.insert(peer) { peers.push(peer) }] for each; [seen] is always the
    set of [peers]. *)
Definition push_new (l peers : list string) : list string :=
  fold_left (fun ps p => if bool_decide (p ∈ ps) then ps else ps ++ [p]) l peers.

Definition conversations {E} : wm E (list string) :=
  do! a <- get_app;
  do! stored <- (if db a then rm_ok (db_call list_conversation_peers) else rm_ret None);
  let peers := default [] stored in
  let peers := push_new (session_peers (crypto a)) peers in
  let peers := push_new (pending_peers (crypto a)) peers in
  let peers := push_new (map_to_list (unread_messages a)).*1 peers in
  rm_ret (push_new [as_str (user_id a)] peers).

Definition persist_message (peer_id : string) (direction : MessageDirection) (msg_id body : string)
  : wm AnyhowError bool :=
  do! a <- get_app;
  if db a then db_call (insert_message peer_id direction msg_id body)
  else rm_fail (Bail "message database unavailable").

Definition is_active_peer (a : App) (peer_id : string) : bool :=
  match target_user a with Some target => bool_decide (as_str target = peer_id) | None => false end.

(** Store a peer's identity key and warn if it changed. *)
Definition track_peer_identity {E} (peer_id identity_key_b64 : string) : wm E unit :=
  do! a <- get_app;
  if db a then
    do! w <- db_call (check_peer_identity peer_id identity_key_b64);
    match w with
    | Some warning =>
        run! modify_app (fun a => set_identity_warnings (<[peer_id := warning]> (identity_warnings a)) a);
        if is_active_peer a peer_id then push_entry (EWarning warning)
        else status ("security alert for " +:+ peer_id)
    | None => rm_ret tt
    end
  else rm_ret tt.

(** ** Inbound messages ([app_inbound.rs]) *)

Definition queue_ack {E} (message_ids : list MessageId) : wm E unit :=
  do! r <- rm_try (crypto_call (CryptoMgr.queue_ack message_ids));
  match r with Ok ack => send ack | Err _ => rm_ret tt end.

Definition queue_read_receipt_ack {E} (receipt_ids : list MessageId) : wm E unit :=
  do! r <- rm_try (crypto_call (CryptoMgr.queue_read_receipt_ack receipt_ids));
  match r with Ok ack => send ack | Err _ => rm_ret tt end.

Definition commit_pending_inbound (inbound : InboundMessage) (sender text : string) : wm AnyhowError bool :=
  do! inserted <- persist_message sender DirReceived (uuid_to_string (im_message_id inbound)) text;
  run! crypto_call (confirm_inbound_stored sender (im_message_id inbound));
  rm_ret inserted.

Definition process_pending_inbound {E} (inbound : InboundMessage) (sender text : string)
  : wm E (string * MessageId * bool * bool) :=
  run! match Types.header (im_envelope inbound) with
       | HPreKey sender_identity_key _ _ _ _ => track_peer_identity sender sender_identity_key
       | HRatchet _ => rm_ret tt
       end;
  do! r <- rm_try (commit_pending_inbound inbound sender text);
  match r with
  | Err _ => rm_ret (sender, im_message_id inbound, false, false)
  | Ok inserted =>
      do! a <- get_app;
      run! (if inserted && is_active_peer a sender then push_entry (EReceived sender text) else rm_ret tt);
      rm_ret (sender, im_message_id inbound, true, inserted)
  end.

(** The sender, the id, whether to acknowledge and whether it is new. *)
Definition process_inbound {E} (inbound : InboundMessage) : wm E (string * MessageId * bool * bool) :=
  let sender := as_str (im_sender_id inbound) in
  do! d <- crypto_call (decrypt_message_to_text sender (im_message_id inbound) (im_envelope inbound));
  match d with
  | Pending text => process_pending_inbound inbound sender text
  | Duplicate => rm_ret (sender, im_message_id inbound, true, false)
  | Failed =>
      do! a <- get_app;
      run! (if is_active_peer a sender then push_entry (EReceived sender "[undecryptable message]")
            else rm_ret tt);
      rm_ret (sender, im_message_id inbound, false, false)
  end.

Definition flush_read_receipts {E} (target : UserId) : wm E unit :=
  do! a <- get_app;
  match unread_messages a !! as_str target with
  | Some unread =>
      if negb (bool_decide (unread = [])) && has_session (as_str target) (crypto a) then
        do! r <- rm_try (crypto_call (encrypt_read_receipt ids_json (as_str target) target unread));
        match r with
        | Ok receipt =>
            run! send receipt;
            modify_app (fun a => set_unread_messages (delete (as_str target) (unread_messages a)) a)
        | Err _ => rm_ret tt
        end
      else rm_ret tt
  | None => rm_ret tt
  end.

Definition accumulate_unread {E} (sender : string) (message_id : MessageId) : wm E unit :=
  modify_app (fun a =>
    let entry := default [] (unread_messages a !! sender) in
    set_unread_messages
      (<[sender := if Z.of_nat (length entry) <? MAX_RECEIPT_BATCH then entry ++ [message_id] else entry]>
         (unread_messages a)) a).

(** ** Pre-keys ([app_prekeys.rs]) *)

Definition queue_signed_prekey_rotation {E} : wm E unit :=
  run! rm_try (F := E) (crypto_call CryptoMgr.queue_signed_prekey_rotation); rm_ret tt.

Definition is_rotation_message (m : ClientMessage) : bool :=
  match m with RotateSignedPreKey _ _ _ _ => true | _ => false end.

Definition send_pending_rotation {E} : wm E unit :=
  do! a <- get_app;
  match List.find is_rotation_message (pending_messages (crypto a)) with
  | Some rotation => send rotation
  | None => rm_ret tt
  end.

Definition queue_due_rotation {E} : wm E unit :=
  do! r <- rm_try (crypto_call CryptoMgr.queue_signed_prekey_rotation);
  match r with Ok true => send_pending_rotation | _ => rm_ret tt end.

Definition handle_lifecycle_tick {E} : wm E unit :=
  do! a <- get_app;
  if negb (authenticated a) then rm_ret tt else queue_due_rotation.

Definition handle_prekey_low {E} (remaining : Z) : wm E unit :=
  do! r <- rm_try (crypto_call queue_prekey_replenishment);
  match r with
  | Ok upload =>
      run! send upload;
      status ("replenishing one-time pre-keys (" +:+ pretty remaining +:+ " remaining)")
  | Err error => status ("pre-key replenishment failed: " +:+ error_text error)
  end.

Definition send_replacement {E} (replacement : option ClientMessage) : wm E unit :=
  match replacement with Some upload => send upload | None => rm_ret tt end.

Definition prekey_upload_status (accepted : bool) (remaining : Z) : string :=
  (if accepted then "one-time pre-keys replenished" else "pre-key upload rejected")
  +:+ " (" +:+ pretty remaining +:+ " available)".

Definition handle_prekeys_uploaded {E} (upload_id : MessageId) (accepted : bool) (remaining : Z)
  : wm E unit :=
  do! r <- rm_try (crypto_call (confirm_prekeys_uploaded upload_id accepted remaining));
  match r with
  | Ok replacement =>
      run! send_replacement replacement;
      status (prekey_upload_status accepted remaining)
  | Err _ => rm_ret tt
  end.

Definition handle_signed_prekey_rotated {E} (rotation_id : MessageId) (accepted previously_accepted : bool)
    (current_key_id : Z) : wm E unit :=
  do! r <- rm_try (crypto_call (confirm_signed_prekey_rotated rotation_id accepted previously_accepted
                                  current_key_id));
  match r with
  | Ok (Some replacement) =>
      run! send replacement; status "signed pre-key rotation reconciled; retrying"
  | Ok None =>
      if accepted then status "signed pre-key rotated" else status "signed pre-key rotation rejected"
  | Err _ => rm_ret tt
  end.

(** Whether the message has to wait. *)
Definition refresh_expired_session {E} (target : UserId) : wm E bool :=
  do! r <- rm_try (crypto_call (expire_stale_prekey_session (as_str target)));
  match r with
  | Ok true =>
      run! crypto_call (add_pending (as_str target));
      run! send (FetchPreKeyBundle target);
      run! status "refreshing expired session keys...";
      rm_ret true
  | Ok false => rm_ret false
  | Err error =>
      run! status ("session refresh failed: " +:+ error_text error);
      rm_ret true
  end.

Definition handle_message_rejected {E} (message_id : MessageId) : wm E unit :=
  do! r <- rm_try (crypto_call (reject_message message_id));
  match r with
  | Ok (Some recipient_id) =>
      run! crypto_call (add_pending (as_str recipient_id));
      send (FetchPreKeyBundle recipient_id)
  | _ => rm_ret tt
  end.

(** ** The handlers ([app.rs]) *)

(** [App::new] on a new connection, with the notice that there is no database. *)
Definition initialized_app {E} : wm E unit :=
  do! a <- get_app;
  if negb (db a) then status "warning: message history unavailable" else rm_ret tt.

Definition MAX_PENDING_MSG_IDS : Z := 10000.

Definition handle_enter {E} : wm E unit :=
  do! a <- get_app;
  let text := trim (composer_text a) in
  if bool_decide (text = "") then rm_ret tt
  else match target_user a with
  | None => status "choose a conversation before sending"
  | Some target =>
      let target_str := as_str target in
      if bool_decide (target_str = as_str (user_id a)) then
        do! msg_id <- crypto_call new_message_id;
        do! r <- rm_try (persist_message target_str DirSent (uuid_to_string msg_id) text);
        match r with
        | Err _ => status "failed to save note"
        | Ok _ => run! push_entry (ESent text); clear_input
        end
      else if negb (has_session target_str (crypto a)) then
        status "waiting for session establishment..."
      else if negb (authenticated a) then status "waiting for server connection..."
      else
      do! waiting <- refresh_expired_session target;
      if waiting then rm_ret tt
      else
      let estimated_b64_len := (str_len text + 18) / 3 * 4 in
      if MAX_CIPHERTEXT_BYTES <? estimated_b64_len then status "message too long"
      else
      do! msg_id <- crypto_call new_message_id;
      do! r <- rm_try (crypto_call (encrypt_message target_str target msg_id (str_bytes text)));
      match r with
      | Err e => status ("encrypt error: " +:+ error_text e)
      | Ok outbound =>
          run! modify_app (fun a => if MAX_PENDING_MSG_IDS <=? Z.of_nat (length (pending_msg_ids a))
                                    then set_pending_msg_ids [] a else a);
          run! modify_app (fun a => set_pending_msg_ids (pending_msg_ids a ++ [msg_id]) a);
          run! send outbound;
          run! rm_try (F := E) (persist_message target_str DirSent (uuid_to_string msg_id) text);
          run! push_entry (ESent text);
          clear_input
      end
  end.

Definition open_conversation (target : string) : wm string unit :=
  do! uid <- rm_lift (map_err invalid_user_id (UserId_new target));
  run! load_chat_history target;
  do! a <- get_app;
  run! match identity_warnings a !! target with
       | Some warning => push_entry (EWarning warning)
       | None => rm_ret tt
       end;
  run! modify_app (fun a =>
         set_last_typing_sent None (set_status_bar (clear_typing (status_bar a))
           (set_modal None (set_focus Composer
             (set_selected_conversation (Some target) (set_target_user (Some uid) a))))));
  do! a <- get_app;
  if bool_decide (target = as_str (user_id a)) then status "note to self"
  else if has_session target (crypto a) then
    run! status ("E2EE active with " +:+ target); flush_read_receipts uid
  else
  run! crypto_call (add_pending target);
  if authenticated a then
    run! send (FetchPreKeyBundle uid); status ("fetching keys for " +:+ target +:+ "...")
  else status "waiting for server connection...".

Fixpoint send_all {E} (ms : list ClientMessage) : wm E unit :=
  match ms with [] => rm_ret tt | m :: ms' => run! send m; send_all ms' end.

(** The fetches for the peers whose session is wanted. *)
Definition fetch_requests (peers : list string) : list ClientMessage :=
  omap (fun p => match UserId_new p with Ok u => Some (FetchPreKeyBundle u) | Err _ => None end) peers.

Fixpoint process_queued {E} (ms : list InboundMessage) (ack_ids : list MessageId) : wm E (list MessageId) :=
  match ms with
  | [] => rm_ret ack_ids
  | inbound :: ms' =>
      do! x <- process_inbound inbound;
      let '(sender, msg_id, should_ack, fresh) := x in
      let ack_ids := if should_ack then ack_ids ++ [im_message_id inbound] else ack_ids in
      run! (if fresh then accumulate_unread sender msg_id else rm_ret tt);
      process_queued ms' ack_ids
  end.

Definition handle_server_message (msg : ServerMessage) : wm string unit :=
  match msg with
  | PreKeyBundleResponse user_id bundle =>
      let peer := as_str user_id in
      do! a <- get_app;
      if is_pending peer (crypto a) then
        do! r <- rm_try (crypto_call (init_session_from_bundle peer bundle));
        match r with
        | Ok _ =>
            run! track_peer_identity peer (identity_key bundle);
            status ("E2EE session established with " +:+ peer +:+ " 🔒")
        | Err e => status ("session init failed: " +:+ error_text e)
        end
      else rm_ret tt
  | IncomingMessage inbound =>
      do! x <- process_inbound inbound;
      let '(sender, msg_id, should_ack, fresh) := x in
      run! (if should_ack then queue_ack [im_message_id inbound] else rm_ret tt);
      if fresh then
        do! a <- get_app;
        run! match target_user a with None => open_conversation sender | Some _ => rm_ret tt end;
        do! a <- get_app;
        if is_active_peer a sender && has_session sender (crypto a) then
          do! r <- rm_try (crypto_call (encrypt_read_receipt ids_json sender (im_sender_id inbound) [msg_id]));
          match r with
          | Ok receipt => send receipt
          | Err _ => accumulate_unread sender msg_id
          end
        else accumulate_unread sender msg_id
      else rm_ret tt
  | QueuedMessages messages =>
      do! ack_ids <- process_queued messages [];
      run! (if negb (bool_decide (ack_ids = [])) then queue_ack ack_ids else rm_ret tt);
      do! a <- get_app;
      match target_user a with Some target => flush_read_receipts target | None => rm_ret tt end
  | PeerTyping sender_id =>
      do! a <- get_app;
      if bool_decide (target_user a = Some sender_id) then
        do! now <- instant_now;
        modify_app (fun a => set_status_bar (set_typing (as_str sender_id) now (status_bar a)) a)
      else rm_ret tt
  | MessageDelivered message_ids =>
      do! a <- get_app;
      if existsb (fun i => bool_decide (i ∈ pending_msg_ids a)) message_ids then
        run! modify_app (fun a => set_pending_msg_ids
               (filter (fun i => i ∉ message_ids) (pending_msg_ids a)) a);
        status "  ✓"
      else rm_ret tt
  | MessageSent message_id =>
      do! r <- rm_try (crypto_call (confirm_message_sent message_id));
      match r with Err _ => rm_ret tt | Ok _ => send (AckMessageSent [message_id]) end
  | MessageRejected message_id reason =>
      run! handle_message_rejected message_id;
      run! modify_app (fun a => set_pending_msg_ids
             (filter (fun i => i <> message_id) (pending_msg_ids a)) a);
      status ("message rejected; refreshing session: " +:+ reason)
  | AckSuccess ack_id message_ids =>
      run! rm_try (F := string) (crypto_call (confirm_acked ack_id message_ids)); rm_ret tt
  | ReadReceiptSent receipt_id =>
      do! r <- rm_try (crypto_call (confirm_read_receipt_sent receipt_id));
      match r with Err _ => rm_ret tt | Ok _ => send (AckReadReceiptSent [receipt_id]) end
  | IncomingReadReceipt sender_id receipt_id envelope =>
      let sender := as_str sender_id in
      do! d <- crypto_call (decrypt_message_to_text sender receipt_id envelope);
      match d with
      | Pending text =>
          match ids_of_json text with
          | Some _ =>
              run! status "  ✓✓";
              run! rm_try (F := string) (crypto_call (confirm_inbound_stored sender receipt_id));
              queue_read_receipt_ack [receipt_id]
          | None => rm_ret tt
          end
      | Duplicate => queue_read_receipt_ack [receipt_id]
      | Failed => rm_ret tt
      end
  | PreKeyLow remaining => handle_prekey_low remaining
  | PreKeysUploaded upload_id accepted remaining => handle_prekeys_uploaded upload_id accepted remaining
  | SignedPreKeyRotated rotation_id accepted previously_accepted current_key_id =>
      handle_signed_prekey_rotated rotation_id accepted previously_accepted current_key_id
  | ErrorMsg _ message => status ("server error: " +:+ message)
  | _ => rm_ret tt
  end.

Definition handle_app_event (event : AppEvent) : wm string unit :=
  let connection_is c := modify_app (fun a => set_status_bar (set_connection c (status_bar a)) a) in
  match event with
  | EvConnecting => connection_is Connecting
  | EvConnected => connection_is Authenticating
  | EvAuthenticated =>
      run! modify_app (set_authenticated true);
      do! now <- instant_now;
      run! connection_is (Authenticated now);
      run! queue_signed_prekey_rotation;
      do! a <- get_app;
      run! send_all (pending_messages (crypto a));
      send_all (fetch_requests (pending_peers (crypto a)))
  | EvAuthFailed reason =>
      run! modify_app (set_authenticated false); connection_is (AuthFailed reason)
  | EvDisconnected =>
      run! modify_app (fun a => set_pending_msg_ids [] (set_authenticated false a));
      connection_is Disconnected
  | EvServer msg => handle_server_message msg
  end.

Definition show_verification {E} (action : string) : wm E unit :=
  do! a <- get_app;
  match target_user a with
  | None => status "choose a conversation before verifying"
  | Some target =>
      if bool_decide (as_str target = as_str (user_id a)) then
        status "note to self does not have a peer safety number"
      else
      let key := b64_encode (verifying_key (identity (crypto a))) in
      do! entries <- db_call (handle_action (as_str (user_id a)) key (as_str target) action (db a));
      do! confirmed <- (if db a then db_call (get_verification (as_str target)) else rm_ret None);
      run! (if bool_decide (action = "confirm") && bool_decide (is_Some confirmed)
            then modify_app (fun a => set_identity_warnings
                   (delete (as_str target) (identity_warnings a)) a)
            else rm_ret tt);
      modify_app (set_modal (Some (VerificationModal entries)))
  end.

Definition status_tick {E} : wm E unit :=
  do! now <- instant_now;
  do! now2 <- instant_now;
  run! modify_app (fun a => set_status_bar (tick now now2 (status_bar a)) a);
  tick_notice.
End Application.
