(* ===== verification/ClientMain.v ===== *)
(** * The client process ([crates/client/src/main.rs])

    The name of the user: the command line's, or the one that was saved the
    last time ([load_default_user], [save_default_user]), and the validation
    between them, up to the call of [app::run] ([ClientAppRun.boot]). *)
From stdpp Require Import base numbers list strings.
From Stdlib Require Import Strings.Byte Lia.
From S2P Require Import Prelude Types ClientApp.
Local Open Scope Z_scope.
Local Open Scope cmp_scope.

(** [PathBuf::from(home).join(".cmp").join(".default_user")], by component. *)
Definition default_user_path (home : option string) : list string := [default "." home; ".cmp"; ".default_user"].

(** What becomes of the calls of [save_default_user]: one of them fails, the
    write after some bytes, or all succeed. *)
Inductive SaveOutcome := DirFails | PermissionsFail | OpenFails | WriteFails (written : nat) | SaveOk.

(** The file, [None] when there is none or it is not UTF-8 text.  Opening it
    truncates it. *)
Definition save_default_user (fs : SaveOutcome) (user : string) (file : option string) : option string :=
  match fs with
  | DirFails | PermissionsFail | OpenFails => file
  | WriteFails written => Some (String.string_of_list_byte (take written (str_bytes user)))
  | SaveOk => Some user
  end.

Definition load_default_user (readable : bool) (file : option string) : option string :=
  match (if readable then file else None) with
  | Some s => let s := trim s in if bool_decide (s = "") then None else Some s
  | None => None
  end.

(** [main] up to [app::run]: the user it is run for, and the file. *)
Definition main (cli_user : option string) (readable : bool) (fs : SaveOutcome) (file : option string)
  : result string UserId * option string :=
  match match cli_user with
        | Some u => Ok u
        | None => ok_or "no default user. Run with: cmp --user <username>" (load_default_user readable file)
        end with
  | Err e => (Err e, file)
  | Ok user =>
      match UserId_new user with
      | Err e => (Err e, file)
      | Ok uid => (Ok uid, save_default_user fs user file)
      end
  end.

(** ** Trimming printable text *)

Lemma codes_of_bytes bs :
  Forall (fun c => 0 <= c < 256) bs -> codes (String.string_of_list_byte (byte_of_Z <$> bs)) = bs.
Proof.
  intros Hb. unfold codes, str_bytes. rewrite String.list_byte_of_string_of_list_byte, <- list_fmap_compose.
  induction Hb as [|c bs Hc _ IH]; [done|]. rewrite fmap_cons. cbn [compose]. rewrite Z_of_byte_of_Z, Z.mod_small by done.
  by f_equal.
Qed.
Lemma bytes_of_codes s : String.string_of_list_byte (byte_of_Z <$> codes s) = s.
Proof.
  assert (byte_of_Z <$> codes s = String.list_byte_of_string s) as ->; [|apply String.string_of_list_byte_of_string].
  unfold codes, str_bytes. rewrite <- list_fmap_compose.
  induction (String.list_byte_of_string s) as [|b l IH]; [done|]. rewrite fmap_cons, IH. unfold compose.
  by rewrite byte_of_Z_of_byte.
Qed.

Definition printable (bs : list Z) : Prop := Forall (fun c => printable_ascii c = true) bs.

Lemma printable_range c : printable_ascii c = true -> 32 <= c <= 126.
Proof. unfold printable_ascii. intros [?%Z.leb_le ?%Z.leb_le]%andb_prop. lia. Qed.

(** Of printable text only spaces are stripped. *)
Lemma strip_printable c r :
  printable (c :: r) -> strip_whitespace (c :: r) = if c =? 32 then Some r else None.
Proof.
  intros [Hc%printable_range _]%Forall_cons. unfold strip_whitespace.
  replace (c <=? 13) with false by (symmetry; apply Z.leb_gt; lia). rewrite andb_false_r. cbn [orb].
  destruct (Z.eqb_spec c 32); [done|].
  assert (forall k, 127 <= k -> (c =? k) = false) as Hk by (intros; apply Z.eqb_neq; lia).
  rewrite !Hk by lia. cbn [andb orb]. by destruct r as [|d [|e r]].
Qed.

Lemma strip_to_nothing x : printable x -> strip_whitespace x = Some [] -> x = [32].
Proof.
  destruct x as [|c r]; [done|]. intros Hp. rewrite strip_printable by done.
  destruct (Z.eqb_spec c 32) as [->|]; [by intros [= ->]|done].
Qed.

Lemma strip_end_printable bs c :
  printable (bs ++ [c]) -> strip_whitespace_end (bs ++ [c]) = if c =? 32 then Some bs else None.
Proof.
  intros Hp. unfold strip_whitespace_end.
  assert (length (bs ++ [c]) - 1 = length bs)%nat as Hl by (rewrite length_app; cbn; lia).
  rewrite Hl, drop_app_length, take_app_length.
  rewrite (strip_printable c []) by (by apply Forall_app in Hp as [_ ?]).
  assert (forall j, c <> 32 -> bool_decide (strip_whitespace (drop j (bs ++ [c])) = Some []) = false) as Hk.
  { intros j Hc. apply bool_decide_eq_false_2. intros E%strip_to_nothing; [|by apply Forall_drop].
    pose proof (take_drop j (bs ++ [c])) as Ht. rewrite E in Ht. by apply app_inj_tail in Ht as [_ <-]. }
  destruct (Z.eqb_spec c 32) as [->|Hc].
  - rewrite bool_decide_eq_true_2 by done. by destruct bs.
  - rewrite !Hk by done. rewrite bool_decide_eq_false_2 by done. by destruct bs.
Qed.

(** What [trim] leaves of printable text: the text without outer spaces. *)
Definition no_outer_space (bs : list Z) : Prop := head bs <> Some 32 /\ last bs <> Some 32.

Lemma trim_start_spec n bs :
  printable bs -> (length bs <= n)%nat ->
  exists k, bs = replicate k 32 ++ trim_start n bs /\ head (trim_start n bs) <> Some 32.
Proof.
  revert bs. induction n as [|n IH]; intros bs Hp Hl.
  - destruct bs; [|cbn in Hl; lia]. by exists 0%nat.
  - cbn [trim_start]. destruct bs as [|c r]; [by exists 0%nat|]. rewrite strip_printable by done.
    destruct (Z.eqb_spec c 32) as [->|Hc].
    + apply Forall_cons in Hp as [_ Hp]. destruct (IH r Hp) as (k & E & Hh); [cbn in Hl; lia|].
      exists (S k). split; [|done]. cbn. by f_equal.
    + exists 0%nat. split; [done|]. by intros [=].
Qed.

Lemma trim_end_spec n bs :
  printable bs -> (length bs <= n)%nat ->
  exists k, bs = trim_end n bs ++ replicate k 32 /\ last (trim_end n bs) <> Some 32.
Proof.
  revert bs. induction n as [|n IH]; intros bs Hp Hl.
  - destruct bs; [|cbn in Hl; lia]. by exists 0%nat.
  - cbn [trim_end]. destruct bs as [|c r _] using rev_ind; [by exists 0%nat|]. rewrite strip_end_printable by done.
    destruct (Z.eqb_spec c 32) as [->|Hc].
    + apply Forall_app in Hp as [Hp _]. rewrite length_app in Hl. destruct (IH r Hp) as (k & E & Hh); [cbn in Hl; lia|].
      exists (k + 1)%nat. split; [|done]. rewrite replicate_add, app_assoc. by f_equal.
    + exists 0%nat. split; [by rewrite app_nil_r|]. rewrite last_snoc. by intros [=].
Qed.

Lemma trim_printable s :
  printable (codes s) ->
  exists a b, codes s = replicate a 32 ++ codes (trim s) ++ replicate b 32 /\ no_outer_space (codes (trim s)).
Proof.
  intros Hp. destruct (trim_start_spec (length (codes s)) (codes s) Hp) as (a & Ea & Ha); [done|].
  set (bs := trim_start _ _) in *. assert (printable bs) as Hb by (rewrite Ea in Hp; by apply Forall_app in Hp as [_ ?]).
  destruct (trim_end_spec (length bs) bs Hb) as (b & Eb & Hl); [done|].
  assert (codes (trim s) = trim_end (length bs) bs) as ->.
  { unfold trim. fold bs. apply codes_of_bytes. rewrite Eb in Hb. apply Forall_app in Hb as [Hb _].
    eapply Forall_impl; [exact Hb|]. intros c Hc%printable_range. lia. }
  exists a, b. split; [by rewrite <- Eb|]. split; [|done]. rewrite Eb in Ha. by destruct (trim_end _ _).
Qed.

(** ** The saved name *)

Lemma dotdot_cons c d l :
  contains_dotdot (c :: d :: l) = (c =? 46) && (d =? 46) || contains_dotdot (d :: l).
Proof. done. Qed.

Lemma dotdot_mid p t q : contains_dotdot t = true -> contains_dotdot (p ++ t ++ q) = true.
Proof.
  intros Ht. induction p as [|c p IH]; cbn [app].
  - revert Ht. induction t as [|c t IHt]; [done|]. destruct t as [|d t]; [done|]. cbn [app]. rewrite !dotdot_cons.
    intros [->|Ht]%orb_prop; [done|]. apply orb_true_intro. right. by apply IHt.
  - destruct (p ++ t ++ q) as [|d l] eqn:E; [done|]. rewrite dotdot_cons, IH. apply orb_true_r.
Qed.

(** A valid name without its outer spaces is valid. *)
Lemma trim_valid u : valid_user_id u = true -> valid_user_id (trim u) = true.
Proof.
  unfold valid_user_id. rewrite !andb_true_iff. intros (((((Hl & Hp) & Hs) & H47) & H92) & Hd).
  assert (printable (codes u)) as Hpr by (apply Forall_forall; intros c Hc; rewrite forallb_forall in Hp; by apply Hp, list_elem_of_In).
  destruct (trim_printable u Hpr) as (a & b & E & _). set (t := codes (trim u)) in *.
  rewrite E in *. rewrite !length_app in Hl.
  assert (forall x, contains_code x (replicate a 32 ++ t ++ replicate b 32) = false -> contains_code x t = false) as Hc.
  { intros x Hx. unfold contains_code in *. rewrite !existsb_app in Hx. by apply orb_false_iff in Hx as [_ [? _]%orb_false_iff]. }
  apply negb_true_iff in H47, H92, Hd. apply Z.leb_le in Hl. repeat split.
  - apply Z.leb_le. lia.
  - rewrite !forallb_app in Hp. by apply andb_prop in Hp as [_ [? _]%andb_prop].
  - rewrite !existsb_app in Hs.
    assert (forall n, existsb (fun c => negb (c =? 32)) (replicate n 32) = false) as Hr by (by induction n).
    by rewrite !Hr, orb_false_r in Hs.
  - apply negb_true_iff. by apply Hc.
  - apply negb_true_iff. by apply Hc.
  - apply negb_true_iff. destruct (contains_dotdot t) eqn:Et; [|done]. by rewrite (dotdot_mid _ _ _ Et) in Hd.
Qed.

Lemma trim_same u : valid_user_id u = true -> (trim u = u <-> no_outer_space (codes u)).
Proof.
  intros Hv. assert (printable (codes u)) as Hp.
  { unfold valid_user_id in Hv. rewrite !andb_true_iff in Hv. destruct Hv as (((((_ & Hp) & _) & _) & _) & _).
    apply Forall_forall. intros c Hc. rewrite forallb_forall in Hp. by apply Hp, list_elem_of_In. }
  destruct (trim_printable u Hp) as (a & b & E & Ho). split; [by intros Et; rewrite Et in Ho|].
  intros [Hh Hl]. assert (codes (trim u) = codes u) as Ec.
  { destruct a as [|a]; [|by rewrite E in Hh]. destruct b as [|b]; [by rewrite E, app_nil_r|].
    by rewrite E, replicate_S_end, !app_assoc, last_snoc in Hl. }
  rewrite <- (bytes_of_codes (trim u)), Ec. apply bytes_of_codes.
Qed.

(** C40: The saved name is the name.  A valid name on the command line is accepted
    as it is and an invalid one rejected without touching the file.  After a
    valid name was saved, the next start without a name is accepted and runs
    for the saved name without its outer spaces: for the same user if the name
    neither begins nor ends with a space, and for another one otherwise. *)
Theorem default_user_remembered u readable fs file :
  match UserId_new u with
  | Err e => main (Some u) readable fs file = (Err e, file)
  | Ok uid =>
      main (Some u) readable fs file = (Ok uid, save_default_user fs u file) /\ as_str uid = u
      /\ forall fs', fs = SaveOk ->
         main None true fs' (main (Some u) readable fs file).2
         = (Ok (mkUserId (trim u)), save_default_user fs' (trim u) (Some u))
         /\ (mkUserId (trim u) = uid <-> no_outer_space (codes u))
  end.
Proof.
  destruct (UserId_new u) as [uid|e] eqn:Eu; [|unfold main; by rewrite Eu].
  pose proof Eu as [Hv ->]%UserId_new_valid. split; [unfold main; by rewrite Eu|]. split; [done|]. intros fs' ->.
  assert (UserId_new (trim u) = Ok (mkUserId (trim u))) as Et by (apply UserId_new_valid; split; [by apply trim_valid|done]).
  assert (trim u <> "") as Hn by (intros E; rewrite E in Et; done).
  unfold main. rewrite Eu. cbn [snd save_default_user load_default_user].
  rewrite bool_decide_eq_false_2 by done. cbn [ok_or]. rewrite Et. split; [done|].
  rewrite <- trim_same by done. split; [by intros [= ->]|by intros ->].
Qed.

(** The saved name of [cmp --user " bob"] starts the client for ["bob"], and a
    write that fails half way leaves the name of somebody else. *)
Module MainDemo.
Example outer_space_changes_user :
  (main (Some " bob") true SaveOk None).1 = Ok (mkUserId " bob")
  /\ (main None true SaveOk (main (Some " bob") true SaveOk None).2).1 = Ok (mkUserId "bob").
Proof. vm_compute. split; reflexivity. Qed.
Example torn_write_changes_user :
  (main None true SaveOk (main (Some "alice-smith") true (WriteFails 5) None).2).1 = Ok (mkUserId "alice").
Proof. vm_compute. reflexivity. Qed.
End MainDemo.
