(* ===== verification/ClientInput.v ===== *)
(** * Keyboard ([crates/client/src/input.rs])

    The key and paste handlers of the terminal client. *)
From stdpp Require Import base numbers list strings gmap pretty.
From Stdlib Require Import Strings.Byte.
From S2P Require Import Prelude Consts Types Primitives Keys Ratchet SqlDb ServerWorld CryptoStore CryptoMgr ClientDb Verification ClientApp.
Local Open Scope Z_scope.
Local Open Scope cmp_scope.

(** [crossterm::event::Event] *)
Inductive Event :=
| EPaste (text : string)
| EKey (key : KeyEvent)
| EOther.

Definition usize_add (a b : Z) : Z := saturating_add usize_max a b.

(** [text.replace(['\r', '\n'], "")] *)
Definition strip_newlines (s : string) : string :=
  String.string_of_list_byte (filter (fun b => b <> x0a /\ b <> x0d) (str_bytes s)).

(** The characters of the bindings. *)
Definition ch_c : Z := 99.
Definition ch_d : Z := 100.
Definition ch_j : Z := 106.
Definition ch_n : Z := 110.
Definition ch_q : Z := 113.
Definition ch_v : Z := 118.
Definition ch_x : Z := 120.
Definition ch_y : Z := 121.
Definition ch_question : Z := 63.

Section Input.
Context `{CryptoPrims, Codecs, ClientEnv, TextArea, AppEnv}.

Abbreviation wm E A := (rm World E A).

Definition composer_changed {E} : wm E unit :=
  run! modify_app (set_notice None);
  do! a <- get_app;
  match target_user a with
  | None => rm_ret tt
  | Some target =>
      if bool_decide (as_str target = as_str (user_id a)) || negb (has_session (as_str target) (crypto a))
      then rm_ret tt
      else
      do! now <- instant_now;
      let due := match last_typing_sent a with
                 | None => true
                 | Some sent => secs 3 <? duration_since now sent
                 end in
      if due then run! send (Typing target); modify_app (set_last_typing_sent (Some now))
      else rm_ret tt
  end.

(** [input.f(..)] on the composer; whether the text changed. *)
Definition edit_composer {E} (f : text_area -> bool * text_area) : wm E bool :=
  do! a <- get_app;
  let '(changed, c) := f (composer a) in
  run! modify_app (set_composer c);
  rm_ret changed.

Definition handle_paste {E} (text : string) : wm E unit :=
  do! a <- get_app;
  match modal a with
  | Some (NewChat input) =>
      modify_app (set_modal (Some (NewChat (ta_insert_str (strip_newlines text) input).2)))
  | Some _ => rm_ret tt
  | None =>
      if bool_decide (focus a = Composer) then
        do! changed <- edit_composer (ta_insert_str text);
        if changed then composer_changed else rm_ret tt
      else rm_ret tt
  end.

Definition handle_modal_key {E} (key : KeyEvent) : wm E unit :=
  if bool_decide (code key = KEsc) then modify_app (set_modal None)
  else
  do! a <- get_app;
  match modal a with
  | Some (NewChat input) =>
      if bool_decide (code key = KEnter) && (modifiers key =? MOD_NONE) then
        let target := trim (join "" (ta_lines input)) in
        if bool_decide (target = "") then rm_ret tt
        else
        run! modify_app (set_modal None);
        do! r <- rm_try (open_conversation target);
        match r with
        | Err error => status ("invalid username: " +:+ error)
        | Ok _ => rm_ret tt
        end
      else modify_app (set_modal (Some (NewChat (ta_input key input).2)))
  | Some Help =>
      if bool_decide (code key = KF 1) || bool_decide (code key = KChar ch_question)
      then modify_app (set_modal None) else rm_ret tt
  | Some (VerificationModal _) =>
      if bool_decide (code key = KChar ch_y) then show_verification "confirm"
      else if bool_decide (code key = KChar ch_x) then show_verification "clear"
      else rm_ret tt
  | None => rm_ret tt
  end.

(** [current.saturating_add_signed(offset).min(peers.len().saturating_sub(1))] *)
Definition move_conversation_selection {E} (peers : list string) (offset : Z) : wm E unit :=
  modify_app (fun a =>
    match peers with
    | [] => set_selected_conversation None a
    | _ =>
        let current := default 0%nat (selected_conversation a ≫=
                         (fun selected => position (fun peer => bool_decide (peer = selected)) peers)) in
        let next := Z.min (Z.max 0 (Z.min usize_max (Z.of_nat current + offset)))
                      (saturating_sub (Z.of_nat (length peers)) 1) in
        set_selected_conversation (peers !! Z.to_nat next) a
    end).

Definition sync_conversation_cursor {E} : wm E unit :=
  do! a <- get_app;
  match target_user a with
  | Some active => modify_app (set_selected_conversation (Some (as_str active)))
  | None =>
      do! peers <- conversations;
      modify_app (set_selected_conversation (head peers))
  end.

Definition handle_conversation_key (key : KeyEvent) : wm string unit :=
  do! peers <- conversations;
  match code key with
  | KUp => move_conversation_selection peers (-1)
  | KDown => move_conversation_selection peers 1
  | KEnter =>
      do! a <- get_app;
      match selected_conversation a with
      | Some peer => open_conversation peer
      | None => rm_ret tt
      end
  | KTab | KEsc => modify_app (set_focus Composer)
  | KChar c =>
      if c =? ch_n then modify_app (set_modal (Some (NewChat ta_new_chat)))
      else if c =? ch_question then modify_app (set_modal (Some Help))
      else if c =? ch_v then show_verification "view"
      else if c =? ch_q then modify_app (set_running false)
      else rm_ret tt
  | _ => rm_ret tt
  end.

Definition handle_composer_key {E} (key : KeyEvent) : wm E unit :=
  let newline_typed :=
    run! modify_app (fun a => set_composer (ta_insert_newline (composer a)) a); composer_changed in
  let typed :=
    do! changed <- edit_composer (ta_input key);
    if changed then composer_changed else rm_ret tt in
  match code key with
  | KTab | KEsc => run! modify_app (set_focus Conversations); sync_conversation_cursor
  | KEnter => if modifiers key =? MOD_NONE then handle_enter else newline_typed
  | KChar c => if (c =? ch_j) && (modifiers key =? MOD_CONTROL) then newline_typed else typed
  | _ => typed
  end.

Definition handle_key (key : KeyEvent) : wm string unit :=
  if (bool_decide (code key = KChar ch_c) || bool_decide (code key = KChar ch_d))
     && (modifiers key =? MOD_CONTROL)
  then modify_app (set_running false)
  else
  do! a <- get_app;
  match modal a with
  | Some _ => handle_modal_key key
  | None =>
  if bool_decide (code key = KChar ch_n) && (modifiers key =? MOD_CONTROL)
  then modify_app (set_modal (Some (NewChat ta_new_chat)))
  else if bool_decide (code key = KF 2) then show_verification "view"
  else
  let focused := match focus a with
                 | Conversations => handle_conversation_key key
                 | Composer => handle_composer_key key
                 end in
  match code key with
  | KF n => if n =? 1 then modify_app (set_modal (Some Help)) else focused
  | KPageUp => modify_app (fun a => set_message_scroll (usize_add (message_scroll a) 10) a)
  | KPageDown => modify_app (fun a => set_message_scroll (saturating_sub (message_scroll a) 10) a)
  | KEnd => if modifiers key =? MOD_NONE then modify_app (set_message_scroll 0) else focused
  | _ => focused
  end
  end.

Definition handle_key_event (event : Event) : wm string unit :=
  match event with
  | EPaste text => handle_paste text
  | EKey key => match kind key with Press | Repeat => handle_key key | Release => rm_ret tt end
  | EOther => rm_ret tt
  end.
End Input.
