(* ===== verification/ClientUi.v ===== *)
(** * Screen ([crates/client/src/ui.rs])

    What the renderer changes in the application and what it computes to show:
    the focus on narrow terminals, the scroll position, the conversation list,
    the header, the lines of a chat and the place of a dialog.  Drawing, the
    splitting of the screen and the wrapping of lines are [ratatui]'s: the
    number of rows of the wrapped text and of the visible area are arguments.

    [step] is one turn of the loop of [app::run]. *)
From stdpp Require Import base numbers list strings gmap pretty.
From Stdlib Require Import Strings.Byte.
From S2P Require Import Prelude Consts Types Primitives Keys Ratchet SqlDb ServerWorld CryptoStore CryptoMgr ClientDb Verification ClientApp ClientInput.
Local Open Scope Z_scope.
Local Open Scope cmp_scope.

Definition MIN_WIDTH : Z := 50.
Definition MIN_HEIGHT : Z := 14.
Definition SIDEBAR_BREAKPOINT : Z := 80.
Definition u16_max : Z := 65535.

Inductive Alignment := ALeft | ACenter | ARight.
Record Line := mkLine { line_text : string; line_align : Alignment }.

(** [text.split('\n')] *)
Fixpoint split_lines (s : bytes) : list bytes :=
  match s with
  | [] => [[]]
  | b :: s' =>
      if bool_decide (b = x0a) then [] :: split_lines s'
      else match split_lines s' with
           | g :: gs => (b :: g) :: gs
           | [] => [[b]]
           end
  end.
Definition text_lines (align : Alignment) (text : string) : list Line :=
  (fun g => mkLine (String.string_of_list_byte g) align) <$> split_lines (str_bytes text).

Definition entry_lines (entry : ChatEntry) : list Line :=
  match entry with
  | ESent text => mkLine "You" ARight :: text_lines ARight text
  | EReceived sender text => mkLine sender ALeft :: text_lines ALeft text
  | EStatus text => [mkLine text ACenter]
  | EWarning text => [mkLine ("⚠ " +:+ text) ACenter]
  end.

Definition message_text (history : list ChatEntry) : list Line :=
  fold_left (fun lines entry =>
    (match lines with [] => [] | _ => lines ++ [mkLine "" ALeft] end) ++ entry_lines entry) history [].

Record Rect := mkRect { rect_x : Z; rect_y : Z; rect_width : Z; rect_height : Z }.

Definition centered_rect (area : Rect) (width height : Z) : Rect :=
  let width := Z.min width (saturating_sub (rect_width area) 4) in
  let height := Z.min height (saturating_sub (rect_height area) 2) in
  mkRect (rect_x area + saturating_sub (rect_width area) width / 2)
    (rect_y area + saturating_sub (rect_height area) height / 2) width height.

Definition conversation_suffix (warning verified : bool) (unread : nat) : string :=
  match warning, verified, unread with
  | true, _, O => "  !"
  | true, _, count => "  ! " +:+ pretty (Z.of_nat count)
  | false, true, O => "  ✓"
  | false, true, count => "  ✓ " +:+ pretty (Z.of_nat count)
  | false, false, O => ""
  | false, false, count => "  " +:+ pretty (Z.of_nat count)
  end.

Definition footer (width : Z) (show_sidebar : bool) : string :=
  if width <? 60 then " Ctrl+N new  Enter send  F1 help"
  else if show_sidebar then " Enter send  Shift+Enter newline  PgUp/PgDn scroll  F1 help"
  else " Ctrl+N new  Enter send  Shift+Enter newline  F1 help".

Section Ui.
Context `{CryptoPrims, Codecs, ClientEnv, TextArea, AppEnv}.

Abbreviation wm E A := (rm World E A).

Definition modal_dimensions (a : App) : option (Z * Z) :=
  match modal a with
  | Some (NewChat _) => Some (62, 5)
  | Some Help | Some (VerificationModal _) => Some (62, 16)
  | None => None
  end.

Definition header_text (a : App) : string * string :=
  match target_user a with
  | None => ("No conversation", "Choose or start a conversation")
  | Some target =>
      let peer := as_str target in
      let is_self := bool_decide (peer = as_str (user_id a)) in
      (if is_self then "Note to self" else peer,
       if is_self then "private notes on this device"
       else if bool_decide (is_Some (identity_warnings a !! peer)) then "security alert: identity key changed"
       else if has_session peer (crypto a) then "end-to-end encrypted"
       else "establishing encrypted session")
  end.

(** The rows of the conversation list, and the one selected. *)
Definition conversation_row {E} (peer : string) : wm E (string * string) :=
  do! a <- get_app;
  do! v <- (if db a then db_call (get_verification peer) else rm_ret None);
  let unread := match unread_messages a !! peer with Some l => length l | None => O end in
  let label := if bool_decide (peer = as_str (user_id a)) then "Note to self" else peer in
  rm_ret (label, conversation_suffix (bool_decide (is_Some (identity_warnings a !! peer)))
                   (bool_decide (is_Some v)) unread).
Fixpoint conversation_rows {E} (peers : list string) : wm E (list (string * string)) :=
  match peers with
  | [] => rm_ret []
  | p :: ps => do! r <- conversation_row p; do! rs <- conversation_rows ps; rm_ret (r :: rs)
  end.
Definition render_conversations {E} : wm E (list (string * string) * option nat) :=
  do! peers <- conversations;
  do! rows <- conversation_rows peers;
  do! a <- get_app;
  let selected := default 0%nat (selected_conversation a ≫=
                    (fun selected => position (fun peer => bool_decide (peer = selected)) peers)) in
  rm_ret (rows, if bool_decide (peers = []) then None else Some selected).

(** The first row shown. *)
Definition render_messages (content_rows visible_rows : Z) (a : App) : Z * App :=
  match target_user a with
  | None => (0, set_last_rendered_max_scroll None a)
  | Some _ =>
      let max_scroll := saturating_sub content_rows visible_rows in
      let scroll :=
        match last_rendered_max_scroll a with
        | Some previous_max =>
            if 0 <? message_scroll a
            then usize_add (message_scroll a) (saturating_sub max_scroll previous_max)
            else message_scroll a
        | None => message_scroll a
        end in
      let scroll := Z.min scroll max_scroll in
      (Z.min (saturating_sub max_scroll scroll) u16_max,
       set_last_rendered_max_scroll (Some max_scroll) (set_message_scroll scroll a))
  end.

(** [render] on a terminal of the given size. *)
Definition render {E} (width height content_rows visible_rows : Z) : wm E unit :=
  if (width <? MIN_WIDTH) || (height <? MIN_HEIGHT) then rm_ret tt
  else
  let show_sidebar := SIDEBAR_BREAKPOINT <=? width in
  run! modify_app (fun a => if negb show_sidebar && bool_decide (focus a = Conversations)
                            then set_focus Composer a else a);
  run! (if show_sidebar then run! render_conversations; rm_ret tt else rm_ret tt);
  modify_app (fun a => (render_messages content_rows visible_rows a).2).

(** ** The loop of [app::run] *)

Inductive Input :=
| IRender (width height content_rows visible_rows : Z)
| IEvent (event : Event)
| IApp (event : AppEvent)
| IStatusTick
| ILifecycleTick.

Definition step (i : Input) : wm string unit :=
  match i with
  | IRender w h c v => render w h c v
  | IEvent e => handle_key_event e
  | IApp e => handle_app_event e
  | IStatusTick => status_tick
  | ILifecycleTick => handle_lifecycle_tick
  end.
End Ui.
