(* ===== verification/ClientScreen.v ===== *)
(** * The terminal and the reading position ([crates/client/src/ui.rs])

    Taking over the terminal and giving it back ([init], [restore_terminal],
    [TerminalGuard]): the panic hook and the guard both restore it, and the two
    flags make sure that it happens once.  Then what scrolling means: the rows
    on the screen stay the same while messages arrive below. *)
From stdpp Require Import base numbers list strings gmap.
From S2P Require Import Prelude Types Primitives ServerWorld CryptoStore CryptoMgr ClientApp ClientInput ClientUi.
Local Open Scope Z_scope.
Local Open Scope cmp_scope.

(** ** The terminal *)

(** The modes the client changes. *)
Record TermModes := mkTermModes {
  raw_mode : bool;
  alternate_screen : bool;
  bracketed_paste : bool;
  cursor_hidden : bool;
  keyboard_flags : nat;
}.

Inductive TermCommand :=
| EnterAlternateScreen | LeaveAlternateScreen | EnableBracketedPaste | DisableBracketedPaste | Hide | Show
| PushKeyboardEnhancementFlags | PopKeyboardEnhancementFlags.

Definition apply (c : TermCommand) (t : TermModes) : TermModes :=
  let '(mkTermModes raw alt paste hidden flags) := t in
  match c with
  | EnterAlternateScreen => mkTermModes raw true paste hidden flags
  | LeaveAlternateScreen => mkTermModes raw false paste hidden flags
  | EnableBracketedPaste => mkTermModes raw alt true hidden flags
  | DisableBracketedPaste => mkTermModes raw alt false hidden flags
  | Hide => mkTermModes raw alt paste true flags
  | Show => mkTermModes raw alt paste false flags
  | PushKeyboardEnhancementFlags => mkTermModes raw alt paste hidden (S flags)
  | PopKeyboardEnhancementFlags => mkTermModes raw alt paste hidden (pred flags)
  end.

(** [execute!]: all commands, or an error after the first [k] of them. *)
Definition execute (fails_after : option nat) (cs : list TermCommand) (t : TermModes) : bool * TermModes :=
  let cs' := match fails_after with Some k => take k cs | None => cs end in
  (match fails_after with Some _ => false | None => true end, fold_left (fun t c => apply c t) cs' t).

Definition set_raw (b : bool) (t : TermModes) : TermModes :=
  mkTermModes b (alternate_screen t) (bracketed_paste t) (cursor_hidden t) (keyboard_flags t).

(** With [TERMINAL_ACTIVE] and [KEYBOARD_FLAGS_PUSHED]. *)
Record TermState := mkTermState { modes : TermModes; active : bool; pushed : bool }.

Definition restore_terminal (s : TermState) : TermState :=
  if negb (active s) then s
  else
    let t := set_raw false (modes s) in
    let t := if pushed s then (execute None [PopKeyboardEnhancementFlags] t).2 else t in
    mkTermState (execute None [DisableBracketedPaste; Show; LeaveAlternateScreen] t).2 false false.

(** [init]: raw mode can be refused, the commands can fail part of the way, the
    keyboard flags may not be supported, and the terminal object may not be
    made; an error drops the guard. *)
Definition init (raw_ok : bool) (enter_fails : option nat) (push_ok new_ok : bool) (s : TermState) : bool * TermState :=
  if negb raw_ok then (false, s)
  else
    let s := mkTermState (set_raw true (modes s)) true (pushed s) in
    let '(ok, t) := execute enter_fails [EnterAlternateScreen; EnableBracketedPaste; Hide] (modes s) in
    let s := mkTermState t (active s) (pushed s) in
    if negb ok then (false, restore_terminal s)
    else
      let '(ok, t) := execute (if push_ok then None else Some 0%nat) [PushKeyboardEnhancementFlags] (modes s) in
      let s := mkTermState t (active s) (if ok then true else pushed s) in
      if negb new_ok then (false, restore_terminal s) else (true, s).

(** The state of a terminal the client has not touched. *)
Definition untouched (s : TermState) : Prop :=
  active s = false /\ pushed s = false /\ raw_mode (modes s) = false /\ alternate_screen (modes s) = false
  /\ bracketed_paste (modes s) = false /\ cursor_hidden (modes s) = false.

Lemma restore_idle s : active s = false -> restore_terminal s = s.
Proof. unfold restore_terminal. by intros ->. Qed.

(** The terminal is given back as it was: when [init] fails, at whatever point,
    it has restored the terminal itself; when it succeeds, the first of the
    panic hook and the guard restores it and every further call does nothing,
    also to the modes set by the program that follows. *)
Lemma terminal_restored raw_ok enter_fails push_ok new_ok s :
  untouched s ->
  let '(ok, s') := init raw_ok enter_fails push_ok new_ok s in
  (ok = false -> s' = s)
  /\ (ok = true -> active s' = true /\ forall n, restore_terminal (Nat.iter n restore_terminal s') = s).
Proof.
  destruct s as [[raw alt paste hidden flags] act psh]. intros (Ha & Hp & Hr & Hl & Hb & Hh). cbn in *. subst.
  assert (forall (p : bool) n, restore_terminal (Nat.iter n restore_terminal
      (mkTermState (mkTermModes true true true true (if p then S flags else flags)) true p))
    = mkTermState (mkTermModes false false false false flags) false false) as Hn.
  { intros p n. induction n as [|n IH]; [by destruct p|]. by rewrite Nat.iter_succ, IH. }
  unfold init. destruct raw_ok; cbn; [|done].
  destruct enter_fails as [[|[|[|k]]]|]; cbn; rewrite ?firstn_nil; try done.
  destruct push_ok, new_ok; cbn; try done.
  - split; [done|]. intros _. split; [done|apply (Hn true)].
  - split; [done|]. intros _. split; [done|apply (Hn false)].
Qed.

(** ** The reading position *)

Section Scroll.
Context `{CryptoPrims, Codecs, ClientEnv, TextArea, AppEnv}.

(** Rendering twice: first [rows] rows of text, then [rows'] at least as many, on
    the same screen.  A user who had scrolled up sees the same first row again;
    one who was at the end stays at the end. *)
Lemma reading_position_kept a rows rows' visible u :
  target_user a = Some u -> 0 <= message_scroll a -> rows <= rows' <= u16_max -> 0 <= visible ->
  let '(top, a1) := render_messages rows visible (set_last_rendered_max_scroll None a) in
  let '(top', a2) := render_messages rows' visible a1 in
  (0 < message_scroll a1 -> top' = top)
  /\ (message_scroll a1 = 0 -> message_scroll a2 = 0 /\ top' = saturating_sub rows' visible)
  /\ 0 <= message_scroll a2 <= saturating_sub rows' visible.
Proof.
  intros Hu Hs Hr Hv. unfold render_messages. destruct a. cbn in *. rewrite Hu. cbn.
  unfold saturating_sub, usize_add, saturating_add, usize_max, u64_max, u16_max in *.
  destruct (Z.ltb_spec 0 (Z.min message_scroll (Z.max 0 (rows - visible)))); lia.
Qed.

(** A dialog is inside the area it is drawn on. *)
Lemma dialog_inside area w h :
  0 <= rect_width area -> 0 <= rect_height area -> 0 <= w -> 0 <= h ->
  let r := centered_rect area w h in
  rect_x area <= rect_x r /\ rect_x r + rect_width r <= rect_x area + rect_width area
  /\ rect_y area <= rect_y r /\ rect_y r + rect_height r <= rect_y area + rect_height area
  /\ 0 <= rect_width r <= w /\ 0 <= rect_height r <= h.
Proof.
  intros ???? r. unfold r, centered_rect. cbn. unfold saturating_sub. repeat split; Z.to_euclidean_division_equations; lia.
Qed.
End Scroll.
