(* ===== verification/ClientNet.v ===== *)
(** * The client's network task ([crates/client/src/net.rs])

    Registration, the answer to a login challenge, and the loop that connects,
    authenticates, relays and waits.  The socket is what happens on it: an
    [Attempt] is one turn of the loop as the network plays it, and the
    actions of the task are its result.  JSON is parsed by the codec, so a
    frame is the message it parses to, if any. *)
From stdpp Require Import base numbers list strings gmap.
From S2P Require Import Prelude Consts Types Primitives Keys SqlDb ServerWorld CryptoStore CryptoMgr ClientApp.
Local Open Scope Z_scope.
Local Open Scope cmp_scope.

Section Net.
Context `{CryptoPrims, Codecs, ClientEnv}.

(** ** Registration *)

Definition registration_bundle (identity : IdentityKeyPair) (spk : SignedPreKey) : PreKeyBundle :=
  mkPreKeyBundle (b64_encode (verifying_key identity)) (b64_encode (spk_public spk)) (spk_key_id spk)
    (b64_encode (spk_signature spk)) None.

Definition otk_uploads (opks : list Keys.OneTimePreKey) : list Types.OneTimePreKey :=
  (fun k => Types.mkOneTimePreKey (opk_key_id k) (b64_encode (opk_public k))) <$> opks.

(** [connected] is whether the connection could be made, [server] the answer to
    the message, [None] if it could not be sent or no text frame came back.  An
    answer that does not parse ends, like an unexpected one, in an error and
    changes nothing. *)
Definition register_with_server (user_id : string) (connected : bool)
    (server : ClientMessage -> option ServerMessage) : am unit :=
  do! m <- get_mgr;
  if negb connected then rm_fail StoreFailure
  else
  do! t <- draw;
  let spk := SignedPreKey_generate 0 (identity m) (ce_random t 0) in
  do! t <- draw;
  do! opks <- rm_lift (map_err (fun _ => Bail "pre-key generation")
                (generate_one_time_prekeys 0 PREKEY_TARGET (ce_random t)));
  do! uid <- rm_lift (map_err Bail (UserId_new user_id));
  match server (Register uid (registration_bundle (identity m) spk) (otk_uploads opks)) with
  | Some AuthSuccess => persist_registration_keys spk opks
  | Some (AuthFailure reason) => rm_fail (Bail ("registration rejected: " +:+ reason))
  | Some _ => rm_fail (Bail "unexpected server response during registration")
  | None => rm_fail (Bail "no response from server during registration")
  end.

(** ** Login *)

(** [handle_auth_flow] up to the sending of the response. *)
Definition handle_auth_flow (challenge : option ServerMessage) (identity : IdentityKeyPair)
  : option ClientMessage :=
  match challenge with
  | Some (Challenge nonce timestamp server_id) =>
      match b64_decode nonce with
      | None => None
      | Some nonce_bytes =>
          let signed_data := nonce_bytes ++ be_bytes 8 timestamp ++ str_bytes server_id in
          Some (AuthResponse (b64_encode (ed25519_sign (signing_key identity) signed_data)))
      end
  | _ => None
  end.

(** ** The loop *)

Inductive NetAction :=
| Emit (event : AppEvent)
| Wire (m : ClientMessage)         (* sent to the server *)
| DrainOutgoing                    (* [drain_stale_outgoing] *)
| Sleep (seconds : Z).

(** What happens while relaying. *)
Inductive RelayEvent :=
| RText (msg : option ServerMessage)
| RClosed                          (* a close frame, or the end of the stream *)
| ROther                           (* another frame, or an error *)
| ROut (m : ClientMessage) (sent : bool).

Fixpoint relay_loop (evs : list RelayEvent) : list NetAction :=
  match evs with
  | [] => []
  | RText (Some msg) :: evs' => Emit (EvServer msg) :: relay_loop evs'
  | RText None :: evs' => relay_loop evs'
  | RClosed :: _ => []
  | ROther :: evs' => relay_loop evs'
  | ROut m true :: evs' => Wire m :: relay_loop evs'
  | ROut _ false :: _ => []
  end.

(** One turn of the loop as the network plays it. *)
Inductive Attempt :=
| ConnectFails
| HelloFails                       (* the first message cannot be sent *)
| NoChallenge                      (* no text frame comes back *)
| Challenged (challenge : option ServerMessage) (response_sent : bool)
    (answer : option ServerMessage) (relayed : list RelayEvent).

Definition MAX_BACKOFF : Z := 30.
Definition next_backoff (backoff : Z) : Z := Z.min (backoff * 2) MAX_BACKOFF.

Definition is_auth_success (m : option ServerMessage) : bool :=
  match m with Some AuthSuccess => true | _ => false end.

(** The actions of a turn and the waiting time after it. *)
Definition run_attempt (uid : UserId) (identity : IdentityKeyPair) (a : Attempt) (backoff : Z)
  : list NetAction * Z :=
  let retry event b := [Emit event; Sleep b] in
  match a with
  | ConnectFails => (Emit EvConnecting :: retry EvDisconnected backoff, next_backoff backoff)
  | HelloFails => ([Emit EvConnecting; Emit EvConnected] ++ retry EvDisconnected backoff, next_backoff backoff)
  | NoChallenge =>
      ([Emit EvConnecting; Emit EvConnected; Wire (AuthChallenge uid)]
         ++ retry (EvAuthFailed "challenge-response failed") backoff, next_backoff backoff)
  | Challenged challenge response_sent answer relayed =>
      let hello := [Emit EvConnecting; Emit EvConnected; Wire (AuthChallenge uid)] in
      match handle_auth_flow challenge identity with
      | Some response =>
          if negb response_sent
          then (hello ++ retry (EvAuthFailed "challenge-response failed") backoff, next_backoff backoff)
          else if negb (is_auth_success answer)
          then (hello ++ Wire response :: retry (EvAuthFailed "server rejected authentication") backoff,
                next_backoff backoff)
          else (hello ++ Wire response :: DrainOutgoing :: Emit EvAuthenticated
                  :: relay_loop relayed ++ retry EvDisconnected 1, next_backoff 1)
      | None => (hello ++ retry (EvAuthFailed "challenge-response failed") backoff, next_backoff backoff)
      end
  end.

(** [run]: the attempts in turn, from a waiting time of one second. *)
Fixpoint run_from (uid : UserId) (identity : IdentityKeyPair) (attempts : list Attempt) (backoff : Z)
  : list NetAction * Z :=
  match attempts with
  | [] => ([], backoff)
  | a :: attempts' =>
      let '(acts, b) := run_attempt uid identity a backoff in
      let '(rest, b') := run_from uid identity attempts' b in
      (acts ++ rest, b')
  end.
Definition run (uid : UserId) (identity : IdentityKeyPair) (attempts : list Attempt)
  : list NetAction * Z := run_from uid identity attempts 1.

Definition authenticates (identity : IdentityKeyPair) (a : Attempt) : bool :=
  match a with
  | Challenged challenge sent answer _ =>
      bool_decide (is_Some (handle_auth_flow challenge identity)) && sent && is_auth_success answer
  | _ => false
  end.

(** ** Waiting *)

(** Waits are between one second and the bound, and the application hears of a
    login only after the challenge was answered and stale messages dropped. *)
Definition actions_ok (acts : list NetAction) : Prop :=
  (forall s, Sleep s ∈ acts -> 1 <= s <= MAX_BACKOFF)
  /\ (forall pre post, acts = pre ++ Emit EvAuthenticated :: post ->
        exists pre' sig, pre = pre' ++ [Wire (AuthResponse sig); DrainOutgoing]).

(** [Emit EvAuthenticated] does not occur. *)
Definition no_login (acts : list NetAction) : Prop := Emit EvAuthenticated ∉ acts.

Lemma split_login l1 l2 pre post :
  no_login l1 -> l1 ++ l2 = pre ++ Emit EvAuthenticated :: post ->
  exists pre', pre = l1 ++ pre' /\ l2 = pre' ++ Emit EvAuthenticated :: post.
Proof.
  revert pre. induction l1 as [|x l1 IH]; intros pre Hn E; cbn in E; [by exists pre|].
  apply not_elem_of_cons in Hn as [Hx Hn]. destruct pre as [|y pre]; cbn in E; [by injection E as ->|].
  injection E as -> E. destruct (IH pre Hn E) as (pre' & -> & ->). by exists pre'.
Qed.

Lemma actions_ok_app l1 l2 : actions_ok l1 -> actions_ok l2 -> actions_ok (l1 ++ l2).
Proof.
  intros [S1 A1] [S2 A2]. split; [intros s [?|?]%elem_of_app; auto|]. intros pre post E.
  apply app_eq_app in E as [l [[-> Eq]|[-> Eq]]].
  - destruct l as [|x l]; cbn in Eq.
    + destruct (A2 [] post (eq_sym Eq)) as (pre' & sig & Ep). by destruct pre' as [|? []].
    + injection Eq as <- ->. exact (A1 pre l eq_refl).
  - destruct (A2 l post Eq) as (pre' & sig & ->). exists (l1 ++ pre'), sig. by rewrite app_assoc.
Qed.

Lemma no_login_ok acts :
  no_login acts -> (forall s, Sleep s ∈ acts -> 1 <= s <= MAX_BACKOFF) -> actions_ok acts.
Proof. intros Hn Hs. split; [done|]. intros pre post ->. exfalso. apply Hn. set_solver. Qed.

Lemma relay_quiet evs : no_login (relay_loop evs) /\ forall s, Sleep s ∉ relay_loop evs.
Proof.
  induction evs as [|ev evs [IH1 IH2]]; [split; [apply not_elem_of_nil|intros; apply not_elem_of_nil]|].
  destruct ev as [[msg|]| | |m []]; cbn; unfold no_login in *; (split; [|intros s]);
    first [exact IH1 | apply IH2 | apply not_elem_of_nil
          | apply not_elem_of_cons; split; [done|first [exact IH1|apply IH2]]].
Qed.

Lemma run_attempt_ok uid ik a b :
  1 <= b <= MAX_BACKOFF -> actions_ok (run_attempt uid ik a b).1 /\ 1 <= (run_attempt uid ik a b).2 <= MAX_BACKOFF.
Proof.
  intros Hb. unfold MAX_BACKOFF in *. assert (1 <= next_backoff b <= 30) as Hn by (unfold next_backoff, MAX_BACKOFF; lia).
  destruct a as [| | |ch sent ans rel]; cbn [run_attempt].
  1-3: split; [|exact Hn]; apply no_login_ok; unfold no_login; cbn; rewrite ?not_elem_of_cons; set_solver.
  unfold run_attempt. destruct (handle_auth_flow ch ik) as [r|] eqn:Er.
  2: { split; [|exact Hn]; apply no_login_ok; unfold no_login; cbn; rewrite ?not_elem_of_cons; set_solver. }
  destruct sent; cbn [negb].
  2: { split; [|exact Hn]; apply no_login_ok; unfold no_login; cbn; rewrite ?not_elem_of_cons; set_solver. }
  destruct (is_auth_success ans); cbn [negb].
  2: { split; [|exact Hn]; apply no_login_ok; unfold no_login; cbn; rewrite ?not_elem_of_cons; set_solver. }
  assert (exists sig, r = AuthResponse sig) as [sig ->].
  { unfold handle_auth_flow in Er. repeat case_match; simplify_eq. eauto. }
  destruct (relay_quiet rel) as [R1 R2]. split; [|by unfold next_backoff, MAX_BACKOFF; cbn; lia]. split.
  - intros s Hs. cbn in Hs. rewrite !elem_of_cons, elem_of_app, !elem_of_cons, elem_of_nil in Hs.
    destruct_or! Hs; try done; [by apply R2 in Hs|].
    injection Hs as ->. unfold MAX_BACKOFF. lia.
  - intros pre post E. cbn in E.
    do 5 (destruct pre as [|? pre]; [done|]; cbn in E; injection E as <- E). destruct pre as [|x pre].
    { by exists [Emit EvConnecting; Emit EvConnected; Wire (AuthChallenge uid)], sig. }
    exfalso. cbn in E. injection E as _ E.
    apply split_login in E as (pre' & _ & E); [|done]. destruct pre' as [|? [|? [|? ?]]]; cbn in E; simplify_eq.
Qed.

Lemma run_from_ok uid ik l b : 1 <= b <= MAX_BACKOFF -> actions_ok (run_from uid ik l b).1.
Proof.
  revert b. induction l as [|a l IH]; intros b Hb; cbn [run_from].
  { split; [by intros s Hs%elem_of_nil|]. intros pre post E. by destruct pre. }
  destruct (run_attempt_ok uid ik a b Hb) as [Ha Hb']. destruct (run_attempt uid ik a b) as [acts b1].
  cbn [fst snd] in *. specialize (IH b1 Hb'). destruct (run_from uid ik l b1) as [rest b2]. by apply actions_ok_app.
Qed.

(** ** The waits between attempts *)

(** The starts of attempts and the waits, in order. *)
Definition is_pacing (x : NetAction) : bool :=
  match x with Emit EvConnecting | Sleep _ => true | _ => false end.
Definition pacing (acts : list NetAction) : list NetAction := List.filter is_pacing acts.

Lemma pacing_app l1 l2 : pacing (l1 ++ l2) = pacing l1 ++ pacing l2.
Proof. apply List.filter_app. Qed.

(** One attempt, then one wait, for each of [waits]. *)
Definition paced (waits : list Z) : list NetAction :=
  waits ≫= fun s => [Emit EvConnecting; Sleep s].

Fixpoint waits_from (ik : IdentityKeyPair) (attempts : list Attempt) (backoff : Z) : list Z :=
  match attempts with
  | [] => []
  | a :: attempts' =>
      let b := if authenticates ik a then 1 else backoff in
      b :: waits_from ik attempts' (next_backoff b)
  end.

Lemma relay_unpaced evs : pacing (relay_loop evs) = [].
Proof. by induction evs as [|[[]| | |? []] evs IH]; cbn. Qed.

Lemma attempt_paced uid ik a b :
  let b' := if authenticates ik a then 1 else b in
  pacing (run_attempt uid ik a b).1 = [Emit EvConnecting; Sleep b']
  /\ (run_attempt uid ik a b).2 = next_backoff b'.
Proof.
  destruct a as [| | |ch sent ans rel]; try done. unfold authenticates, run_attempt.
  destruct (handle_auth_flow ch ik) as [r|] eqn:Er; [|by rewrite bool_decide_eq_false_2 by (by intros [])].
  rewrite bool_decide_eq_true_2 by eauto. destruct sent; [|done]. destruct (is_auth_success ans); [|done].
  split; [|done]. pose proof (pacing_app (relay_loop rel) [Emit EvDisconnected; Sleep 1]) as R.
  rewrite relay_unpaced in R. unfold pacing in *. cbn in *. by rewrite R.
Qed.

Lemma run_paced uid ik l b : pacing (run_from uid ik l b).1 = paced (waits_from ik l b).
Proof.
  revert b. induction l as [|a l IH]; intros b; cbn [run_from waits_from]; [done|].
  destruct (attempt_paced uid ik a b) as [E1 E2]. destruct (run_attempt uid ik a b) as [acts b1]. cbn in E1, E2. subst b1.
  specialize (IH (next_backoff (if authenticates ik a then 1 else b))). destruct (run_from _ _ _ _) as [rest b2].
  cbn [fst] in *. rewrite pacing_app. unfold paced in *. cbn [mbind list_bind]. rewrite IH.
  change (pacing acts) with (List.filter is_pacing acts). by rewrite E1.
Qed.

Lemma waits_length ik l b : length (waits_from ik l b) = length l.
Proof. revert b. induction l as [|a l IH]; intros b; cbn; [done|]. by rewrite IH. Qed.

(** The attempts at the positions from [i] to [j] are made and do not
    authenticate. *)
Definition failing (ik : IdentityKeyPair) (l : list Attempt) (i j : nat) : Prop :=
  forall k, (i <= k <= j)%nat -> exists a, l !! k = Some a /\ authenticates ik a = false.

Lemma failing_waits ik l n i :
  0 <= n -> failing ik l 0 i ->
  waits_from ik l (Z.min (2 ^ n) MAX_BACKOFF) !! i = Some (Z.min (2 ^ (n + Z.of_nat i)) MAX_BACKOFF).
Proof.
  revert n i. induction l as [|a l IH]; intros n i Hn Hf; [destruct (Hf 0%nat ltac:(lia)) as (? & ? & _); done|].
  destruct (Hf 0%nat ltac:(lia)) as (a' & [= <-] & Ha). cbn [waits_from]. rewrite Ha.
  destruct i as [|i]; [cbn; by rewrite Z.add_0_r|]. cbn [lookup list_lookup].
  assert (next_backoff (Z.min (2 ^ n) MAX_BACKOFF) = Z.min (2 ^ (n + 1)) MAX_BACKOFF) as ->.
  { unfold next_backoff, MAX_BACKOFF. rewrite Z.pow_add_r by lia. lia. }
  etrans; [apply (IH (n + 1) i ltac:(lia))|do 3 f_equal; lia].
  intros k Hk. exact (Hf (S k) ltac:(lia)).
Qed.

Lemma login_waits ik l b j a :
  l !! j = Some a -> authenticates ik a = true ->
  waits_from ik l b !! j = Some 1
  /\ forall i, (j < i)%nat -> failing ik l (S j) i ->
       waits_from ik l b !! i = Some (Z.min (2 ^ Z.of_nat (i - j)) MAX_BACKOFF).
Proof.
  revert l b. induction j as [|j IH]; intros [|a0 l] b E Ha; try done; cbn [waits_from lookup list_lookup].
  - injection E as ->. rewrite Ha. split; [done|]. intros [|i] Hi Hf; [lia|].
    change (next_backoff 1) with (Z.min (2 ^ 1) MAX_BACKOFF). cbn [lookup list_lookup].
    etrans; [apply (failing_waits ik l 1 i); [lia|]|do 3 f_equal; lia].
    intros k Hk. exact (Hf (S k) ltac:(lia)).
  - destruct (IH l (next_backoff (if authenticates ik a0 then 1 else b)) E Ha) as [I1 I2].
    split; [done|]. intros [|i] Hi Hf; [lia|]. cbn [Nat.sub]. apply I2; [lia|].
    intros k Hk. exact (Hf (S k) ltac:(lia)).
Qed.

(** C38: The connection loop.  Whatever the network does, the loop makes its attempts
    one after the other and waits once after each.  The wait after an attempt
    that authenticated is one second; after [n] attempts in a row that did not,
    it is [min (2^(n-1)) 30] seconds if they are the first of the run and
    [min (2^n) 30] seconds if they follow one that did; so it is between one
    and thirty seconds.  The application is told that it is authenticated only
    after the challenge was answered and the messages left over from the last
    connection were dropped. *)
Theorem reconnects uid ik attempts :
  actions_ok (run uid ik attempts).1
  /\ exists waits, pacing (run uid ik attempts).1 = paced waits /\ length waits = length attempts
     /\ (forall i, failing ik attempts 0 i ->
           waits !! i = Some (Z.min (2 ^ Z.of_nat i) MAX_BACKOFF))
     /\ (forall j a, attempts !! j = Some a -> authenticates ik a = true ->
           waits !! j = Some 1
           /\ forall i, (j < i)%nat -> failing ik attempts (S j) i ->
                waits !! i = Some (Z.min (2 ^ Z.of_nat (i - j)) MAX_BACKOFF)).
Proof.
  split; [apply run_from_ok; unfold MAX_BACKOFF; lia|].
  exists (waits_from ik attempts 1). split; [apply run_paced|]. split; [apply waits_length|].
  split; [|intros j a; apply login_waits].
  intros i Hi. exact (failing_waits ik attempts 0 i ltac:(lia) Hi).
Qed.
End Net.
