(* ===== verification/ClientAppInv.v ===== *)
(** * The invariant of the client application

    [app_inv]: the manager agrees with its file, the message database holds a
    log and a trust state, lists are within their bounds, and whatever the
    client has acknowledged, or will, is [known]: stored in the message
    database, or the id of a read receipt ([R]); and every received message in
    the database is accounted for by [Src].

    [keeps_at w op]: from [w], which satisfies the invariant, [op] ends in a
    world that satisfies it, knows at least as much, and has every message of
    the outbox still there, those aside whose fate the relay has told ([C]). *)
From stdpp Require Import base numbers list strings gmap.
From S2P Require Import Prelude Consts Types Primitives Keys X3dh Ratchet SqlDb ServerWorld CryptoStore CryptoMgr CryptoMgrInv CryptoMgrFacts CryptoMgrRecv CryptoMgrPrekeys CryptoMgrLedger CryptoMgrOutbox CryptoMgrCrash ClientDb Verification ClientApp ClientInput ClientUi.
Local Open Scope Z_scope.
Local Open Scope cmp_scope.

(** ** What an operation returns *)

Definition yields {S E A} (P : A -> Prop) (op : rm S E A) : Prop :=
  forall s a s', op s = (Ok a, s') -> P a.

Section Yields.
Context {S E : Type}.
Lemma yields_ret {A} (P : A -> Prop) a : P a -> yields (S := S) (E := E) P (rm_ret a).
Proof. by intros Ha s b s' [= <- _]. Qed.
Lemma yields_fail {A} (P : A -> Prop) e : yields (S := S) (E := E) P (rm_fail e).
Proof. by intros s b s' [=]. Qed.
Lemma yields_bind {A B} (Q : A -> Prop) (P : B -> Prop) (m : rm S E A) (k : A -> rm S E B) :
  yields Q m -> (forall a, Q a -> yields P (k a)) -> yields P (rm_bind m k).
Proof.
  intros Hm Hk s b s'. unfold rm_bind. destruct (m s) as [[a|e] s1] eqn:Em; [|done].
  apply Hk. by eapply Hm.
Qed.
Lemma yields_any {A} (m : rm S E A) : yields (fun _ => True) m.
Proof. done. Qed.
Lemma yields_try {F A} (P : A -> Prop) (m : rm S F A) :
  yields P m -> yields (E := E) (fun r => forall a, r = Ok a -> P a) (rm_try m).
Proof. intros Hm s r s'. unfold rm_try. destruct (m s) as [r0 s1] eqn:Em. intros [= <- _] a ->. by eapply Hm. Qed.
End Yields.

(** The answers of the inner calls that matter are left to the proof. *)
Ltac yields_step :=
  lazymatch goal with
  | |- yields _ (rm_bind (match _ with _ => _ end) _) => fail
  | |- yields _ (rm_bind (rm_try queue_prekey_replenishment) _) => fail
  | |- yields _ (rm_bind (reconcile_rejected_signed_prekey_rotation _ _ _ _) _) => fail
  | |- yields _ (rm_ret _) => apply yields_ret
  | |- yields _ (rm_fail _) => apply yields_fail
  | |- yields _ (rm_bind _ _) => eapply yields_bind; [apply yields_any|intros ?a _]
  | |- yields _ (match ?x with _ => _ end) => destruct x eqn:?
  end.
Ltac yields_go := repeat (yields_step; cbv beta zeta iota).

Section Answers.
Context `{CryptoPrims, Codecs, ClientEnv}.

Lemma enqueue_yields p undo : yields (fun m => m = to_client_message p) (enqueue_outbound p undo).
Proof. unfold enqueue_outbound. by yields_go. Qed.

Ltac enqueued := intros ?s ?a ?s' Hy; apply enqueue_yields in Hy; subst; cbn; eauto.

Lemma queue_ack_yields l : yields (fun m => exists i, m = Ack i l) (CryptoMgr.queue_ack l).
Proof. unfold CryptoMgr.queue_ack. yields_go. enqueued. Qed.
Lemma queue_receipt_ack_yields l : yields (fun m => exists i, m = AckReadReceipt i l) (CryptoMgr.queue_read_receipt_ack l).
Proof. unfold CryptoMgr.queue_read_receipt_ack. yields_go. enqueued. Qed.
Lemma encrypt_message_yields p r i t : yields (fun m => exists e, m = SendMessage r i e) (encrypt_message p r i t).
Proof. unfold encrypt_message. yields_go. enqueued. Qed.
Lemma encrypt_receipt_yields j p r l : yields (fun m => exists i e, m = SendReadReceipt r i e) (encrypt_read_receipt j p r l).
Proof. unfold encrypt_read_receipt. yields_go. enqueued. Qed.
Lemma replenish_yields : yields (fun m => exists i l, m = UploadPreKeys i l) queue_prekey_replenishment.
Proof.
  unfold queue_prekey_replenishment. yields_go; [|by eauto]. 
  apply find_some in Heqo as [_ Hp]. destruct p; try done. cbn. eauto.
Qed.
Lemma uploaded_yields i a n :
  yields (fun o => forall m, o = Some m -> exists i l, m = UploadPreKeys i l) (confirm_prekeys_uploaded i a n).
Proof.
  unfold confirm_prekeys_uploaded. yields_go; try done.
  eapply (yields_bind (fun o => forall m, o = Some m -> exists i l, m = UploadPreKeys i l)).
  - yields_go; try done. eapply yields_bind; [apply yields_try, replenish_yields|].
    intros r Hr. yields_go. intros m [= <-]. by apply Hr.
  - intros o Ho. yields_go. done.
Qed.
Lemma rotated_yields i a b k :
  yields (fun o => forall m, o = Some m -> exists i k p s, m = RotateSignedPreKey i k p s)
    (confirm_signed_prekey_rotated i a b k).
Proof.
  unfold confirm_signed_prekey_rotated. yields_go; try done.
  eapply (yields_bind (fun m => exists i k p s, m = RotateSignedPreKey i k p s)).
  - unfold reconcile_rejected_signed_prekey_rotation. yields_go. cbn. eauto.
  - intros m Hm. yields_go. by intros m' [= <-].
Qed.
End Answers.

Section Invariant.
Context `{CryptoPrims, Codecs, !CodecLaws, ClientEnv, !KdfLaws, !SignatureLaws, TextArea, AppEnv}.
(** The user, the identity, the ids of the read receipts received, those of the
    sent messages that were accepted or rejected, and what received messages, with
    their ids, may be in the database. *)
Context (uid : UserId) (ik : IdentityKeyPair) (R : string -> Prop) (C : MessageId -> Prop)
  (Src : string * StoredMessage -> Prop).

Definition local_key : string := b64_encode (verifying_key ik).

(** The message with this id is in the database. *)
Definition in_history (d : ClientDb) (i : string) : Prop :=
  exists rows, messages d = Some rows /\ (Some i ∈ row_message_id <$> rows).

Definition known (w : World) (i : string) : Prop := in_history (w_db w) i \/ R i.

(** The database file: new, interrupted between the two migrations, or current. *)
Definition file_ok (d : ClientDb) : Prop :=
  d = empty_client_db \/ d = mkClientDb 1 (Some []) 0 None None
  \/ exists log tr, db_ok (as_str uid) local_key log tr d.

Definition unread_bounded (a : App) : Prop :=
  forall p l, unread_messages a !! p = Some l -> Z.of_nat (length l) <= MAX_RECEIPT_BATCH.

Definition sourced (log : list (string * StoredMessage)) : Prop :=
  forall e, e ∈ log -> sm_direction e.2 = DirReceived -> Src e.

Record app_inv (w : World) : Prop := {
  ai_client : client_inv (mkClient (crypto (w_app w)) (w_disk w, w_tick w));
  ai_identity : identity (crypto (w_app w)) = ik;
  ai_user : user_id (w_app w) = uid;
  ai_file : file_ok (w_db w);
  ai_db : db (w_app w) = true -> exists log tr, db_ok (as_str uid) local_key log tr (w_db w);
  ai_ledger : ledger_ok (known w) (crypto (w_app w));
  ai_rows : rows_ok (known w) (w_disk w);
  ai_acks : forall i ids x, Ack i ids ∈ w_out w -> x ∈ ids -> known w (uuid_to_string x);
  ai_unread : unread_bounded (w_app w);
  ai_pending : Z.of_nat (length (pending_msg_ids (w_app w))) <= MAX_PENDING_MSG_IDS;
  ai_source : forall log, history_ok log (w_db w) -> sourced log;
}.

(** A message that the relay has neither accepted nor rejected. *)
Definition unsettled (p : PendingOutbound) : Prop := is_outgoing p = true /\ ~ C (item_id p).

(** What is known stays known, the mode of the database does not change, and
    unsettled messages stay in the outbox. *)
Definition ext (w w' : World) : Prop :=
  (forall i, known w i -> known w' i) /\ db (w_app w') = db (w_app w)
  /\ forall p, unsettled p -> in_outbox p (crypto (w_app w)) -> in_outbox p (crypto (w_app w')).

Lemma ext_refl w : ext w w.
Proof. done. Qed.
Lemma ext_trans w1 w2 w3 : ext w1 w2 -> ext w2 w3 -> ext w1 w3.
Proof. intros (K1 & D1 & O1) (K2 & D2 & O2). split; [auto|]. split; [congruence|auto]. Qed.
Lemma ext_same w w' :
  (forall i, known w i -> known w' i) -> db (w_app w') = db (w_app w) -> crypto (w_app w') = crypto (w_app w) ->
  ext w w'.
Proof. intros Hk Hd Hc. split; [done|]. split; [done|]. intros p _. by rewrite Hc. Qed.

Definition keeps_at {E A} (w : World) (op : rm World E A) : Prop :=
  app_inv w -> app_inv (op w).2 /\ ext w (op w).2.
Definition keepsw {E A} (op : rm World E A) : Prop := forall w, keeps_at w op.

Lemma kw_ret {E A} (a : A) : keepsw (E := E) (rm_ret a).
Proof. by intros w I. Qed.
Lemma kw_fail {E A} (e : E) : keepsw (A := A) (rm_fail e).
Proof. by intros w I. Qed.
Lemma kw_lift {E A} (r : result E A) : keepsw (rm_lift r).
Proof. by intros w I. Qed.

Lemma kw_bind_at {E A B} w (m : rm World E A) (k : A -> rm World E B) :
  keeps_at w m ->
  (forall a w', m w = (Ok a, w') -> app_inv w -> app_inv w' -> ext w w' -> keeps_at w' (k a)) ->
  keeps_at w (rm_bind m k).
Proof.
  intros Hm Hk I. destruct (Hm I) as [I1 X1]. unfold rm_bind.
  destruct (m w) as [[a|e] w1] eqn:E1; [|done]. cbn in *.
  destruct (Hk a w1 eq_refl I I1 X1 I1) as [I2 X2]. split; [done|]. by eapply ext_trans.
Qed.
Lemma kw_bind {E A B} (m : rm World E A) (k : A -> rm World E B) :
  keepsw m -> (forall a, keepsw (k a)) -> keepsw (rm_bind m k).
Proof. intros Hm Hk w. apply kw_bind_at; [apply Hm|]. intros a w' _ _ _ _. apply Hk. Qed.
(** The application as read is the one of the moment. *)
Lemma kw_get {E B} (k : App -> rm World E B) :
  (forall w, keeps_at w (k (w_app w))) -> keepsw (rm_bind get_app k).
Proof. intros Hk w. apply Hk. Qed.
Lemma kw_try {E F A} (op : rm World E A) : keepsw op -> keepsw (E := F) (rm_try op).
Proof. intros Ho w I. unfold rm_try. destruct (Ho w I). by destruct (op w). Qed.

(** The parts of the application the invariant is about. *)
Definition core_of (a : App) := (user_id a, crypto a, db a, unread_messages a, pending_msg_ids a).

Lemma inv_app w a :
  core_of a = core_of (w_app w) -> app_inv w ->
  app_inv (mkWorld _ a (w_disk w) (w_db w) (w_tick w) (w_out w))
  /\ ext w (mkWorld _ a (w_disk w) (w_db w) (w_tick w) (w_out w)).
Proof.
  unfold core_of. intros [= Eu Ec Ed Er Ep] []. split; [|by apply ext_same].
  unfold unread_bounded in *. split; cbn; unfold unread_bounded; rewrite ?Eu, ?Ec, ?Ed, ?Er, ?Ep; done.
Qed.

Lemma kw_modify {E} f : (forall a, core_of (f a) = core_of a) -> keepsw (E := E) (modify_app f).
Proof. intros Hf w I. by apply inv_app. Qed.

(** The bounded lists. *)
Lemma kw_modify_lists_at {E} w f :
  (let a := w_app w in (user_id (f a), crypto (f a), db (f a)) = (user_id a, crypto a, db a)) ->
  (unread_bounded (w_app w) -> unread_bounded (f (w_app w))) ->
  (Z.of_nat (length (pending_msg_ids (w_app w))) <= MAX_PENDING_MSG_IDS ->
     Z.of_nat (length (pending_msg_ids (f (w_app w)))) <= MAX_PENDING_MSG_IDS) ->
  keeps_at (E := E) w (modify_app f).
Proof.
  intros Hf Hu Hp []. injection Hf as Eu Ec Ed. split; [|by apply ext_same].
  split; cbn; rewrite ?Eu, ?Ec, ?Ed; try done; [by apply Hu|by apply Hp].
Qed.

Lemma inv_tick w t :
  (w_tick w <= t)%nat -> app_inv w ->
  app_inv (mkWorld _ (w_app w) (w_disk w) (w_db w) t (w_out w)).
Proof. intros Ht []. split; cbn; try done. by eapply inv_keep. Qed.

Lemma kw_instant {E} : keepsw (E := E) instant_now.
Proof. intros w I. split; [|done]. apply inv_tick; [lia|done]. Qed.

Lemma kw_send_at {E} w m :
  (forall i ids x, m = Ack i ids -> x ∈ ids -> known w (uuid_to_string x)) -> keeps_at (E := E) w (send m).
Proof.
  intros Hm I. split; [|done]. destruct I. split; cbn; try done.
  intros i ids x [Hi|Hi]%elem_of_app Hx; [by eapply ai_acks0|].
  apply list_elem_of_singleton in Hi as <-. by eapply Hm.
Qed.

Definition is_ack_message (m : ClientMessage) : bool := match m with Ack _ _ => true | _ => false end.

Lemma kw_send {E} m : is_ack_message m = false -> keepsw (E := E) (send m).
Proof. intros Hm w. apply kw_send_at. by intros i ids x ->. Qed.

(** ** Calls *)

(** The manager call keeps agreement with its file, the ledger, and the
    unsettled messages of the outbox. *)
Definition manager_ok {E A} (w : World) (op : rm Client E A) : Prop :=
  (forall c, client_inv c -> client_inv (op c).2 /\ identity (c_mgr (op c).2) = identity (c_mgr c))
  /\ preserves (ledger_ok (known w)) (rows_ok (known w)) op
  /\ forall p, unsettled p -> stays p op.

Lemma kw_crypto {E A} w (op : rm Client E A) : manager_ok w op -> keeps_at w (crypto_call op).
Proof.
  intros (Hs & Hl & Ho) I. unfold crypto_call. set (c := mkClient _ _). specialize (Hs c (ai_client w I)).
  assert (forall p, unsettled p -> in_outbox p (c_mgr c) -> in_outbox p (c_mgr (op c).2)) as Hp.
  { intros p Hp Hin. by apply (Ho p Hp c). }
  specialize (Hl c (ai_ledger w I) (ai_rows w I)). destruct (op c) as [r [m [d t]]]. cbn in *.
  destruct I, Hs, Hl. split; [|done]. split; cbn; try done. congruence.
Qed.

Lemma manager_of_safe {E A} w (op : rm Client E A) :
  op_safe op -> (forall K, preserves (ledger_ok K) (rows_ok K) op) -> (forall p, unsettled p -> stays p op) ->
  manager_ok w op.
Proof. intros Hs Hl Ho. split; [|done]. intros c I. by destruct (Hs c I) as (? & ? & _). Qed.

(** A call of the database keeps it a log with a trust state, and keeps the
    messages. *)
Definition database_ok {E A} (op : rm (ClientDb * nat) E A) : Prop :=
  forall log tr d t, db_ok (as_str uid) local_key log tr d ->
  exists new tr', db_ok (as_str uid) local_key (log ++ new) tr' (op (d, t)).2.1 /\ (t <= (op (d, t)).2.2)%nat
    /\ sourced new.

Lemma in_history_log log tr d i :
  db_ok (as_str uid) local_key log tr d -> in_history d i <-> i ∈ log.*1.
Proof.
  intros ((rows & Er & Hrows & _) & _). unfold in_history. rewrite Er.
  pose proof (row_ids _ _ Hrows) as Hi. split.
  - intros (rows' & [= <-] & Hin). rewrite Hi in Hin. apply list_elem_of_fmap in Hin as (? & [= ->] & ?). done.
  - intros Hin. exists rows. split; [done|]. rewrite Hi. by apply list_elem_of_fmap_2.
Qed.

Lemma inv_database w d t :
  (exists log tr, db_ok (as_str uid) local_key log tr d /\ sourced log) -> (forall i, in_history (w_db w) i -> in_history d i) ->
  (w_tick w <= t)%nat -> app_inv w ->
  app_inv (mkWorld _ (w_app w) (w_disk w) d t (w_out w))
  /\ ext w (mkWorld _ (w_app w) (w_disk w) d t (w_out w)).
Proof.
  intros (log & tr & Hd & Hsrc) Hh Ht I.
  assert (forall i, known w i -> known (mkWorld _ (w_app w) (w_disk w) d t (w_out w)) i) as Hk.
  { intros i [Hi|Hi]; [left; by apply Hh|by right]. }
  split; [|done]. destruct I. split; cbn; try done.
  - by eapply inv_keep.
  - right; right. by exists log, tr.
  - intros _. by exists log, tr.
  - destruct ai_ledger0 as [Ha Hs]. split.
    + intros i ids x Hi Hx. apply Hk. by eapply Ha.
    + intros p i r Hi Hr. apply Hk. by eapply Hs.
  - intros p i r Hi Hr. apply Hk. by eapply ai_rows0.
  - intros i ids x Hi Hx. apply Hk. by eapply ai_acks0.
  - intros log' Hl'. by rewrite (history_functional log' log d Hl' (proj1 Hd)).
Qed.

Lemma kw_database {E A} w (op : rm (ClientDb * nat) E A) :
  database_ok op -> db (w_app w) = true -> keeps_at w (db_call op).
Proof.
  intros Ho Hd I. destruct (ai_db w I Hd) as (log & tr & Hok). unfold db_call.
  destruct (Ho log tr (w_db w) (w_tick w) Hok) as (new & tr' & Hok' & Ht & Hn).
  destruct (op (w_db w, w_tick w)) as [r [d t]]. cbn in *.
  pose proof (ai_source w I log (proj1 Hok)) as Hs.
  apply inv_database; [exists (log ++ new), tr'; split; [done|]; intros e [He|He]%elem_of_app; auto| |done|done].
  intros i. rewrite (in_history_log _ _ _ _ Hok), (in_history_log _ _ _ _ Hok'). rewrite fmap_app. set_solver.
Qed.

(** *** The database *)

Lemma database_exec {E A} (op : rm (ClientDb * nat) E A) o :
  (forall s, (op s).2 = (db_exec (as_str uid) local_key o s).2) ->
  (forall s, sourced (db_exec (as_str uid) local_key o s).1) -> database_ok op.
Proof.
  intros Eo Hso log tr d t Hok. specialize (Hso (d, t)). pose proof (db_exec_ok _ _ log tr d t o Hok) as Hx. rewrite Eo.
  destruct (db_exec _ _ o (d, t)) as [new s']. destruct Hx as (tr' & Hok' & Ht & _). by exists new, tr'.
Qed.

Lemma database_stmt {A} (f : ClientDb -> option (A * ClientDb)) :
  (forall d a d', f d = Some (a, d') -> d' = d) -> database_ok (stmt f).
Proof.
  intros Hf log tr d t Hok. exists [], tr. rewrite app_nil_r.
  destruct (stmt_cases f d t) as [->|(x & d' & _ & Ex & ->)]; cbn; (split; [|split; [lia|by intros ? ?%elem_of_nil]]); [done|].
  by rewrite (Hf _ _ _ Ex).
Qed.

Lemma load_recent_database p : database_ok (load_recent_messages p).
Proof. apply database_stmt. intros d x d' Hx. by simplify_option_eq. Qed.
Lemma list_peers_database : database_ok list_conversation_peers.
Proof. apply database_stmt. intros d x d' Hx. by simplify_option_eq. Qed.
Lemma get_verification_database {E} p : database_ok (get_verification (E := E) p).
Proof.
  intros log tr d t Hok. pose proof Hok as (_ & (_ & _ & v & Ev & _) & _).
  rewrite (get_verification_spec p v d t Ev). exists [], tr. rewrite app_nil_r. split; [done|]. split; [cbn; lia|by intros ? ?%elem_of_nil].
Qed.
Lemma insert_database p dir i b :
  (dir = DirReceived -> Src (i, mkStored p dir b)) -> database_ok (insert_message p dir i b).
Proof.
  intros Hs. apply (database_exec _ (DInsert p dir i b)); intros s0; unfold db_exec; [by destruct (insert_message p dir i b s0)|].
  destruct (insert_message p dir i b s0) as [[[]|] s1]; intros x He; cbn in He; try (by apply elem_of_nil in He).
  apply list_elem_of_singleton in He as ->. exact Hs.
Qed.

(** The error type of a call that never fails does not matter. *)
Lemma check_peer_any {E} p k s0 :
  (check_peer_identity (E := E) p k s0).2 = (check_peer_identity (E := Empty_set) p k s0).2.
Proof.
  unfold check_peer_identity, rm_bind, rm_try. destruct (is_err _); [done|].
  by destruct (store_peer_identity_key p k s0).
Qed.
Lemma check_peer_database {E} p k : database_ok (check_peer_identity (E := E) p k).
Proof. apply (database_exec _ (DSee p k)); intros s0; [apply check_peer_any|by intros ? ?%elem_of_nil]. Qed.

Lemma handle_action_any {E} u l p x c s0 :
  (handle_action (E := E) u l p x c s0).2 = (handle_action (E := Empty_set) u l p x c s0).2.
Proof.
  unfold handle_action, clear_verification, confirm_verification, format_verify_output, get_verification,
    rm_bind, rm_try, rm_ok, rm_ret, rm_try, rm_bind.
  repeat match goal with
    |- context [bool_decide ?b] => destruct (bool_decide b)
    end; destruct c; cbn; try done;
  repeat match goal with |- context [match ?m ?x with _ => _ end] => destruct (m x) as [[]?] eqn:? end; try done.
Qed.
Lemma handle_action_database {E} p x : database_ok (handle_action (E := E) (as_str uid) local_key p x true).
Proof. apply (database_exec _ (DAction p x)); intros s0; [apply handle_action_any|by intros ? ?%elem_of_nil]. Qed.

(** *** The manager *)

Lemma manager_new_id w {E} : manager_ok w (new_message_id (E := E)).
Proof.
  split; [|split; [apply pres_new_id|intros; apply new_id_stays]].
  intros [m [d t]] I. split; [|done]. by eapply inv_keep; [exact I|done|done|cbn; lia].
Qed.
Lemma manager_add_pending w p {E} : manager_ok w (add_pending p (E := E)).
Proof. split; [|split; [apply add_pending_ledger|intros; apply add_pending_stays]]. intros [m io] I. split; [by apply inv_pending_inits|done]. Qed.

Lemma manager_init w p b : valid_peer p -> manager_ok w (init_session_from_bundle p b).
Proof. intros Hp. apply manager_of_safe; [by apply init_session_safe|intros; apply init_session_ledger|intros ? [? _]; by apply init_session_stays]. Qed.
Lemma manager_expire w p : manager_ok w (expire_stale_prekey_session p).
Proof. apply manager_of_safe; [apply expire_stale_safe|intros; apply expire_ledger|intros ? [? _]; by apply expire_stays]. Qed.
Lemma manager_encrypt w p r i t : manager_ok w (encrypt_message p r i t).
Proof. apply manager_of_safe; [apply encrypt_message_safe|intros; apply encrypt_message_ledger|intros ? [? _]; by apply encrypt_message_stays]. Qed.
Lemma manager_receipt w j p r l : manager_ok w (encrypt_read_receipt j p r l).
Proof. apply manager_of_safe; [apply encrypt_read_receipt_safe|intros; apply encrypt_receipt_ledger|intros ? [? _]; by apply encrypt_receipt_stays]. Qed.
Lemma manager_receipt_ack w l : manager_ok w (CryptoMgr.queue_read_receipt_ack l).
Proof. apply manager_of_safe; [apply queue_read_receipt_ack_safe|intros; apply queue_receipt_ack_ledger|intros ? [? _]; by apply queue_receipt_ack_stays]. Qed.
Lemma manager_sent w i : C i -> manager_ok w (confirm_message_sent i).
Proof.
  intros Hi. apply manager_of_safe; [apply confirm_message_sent_safe|intros; apply confirm_message_sent_ledger|].
  intros q [_ Hc]. apply confirm_message_sent_stays. by intros <-.
Qed.
Lemma manager_receipt_sent w i : manager_ok w (confirm_read_receipt_sent i).
Proof. apply manager_of_safe; [apply confirm_read_receipt_sent_safe|intros; apply confirm_receipt_sent_ledger|intros ? [? _]; by apply confirm_receipt_sent_stays]. Qed.
Lemma manager_reject w i : C i -> manager_ok w (reject_message i).
Proof.
  intros Hi. apply manager_of_safe; [apply reject_message_safe|intros; apply reject_ledger|].
  intros q [_ Hc]. apply reject_stays. by intros <-.
Qed.
Lemma manager_acked w i l : manager_ok w (confirm_acked i l).
Proof. apply manager_of_safe; [apply confirm_acked_safe|intros; apply confirm_acked_ledger|intros ? [? _]; by apply confirm_acked_stays]. Qed.
Lemma manager_rotation w : manager_ok w CryptoMgr.queue_signed_prekey_rotation.
Proof. apply manager_of_safe; [apply queue_signed_prekey_rotation_safe|intros; apply rotation_ledger|intros ? [? _]; by apply rotation_stays]. Qed.
Lemma manager_rotated w i a b k : manager_ok w (confirm_signed_prekey_rotated i a b k).
Proof. apply manager_of_safe; [apply confirm_signed_prekey_rotated_safe|intros; apply rotated_ledger|intros ? [? _]; by apply rotated_stays]. Qed.
Lemma manager_replenish w : manager_ok w queue_prekey_replenishment.
Proof. apply manager_of_safe; [apply queue_prekey_replenishment_safe|intros; apply replenish_ledger|intros ? [? _]; by apply replenish_stays]. Qed.
Lemma manager_uploaded w i a n : manager_ok w (confirm_prekeys_uploaded i a n).
Proof.
  split; [|split; [apply uploaded_ledger|intros ? [? _]; by apply uploaded_stays]]. intros c I.
  by destruct (confirm_prekeys_uploaded_safe i a n c I) as (? & ? & _).
Qed.
Lemma manager_queue_ack w l :
  (forall x, x ∈ l -> known w (uuid_to_string x)) -> manager_ok w (CryptoMgr.queue_ack l).
Proof.
  intros Hl. split; [|split; [by apply queue_ack_ledger|intros; apply queue_ack_stays]]. intros c I. by destruct (queue_ack_safe l c I) as (? & ? & _).
Qed.
Lemma manager_stored w p i : known w (uuid_to_string i) -> manager_ok w (confirm_inbound_stored p i).
Proof.
  intros Hi. split; [|split; [by apply confirm_stored_ledger|intros; apply confirm_stored_stays]]. intros c I.
  by destruct (confirm_inbound_stored_safe p i c I) as (? & ? & _).
Qed.
Lemma manager_decrypt w p i e {E} :
  valid_peer p -> envelope_u32 e -> manager_ok w (decrypt_message_to_text p i e (E := E)).
Proof.
  intros Hp Hu. split; [|split; [apply decrypt_ledger|intros; apply decrypt_stays]]. intros c I.
  destruct (decrypt_message_to_text_spec (E := E) p i e c I Hp Hu) as (r & c' & -> & I' & Ei & _). done.
Qed.

(** ** The handlers keep the invariant *)

Lemma kw_get_at {E B} w (k : App -> rm World E B) :
  keeps_at w (k (w_app w)) -> keeps_at w (rm_bind get_app k).
Proof. done. Qed.
Lemma kw_try_at {E F A} w (op : rm World E A) : keeps_at w op -> keeps_at (E := F) w (rm_try op).
Proof. intros Ho I. unfold rm_try. destruct (Ho I). by destruct (op w). Qed.

Ltac kw_step :=
  lazymatch goal with
  | |- keepsw _ => intros ?w
  | |- keeps_at _ (rm_ret _) => apply kw_ret
  | |- keeps_at _ (rm_fail _) => apply kw_fail
  | |- keeps_at _ (rm_lift _) => apply kw_lift
  | |- keeps_at _ (rm_bind get_app _) => apply kw_get_at
  | |- keeps_at _ (rm_bind _ _) => apply kw_bind_at; [|intros ?a ?w ?Ew ?I0 ?I ?X]
  | |- keeps_at _ (rm_try _) => apply kw_try_at
  | |- keeps_at _ instant_now => apply kw_instant
  | |- keeps_at _ (modify_app _) => apply kw_modify; intros ?a; reflexivity
  | |- keeps_at _ (match ?x with _ => _ end) => destruct x eqn:?
  end.
Ltac kw_go := repeat (kw_step; cbv beta zeta iota).

(** The database is open: it was when the application was read. *)
Ltac db_open :=
  repeat match goal with X : ext _ _ |- _ => destruct X as (_ & X & _) end; congruence.

Lemma kw_status {E} text : keepsw (E := E) (status text).
Proof. unfold status. kw_go. Qed.
Lemma kw_push {E} e : keepsw (E := E) (push_entry e).
Proof. unfold push_entry. kw_go. Qed.
Lemma kw_clear {E} : keepsw (E := E) clear_input.
Proof. unfold clear_input. kw_go. Qed.
Lemma kw_tick_notice {E} : keepsw (E := E) tick_notice.
Proof. unfold tick_notice. kw_go. Qed.
Lemma kw_rm_ok {E F A} w (op : rm World E A) : keeps_at w op -> keeps_at (E := F) w (rm_ok op).
Proof. intros Ho. unfold rm_ok. kw_go. done. Qed.

Lemma kw_load_history {E} p : keepsw (E := E) (load_chat_history p).
Proof. unfold load_chat_history. kw_go. apply kw_database; [apply load_recent_database|done]. Qed.
Lemma kw_conversations {E} : keepsw (E := E) conversations.
Proof.
  unfold conversations. kw_go. apply kw_rm_ok, kw_database; [apply list_peers_database|done].
Qed.
Lemma kw_persist p dir i b :
  (dir = DirReceived -> Src (i, mkStored p dir b)) -> keepsw (persist_message p dir i b).
Proof. intros Hs. unfold persist_message. kw_go. apply kw_database; [by apply insert_database|done]. Qed.
Lemma kw_track {E} p k : keepsw (E := E) (track_peer_identity p k).
Proof.
  unfold track_peer_identity. kw_go; try apply kw_push; try apply kw_status.
  apply kw_database; [apply check_peer_database|done].
Qed.

(** A stored message is in the history. *)
Lemma persist_in_history p dir i b w r w' :
  app_inv w -> persist_message p dir i b w = (Ok r, w') -> in_history (w_db w') i.
Proof.
  intros I. unfold persist_message, rm_bind. cbn. destruct (db (w_app w)) eqn:Hd; [|done].
  destruct (ai_db w I Hd) as (log & tr & Hok). pose proof Hok as (Hh & _).
  unfold db_call. destruct (insert_message_log log (w_db w) (w_tick w) p dir i b Hh)
    as [(d' & -> & _ & (rows & Er & Hrows & _) & _)|[[-> Hi]|[-> _]]]; [| |done]; intros [= _ <-]; cbn.
  - exists rows. split; [done|]. rewrite (row_ids _ _ Hrows), fmap_app. set_solver.
  - by apply (in_history_log log tr).
Qed.

Lemma persist_known p dir i b w r w' :
  app_inv w -> persist_message p dir i b w = (Ok r, w') -> known w' i.
Proof. intros I Ep. left. by eapply persist_in_history. Qed.

(** What is in the ledger as stored is known. *)
Lemma duplicate_known p i e {E} w w' :
  app_inv w -> crypto_call (decrypt_message_to_text p i e (E := E)) w = (Ok Duplicate, w') ->
  known w (uuid_to_string i).
Proof.
  intros I. unfold crypto_call. set (c := mkClient _ _).
  destruct (decrypt_message_to_text p i e c) as [r c'] eqn:Ed. intros [= -> _].
  revert Ed. unfold decrypt_message_to_text. destruct (negb _); [done|]. unfold rm_bind, get_mgr.
  destruct (lookup_processed p _ _) as [[[x|] ts]|] eqn:Hl.
  - done.
  - intros _. by eapply (ai_ledger w I).
  - unfold rm_try, rm_ret. destruct (decrypt_with_marker _ _ _ _) as [[] ?]; done.
Qed.

(** What a manager call answers. *)
Lemma crypto_call_yields {E A} (P : A -> Prop) (op : rm Client E A) : yields P op -> yields P (crypto_call op).
Proof. intros Ho w r w'. unfold crypto_call. destruct (op _) as [r0 c] eqn:Eo. intros [= -> _]. by eapply Ho. Qed.

Lemma try_answer {E F A} (P : A -> Prop) (op : rm Client E A) w r w' :
  yields P op -> rm_try (F := F) (crypto_call op) w = (Ok r, w') -> forall a, r = Ok a -> P a.
Proof. intros Ho. by eapply yields_try, crypto_call_yields. Qed.

(** Discharge a send by what the call before it answered. *)
Ltac answered L :=
  match goal with Ew : rm_try (crypto_call _) _ = (Ok ?r, _) |- _ =>
    let Ha := fresh "Ha" in pose proof (try_answer _ _ _ _ _ L Ew) as Ha; cbv beta in Ha;
    try (specialize (Ha _ eq_refl)); naive_solver end.
Ltac answered_send L := apply kw_send; answered L.

Lemma kw_queue_ack {E} w l :
  (forall x, x ∈ l -> known w (uuid_to_string x)) -> keeps_at (E := E) w (queue_ack l).
Proof.
  intros Hl. unfold queue_ack. kw_go; [by apply kw_crypto, manager_queue_ack|].
  destruct (try_answer _ _ _ _ _ (queue_ack_yields l) Ew _ eq_refl) as [i ->].
  apply kw_send_at. intros i' ids x [= <- <-] Hx. by apply X, Hl.
Qed.
Lemma kw_queue_receipt_ack {E} l : keepsw (E := E) (queue_read_receipt_ack l).
Proof.
  unfold queue_read_receipt_ack. kw_go; [apply kw_crypto, manager_receipt_ack|].
  answered_send (queue_receipt_ack_yields l).
Qed.

(** A committed message is known. *)
Lemma kw_commit inb sender text :
  Src (uuid_to_string (im_message_id inb), mkStored sender DirReceived text) ->
  keepsw (commit_pending_inbound inb sender text)
  /\ forall w r w', app_inv w -> commit_pending_inbound inb sender text w = (Ok r, w') ->
       known w' (uuid_to_string (im_message_id inb)).
Proof.
  intros Hs. split.
  - unfold commit_pending_inbound. kw_go; [by apply kw_persist|]. apply kw_crypto, manager_stored.
    eapply persist_known; [exact I0|exact Ew].
  - intros w r w' I. unfold commit_pending_inbound, rm_bind.
    destruct (persist_message _ _ _ _ w) as [[x|] w1] eqn:Ep; [|done].
    assert (known w1 (uuid_to_string (im_message_id inb))) as Hk by by eapply persist_known.
    assert (app_inv w1) as I1.
    { destruct (kw_persist sender DirReceived (uuid_to_string (im_message_id inb)) text (fun _ => Hs) w I) as [I1 _].
      by rewrite Ep in I1. }
    destruct (kw_crypto w1 _ (manager_stored w1 sender (im_message_id inb) Hk) I1) as [_ [X _]].
    destruct (crypto_call _ w1) as [[y|] w2]; [|done]. intros [= _ <-]. by apply X.
Qed.

(** With what holds of the answer. *)
Definition keeps_post {E A} (w : World) (op : rm World E A) (Q : A -> World -> Prop) : Prop :=
  app_inv w -> app_inv (op w).2 /\ ext w (op w).2 /\ forall a, (op w).1 = Ok a -> Q a (op w).2.

Lemma kp_ret {E A} w (a : A) (Q : A -> World -> Prop) : (app_inv w -> Q a w) -> keeps_post (E := E) w (rm_ret a) Q.
Proof. intros Ha I. split; [done|]. split; [done|]. intros b [= <-]. by apply Ha. Qed.
Lemma kp_get {E B} w (k : App -> rm World E B) Q :
  keeps_post w (k (w_app w)) Q -> keeps_post w (rm_bind get_app k) Q.
Proof. done. Qed.
Lemma kp_bind {E A B} w (m : rm World E A) (k : A -> rm World E B) Q :
  keeps_at w m ->
  (forall a w', m w = (Ok a, w') -> app_inv w -> app_inv w' -> ext w w' -> keeps_post w' (k a) Q) ->
  keeps_post w (rm_bind m k) Q.
Proof.
  intros Hm Hk I. destruct (Hm I) as [I1 X1]. unfold rm_bind.
  destruct (m w) as [[a|e] w1] eqn:E1; [|done]. cbn in *.
  destruct (Hk a w1 eq_refl I I1 X1 I1) as (I2 & X2 & Q2). split; [done|]. split; [by eapply ext_trans|done].
Qed.
Lemma kp_keeps {E A} w (op : rm World E A) Q : keeps_post w op Q -> keeps_at w op.
Proof. intros Hp I. by destruct (Hp I) as (? & ? & _). Qed.
Lemma kp_answer {E A} w (op : rm World E A) Q a w' : keeps_post w op Q -> app_inv w -> op w = (Ok a, w') -> Q a w'.
Proof. intros Hp I Eo. destruct (Hp I) as (_ & _ & Hq). rewrite Eo in Hq. by apply Hq. Qed.

(** The sender and id of a processed message, and that it is known if it is to
    be acknowledged. *)
Definition processed_as (inb : InboundMessage) (x : string * MessageId * bool * bool) (w : World) : Prop :=
  x.1.1.1 = as_str (im_sender_id inb) /\ x.1.1.2 = im_message_id inb
  /\ (x.1.2 = true -> known w (uuid_to_string (im_message_id inb))).

Lemma kp_pending inb text {E} w :
  Src (uuid_to_string (im_message_id inb), mkStored (as_str (im_sender_id inb)) DirReceived text) ->
  keeps_post (E := E) w (process_pending_inbound inb (as_str (im_sender_id inb)) text) (processed_as inb).
Proof.
  intros Hs. unfold process_pending_inbound. apply kp_bind; [kw_go; apply kw_track|]. intros ? w1 _ _ _ _.
  apply kp_bind; [by apply kw_try_at, kw_commit|]. intros r w2 Ec I1 I2 X2.
  destruct r as [inserted|e]; [|by apply kp_ret].
  apply kp_get, kp_bind; [kw_go; apply kw_push|]. intros ? w3 _ _ _ X3. apply kp_ret. intros _.
  split; [done|]. split; [done|]. intros _. apply X3.
  unfold rm_try in Ec. destruct (commit_pending_inbound _ _ _ w1) as [r' w'] eqn:Ec'. injection Ec as -> ->.
  exact (proj2 (kw_commit inb _ _ Hs) w1 _ w2 I1 Ec').
Qed.

(** What the manager makes of the message now may be stored. *)
Definition source_at (w : World) (inb : InboundMessage) : Prop :=
  forall text c, decrypt_message_to_text (as_str (im_sender_id inb)) (im_message_id inb) (im_envelope inb) (E := Empty_set)
      (mkClient (crypto (w_app w)) (w_disk w, w_tick w)) = (Ok (Pending text), c) ->
    Src (uuid_to_string (im_message_id inb), mkStored (as_str (im_sender_id inb)) DirReceived text).

Lemma kp_process inb {E} w :
  valid_peer (as_str (im_sender_id inb)) -> envelope_u32 (im_envelope inb) -> source_at w inb ->
  keeps_post (E := E) w (process_inbound inb) (processed_as inb).
Proof.
  intros Hp Hu Hs. unfold process_inbound. apply kp_bind; [by apply kw_crypto, manager_decrypt|].
  intros r w1 Er I0 I1 X1. destruct r as [text| |].
  - apply kp_pending. unfold crypto_call in Er. destruct (decrypt_message_to_text _ _ _ _) as [r c] eqn:Ed.
    injection Er as -> _. eapply Hs, decrypt_any_error, Ed.
  - apply kp_ret. intros _. split; [done|]. split; [done|]. intros _. apply X1.
    eapply duplicate_known; [exact I0|exact Er].
  - apply kp_get, kp_bind; [kw_go; apply kw_push|]. intros ? w2 _ _ _ _. by apply kp_ret.
Qed.

Lemma kw_accumulate {E} p i : keepsw (E := E) (accumulate_unread p i).
Proof.
  intros w. unfold accumulate_unread. apply kw_modify_lists_at; [done| |done]. set (a := w_app w).
  intros Hu q l. cbn. rewrite lookup_insert_Some. intros [[<- <-]|[_ Hl]]; [|by eapply Hu].
  assert (Z.of_nat (length (default [] (unread_messages a !! p))) <= MAX_RECEIPT_BATCH) as Hd.
  { destruct (unread_messages a !! p) as [l0|] eqn:E0; cbn; [by eapply Hu|done]. }
  destruct (Z.ltb_spec (Z.of_nat (length (default [] (unread_messages a !! p)))) MAX_RECEIPT_BATCH);
    [rewrite length_app; cbn; lia|done].
Qed.

Lemma kw_flush {E} target : keepsw (E := E) (flush_read_receipts target).
Proof.
  unfold flush_read_receipts. kw_go.
  - apply kw_crypto, manager_receipt.
  - answered_send (encrypt_receipt_yields ids_json (as_str target) target l).
  - apply kw_modify_lists_at; [done| |done]. intros Hu q l'. cbn. intros [_ Hq]%lookup_delete_Some. by eapply Hu.
Qed.

(** *** Pre-keys *)

Lemma kw_rotation {E} : keepsw (E := E) queue_signed_prekey_rotation.
Proof. unfold queue_signed_prekey_rotation. kw_go. apply kw_crypto, manager_rotation. Qed.
Lemma kw_send_rotation {E} : keepsw (E := E) send_pending_rotation.
Proof.
  unfold send_pending_rotation. kw_go. apply find_some in Heqo as [_ Hm]. apply kw_send. by destruct c.
Qed.
Lemma kw_lifecycle {E} : keepsw (E := E) handle_lifecycle_tick.
Proof.
  unfold handle_lifecycle_tick, queue_due_rotation. kw_go; [apply kw_crypto, manager_rotation|apply kw_send_rotation].
Qed.
Lemma kw_prekey_low {E} n : keepsw (E := E) (handle_prekey_low n).
Proof.
  unfold handle_prekey_low. kw_go; try apply kw_status; [apply kw_crypto, manager_replenish|].
  answered_send replenish_yields.
Qed.
Lemma kw_uploaded {E} i b n : keepsw (E := E) (handle_prekeys_uploaded i b n).
Proof.
  unfold handle_prekeys_uploaded, send_replacement. kw_go; try apply kw_status; [apply kw_crypto, manager_uploaded|].
  apply kw_send.
  destruct (try_answer _ _ _ _ _ (uploaded_yields i b n) Ew _ eq_refl _ eq_refl) as (? & ? & ->). done.
Qed.
Lemma kw_rotated {E} i a b k : keepsw (E := E) (handle_signed_prekey_rotated i a b k).
Proof.
  unfold handle_signed_prekey_rotated. kw_go; try apply kw_status; [apply kw_crypto, manager_rotated|].
  apply kw_send.
  by destruct (try_answer _ _ _ _ _ (rotated_yields i a b k) Ew _ eq_refl _ eq_refl) as (? & ? & ? & ? & ->).
Qed.
Lemma kw_refresh {E} t : keepsw (E := E) (refresh_expired_session t).
Proof.
  unfold refresh_expired_session. kw_go; try apply kw_status; try (by apply kw_send).
  - apply kw_crypto, manager_expire.
  - apply kw_crypto, manager_add_pending.
Qed.
Lemma kw_rejected {E} i : C i -> keepsw (E := E) (handle_message_rejected i).
Proof.
  intros Hi. unfold handle_message_rejected. kw_go; try (by apply kw_send).
  - by apply kw_crypto, manager_reject.
  - apply kw_crypto, manager_add_pending.
Qed.

(** *** The handlers of [app.rs] *)

Lemma kw_open p : keepsw (open_conversation p).
Proof.
  unfold open_conversation. kw_go; try apply kw_status; try apply kw_load_history; try apply kw_push;
    try apply kw_flush; try (by apply kw_send).
  apply kw_crypto, manager_add_pending.
Qed.

Lemma kw_enter {E} : keepsw (E := E) handle_enter.
Proof.
  unfold handle_enter. kw_go; try apply kw_status; try (by apply kw_persist); try apply kw_push;
    try apply kw_clear; try apply kw_refresh; try (apply kw_crypto, manager_new_id).
  - apply kw_crypto, manager_encrypt.
  - apply kw_modify_lists_at; cbn zeta; destruct (Z.leb_spec MAX_PENDING_MSG_IDS (Z.of_nat (length (pending_msg_ids (w_app w2)))));
      done.
  - apply kw_modify_lists_at; [done|done|]. intros _. cbn. rewrite length_app. cbn.
    injection Ew2 as _ <-. cbn.
    destruct (Z.leb_spec MAX_PENDING_MSG_IDS (Z.of_nat (length (pending_msg_ids (w_app w2)))));
      unfold MAX_PENDING_MSG_IDS in *; cbn; lia.
  - apply kw_send. by destruct (try_answer _ _ _ _ _ (encrypt_message_yields _ _ _ _) Ew1 _ eq_refl) as [? ->].
Qed.

Lemma kw_send_all {E} w ms :
  (forall i ids x, Ack i ids ∈ ms -> x ∈ ids -> known w (uuid_to_string x)) -> keeps_at (E := E) w (send_all ms).
Proof.
  revert w. induction ms as [|m ms IH]; intros w Hm; cbn [send_all]; [apply kw_ret|].
  apply kw_bind_at.
  - apply kw_send_at. intros i ids x ->. apply (Hm i). by left.
  - intros ? w' _ _ _ X. apply IH. intros i ids x Hi Hx. apply X, (Hm i ids); [by right|done].
Qed.

Lemma pending_acks_known w i ids x :
  app_inv w -> Ack i ids ∈ pending_messages (crypto (w_app w)) -> x ∈ ids -> known w (uuid_to_string x).
Proof.
  intros I (p & Ep & Hp)%list_elem_of_fmap Hx. destruct p; try done. injection Ep as -> ->.
  by eapply (proj1 (ai_ledger w I)).
Qed.

(** Without a database the action only says so. *)
Lemma kw_no_database {E} w u l p x : keeps_at (E := E) w (db_call (handle_action u l p x false)).
Proof.
  intros I. assert (exists r, handle_action (E := E) u l p x false (w_db w, w_tick w) = (Ok r, (w_db w, w_tick w)))
    as [r Er].
  { unfold handle_action, clear_verification, format_verify_output. cbn [negb].
    destruct (bool_decide (x = "clear")); [by eexists|]. by destruct (bool_decide (x = "confirm")); eexists. }
  unfold db_call. rewrite Er. cbn. by destruct w.
Qed.

Lemma kw_action {E} w p x :
  keeps_at (E := E) w (db_call (handle_action (as_str (user_id (w_app w)))
    (b64_encode (verifying_key (identity (crypto (w_app w))))) p x (db (w_app w)))).
Proof.
  intros I. rewrite (ai_user w I), (ai_identity w I). revert I. change (keeps_at (E := E) w
    (db_call (handle_action (as_str uid) local_key p x (db (w_app w))))).
  destruct (db (w_app w)) eqn:Hd; [apply kw_database; [apply handle_action_database|done]|apply kw_no_database].
Qed.

Lemma kw_verification {E} action : keepsw (E := E) (show_verification action).
Proof.
  unfold show_verification. kw_go; try apply kw_status; [apply kw_action|].
  apply kw_database; [apply get_verification_database|]. destruct X as (_ & X & _). congruence.
Qed.
Lemma kw_status_tick {E} : keepsw (E := E) status_tick.
Proof. unfold status_tick. kw_go. apply kw_tick_notice. Qed.

Lemma kw_initialized {E} : keepsw (E := E) initialized_app.
Proof. unfold initialized_app. kw_go. apply kw_status. Qed.

(** What the messages of the server satisfy: identifiers of users are validated
    and counters fit their width when a message is parsed. *)
Definition inbound_wf (m : InboundMessage) : Prop :=
  valid_peer (as_str (im_sender_id m)) /\ envelope_u32 (im_envelope m).
Definition server_message_wf (m : ServerMessage) : Prop :=
  match m with
  | PreKeyBundleResponse u _ => valid_peer (as_str u)
  | IncomingMessage im => inbound_wf im
  | QueuedMessages l => Forall inbound_wf l
  | IncomingReadReceipt u _ e => valid_peer (as_str u) /\ envelope_u32 e
  | _ => True
  end.

(** The id of the read receipt it brings is in [R], and that of the message it
    settles in [C]. *)
Definition settled_known (m : ServerMessage) : Prop :=
  match m with
  | IncomingReadReceipt _ i _ => R (uuid_to_string i)
  | MessageSent i | MessageRejected i _ => C i
  | _ => True
  end.

(** The messages that an input brings, each with the state in which it is
    processed. *)
Inductive arrival (w : World) : ServerMessage -> InboundMessage -> World -> Prop :=
| arrives_alone inb : arrival w (IncomingMessage inb) inb w
| arrives_queued pre inb post acks w' :
    process_queued (E := string) pre [] w = (Ok acks, w') -> arrival w (QueuedMessages (pre ++ inb :: post)) inb w'.

Definition sources (w : World) (m : ServerMessage) : Prop := forall inb w', arrival w m inb w' -> source_at w' inb.

Lemma kp_queued ms : forall w acks,
  Forall inbound_wf ms -> (forall x, x ∈ acks -> known w (uuid_to_string x)) ->
  (forall pre inb post acks' w', ms = pre ++ inb :: post -> process_queued (E := string) pre acks w = (Ok acks', w') -> source_at w' inb) ->
  keeps_post (E := string) w (process_queued ms acks) (fun l w' => forall x, x ∈ l -> known w' (uuid_to_string x)).
Proof.
  induction ms as [|m ms IH]; intros w acks Hms Ha Hs; cbn [process_queued]; [by apply kp_ret|].
  apply Forall_cons in Hms as [[Hp Hu] Hms].
  pose proof (kp_process m (E := string) w Hp Hu (Hs [] m ms acks w eq_refl eq_refl)) as Hm. apply kp_bind; [by eapply kp_keeps|].
  intros x w1 Ex I0 I1 X1. destruct (kp_answer _ _ _ _ _ Hm I0 Ex) as (_ & _ & Hk).
  destruct x as [[[sender mid] ack] fresh]. cbn [fst snd] in Hk.
  apply kp_bind; [destruct fresh; [apply kw_accumulate|apply kw_ret]|]. intros ? w2 Ew2 _ _ X2. apply IH; [done| |].
  2: { intros pre inb post acks' w' -> Epre. apply (Hs (m :: pre) inb post acks' w'); [done|].
       cbn [process_queued]. unfold rm_bind at 1. rewrite Ex. cbv beta iota zeta. unfold rm_bind at 1. by rewrite Ew2. }
  destruct ack; [|intros y Hy; by apply X2, X1, Ha]. intros y [Hy|Hy]%elem_of_app; [by apply X2, X1, Ha|].
  apply list_elem_of_singleton in Hy as ->. by apply X2, Hk.
Qed.

Lemma kw_incoming inb w :
  inbound_wf inb -> source_at w inb -> keeps_at w (handle_server_message (IncomingMessage inb)).
Proof.
  intros [Hp Hu] Hs. cbn [handle_server_message]. pose proof (kp_process inb (E := string) w Hp Hu Hs) as Hm.
  apply kw_bind_at; [by eapply kp_keeps|]. intros x w1 Ex I0 I1 X1.
  destruct (kp_answer _ _ _ _ _ Hm I0 Ex) as (_ & _ & Hk). destruct x as [[[sender mid] ack] fresh].
  cbn [fst snd] in Hk. apply kw_bind_at.
  { destruct ack; [|apply kw_ret]. apply kw_queue_ack. intros x Hx. apply list_elem_of_singleton in Hx as ->. by apply Hk. }
  intros ? w2 _ _ _ _. destruct fresh; [|apply kw_ret]. kw_go; try apply kw_open; try apply kw_accumulate.
  - apply kw_crypto, manager_receipt.
  - answered_send (encrypt_receipt_yields ids_json sender (im_sender_id inb) [mid]).
Qed.

Lemma kw_queued ms w :
  Forall inbound_wf ms -> sources w (QueuedMessages ms) -> keeps_at w (handle_server_message (QueuedMessages ms)).
Proof.
  intros Hms Hs. cbn [handle_server_message].
  assert (keeps_post (E := string) w (process_queued ms [])
    (fun l w' => forall x, x ∈ l -> known w' (uuid_to_string x))) as Hq.
  { apply kp_queued; [done|by intros x Hx%elem_of_nil|]. intros pre inb post acks' w' -> Ep.
    apply Hs. by eapply arrives_queued. }
  apply kw_bind_at; [by eapply kp_keeps|]. intros l w1 El I0 _ _.
  pose proof (kp_answer _ _ _ _ _ Hq I0 El) as Hl. cbv beta in Hl. apply kw_bind_at.
  - destruct (negb _); [by apply kw_queue_ack|apply kw_ret].
  - intros ? w2 _ _ _ _. kw_go. apply kw_flush.
Qed.

Lemma kw_read_receipt u i e :
  valid_peer (as_str u) -> envelope_u32 e -> R (uuid_to_string i) ->
  keepsw (handle_server_message (IncomingReadReceipt u i e)).
Proof.
  intros Hp Hu Hr. cbn [handle_server_message]. kw_go; try apply kw_status; try apply kw_queue_receipt_ack.
  - by apply kw_crypto, manager_decrypt.
  - apply kw_crypto, manager_stored. by right.
Qed.

Lemma filter_length {A} (P : A -> Prop) `{!forall x, Decision (P x)} l : (length (filter P l) <= length l)%nat.
Proof. induction l as [|x l IH]; [done|]. rewrite filter_cons. case_decide; cbn; lia. Qed.

Lemma kw_server_message m w :
  server_message_wf m -> settled_known m -> sources w m -> keeps_at w (handle_server_message m).
Proof.
  intros Hw Hr Hs. destruct m; try apply kw_ret; cbn in Hw, Hr.
  all: try (by apply kw_incoming; [|apply Hs, arrives_alone]). all: try (by apply kw_queued). all: try (destruct Hw; by apply kw_read_receipt).
  all: cbn [handle_server_message]; kw_go; try apply kw_status; try (by apply kw_send);
    try apply kw_prekey_low; try apply kw_uploaded; try apply kw_rotated; try (by apply kw_rejected); try apply kw_track.
  all: try (apply kw_modify_lists_at; [done|done|]; intros Hl; cbn;
    match goal with |- context [filter ?P ?l] => pose proof (filter_length P l) end; lia).
  all: apply kw_crypto.
  - by apply manager_init.
  - by apply manager_sent.
  - apply manager_acked.
  - apply manager_receipt_sent.
Qed.

Lemma kw_app_event e w :
  (forall m, e = EvServer m -> server_message_wf m /\ settled_known m /\ sources w m) -> keeps_at w (handle_app_event e).
Proof.
  intros He. destruct e; cbn [handle_app_event]; [..|destruct (He _ eq_refl) as (? & ? & ?); by apply kw_server_message].
  all: kw_go; try apply kw_rotation.
  - apply kw_send_all. intros i ids x. by apply pending_acks_known.
  - apply kw_send_all. intros i ids x Hi. unfold fetch_requests in Hi.
    apply list_elem_of_omap in Hi as (p & _ & Hp). by destruct (UserId_new p).
  - apply kw_modify_lists_at; [done|done|]. by intros _.
Qed.

(** *** Keyboard and screen *)

Lemma kw_composer_changed {E} : keepsw (E := E) composer_changed.
Proof. unfold composer_changed. kw_go. by apply kw_send. Qed.
Lemma kw_edit {E} f : keepsw (E := E) (edit_composer f).
Proof. unfold edit_composer. kw_go. Qed.
Lemma kw_paste {E} text : keepsw (E := E) (handle_paste text).
Proof. unfold handle_paste. kw_go; [apply kw_edit|apply kw_composer_changed]. Qed.
Lemma kw_modal {E} k : keepsw (E := E) (handle_modal_key k).
Proof. unfold handle_modal_key. kw_go; try apply kw_status; try apply kw_open; apply kw_verification. Qed.
Lemma kw_selection {E} ps o : keepsw (E := E) (move_conversation_selection ps o).
Proof. unfold move_conversation_selection. apply kw_modify. intros a. by destruct ps. Qed.
Lemma kw_sync {E} : keepsw (E := E) sync_conversation_cursor.
Proof. unfold sync_conversation_cursor. kw_go. apply kw_conversations. Qed.
Lemma kw_conversation_key k : keepsw (handle_conversation_key k).
Proof.
  unfold handle_conversation_key. kw_go; try apply kw_selection; try apply kw_open; try apply kw_verification.
  apply kw_conversations.
Qed.
Lemma kw_composer_key {E} k : keepsw (E := E) (handle_composer_key k).
Proof.
  unfold handle_composer_key. cbv zeta. kw_go; try apply kw_edit; try apply kw_composer_changed;
    try apply kw_sync; apply kw_enter.
Qed.
Lemma kw_key k : keepsw (handle_key k).
Proof.
  unfold handle_key. cbv zeta. kw_go; try apply kw_conversation_key; try apply kw_composer_key;
    try apply kw_modal; apply kw_verification.
Qed.
Lemma kw_key_event e : keepsw (handle_key_event e).
Proof. unfold handle_key_event. kw_go; try apply kw_key; apply kw_paste. Qed.

Lemma kw_rows {E} ps : keepsw (E := E) (conversation_rows ps).
Proof.
  induction ps as [|q ps IH]; cbn [conversation_rows]; [apply kw_ret|].
  unfold conversation_row. kw_go; [apply kw_database; [apply get_verification_database|done]|apply IH].
Qed.
Lemma kw_render {E} x y c v : keepsw (E := E) (render x y c v).
Proof.
  unfold render, render_conversations. kw_go; try apply kw_conversations; try apply kw_rows.
  all: apply kw_modify; intros ?; unfold render_messages; by repeat case_match.
Qed.

(** Every turn of the loop keeps the invariant. *)
Definition input_wf (w : World) (i : Input) : Prop :=
  forall m, i = IApp (EvServer m) -> server_message_wf m /\ settled_known m /\ sources w m.

Lemma kw_loop i w : input_wf w i -> keeps_at w (step i).
Proof.
  intros Hi. destruct i as [x y c v|e|e| |]; cbn [step].
  - apply kw_render.
  - apply kw_key_event.
  - apply kw_app_event. intros m ->. by apply Hi.
  - apply kw_status_tick.
  - apply kw_lifecycle.
Qed.
End Invariant.
