(* ===== verification/ClientAppRun.v ===== *)
(** * Runs of the client application

    [boot] is [app::run] up to its loop: load the manager, register if that has
    not been done, open the message database.  [app_reachable] are the states
    of the client over any number of runs of the program on the same files:
    turns of the loop with any input from the user, the server and the clock,
    any store failures, and restarts at any moment. *)
From stdpp Require Import base numbers list strings gmap.
From S2P Require Import Prelude Consts Types Primitives Keys X3dh Ratchet SqlDb ServerWorld CryptoStore CryptoMgr CryptoMgrInv CryptoMgrFacts CryptoMgrRecv CryptoMgrPrekeys CryptoMgrLedger CryptoMgrOutbox CryptoMgrCrash ClientDb Verification ClientApp ClientInput ClientUi ClientNet ClientAppInv.
Local Open Scope Z_scope.
Local Open Scope cmp_scope.

Section Run.
Context `{CryptoPrims, Codecs, ClientEnv, TextArea, AppEnv}.

Definition boot (uid : UserId) (ik : IdentityKeyPair) (connected : bool)
    (server : ClientMessage -> option ServerMessage) (d : Disk) (file : ClientDb) (t : nat) : option World :=
  match load_or_generate ik (d, t) with
  | (Err _, _) => None
  | (Ok m, io) =>
      let c := mkClient m io in
      let c := if needs_registration m
               then (register_with_server (as_str uid) connected server c).2 else c in
      let '(r, (file', t')) := open (file, (c_io c).2) in
      Some (initialized_app (E := Empty_set)
              (mkWorld _ (App_new uid (c_mgr c) (negb (is_err r))) (c_io c).1 file' t' [])).2
  end.

(** The ids of the read receipts among the inputs. *)
Definition receipt_of (i : Input) : option string :=
  match i with IApp (EvServer (IncomingReadReceipt _ r _)) => Some (uuid_to_string r) | _ => None end.
Definition receipt_ids (hist : list Input) : list string := omap receipt_of hist.

(** The ids of the sent messages whose fate the relay has told. *)
Definition settles (i : Input) : option MessageId :=
  match i with IApp (EvServer (MessageSent j | MessageRejected j _)) => Some j | _ => None end.
Definition settled_ids (hist : list Input) : list MessageId := omap settles hist.

(** Messages of the server are parsed, so their user ids are valid and their
    counters fit. *)
Definition parsed (i : Input) : Prop :=
  forall m, i = IApp (EvServer m) -> server_message_wf m.

Inductive app_reachable (uid : UserId) (ik : IdentityKeyPair) : list Input -> World -> Prop :=
| ar_start connected server t w :
    boot uid ik connected server empty_disk empty_client_db t = Some w -> app_reachable uid ik [] w
| ar_step hist w i :
    app_reachable uid ik hist w -> parsed i -> app_reachable uid ik (hist ++ [i]) (step i w).2
| ar_restart hist w connected server t w' :
    app_reachable uid ik hist w -> (w_tick w <= t)%nat ->
    boot uid ik connected server (w_disk w) (w_db w) t = Some w' -> app_reachable uid ik hist w'.

(** How the client gets from one state to another. *)
Inductive app_leads (uid : UserId) (ik : IdentityKeyPair) (w : World) : list Input -> World -> Prop :=
| al_here : app_leads uid ik w [] w
| al_step hist w' i :
    app_leads uid ik w hist w' -> parsed i -> app_leads uid ik w (hist ++ [i]) (step i w').2
| al_restart hist w' connected server t w'' :
    app_leads uid ik w hist w' -> (w_tick w' <= t)%nat ->
    boot uid ik connected server (w_disk w') (w_db w') t = Some w'' -> app_leads uid ik w hist w''.

(** In the history [hist] that led to [w], the manager of the client decrypted
    the message [e] (its id, its peer and its text): at one of the inputs, which
    brought an envelope of this sender and id, it answered with this text. *)
Definition decrypted (uid : UserId) (ik : IdentityKeyPair) (hist : list Input) (w : World)
    (e : string * StoredMessage) : Prop :=
  exists before m after w0 inb w1 c text,
    hist = before ++ IApp (EvServer m) :: after
    /\ app_reachable uid ik before w0 /\ app_leads uid ik (step (IApp (EvServer m)) w0).2 after w
    /\ arrival w0 m inb w1
    /\ decrypt_message_to_text (as_str (im_sender_id inb)) (im_message_id inb) (im_envelope inb) (E := Empty_set)
         (mkClient (crypto (w_app w1)) (w_disk w1, w_tick w1)) = (Ok (Pending text), c)
    /\ e = (uuid_to_string (im_message_id inb), mkStored (as_str (im_sender_id inb)) DirReceived text).

Lemma decrypted_step uid ik hist w i e :
  parsed i -> decrypted uid ik hist w e -> decrypted uid ik (hist ++ [i]) (step i w).2 e.
Proof.
  intros Hp (before & m & after & w0 & inb & w1 & c & text & -> & Hr & Hl & He).
  exists before, m, (after ++ [i]), w0, inb, w1, c, text. split; [by rewrite <- app_assoc|].
  split; [done|]. split; [by apply al_step|done].
Qed.
Lemma decrypted_restart uid ik hist w connected server t w' e :
  (w_tick w <= t)%nat -> boot uid ik connected server (w_disk w) (w_db w) t = Some w' ->
  decrypted uid ik hist w e -> decrypted uid ik hist w' e.
Proof.
  intros Ht Eb (before & m & after & w0 & inb & w1 & c & text & Eh & Hr & Hl & He).
  exists before, m, after, w0, inb, w1, c, text. split; [done|]. split; [done|]. split; [by eapply al_restart|done].
Qed.
End Run.

Section RunFacts.
Context `{CryptoPrims, Codecs, !CodecLaws, ClientEnv, !KdfLaws, !SignatureLaws, TextArea, AppEnv}.

Lemma app_inv_mono uid ik (R R' : string -> Prop) (Src Src' : string * StoredMessage -> Prop) w :
  (forall i, R i -> R' i) -> (forall e, Src e -> Src' e) -> app_inv uid ik R Src w -> app_inv uid ik R' Src' w.
Proof.
  intros Hr Hsrc []. assert (forall i, known R w i -> known R' w i) as Hk by (intros i [?|?]; [by left|right; auto]).
  split; try done.
  - destruct ai_ledger as [Ha Hs]. split; [intros i ids x Hi Hx; eapply Hk, Ha|intros p i r Hi Hp; eapply Hk, Hs]; done.
  - intros p i r Hi Hp. by eapply Hk, ai_rows.
  - intros i ids x Hi Hx. by eapply Hk, ai_acks.
  - intros log Hl e He Hd. by eapply Hsrc, ai_source.
Qed.

(** ** Starting *)

Lemma load_ledger K ik d t m io :
  load_or_generate ik (d, t) = (Ok m, io) -> rows_ok K d ->
  pending_outbound m = (outbox d).*2 /\ stored_ok K (processed_messages m) /\ rows_ok K io.1.
Proof.
  intros E Hr. revert E. unfold load_or_generate, rm_bind, load_io, store_io, rm_lift, rm_ret, prune_processed_rows.
  assert (forall now, stored_ok K (prune_processed now (group_processed (processed_rows d)))) as Hg.
  { intros now. apply stored_prune. intros p i r. rewrite lookup_group. apply Hr. }
  assert (forall cut, rows_ok K (mkDisk (core_state_row d) (outbox d)
    (filter (fun r => ~ processed_at r.2 < cut) (processed_rows d)))) as Hf.
  { intros cut p i r [Hl _]%map_lookup_filter_Some. by eapply Hr. }
  repeat (break_match; try done); intros; simplify_eq; cbn; auto.
Qed.

Lemma register_safe user connected server : op_safe (register_with_server user connected server).
Proof.
  apply op_safe_intro. intros m d t I. unfold register_with_server. wp_go.
  destruct connected; cbn [negb]; wp_go; [|by eapply safe_keep; [exact I|lia]].
  destruct (generate_one_time_prekeys _ _ _) as [opks|]; cbn [map_err]; [|by eapply safe_keep; [exact I|lia]].
  wp_go. destruct (UserId_new user) as [u|]; cbn [map_err]; [|by eapply safe_keep; [exact I|lia]].
  assert (client_inv (mkClient m (d, S (S t)))) as I2 by by eapply inv_keep; [exact I|..|lia].
  destruct (server _) as [[]|]; wp_go; try (by eapply safe_keep; [exact I|lia]).
  apply (persist_registration_keys_safe _ opks); [cbn; apply length_sign|done|exact I2].
Qed.

Lemma register_ledger' K user connected server :
  preserves (ledger_ok K) (rows_ok K) (register_with_server user connected server).
Proof.
  unfold register_with_server. pres_go (ledger_ok K) (rows_ok K). apply register_ledger.
Qed.

(** The file right after its migrations. *)
Definition current_empty : ClientDb := mkClientDb CURRENT_VERSION (Some []) 0 (Some ∅) (Some ∅).

Lemma current_empty_ok u l : db_ok u l [] ∅ current_empty.
Proof.
  split; [|split; [|done]].
  - exists []. repeat split; constructor.
  - split; [done|]. split; [done|]. exists ∅. split; [done|]. intros p. by rewrite !lookup_empty.
Qed.

Lemma empty_history d i : messages d = None \/ messages d = Some [] -> ~ in_history d i.
Proof. intros [E|E] (rows & E' & Hin); rewrite E in E'; simplify_eq. by apply elem_of_nil in Hin. Qed.

Lemma history_empty log d :
  history_ok log d -> messages d = None \/ messages d = Some [] -> log = [].
Proof. intros (rows & Er & Hr & _) [E|E]; rewrite E in Er; simplify_eq. by inversion Hr. Qed.

Lemma open_file uid ik d t :
  file_ok uid ik d ->
  let '(r, (d', t')) := open (d, t) in
  file_ok uid ik d' /\ (t <= t')%nat /\ (forall i, in_history d i -> in_history d' i)
  /\ (forall log, history_ok log d' -> log = [] \/ history_ok log d)
  /\ (is_err r = false -> exists log tr, db_ok (as_str uid) (local_key ik) log tr d').
Proof.
  assert (exists log tr, db_ok (as_str uid) (local_key ik) log tr current_empty) as Hc
    by (exists [], ∅; apply current_empty_ok).
  assert (file_ok uid ik empty_client_db) as F0 by by left.
  assert (file_ok uid ik (mkClientDb 1 (Some []) 0 None None)) as F1 by by right; left.
  assert (file_ok uid ik current_empty) as F2 by by right; right.
  intros [->|[->|(log & tr & Hok)]]; unfold open, rm_bind, transaction, stmt, create_v1, create_v2, rm_ret.
  1, 2: assert (forall i, ~ in_history empty_client_db i /\ ~ in_history (mkClientDb 1 (Some []) 0 None None) i) as Hn
    by (intros i; split; apply empty_history; [by left|by right]).
  1, 2: cbn; repeat (match goal with |- context [ce_fault ?n] => destruct (ce_fault n) end; cbn);
    (split; [first [exact F0|exact F1|exact F2]|]); (split; [lia|]);
    (split; [intros i Hi; by destruct (Hn i)|]);
    (split; [intros log Hl; left; eapply history_empty; [exact Hl|by cbn; auto]|]); first [by intros [=]|by intros _].
  - destruct Hok as (Hh & Ht & Hv). rewrite Hv. assert (db_ok (as_str uid) (local_key ik) log tr d) by done.
    destruct (ce_fault t); cbn; (split; [by right; right; exists log, tr|]); (split; [lia|]); (split; [done|]);
      (split; [by auto|]); intros _; by exists log, tr.
Qed.

Lemma boot_inv uid ik (R : string -> Prop) (Src : string * StoredMessage -> Prop) m0 d t0 file connected server t w :
  client_inv (mkClient m0 (d, t0)) -> identity m0 = ik -> (t0 <= t)%nat -> file_ok uid ik file ->
  let K := fun i => in_history file i \/ R i in
  acks_ok K (pending_outbound m0) -> rows_ok K d -> (forall log, history_ok log file -> sourced Src log) ->
  boot uid ik connected server d file t = Some w -> app_inv uid ik R Src w.
Proof.
  intros I <- Ht Hf K Ha Hr Hsrc. unfold boot.
  destruct (load_or_generate (identity m0) (d, t)) as [[m|e] io] eqn:El; [|done].
  destruct (load_step m0 d t0 t m io I Ht El) as [I1 Rec].
  destruct (load_ledger K _ d t m io El Hr) as (_ & Hs & Hr1).
  pose proof (recovered_identity _ _ _ Rec) as Ei. destruct Rec as (_ & Hperm & _).
  assert (ledger_ok K m) as Hl.
  { split; [|done]. intros i ids x Hi. rewrite Hperm in Hi. exact (Ha i ids x Hi). }
  set (c := if needs_registration m then _ else _).
  assert (client_inv c /\ identity (c_mgr c) = identity m0 /\ ledger_ok K (c_mgr c) /\ rows_ok K (c_io c).1)
    as (I2 & Ei2 & Hl2 & Hr2).
  { unfold c. destruct (needs_registration m); [|done].
    destruct (register_safe (as_str uid) connected server (mkClient m io) I1) as (I2 & Ei2 & _).
    destruct (register_ledger' K (as_str uid) connected server (mkClient m io) Hl Hr1).
    split; [done|]. split; [by rewrite Ei2|done]. }
  clearbody c. destruct c as [mc [dc tc]]. cbn [c_mgr c_io fst snd] in *.
  pose proof (open_file uid (identity m0) file tc Hf) as Ho. destruct (open (file, tc)) as [r [file' t']].
  destruct Ho as (Hf' & Ht' & Hh & Hlog & Hok). intros [= <-].
  set (w0 := mkWorld _ _ _ _ _ _).
  assert (forall i, K i -> known R w0 i) as Hk by (intros i [?|?]; [left; by apply Hh|by right]).
  apply (kw_initialized uid (identity m0) R (fun _ => False) Src w0). split; cbn; try done.
  - by eapply inv_keep.
  - intros Hd. apply Hok. by destruct (is_err r).
  - destruct Hl2 as [La Ls]. split; [intros i ids x Hi Hx; eapply Hk, La|intros p i x Hi Hx; eapply Hk, Ls]; done.
  - intros p i x Hi Hx. by eapply Hk, Hr2.
  - by intros i ids x Hi%elem_of_nil.
  - intros log Hg. apply Hlog in Hg as [->|Hg]; [by intros e He%elem_of_nil|by apply Hsrc].
Qed.

(** The receipts, and the settled messages, of a history. *)
Definition receipts (hist : list Input) (i : string) : Prop := i ∈ receipt_ids hist.
Definition settled (hist : list Input) (i : MessageId) : Prop := i ∈ settled_ids hist.

Lemma receipts_snoc hist i x : receipts hist x -> receipts (hist ++ [i]) x.
Proof. unfold receipts, receipt_ids. rewrite omap_app. set_solver. Qed.

(** A history that ends with the input gives what its step needs to know. *)
Lemma last_input_wf uid ik hist w i :
  app_reachable uid ik hist w -> parsed i ->
  input_wf (receipts (hist ++ [i])) (settled (hist ++ [i])) (decrypted uid ik (hist ++ [i]) (step i w).2) w i.
Proof.
  intros Hr Hp m ->. split; [by apply Hp|]. split.
  - destruct m; try done; cbn; unfold receipts, receipt_ids, settled, settled_ids; rewrite omap_app; cbn; set_solver.
  - intros inb w' Ha text c Ed. exists hist, m, [], w, inb, w', c, text. do 2 (split; [done|]).
    split; [apply al_here|done].
Qed.

(** A turn, in the terms of the history up to and including it. *)
Lemma turn_keeps uid ik hist w i :
  app_reachable uid ik hist w -> app_inv uid ik (receipts hist) (decrypted uid ik hist w) w -> parsed i ->
  let R := receipts (hist ++ [i]) in
  app_inv uid ik R (decrypted uid ik (hist ++ [i]) (step i w).2) (step i w).2
  /\ ext R (settled (hist ++ [i])) w (step i w).2.
Proof.
  intros Hr I Hp R. apply (kw_loop uid ik R (settled (hist ++ [i])) _ i); [by apply last_input_wf|].
  eapply app_inv_mono; [apply receipts_snoc|by intros e; apply decrypted_step|exact I].
Qed.

Lemma app_reachable_inv uid ik hist w :
  app_reachable uid ik hist w -> app_inv uid ik (receipts hist) (decrypted uid ik hist w) w.
Proof.
  induction 1 as [connected server t w E|hist w i Hr IH Hp|hist w connected server t w' Hr IH Ht E].
  - eapply (boot_inv uid ik _ _ (fresh_manager ik) empty_disk t); [apply fresh_inv|done|done|by left| | | |exact E].
    + by intros i ids x Hi%elem_of_nil.
    + intros p i r Hi. cbn in Hi. by rewrite lookup_empty in Hi.
    + intros log Hl. rewrite (history_empty _ _ Hl) by by left. by intros e He%elem_of_nil.
  - by apply turn_keeps.
  - destruct IH. eapply (boot_inv uid ik _ _ (crypto (w_app w)) (w_disk w) (w_tick w)); try done; [apply ai_ledger|].
    intros log Hl e He Hd. eapply decrypted_restart; [done|done|]. by eapply ai_source.
Qed.

(** The row with a given id. *)
Lemma stored_row uid ik hist w i :
  app_reachable uid ik hist w -> in_history (w_db w) i ->
  exists log m, history_ok log (w_db w) /\ ((i, m) ∈ log)
    /\ (sm_direction m = DirReceived -> decrypted uid ik hist w (i, m)).
Proof.
  intros Hr Hi. apply app_reachable_inv in Hr. pose proof (ai_source _ _ _ _ _ Hr) as Hs.
  destruct (ai_file _ _ _ _ _ Hr) as [E|[E|(log & tr & Hok)]].
  1, 2: rewrite E in Hi; by apply empty_history in Hi; [|cbn; auto].
  rewrite (in_history_log _ _ _ _ _ _ Hok) in Hi. apply list_elem_of_fmap in Hi as ([j m] & -> & Hin).
  exists log, m. split; [apply Hok|]. split; [done|]. intros Hd. by eapply (Hs log); [apply Hok|..].
Qed.

(** ** Properties *)

(** What the client acknowledges it has stored.  Over any number of runs, with
    any input and any store failures, every message id in an acknowledgement
    that was put on the channel to the server, or waits in the outbox to be
    sent, is the id of a message in the client's message database (or of a read
    receipt the client has handled).  The relay deletes a message only when it
    is acknowledged, so none is lost between the two. *)
Lemma acked_means_stored uid ik hist w i ids x :
  app_reachable uid ik hist w ->
  Ack i ids ∈ w_out w \/ PAck i ids ∈ pending_outbound (crypto (w_app w)) -> x ∈ ids ->
  (exists rows, messages (w_db w) = Some rows /\ (Some (uuid_to_string x) ∈ row_message_id <$> rows))
  \/ uuid_to_string x ∈ receipt_ids hist.
Proof.
  intros Hr Hi Hx. destruct (app_reachable_inv uid ik hist w Hr) as [? ? ? ? ? [Ha _] ? Hw ? ? _].
  destruct Hi as [Hi|Hi]; [exact (Hw i ids x Hi Hx)|exact (Ha i ids x Hi Hx)].
Qed.

(** C20: The state of the client stays sound.  Over any number of runs the manager
    agrees with its file; when the message database is open it holds a log of
    messages with distinct ids and, for each peer, the latest identity key with
    the verification of that very key; the read receipts owed to a peer are at
    most one batch and the list of unconfirmed messages has at most 10,000
    entries. *)
Theorem client_state_sound uid ik hist w :
  app_reachable uid ik hist w ->
  client_inv (mkClient (crypto (w_app w)) (w_disk w, w_tick w))
  /\ identity (crypto (w_app w)) = ik
  /\ (db (w_app w) = true -> exists log tr, NoDup log.*1 /\ history_ok log (w_db w)
        /\ trust_rel (as_str uid) (b64_encode (verifying_key ik)) tr (w_db w))
  /\ (forall p l, unread_messages (w_app w) !! p = Some l -> Z.of_nat (length l) <= MAX_RECEIPT_BATCH)
  /\ Z.of_nat (length (pending_msg_ids (w_app w))) <= MAX_PENDING_MSG_IDS.
Proof.
  intros Hr. destruct (app_reachable_inv uid ik hist w Hr) as [I1 I2 _ _ I5 _ _ _ I9 I10 _].
  split; [done|]. split; [done|]. split; [|done]. intros Hd. destruct (I5 Hd) as (log & tr & Hh & Ht & _).
  exists log, tr. split; [by eapply history_nodup|done].
Qed.
End RunFacts.
