(* ===== verification/ClientIdentity.v ===== *)
(** * The identity key file ([crypto_mgr.rs], [crypto_store.rs])

    The first half of [CryptoManager::load_or_generate]: the directory, reading
    [identity.key], or generating a key and writing it durably ([write_new]).
    Then the whole program over its starts, any of which can fail or be killed
    at any point: [ClientAppRun] takes one identity for all runs of a client,
    and here that is proved of the file. *)
From stdpp Require Import base numbers list strings gmap.
From S2P Require Import Prelude Types Primitives Keys ServerWorld CryptoStore CryptoMgr CryptoMgrInv CryptoMgrCrash ClientDb ClientApp ClientInput ClientUi ClientNet ClientAppInv ClientAppRun.
Local Open Scope Z_scope.
Local Open Scope cmp_scope.

(** What becomes of the calls of [write_new] on a path that was free: the file
    is not created, the process fails or is killed after some bytes of it, one
    of the two syncs fails (the bytes are there), or all succeed. *)
Inductive WriteOutcome := CreateFails | WriteStops (written : nat) | SyncFails | Written.

(** [create_new]: a file that exists is never opened. *)
Definition write_new (o : WriteOutcome) (data : bytes) (file : option bytes)
  : result AnyhowError unit * option bytes :=
  match file with
  | Some _ => (Err (Bail "file exists"), file)
  | None =>
      match o with
      | CreateFails => (Err (Bail "create"), None)
      | WriteStops written => (Err (Bail "write"), Some (take written data))
      | SyncFails => (Err (Bail "sync"), Some data)
      | Written => (Ok tt, Some data)
      end
  end.

(** What a start meets: the directory is there, [exists] answers the truth (it
    answers [false] when it fails), the file can be read, the fate of a new
    file, and the key that is drawn. *)
Record IdentityStart := mkIdentityStart {
  dir_ok : bool;
  exists_ok : bool;
  read_ok : bool;
  outcome : WriteOutcome;
  drawn : bytes;
}.

Section Identity.
Context `{CryptoPrims}.

Definition load_identity (s : IdentityStart) (file : option bytes)
  : result AnyhowError IdentityKeyPair * option bytes :=
  if negb (dir_ok s) then (Err (Bail "directory"), file)
  else
    match (if exists_ok s then file else None) with
    | Some b =>
        if negb (read_ok s) then (Err (Bail "read"), file)
        else if (length b =? 32)%nat then (Ok (IdentityKeyPair_from_bytes b), file)
        else (Err (Bail "corrupt identity key file"), file)
    | None =>
        let ik := IdentityKeyPair_generate (drawn s) in
        let '(r, file') := write_new (outcome s) (IdentityKeyPair_to_bytes ik) file in
        (match r with Ok _ => Ok ik | Err e => Err e end, file')
    end.

(** Whatever happens, what is in the file stays; a key that is loaded is the one
    in the file; and a file of another length is never taken for a key. *)
Lemma load_identity_spec s file :
  length (drawn s) = 32%nat ->
  let '(r, file') := load_identity s file in
  (forall b, file = Some b -> file' = Some b)
  /\ match r with
     | Ok ik => file' = Some (IdentityKeyPair_to_bytes ik) /\ length (IdentityKeyPair_to_bytes ik) = 32%nat
     | Err _ => True
     end.
Proof.
  intros Hd. unfold load_identity. destruct (dir_ok s); cbn [negb]; [|done].
  destruct (exists_ok s), file as [b|]; cbn; try (by destruct (outcome s)); try done.
  destruct (read_ok s); cbn [negb]; [|done]. by destruct (Nat.eqb_spec (length b) 32).
Qed.

(** A start at which nothing fails loads the key that is there, or makes one. *)
Lemma load_identity_succeeds s file :
  dir_ok s = true -> exists_ok s = true -> read_ok s = true -> outcome s = Written ->
  (forall b, file = Some b -> length b = 32%nat) ->
  load_identity s file
  = let ik := match file with Some b => IdentityKeyPair_from_bytes b | None => IdentityKeyPair_generate (drawn s) end in
    (Ok ik, Some (IdentityKeyPair_to_bytes ik)).
Proof.
  intros Hd He Hr Ho Hb. unfold load_identity. rewrite Hd, He, Hr, Ho. cbn [negb].
  destruct file as [b|]; [|done]. by rewrite (Hb b eq_refl).
Qed.
End Identity.

(** ** The program over its starts *)

Section Program.
Context `{CryptoPrims, Codecs, ClientEnv, TextArea, AppEnv}.

(** The key file, the application of the latest run, whose two files remain when
    it ends, and whether it runs. *)
Record Program := mkProgram {
  p_identity : option bytes;
  p_last : option World;
  p_running : bool;
}.
Definition not_installed : Program := mkProgram None None false.

Definition files_of (p : Program) : Disk * ClientDb :=
  match p_last p with Some w => (w_disk w, w_db w) | None => (empty_disk, empty_client_db) end.

(** A start of the program.  One that does not reach the loop leaves the other
    two files as they were ([crash_safe]). *)
Definition start_program (uid : UserId) (s : IdentityStart) (connected : bool)
    (server : ClientMessage -> option ServerMessage) (t : nat) (p : Program) : Program :=
  match load_identity s (p_identity p) with
  | (Err _, key) => mkProgram key (p_last p) false
  | (Ok ik, key) =>
      match boot uid ik connected server (files_of p).1 (files_of p).2 t with
      | None => mkProgram key (p_last p) false
      | Some w => mkProgram key (Some w) true
      end
  end.

(** Starts, turns of the loop of the application that runs, and its end; with
    the inputs it was given. *)
Inductive program_run (uid : UserId) (p : Program) : list Input -> Program -> Prop :=
| pr_here : program_run uid p [] p
| pr_start hist p' s connected server t :
    program_run uid p hist p' -> length (drawn s) = 32%nat ->
    (forall w, p_last p' = Some w -> (w_tick w <= t)%nat) ->
    program_run uid p hist (start_program uid s connected server t p')
| pr_turn hist p' w i :
    program_run uid p hist p' -> p_last p' = Some w -> p_running p' = true -> parsed i ->
    program_run uid p (hist ++ [i]) (mkProgram (p_identity p') (Some (step i w).2) true)
| pr_end hist p' :
    program_run uid p hist p' -> program_run uid p hist (mkProgram (p_identity p') (p_last p') false).

(** The application that has run is a client of the key in the file. *)
Definition program_inv (uid : UserId) (hist : list Input) (p : Program) : Prop :=
  match p_last p with
  | Some w => exists ik, p_identity p = Some (IdentityKeyPair_to_bytes ik)
      /\ length (IdentityKeyPair_to_bytes ik) = 32%nat /\ app_reachable uid ik hist w
  | None => hist = []
  end.

(** The key file at a start: what is in it stays. *)
Lemma start_keeps_key uid s connected server t p b :
  length (drawn s) = 32%nat -> p_identity p = Some b -> p_identity (start_program uid s connected server t p) = Some b.
Proof.
  intros Hd Hb. unfold start_program. pose proof (load_identity_spec s (p_identity p) Hd) as Hl.
  destruct (load_identity s (p_identity p)) as [[ik|e] key]; destruct Hl as [Hk _]; [destruct (boot _ _ _ _ _ _ _)|]; cbn; auto.
Qed.

Lemma program_start_inv uid hist s connected server t p :
  length (drawn s) = 32%nat -> (forall w, p_last p = Some w -> (w_tick w <= t)%nat) ->
  program_inv uid hist p -> program_inv uid hist (start_program uid s connected server t p).
Proof.
  intros Hd Ht I. pose proof (start_keeps_key uid s connected server t p) as Hkey. revert Hkey.
  unfold start_program, files_of, program_inv in *. pose proof (load_identity_spec s (p_identity p) Hd) as Hl.
  destruct (load_identity s (p_identity p)) as [[ik|e] key]; destruct Hl as [Hk Hok]; cbn.
  - destruct Hok as [-> Hlen], (p_last p) as [w|] eqn:Ew.
    + destruct I as (ik0 & Hb & Hl & Hr). specialize (Hk _ Hb). injection Hk as Hk.
      assert (ik = ik0) as -> by (destruct ik, ik0; cbn in Hk; by subst).
      cbn. destruct (boot _ _ _ _ _ _ _) as [w'|] eqn:Eb; cbn; intros _; exists ik0; [|done].
      split; [done|]. split; [done|]. eapply ar_restart; [exact Hr|by apply Ht|exact Eb].
    + subst hist. cbn. destruct (boot _ _ _ _ _ _ _) as [w'|] eqn:Eb; cbn; intros _; [|done].
      exists ik. split; [done|]. split; [done|]. by eapply ar_start.
  - intros _. destruct (p_last p) as [w|]; [|done]. destruct I as (ik0 & Hb & Hl & Hr). exists ik0. auto.
Qed.

Lemma program_run_inv uid hist0 p hist p' :
  program_inv uid hist0 p -> program_run uid p hist p' ->
  program_inv uid (hist0 ++ hist) p' /\ forall b, p_identity p = Some b -> p_identity p' = Some b.
Proof.
  intros I Hr. induction Hr as [|hist p' s connected server t Hr [IH Hk] Hd Ht|hist p' w i Hr [IH Hk] Hw Hrun Hp|hist p' Hr [IH Hk]].
  - by rewrite app_nil_r.
  - split; [by apply program_start_inv|]. intros b Hb. by apply start_keeps_key, Hk.
  - split; [|done]. unfold program_inv in *. rewrite Hw in IH. destruct IH as (ik & Hb & Hl & Ha). cbn.
    exists ik. split; [done|]. split; [done|]. rewrite app_assoc. by apply ar_step.
  - by split.
Qed.

Context `{!CodecLaws, !KdfLaws, !SignatureLaws}.

(** C19: A client has one identity.  Take the program from its installation over
    any number of starts, each of which can fail or be killed at any point of
    writing the key file or of opening the store, and any turns of the
    application between them.  The application that runs is one the analysis
    of [ClientAppRun] covers, for the identity in the key file; once there is a
    key file no start changes it, so all later runs have the same identity; and
    a key file that was cut short is never taken for a key: no application has
    run and none will. *)
Theorem one_identity uid hist p hist' p' :
  program_run uid not_installed hist p -> program_run uid p hist' p' ->
  (forall w, p_last p' = Some w -> exists ik,
     p_identity p' = Some (IdentityKeyPair_to_bytes ik) /\ identity (crypto (w_app w)) = ik
     /\ app_reachable uid ik (hist ++ hist') w)
  /\ (forall b, p_identity p = Some b -> p_identity p' = Some b)
  /\ (forall w w', p_last p = Some w -> p_last p' = Some w' ->
        identity (crypto (w_app w')) = identity (crypto (w_app w)))
  /\ (forall b, p_identity p = Some b -> length b <> 32%nat -> p_last p' = None).
Proof.
  intros H0' Hr. destruct (program_run_inv uid [] _ _ _ (eq_refl : program_inv uid [] not_installed) H0') as [I _].
  destruct (program_run_inv uid _ _ _ _ I Hr) as [I' Hk]. unfold program_inv in *.
  split; [|split; [done|split]].
  - intros w Ew. rewrite Ew in I'. destruct I' as (ik & Hb & _ & Ha). exists ik. split; [done|]. split; [|done].
    apply app_reachable_inv in Ha. exact (ai_identity _ _ _ _ _ Ha).
  - intros w w' Ew Ew'. rewrite Ew in I. rewrite Ew' in I'. destruct I as (ik & Hb & _ & Ha), I' as (ik' & Hb' & _ & Ha').
    rewrite (Hk _ Hb) in Hb'. injection Hb' as Hb'.
    apply app_reachable_inv, ai_identity in Ha, Ha'. rewrite Ha, Ha'.
    destruct ik, ik'. cbn in Hb'. by subst.
  - intros b Hb Hl. destruct (p_last p') as [w|]; [|done]. destruct I' as (ik & Hb' & Hl' & _).
    rewrite (Hk _ Hb) in Hb'. injection Hb' as ->. done.
Qed.
End Program.
