(* ===== verification/ClientAppSend.v ===== *)
(** * Sending: drafts and reconnection

    What pressing Enter does on every branch, and what the client sends when it
    has authenticated. *)
From stdpp Require Import base numbers list strings gmap.
From S2P Require Import Prelude Consts Types Primitives Keys X3dh Ratchet SqlDb ServerWorld CryptoStore CryptoMgr CryptoMgrInv CryptoMgrFacts CryptoMgrRecv CryptoMgrPrekeys CryptoMgrLedger CryptoMgrCrash ClientDb Verification ClientApp ClientInput ClientUi ClientNet ClientAppInv ClientAppRun.
Local Open Scope Z_scope.
Local Open Scope cmp_scope.

(** ** Where an operation ends *)

Definition ends {S E A} (P : A -> S -> Prop) (op : rm S E A) : Prop :=
  forall s a s', op s = (Ok a, s') -> P a s'.

Lemma ends_bind {S E A B} (P : B -> S -> Prop) (m : rm S E A) (k : A -> rm S E B) :
  (forall a, ends P (k a)) -> ends P (rm_bind m k).
Proof. intros Hk s b s'. unfold rm_bind. destruct (m s) as [[a|e] s1]; [apply Hk|done]. Qed.

Section Sending.
Context `{CryptoPrims, Codecs, !CodecLaws, ClientEnv, !KdfLaws, !SignatureLaws, TextArea, AppEnv}.

Lemma enqueue_ends p undo :
  ends (fun m c => m = to_client_message p /\ p ∈ pending_outbound (c_mgr c)) (enqueue_outbound p undo).
Proof.
  intros [m0 io] msg c. unfold enqueue_outbound, rm_bind, modify_mgr, rm_try, persist_outbound, check_persistence.
  cbn. unfold rm_bind, rm_fail, rm_ret, get_mgr, store. cbn. destruct (fail_persistence m0); [done|].
  cbn. destruct (store_io _ _) as [[x|e] io']; [|done]. intros [= <- <-]. split; [done|]. cbn. set_solver.
Qed.

Lemma encrypt_message_ends p r i t :
  ends (fun m c => exists e, m = SendMessage r i e /\ PMessage r i e ∈ pending_outbound (c_mgr c))
    (encrypt_message p r i t).
Proof.
  unfold encrypt_message. apply ends_bind. intros m. destruct (existsb _ _); [by intros ???|].
  do 2 (apply ends_bind; intros ?). destruct a0 as [s e]. intros c msg c' Eq.
  apply enqueue_ends in Eq as [-> Hp]. by exists e.
Qed.

(** An item of the outbox is in the file. *)
Lemma outbox_durable w p :
  client_inv (mkClient (crypto (w_app w)) (w_disk w, w_tick w)) ->
  p ∈ pending_outbound (crypto (w_app w)) -> p ∈ (outbox (w_disk w)).*2.
Proof. intros [_ [_ So _ _]] Hp. rewrite (out_sync_perm _ _ So). exact Hp. Qed.

(** ** Enter *)

Abbreviation manager_at w n := (mkClient (crypto (w_app w)) (w_disk w, n)).

(** Why the draft stays: there is nothing to send or nobody to send it to; the
    note cannot be stored; there is no session or no connection, the session
    has to be renewed first, the text is too long, or the manager refuses.  The
    clock is read once, the id drawn, and the manager called, in that order. *)
Definition hindered (w : World) : Prop :=
  let a := w_app w in
  let text := trim (composer_text a) in
  let n := w_tick w in
  text = "" \/ target_user a = None
  \/ exists t, target_user a = Some t /\
     if bool_decide (as_str t = as_str (user_id a))
     then db a = false
          \/ is_err (insert_message (as_str t) DirSent (uuid_to_string (ce_uuid n)) text (w_db w, S n)).1 = true
     else has_session (as_str t) (crypto a) = false \/ authenticated a = false
          \/ (expire_stale_prekey_session (as_str t) (manager_at w n)).1 <> Ok false
          \/ MAX_CIPHERTEXT_BYTES < (str_len text + 18) / 3 * 4
          \/ is_err (encrypt_message (as_str t) t (ce_uuid (S n)) (str_bytes text) (manager_at w (S (S n)))).1 = true.

(** A note is kept: under the id [i] the history of [w'] has the text as its
    newest entry, if it had no message of this id before. *)
Definition noted (t : UserId) (i text : string) (w w' : World) : Prop :=
  exists log, history_ok log (w_db w)
    /\ ((i ∉ log.*1) /\ history_ok (log ++ [(i, mkStored (as_str t) DirSent text)]) (w_db w')
        \/ (i ∈ log.*1) /\ w_db w' = w_db w).

(** The message is on the channel, in the outbox and shown; its envelope is
    what the manager makes of the text, and the manager and its file are as
    that call leaves them. *)
Definition sent_out (t : UserId) (i : MessageId) (e : EncryptedEnvelope) (text : string) (n : nat)
    (w w' : World) : Prop :=
  exists n', w_out w' = w_out w ++ [SendMessage t i e]
     /\ encrypt_message (as_str t) t i (str_bytes text) (manager_at w n) = (Ok (SendMessage t i e), manager_at w' n')
     /\ (PMessage t i e ∈ pending_outbound (crypto (w_app w')))
     /\ last (chat_history (w_app w')) = Some (ESent text).

(** Pressing Enter keeps the draft for a reason, sending at most a request for
    keys, or clears it, having stored a note or put a message that is in the
    durable outbox on the channel. *)
Definition entered (w w' : World) : Prop :=
  let text := trim (composer_text (w_app w)) in
  (hindered w /\ composer (w_app w') = composer (w_app w)
   /\ (w_out w' = w_out w \/ exists t, target_user (w_app w) = Some t /\ w_out w' = w_out w ++ [FetchPreKeyBundle t]))
  \/ (composer (w_app w') = ta_clear (composer (w_app w)) /\ text <> "" /\ authenticated (w_app w) = true
      /\ exists t e, target_user (w_app w) = Some t /\ as_str t <> as_str (user_id (w_app w))
         /\ sent_out t (ce_uuid (S (w_tick w))) e text (S (S (w_tick w))) w w'
         /\ (PMessage t (ce_uuid (S (w_tick w))) e ∈ (outbox (w_disk w')).*2))
  \/ (composer (w_app w') = ta_clear (composer (w_app w)) /\ text <> "" /\ w_out w' = w_out w
      /\ last (chat_history (w_app w')) = Some (ESent text)
      /\ exists t, target_user (w_app w) = Some t /\ as_str t = as_str (user_id (w_app w))
         /\ noted t (uuid_to_string (ce_uuid (w_tick w))) text w w').

(** Only a session whose first message has expired is touched by the check. *)
Lemma expire_fresh p c :
  (expire_stale_prekey_session p c).1 = Ok false ->
  (expire_stale_prekey_session p c).2 = mkClient (c_mgr c) ((c_io c).1, S (c_io c).2).
Proof.
  unfold expire_stale_prekey_session, rm_bind, get_mgr, now_secs, draw, rm_ret, rm_try. cbn.
  destruct (sessions (c_mgr c) !! p) as [[r [hd|] [x|]]|]; try done.
  destruct (x <? _); [|done]. unfold rm_bind, modify_mgr. cbn. by destruct (persist_state _) as [[]].
Qed.

Lemma refresh_surface {E} t w :
  exists b w', refresh_expired_session (E := E) t w = (Ok b, w')
    /\ composer (w_app w') = composer (w_app w)
    /\ (w_out w' = w_out w \/ b = true /\ w_out w' = w_out w ++ [FetchPreKeyBundle t])
    /\ if b then (expire_stale_prekey_session (as_str t) (manager_at w (w_tick w))).1 <> Ok false
       else w' = mkWorld _ (w_app w) (w_disk w) (w_db w) (S (w_tick w)) (w_out w).
Proof.
  unfold refresh_expired_session, rm_bind, rm_try, crypto_call. set (c := mkClient _ _).
  pose proof (expire_fresh (as_str t) c) as Ef.
  destruct (expire_stale_prekey_session (as_str t) c) as [[[]|e] c']; cbn.
  - eexists true, _. repeat (split; [done|]). split; [by right|done].
  - eexists false, _. repeat (split; [done|]). split; [by left|]. cbn in Ef. rewrite (Ef eq_refl). cbn.
    by destruct w as [[]].
  - eexists true, _. repeat (split; [done|]). split; [by left|done].
Qed.

(** The note to self. *)
Lemma enter_note uid ik R Src {E} w t :
  app_inv uid ik R Src w -> target_user (w_app w) = Some t -> as_str t = as_str (user_id (w_app w)) ->
  trim (composer_text (w_app w)) <> "" -> entered w (handle_enter (E := E) w).2.
Proof.
  intros I Et Eu Hn.
  assert ((db (w_app w) = false \/ is_err (insert_message (as_str t) DirSent
    (uuid_to_string (ce_uuid (w_tick w))) (trim (composer_text (w_app w))) (w_db w, S (w_tick w))).1 = true) ->
    hindered w) as Hh.
  { intros HP. right; right. exists t. split; [done|]. by rewrite (bool_decide_eq_true_2 _ Eu). }
  unfold handle_enter, rm_bind, get_app. rewrite Et.
  rewrite (bool_decide_eq_false_2 _ Hn), (bool_decide_eq_true_2 _ Eu).
  unfold crypto_call, new_message_id, draw, rm_bind, rm_ret, rm_try, persist_message, rm_bind, get_app. cbn -[insert_message].
  destruct (db (w_app w)) eqn:Hd; [|by left; split; [apply Hh; left|split; [|left]]].
  destruct (ai_db _ _ _ _ w I Hd) as (log & tr & Hok). pose proof Hok as (Hl & _).
  unfold db_call. cbn -[insert_message]. set (i := uuid_to_string _) in *. set (text := trim _) in *.
  destruct (insert_message_log log (w_db w) (S (w_tick w)) (as_str t) DirSent i text Hl)
    as [(d' & E1 & Hi & Hh' & _)|[[E1 Hi]|[E1 _]]]; rewrite E1 in *; cbn.
  3: { left. split; [apply Hh; by right|]. split; [done|by left]. }
  all: right; right; repeat (split; [done|]); split; [apply last_snoc|]; exists t; repeat (split; [done|]);
    exists log; (split; [done|]); first [by left|by right].
Qed.

(** Storing a message does not touch the application. *)
Lemma persist_app p dir i body w :
  let w' := (persist_message p dir i body w).2 in
  w_app w' = w_app w /\ w_out w' = w_out w /\ w_disk w' = w_disk w.
Proof.
  unfold persist_message, rm_bind, get_app. destruct (db (w_app w)); [|done].
  unfold db_call. by destruct (insert_message _ _ _ _ _).
Qed.

(** The part of the handler that follows the call of [encrypt_message]. *)
Lemma after_encrypt {E} t text i w :
  let r := rm_bind (E := E) (rm_try (crypto_call (encrypt_message (as_str t) t i (str_bytes text))))
    (fun r => match r with
     | Err e => status ("encrypt error: " +:+ error_text e)
     | Ok outbound =>
         run! modify_app (fun a => if MAX_PENDING_MSG_IDS <=? Z.of_nat (length (pending_msg_ids a))
                                   then set_pending_msg_ids [] a else a);
         run! modify_app (fun a => set_pending_msg_ids (pending_msg_ids a ++ [i]) a);
         run! send outbound;
         run! rm_try (F := E) (persist_message (as_str t) DirSent (uuid_to_string i) text);
         run! push_entry (ESent text);
         clear_input
     end) w in
  (is_err (encrypt_message (as_str t) t i (str_bytes text) (manager_at w (w_tick w))).1 = true
   /\ composer (w_app r.2) = composer (w_app w) /\ w_out r.2 = w_out w)
  \/ composer (w_app r.2) = ta_clear (composer (w_app w)) /\ exists e, sent_out t i e text (w_tick w) w r.2.
Proof.
  cbv zeta. unfold rm_bind, rm_try, crypto_call. unfold sent_out. set (c := mkClient _ _).
  destruct (encrypt_message _ _ _ _ c) as [[m|e] c'] eqn:Ee; [|by left].
  pose proof Ee as Ee'. apply encrypt_message_ends in Ee as (e & -> & Hp). right.
  unfold modify_app, send. cbn [w_app w_disk w_db w_tick w_out].
  match goal with |- context [set_pending_msg_ids (pending_msg_ids ?a ++ _) _] => set (a1 := a) end.
  match goal with |- context [persist_message _ _ _ _ ?x] => set (w1 := x) end.
  destruct (persist_app (as_str t) DirSent (uuid_to_string i) text w1) as (Ea & Eo & Ed).
  destruct (persist_message _ _ _ _ w1) as [r w2]. cbn in Ea, Eo, Ed |- *. rewrite Ea, Eo, Ed. unfold w1. cbn.
  assert (composer a1 = composer (w_app w) /\ crypto a1 = c_mgr c') as [Ec Em] by (unfold a1; cbn; by destruct (_ <=? _)).
  split; [cbn; by rewrite Ec|]. exists e, (c_io c').2. rewrite Em. split; [done|].
  split; [by destruct c' as [? []]|]. split; [done|]. apply last_snoc.
Qed.

(** The message to a peer. *)
Lemma enter_message {E} w t :
  target_user (w_app w) = Some t -> as_str t <> as_str (user_id (w_app w)) ->
  trim (composer_text (w_app w)) <> "" ->
  let w' := (handle_enter (E := E) w).2 in
  (hindered w /\ composer (w_app w') = composer (w_app w)
   /\ (w_out w' = w_out w \/ w_out w' = w_out w ++ [FetchPreKeyBundle t]))
  \/ authenticated (w_app w) = true /\ composer (w_app w') = ta_clear (composer (w_app w))
     /\ exists e, sent_out t (ce_uuid (S (w_tick w))) e (trim (composer_text (w_app w))) (S (S (w_tick w))) w w'.
Proof.
  intros Et Hu Hn w'. unfold hindered. rewrite Et. cbv zeta. unfold w', handle_enter, rm_bind, get_app. rewrite Et.
  rewrite (bool_decide_eq_false_2 _ Hn).
  rewrite (bool_decide_eq_false_2 _ Hu).
  destruct (has_session (as_str t) (crypto (w_app w))) eqn:Hse; cbn [negb];
    [|left; split; [|by split; [|left]]; right; right; exists t; split; [done|]; rewrite (bool_decide_eq_false_2 _ Hu); by left].
  destruct (authenticated (w_app w)) eqn:Ha; cbn [negb];
    [|left; split; [|by split; [|left]]; right; right; exists t; split; [done|]; rewrite (bool_decide_eq_false_2 _ Hu); by right; left].
  destruct (refresh_surface (E := E) t w) as (b & w1 & -> & Ec & Ho & Hb').
  destruct b.
  { left. split; [|split; [done|]; destruct Ho as [?|[_ ?]]; auto].
    right; right. exists t. split; [done|]. rewrite (bool_decide_eq_false_2 _ Hu). by right; right; left. }
  subst w1. clear Ec Ho. destruct (Z.ltb_spec MAX_CIPHERTEXT_BYTES ((str_len (trim (composer_text (w_app w))) + 18) / 3 * 4)).
  { left. split; [|by split; [|left]]. right; right. exists t. split; [done|].
    rewrite (bool_decide_eq_false_2 _ Hu). by right; right; right; left. }
  unfold crypto_call at 1, new_message_id, draw, rm_bind, rm_ret. cbn [fst snd w_app w_disk w_db w_tick w_out c_mgr c_io].
  match goal with |- context [rm_try _ ?x] => set (w2 := x) end.
  destruct (after_encrypt (E := E) t (trim (composer_text (w_app w))) (ce_uuid (S (w_tick w))) w2) as [(He & Hc & Hw)|[Hc Hs]].
  - left. split; [|split; [exact Hc|left; exact Hw]]. right; right. exists t. split; [done|].
    rewrite (bool_decide_eq_false_2 _ Hu). right; right; right; right. exact He.
  - right. split; [done|]. split; [exact Hc|exact Hs].
Qed.

(** C13: Pressing Enter loses no draft.  In every state the client can reach, the
    draft stays in the composer (and at most a request for the peer's keys goes
    out) only for a reason: no text or no conversation, a note that cannot be
    stored, no session, no connection, a session to be renewed, a text that is too long
    or a refusal of the manager.  Otherwise it is cleared and the trimmed text was
    kept: as a note, appended to the history under the id drawn for it (unless
    that id was taken), when the conversation is the user's own; and otherwise,
    only when the client is authenticated, as one message to the peer, the one
    that [encrypt_message] makes of this text under the id drawn, put on
    the channel, shown last, and in the outbox in memory and on disk, from
    which it is sent again after a reconnect. *)
Theorem enter_keeps_or_sends uid ik hist w :
  app_reachable uid ik hist w -> entered w (handle_enter (E := string) w).2.
Proof.
  intros I%app_reachable_inv. destruct (decide (trim (composer_text (w_app w)) = "")) as [En|Hn].
  { unfold handle_enter, rm_bind, get_app. rewrite (bool_decide_eq_true_2 _ En). by left; split; [left|split; [|left]]. }
  destruct (target_user (w_app w)) as [t|] eqn:Et.
  2: { unfold handle_enter, rm_bind, get_app. rewrite (bool_decide_eq_false_2 _ Hn), Et. by left; split; [right; left|split; [|left]]. }
  destruct (decide (as_str t = as_str (user_id (w_app w)))) as [Eu|Hu]; [by eapply enter_note|].
  destruct (kw_enter uid ik (receipts hist) (fun _ => False) _ (E := string) w I) as [[I1 _ _ _ _ _ _ _ _ _ _] _].
  destruct (enter_message (E := string) w t Et Hu Hn) as [(Hh & Hc & Ho)|(Ha & Hc & Hs)].
  - left. split; [done|]. split; [done|]. destruct Ho as [?|?]; [by left|right; by exists t].
  - destruct Hs as (e & Hs). right; left. do 3 (split; [done|]). exists t, e. do 3 (split; [done|]).
    destruct Hs as (n' & _ & _ & Hp & _). by apply outbox_durable.
Qed.

(** ** Reconnection *)

Lemma send_all_spec {E} ms w :
  send_all (E := E) ms w
  = (Ok tt, mkWorld _ (w_app w) (w_disk w) (w_db w) (w_tick w) (w_out w ++ ms)).
Proof.
  revert w. induction ms as [|m ms IH]; intros w; cbn.
  - rewrite app_nil_r. by destruct w.
  - unfold rm_bind, send. rewrite IH. cbn. by rewrite <-app_assoc.
Qed.

(** The key requests for a set of peers: one for each peer whose name is a
    valid user id, and nothing else. *)
Definition key_requests (peers : gset string) (fetches : list ClientMessage) : Prop :=
  NoDup fetches
  /\ forall m, m ∈ fetches <-> exists p u, p ∈ peers /\ UserId_new p = Ok u /\ m = FetchPreKeyBundle u.

Lemma fetch_requests_spec peers : key_requests peers (fetch_requests (elements peers)).
Proof.
  unfold fetch_requests. split.
  - pose proof (NoDup_elements peers) as Hn. induction Hn as [|p l Hp Hn IH]; cbn; [constructor|].
    destruct (UserId_new p) as [u|] eqn:Eu; [|done]. constructor; [|done].
    intros (p' & Hp' & Ep)%list_elem_of_omap. destruct (UserId_new p') as [u'|] eqn:Eu'; [|done].
    apply UserId_new_valid in Eu as [_ ->]. apply UserId_new_valid in Eu' as [_ ->]. by injection Ep as ->.
  - intros m. rewrite list_elem_of_omap. setoid_rewrite elem_of_elements. split.
    + intros (p & Hp & Ep). destruct (UserId_new p) as [u|] eqn:Eu; [|done]. injection Ep as <-. by exists p, u.
    + intros (p & u & Hp & Eu & ->). exists p. by rewrite Eu.
Qed.

(** A write of the file does not touch the manager. *)
Lemma persist_outbound_mgr p c : c_mgr (persist_outbound p c).2 = c_mgr c.
Proof.
  unfold persist_outbound, check_persistence, rm_bind, get_mgr, rm_fail, rm_ret, store. cbn.
  destruct (fail_persistence _); [done|]. by destruct (store_io _ _).
Qed.

(** Queueing a rotation appends it to the outbox, or leaves the outbox. *)
Lemma rotation_appends c :
  let m' := c_mgr (CryptoMgr.queue_signed_prekey_rotation c).2 in
  pending_inits m' = pending_inits (c_mgr c)
  /\ exists new, pending_outbound m' = pending_outbound (c_mgr c) ++ new /\ (length new <= 1)%nat
     /\ forallb is_rotation new = true.
Proof.
  assert (forall m : CryptoManager, pending_inits m = pending_inits m /\ exists new,
    pending_outbound m = pending_outbound m ++ new /\ (length new <= 1)%nat /\ forallb is_rotation new = true) as Hs.
  { intros m. split; [done|]. exists []. rewrite app_nil_r. split; [done|]. split; [cbn; lia|done]. }
  unfold CryptoMgr.queue_signed_prekey_rotation, rm_bind, get_mgr, now_secs, draw, rm_ret, rm_lift, rm_try, rm_bind,
    modify_mgr, rm_fail. cbn.
  destruct (existsb _ _); [apply Hs|]. destruct (negb _ && _); [apply Hs|].
  destruct (stored_spk _) as [spk|]; [|apply Hs]. cbn. destruct (checked_add _ _ _) as [z|]; [|apply Hs]. cbn.
  destruct (checked_add _ _ _) as [z'|]; [|apply Hs]. cbn. destruct (ensure_capacity _ _); [|apply Hs]. cbn.
  match goal with |- context [persist_outbound ?p ?x] => pose proof (persist_outbound_mgr p x) as Ep;
    destruct (persist_outbound p x) as [[]c'] end; cbn in Ep |- *; rewrite ?Ep; cbn.
  - split; [done|]. eexists. split; [done|]. split; [cbn; lia|done].
  - split; [done|]. exists []. rewrite app_nil_r, removelast_last. split; [done|]. split; [cbn; lia|done].
Qed.

(** C14: After authentication everything that waits is sent again.  The client puts
    on the channel, after what was there, the messages of its outbox, each once
    and in the order of the outbox in memory, and then a request for the keys of every peer
    whose session is wanted and whose name is valid, each once.  The
    outbox is the one before, with a rotation of the signed pre-key at its end if
    one was due, and its items are those of the file, so every item of the
    file, before as after, is sent; the client is then authenticated. *)
Theorem reconnect_resends uid ik hist w :
  app_reachable uid ik hist w ->
  let w' := (handle_app_event EvAuthenticated w).2 in
  authenticated (w_app w') = true
  /\ exists items rotation fetches,
     w_out w' = w_out w ++ (to_client_message <$> items) ++ fetches
     /\ items = pending_outbound (crypto (w_app w)) ++ rotation
     /\ (length rotation <= 1)%nat /\ forallb is_rotation rotation = true
     /\ items ≡ₚ (outbox (w_disk w')).*2 /\ (outbox (w_disk w)).*2 ⊆+ items
     /\ key_requests (pending_inits (crypto (w_app w))) fetches.
Proof.
  intros I%app_reachable_inv w'.
  assert (app_inv uid ik (receipts hist) (decrypted uid ik hist w) w') as [[_ [_ So _ _]] _ _ _ _ _ _ _ _ _ _].
  { apply (kw_app_event uid ik (receipts hist) (fun _ => False) _ EvAuthenticated w); [|done]. by intros m [=]. }
  destruct I as [[_ [_ So0 _ _]] _ _ _ _ _ _ _ _ _ _]. apply out_sync_perm in So, So0. cbn [c_mgr c_io fst] in So, So0.
  revert So. unfold w', handle_app_event, ClientApp.queue_signed_prekey_rotation, rm_bind, rm_try, crypto_call, instant_now, modify_app, get_app.
  cbn [w_app w_disk w_db w_tick w_out].
  match goal with |- context [CryptoMgr.queue_signed_prekey_rotation ?c] =>
    destruct (rotation_appends c) as (Ei & new & En & Hl & Hr);
    destruct (CryptoMgr.queue_signed_prekey_rotation c) as [r c'] end. cbn in Ei, En |- *.
  rewrite !send_all_spec. cbn. intros So. split; [done|].
  exists (pending_outbound (c_mgr c')), new, (fetch_requests (elements (pending_inits (c_mgr c')))).
  rewrite app_assoc. split; [done|]. split; [done|].
  split; [done|]. split; [done|]. split; [by symmetry|]. split; [|rewrite <- Ei; apply fetch_requests_spec].
  rewrite So0, En. apply submseteq_inserts_r. done.
Qed.
End Sending.
