(* ===== verification/ClientServer.v ===== *)
(** * The client against the relay

    Compositions of the client's network task and cryptographic manager with
    the relay's request handlers: registration, login, and the reconciliation
    of a signed pre-key rotation. *)
From stdpp Require Import base numbers list strings gmap.
From S2P Require Import Prelude Consts Types Primitives Keys SqlDb DbUsers DbPrekeys ServerWorld Handlers Delivery Ws CryptoStore CryptoMgr CryptoMgrInv CryptoMgrFacts CryptoMgrRecv CryptoMgrPrekeys ClientNet.
Local Open Scope Z_scope.
Local Open Scope cmp_scope.

Section Batch.
Context `{CryptoPrims}.

(** A batch that starts in range is generated, with distinct ids. *)
Lemma generated_batch start count rng :
  0 <= start -> 0 <= count -> start + count <= u32_max ->
  generate_one_time_prekeys start count rng
  = Ok ((fun i : nat => OneTimePreKey_generate (start + Z.of_nat i) (rng i)) <$> seq 0 (Z.to_nat count)).
Proof.
  intros Hs Hc Hm. unfold generate_one_time_prekeys. rewrite checked_add_fits by lia. cbn [ok_or].
  by replace (start + count - start) with count by lia.
Qed.

Lemma generated_nodup start n rng :
  NoDup (opk_key_id <$> ((fun i : nat => OneTimePreKey_generate (start + Z.of_nat i) (rng i)) <$> seq 0 n)).
Proof.
  rewrite <-list_fmap_compose. apply NoDup_fmap_2; [|apply NoDup_seq]. intros i j Hij. cbn in Hij. lia.
Qed.
End Batch.

(** ** Published pre-keys *)

Section Published.
Context `{CryptoPrims, Codecs, !CodecLaws}.

Lemma decode_uploads seen opks :
  NoDup (opk_key_id <$> opks) -> (forall k, k ∈ opks -> (opk_key_id k ∉ seen) /\ length (opk_public k) = 32%nat) ->
  decode_prekeys_from seen (otk_uploads opks) = (fun k => (opk_key_id k, opk_public k)) <$> opks.
Proof.
  revert seen. induction opks as [|k l IH]; intros seen Hn Hl; [done|].
  apply NoDup_cons in Hn as [Hk Hn]. destruct (Hl k ltac:(by left)) as [Hs H32].
  cbn -[Nat.eqb]. rewrite (bool_decide_eq_false_2 _ Hs), b64_roundtrip, H32, Nat.eqb_refl. f_equal.
  apply IH; [done|]. intros j Hj. destruct (Hl j ltac:(by right)) as [Hjs ?]. split; [|done].
  rewrite elem_of_union, elem_of_singleton. intros [E|?]; [|done]. apply Hk. rewrite <-E. by apply list_elem_of_fmap_2.
Qed.

Lemma decode_prekeys_uploads opks :
  NoDup (opk_key_id <$> opks) -> (forall k, k ∈ opks -> length (opk_public k) = 32%nat) ->
  decode_prekeys (otk_uploads opks) = Ok ((fun k => (opk_key_id k, opk_public k)) <$> opks).
Proof.
  intros Hn Hl. unfold decode_prekeys. rewrite decode_uploads; [|done|].
  - unfold otk_uploads. by rewrite !length_fmap, Nat.eqb_refl.
  - intros k Hk. split; [apply not_elem_of_empty|auto].
Qed.

(** What the relay stores and what the client keeps are the same keys. *)
Lemma batch_agrees now u opks t m :
  NoDup (opk_key_id <$> opks) -> (forall k, k ∈ opk_key_id <$> opks -> m !! k = None) ->
  (forall k, p_public_key <$> t !! (u, k) = opk_public <$> m !! k) ->
  forall k, p_public_key <$> with_prekeys now u ((fun k => (opk_key_id k, opk_public k)) <$> opks) t !! (u, k)
    = opk_public <$> extend ((fun k => (opk_key_id k, k)) <$> opks) m !! k.
Proof.
  unfold with_prekeys, extend. revert t m. induction opks as [|o l IH]; intros t m Hn Hm Ht k; [apply Ht|].
  cbn in Hn. apply NoDup_cons in Hn as [Ho Hn]. cbn.
  assert (m !! opk_key_id o = None) as Em by (apply Hm; by left).
  assert (t !! (u, opk_key_id o) = None) as Et.
  { specialize (Ht (opk_key_id o)). rewrite Em in Ht. by destruct (t !! _). }
  rewrite Et. apply IH; [done| |].
  - intros j Hj. rewrite lookup_insert_ne by (intros <-; done). apply Hm. by right.
  - intros j. destruct (decide (opk_key_id o = j)) as [<-|Hne].
    + by rewrite !lookup_insert_eq.
    + rewrite !lookup_insert_ne by congruence. apply Ht.
Qed.
End Published.

(** ** Registration *)

Section Registration.
Context `{CryptoPrims, Codecs, !CodecLaws, ClientEnv, Env, SqlPick, !IdentityLaws, !SignatureLaws, !PublicKeyLaws}.
Context (sha256 : bytes -> bytes) (server_id : string).

(** The keys of a registration whose first draw is number [t]. *)
Definition registration_spk (ik : IdentityKeyPair) (t : nat) : SignedPreKey :=
  SignedPreKey_generate 0 ik (ce_random t 0).
Definition registration_opks (t : nat) : list Keys.OneTimePreKey :=
  (fun i : nat => OneTimePreKey_generate (0 + Z.of_nat i) (ce_random (S t) i)) <$> seq 0 (Z.to_nat PREKEY_TARGET).
Definition registration_message (uid : UserId) (ik : IdentityKeyPair) (t : nat) : ClientMessage :=
  Register uid (registration_bundle ik (registration_spk ik t)) (otk_uploads (registration_opks t)).

(** Randomness comes in keys of 32 bytes. *)
Definition keys_32 : Prop := forall t i, length (ce_random t i) = 32%nat.

Lemma registration_batch t : generate_one_time_prekeys 0 PREKEY_TARGET (ce_random (S t)) = Ok (registration_opks t).
Proof. by apply generated_batch; vm_compute. Qed.

Lemma registration_opks_ok t :
  keys_32 -> NoDup (opk_key_id <$> registration_opks t)
  /\ forall k, k ∈ registration_opks t -> length (opk_public k) = 32%nat.
Proof.
  intros Hk. split; [apply generated_nodup|]. intros k (i & -> & _)%list_elem_of_fmap. by apply x25519_public_32.
Qed.

(** The relay's checks accept the bundle. *)
Lemma registration_checked ik t :
  keys_32 -> length (signing_key ik) = 32%nat ->
  check_bundle (registration_bundle ik (registration_spk ik t))
  = Ok (verifying_key ik, spk_public (registration_spk ik t), spk_signature (registration_spk ik t)).
Proof.
  intros Hk Hi. unfold check_bundle, registration_bundle. cbn [identity_key signed_prekey signed_prekey_signature].
  rewrite !b64_roundtrip. cbn -[Nat.eqb]. unfold sized, verifying_key, to_public.
  rewrite ed25519_public_32, Nat.eqb_refl by done. cbn -[Nat.eqb].
  rewrite ed25519_public_valid by done. cbn -[Nat.eqb]. rewrite x25519_public_32, Nat.eqb_refl by done.
  cbn -[Nat.eqb]. rewrite length_sign, Nat.eqb_refl. cbn. unfold verifying_key. by rewrite sign_verifies.
Qed.

Lemma registry_insert_db u c x w : w_db (Registry.insert u c x w).2 = w_db w.
Proof.
  unfold Registry.insert, h_bind, Registry.next_conn_id. cbn. destruct (w_online w !! u); [|done].
  unfold try_send, tick, h_bind, h_ret, Registry.cancel_conn. cbn. by destruct (env_room _).
Qed.

(** The row of the signed pre-key, and the database after a registration. *)
Definition registered_db (uid : UserId) (ik : IdentityKeyPair) (t : nat) (now hw : Z) (d : Db) : Db :=
  let spk := registration_spk ik t in
  set_inventory (<[as_str uid := hw]> (prekey_inventory d))
    (set_prekeys (with_prekeys now (as_str uid)
         ((fun k => (opk_key_id k, opk_public k)) <$> registration_opks t) (prekeys d))
    (set_signed_prekeys (<[(as_str uid, spk_key_id spk) :=
         mkSignedPreKeyRow (spk_public spk) (spk_signature spk)]> (signed_prekeys d))
    (set_users (<[as_str uid := verifying_key ik]> (users d)) d))).

Lemma registration_accepted handed c uid ik t w :
  keys_32 -> length (signing_key ik) = 32%nat -> env_fault (w_tick w) = false ->
  pk_inv handed (at_call w) -> users (at_call w) !! as_str uid = None ->
  exists s' w' hw, handle_message sha256 server_id c (Session_new c) (registration_message uid ik t) w
    = ((Some AuthSuccess, s'), w') /\ authed_user s' = Some (as_str uid)
    /\ w_db w' = registered_db uid ik t (env_unixepoch (w_tick w)) hw (at_call w)
    /\ pk_inv handed (w_db w').
Proof.
  intros Hk Hi Hf I Hu. destruct (registration_opks_ok t Hk) as [Hn H32].
  unfold handle_message, registration_message, h_bind at 1, handle_register. cbn [authed_user Session_new].
  assert ((MAX_PREKEYS_PER_UPLOAD <? Z.of_nat (length (otk_uploads (registration_opks t)))) = false) as ->
    by (unfold otk_uploads, registration_opks; rewrite !length_fmap, length_seq; by vm_compute).
  rewrite registration_checked by done. rewrite decode_prekeys_uploads by done.
  unfold h_bind, db_call, tick, h_bind. cbn [w_tick set_tick w_db]. fold (at_call w). rewrite Hf.
  set (r := mkRegistration _ _ _ _ _ _).
  assert (prekey_inventory (at_call w) !! reg_user_id r = None) as Hinv.
  { apply eq_None_not_Some. rewrite (pk_users _ _ I). cbn. rewrite Hu. by intros []. }
  assert (pk_inv handed (register_atomic (env_unixepoch (w_tick w)) r (at_call w)).2) as I'
    by exact (register_pk_inv handed _ r _ _ _ I (surjective_pairing _)).
  destruct (register_cases (env_unixepoch (w_tick w)) r (at_call w))
    as [[[? E] _]|[(_ & [? E] & _)|(_ & _ & hw & _ & _ & E)]];
    [clear I'; cbn in E; congruence|clear I'; cbn in E, Hinv; congruence|].
  rewrite E in I' |- *. cbn [snd] in I'. clear E.
  match goal with |- context [Registry.insert ?u ?c ?x ?w] =>
    pose proof (registry_insert_db u c x w) as Hw; destruct (Registry.insert u c x w) as [cid w2] end.
  cbn [snd] in Hw. cbn [w_db set_db] in Hw. rewrite <- Hw in I'.
  cbn in Hw |- *. eexists _, _, hw. split; [reflexivity|]. split; [reflexivity|]. split; [exact Hw|exact I'].
Qed.

(** The client keeps the keys it published. *)
Lemma registration_persisted uid server m d t :
  UserId_new (as_str uid) = Ok uid -> fail_persistence m = false -> ce_fault (S (S (S (S t)))) = false ->
  server (registration_message uid (identity m) t) = Some AuthSuccess ->
  exists c', register_with_server (as_str uid) true server (mkClient m (d, t)) = (Ok tt, c')
    /\ stored_spk (c_mgr c') = Some (registration_spk (identity m) t)
    /\ stored_opks (c_mgr c') = extend ((fun k => (opk_key_id k, k)) <$> registration_opks t) ∅
    /\ core_state_row (c_io c').1 = Some (core_state (c_mgr c')).
Proof.
  intros Hu Hp Hf Hs. unfold register_with_server, rm_bind, get_mgr, draw. cbn [negb c_mgr c_io fst snd].
  rewrite registration_batch. cbn [map_err rm_lift]. rewrite Hu. cbn [map_err rm_lift].
  fold (registration_spk (identity m) t). fold (registration_message uid (identity m) t). rewrite Hs.
  unfold persist_registration_keys, rm_bind, get_mgr, CryptoMgr.now_secs, rm_bind, draw, modify_mgr, rm_try,
    persist_state, check_persistence, rm_bind, get_mgr, store, store_io. cbn -[registration_spk registration_opks extend].
  rewrite Hp. cbn -[registration_spk registration_opks extend]. rewrite Hf.
  eexists. split; [done|]. cbn -[registration_spk registration_opks extend]. done.
Qed.

(** C17: Registration agrees.  When the name is free at the moment the relay's
    call runs, whatever other connections do before, and nothing fails, the relay
    accepts the registration message of the client and authenticates the
    connection as the user; the client, told so, has stored its keys in memory
    and in its file; and the two sides then hold the same key material: the
    relay has the client's identity key, the public half and signature of its
    signed pre-key, and exactly the public halves of the one-time pre-keys of which
    the client keeps the secrets. *)
Theorem registration_agrees handed c uid server m d t w :
  let answered := handle_message sha256 server_id c (Session_new c) (registration_message uid (identity m) t) w in
  let d' := w_db answered.2 in
  keys_32 -> length (signing_key (identity m)) = 32%nat -> UserId_new (as_str uid) = Ok uid ->
  fail_persistence m = false -> ce_fault (S (S (S (S t)))) = false -> env_fault (w_tick w) = false ->
  pk_inv handed (at_call w) -> users (at_call w) !! as_str uid = None ->
  server (registration_message uid (identity m) t) = answered.1.1 ->
  authed_user answered.1.2 = Some (as_str uid)
  /\ users d' !! as_str uid = Some (verifying_key (identity m))
  /\ exists c' spk, register_with_server (as_str uid) true server (mkClient m (d, t)) = (Ok tt, c')
     /\ core_state_row (c_io c').1 = Some (core_state (c_mgr c'))
     /\ stored_spk (c_mgr c') = Some spk
     /\ signed_prekeys d' !! (as_str uid, spk_key_id spk) = Some (mkSignedPreKeyRow (spk_public spk) (spk_signature spk))
     /\ forall k, p_public_key <$> prekeys d' !! (as_str uid, k) = opk_public <$> stored_opks (c_mgr c') !! k.
Proof.
  intros answered d' Hk Hi Hu Hp Hf Hsf I Hn Hs.
  destruct (registration_accepted handed c uid (identity m) t w Hk Hi Hsf I Hn) as (s' & w' & hw & E & Ha & Hd & _).
  subst d' answered. rewrite E in *. cbn [fst snd] in *. rewrite Hd.
  destruct (registration_persisted uid server m d t Hu Hp Hf Hs) as (c' & Ec & Hspk & Hopk & Hrow).
  split; [done|]. split; [apply lookup_insert_eq|].
  exists c', (registration_spk (identity m) t). split; [done|]. split; [done|]. split; [done|].
  split; [apply lookup_insert_eq|]. intros k. rewrite Hopk.
  destruct (registration_opks_ok t Hk) as [Hnd _]. apply batch_agrees; [done| |].
  - intros j _. apply lookup_empty.
  - intros j. cbn. rewrite lookup_empty. apply fmap_None. apply eq_None_not_Some. intros Hj.
    destruct (pk_stored _ _ I _ _ Hj) as (h & Hh & _).
    assert (is_Some (users (at_call w) !! as_str uid)) as [? ?] by (apply (pk_users _ _ I); eauto). congruence.
Qed.
End Registration.

(** ** Login *)

Section Login.
Context `{CryptoPrims, Codecs, !CodecLaws, ClientEnv, Env, SqlPick, !IdentityLaws, !SignatureLaws, !PublicKeyLaws}.
Context (sha256 : bytes -> bytes) (server_id : string).

Lemma challenge_given c uid ik w :
  env_fault (w_tick w) = false -> users (at_call w) !! as_str uid = Some (verifying_key ik) ->
  let t := w_tick w in
  (handle_message sha256 server_id c (Session_new c) (AuthChallenge uid) w).1
  = (Some (Challenge (b64_encode (env_random (S t))) (env_clock (S (S t))) server_id),
     mkSessionOf None None (Some (mkPendingChallenge (as_str uid) (env_random (S t)) (env_clock (S (S t))))) false c).
Proof.
  intros Hf Hu. unfold handle_message, handle_auth_challenge, h_bind, db_call, tick, h_bind. cbn.
  fold (at_call w). rewrite Hf. cbn. rewrite Hu. cbn. unfold random_bytes, ServerWorld.now_secs, tick, h_bind, h_ret. cbn. done.
Qed.

(** The answer of the client to a challenge of the relay. *)
Lemma challenge_answered ik ch :
  handle_auth_flow (Some (Challenge (b64_encode (pc_nonce ch)) (pc_timestamp ch) server_id)) ik
  = Some (AuthResponse (b64_encode (ed25519_sign (signing_key ik) (signed_data server_id ch)))).
Proof. unfold handle_auth_flow. by rewrite b64_roundtrip. Qed.

Lemma signature_accepted ik ch :
  length (signing_key ik) = 32%nat ->
  check_signature server_id ch (verifying_key ik)
    (b64_encode (ed25519_sign (signing_key ik) (signed_data server_id ch))) = Ok tt.
Proof.
  intros Hi. unfold check_signature, sized, verifying_key. rewrite ed25519_public_32, Nat.eqb_refl by done.
  cbn -[Nat.eqb]. rewrite ed25519_public_valid by done. cbn -[Nat.eqb]. rewrite b64_roundtrip. cbn -[Nat.eqb].
  rewrite length_sign, Nat.eqb_refl. cbn. by rewrite sign_verifies.
Qed.

Lemma response_accepted c ik ch flag w :
  length (signing_key ik) = 32%nat -> env_fault (S (w_tick w)) = false ->
  users (env_others (S (w_tick w)) (w_db w)) !! pc_user_id ch = Some (verifying_key ik) -> env_clock (w_tick w) <= pc_timestamp ch + 60 ->
  let answered := handle_message sha256 server_id c (mkSessionOf None None (Some ch) flag c)
    (AuthResponse (b64_encode (ed25519_sign (signing_key ik) (signed_data server_id ch)))) w in
  answered.1.1 = Some AuthSuccess /\ authed_user answered.1.2 = Some (pc_user_id ch)
  /\ exists e, w_online answered.2 !! pc_user_id ch = Some e /\ sender e = c.
Proof.
  intros Hi Hf Hu Hc. unfold handle_message, handle_auth_response, h_bind. cbn [authed_user pending_challenge].
  unfold ServerWorld.now_secs, tick, h_bind, h_ret. cbn [fst snd].
  destruct (Z.ltb_spec 60 (saturating_sub (env_clock (w_tick w)) (pc_timestamp ch)));
    [unfold saturating_sub in *; lia|].
  unfold db_call, tick, h_bind. cbn -[Registry.insert]. rewrite Hf. cbn -[Registry.insert].
  rewrite Hu, signature_accepted by done.
  match goal with |- context [Registry.insert ?u ?c ?x ?w] =>
    pose proof (insert_online u c x w) as Ho; destruct (Registry.insert u c x w) as [cid w2] end.
  cbn in Ho |- *. split; [done|]. split; [done|]. eexists. rewrite Ho. split; [apply lookup_insert_eq|done].
Qed.

Lemma run_last uid ik failed a b :
  exists acts b', (run_from uid ik (failed ++ [a]) b).1 = acts ++ (run_attempt uid ik a b').1.
Proof.
  revert b. induction failed as [|x l IH]; intros b; cbn [run_from app].
  - destruct (run_attempt uid ik a b) as [acts b'] eqn:E. exists [], b. cbn. by rewrite E, app_nil_r.
  - destruct (run_attempt uid ik x b) as [acts b1]. destruct (IH b1) as (acts' & b' & E).
    destruct (run_from uid ik (l ++ [a]) b1) as [rest b2]. cbn in E |- *. exists (acts ++ acts'), b'.
    by rewrite E, app_assoc.
Qed.

(** The answer to the login of a user on connection [c], and the world after it. *)
Definition logged_in (c : nat) (uid : UserId) (answered : option ServerMessage * Session * World) : Prop :=
  answered.1.1 = Some AuthSuccess /\ authed_user answered.1.2 = Some (as_str uid)
  /\ exists e, w_online answered.2 !! as_str uid = Some e /\ sender e = c.

(** C16: A registered client logs in.  After any number of failed attempts, when a
    connection is made and nothing fails, the relay gives a challenge; the
    client's answer to it, handled up to 60 seconds later with whatever
    happened in between, is accepted if the relay still has the client's
    identity key when its call runs; the connection is then registered for the user, and the
    client's task reports that it is authenticated. *)
Theorem login_succeeds c uid ik failed relayed w1 w2 :
  let asked := handle_message sha256 server_id c (Session_new c) (AuthChallenge uid) w1 in
  length (signing_key ik) = 32%nat ->
  env_fault (w_tick w1) = false -> users (at_call w1) !! as_str uid = Some (verifying_key ik) ->
  env_fault (S (w_tick w2)) = false ->
  users (env_others (S (w_tick w2)) (w_db w2)) !! as_str uid = Some (verifying_key ik) ->
  env_clock (w_tick w2) <= env_clock (S (S (w_tick w1))) + 60 ->
  exists response, handle_auth_flow asked.1.1 ik = Some response
    /\ let answered := handle_message sha256 server_id c asked.1.2 response w2 in
       logged_in c uid answered
       /\ Emit ClientApp.EvAuthenticated
            ∈ (run uid ik (failed ++ [Challenged asked.1.1 true answered.1.1 relayed])).1.
Proof.
  intros asked Hi Hf1 Hu1 Hf2 Hu2 Hc. subst asked. rewrite (challenge_given c uid ik w1 Hf1 Hu1). cbn [fst snd].
  set (ch := mkPendingChallenge (as_str uid) (env_random (S (w_tick w1))) (env_clock (S (S (w_tick w1))))).
  pose proof (challenge_answered ik ch) as Hr. cbn [pc_nonce pc_timestamp ch] in Hr. rewrite Hr.
  eexists. split; [done|]. cbv zeta.
  destruct (response_accepted c ik ch false w2 Hi Hf2 Hu2 Hc) as (Ea & Eu & Ee). rewrite Ea.
  split; [done|]. unfold run.
  destruct (run_last uid ik failed (Challenged (Some (Challenge (b64_encode (env_random (S (w_tick w1))))
    (env_clock (S (S (w_tick w1)))) server_id)) true (Some AuthSuccess) relayed) 1) as (acts & b & ->).
  apply elem_of_app. right. unfold run_attempt. rewrite Hr. cbn. rewrite !elem_of_cons. tauto.
Qed.
End Login.

(** ** Rotation of the signed pre-key *)

Lemma newest_is u k d :
  is_Some (signed_prekeys d !! (u, k)) -> (forall j, is_Some (signed_prekeys d !! (u, j)) -> j <= k) ->
  newest u d = Some k.
Proof.
  intros Hk Hj. unfold newest. destruct (max_of_Some k (ids_of u (signed_prekeys d))) as (m & E & Hm).
  { by apply elem_of_ids_of. }
  rewrite E. f_equal. apply max_of_spec in E as [Hin _]. apply elem_of_ids_of, Hj in Hin. lia.
Qed.

Lemma position_exists {A} (p : A -> bool) l i x :
  l !! i = Some x -> p x = true -> is_Some (position p l).
Proof.
  revert i. induction l as [|y l IH]; intros [|i] Hi Hp; cbn in *; try done.
  - injection Hi as ->. rewrite Hp. eauto.
  - destruct (p y); [eauto|]. destruct (IH i Hi Hp) as [j ->]. cbn. eauto.
Qed.

Section Rotation.
Context `{CryptoPrims, Codecs, !CodecLaws, ClientEnv, Env, SqlPick, !IdentityLaws, !SignatureLaws, !PublicKeyLaws}.
Context (sha256 : bytes -> bytes) (server_id : string).

(** The rotation with this id is where it is. *)
Lemma rotation_position l i r k pk sg :
  NoDup (item_id <$> l) -> l !! i = Some (PSignedPreKeyRotation r k pk sg) -> position (is_rotation_of r) l = Some i.
Proof.
  intros Hn Hi. destruct (position_exists (is_rotation_of r) l i _ Hi) as [j Hj].
  { cbn. by apply bool_decide_eq_true. }
  rewrite Hj. apply position_lookup in Hj as (p & Hj & Hp). f_equal.
  destruct p; try done. cbn in Hp. apply bool_decide_eq_true in Hp as ->.
  eapply (NoDup_lookup _ _ _ r Hn); by rewrite list_lookup_fmap, ?Hi, ?Hj.
Qed.

(** The id and the key of the rotation that replaces a rejected one. *)
Definition replacement_id (m : CryptoManager) (restored : SignedPreKey) (current : Z) : Z :=
  Z.max (Z.max (next_signed_prekey_id m) (saturating_add u32_max (spk_key_id restored) 1)) (current + 1).
Definition replacement_key (m : CryptoManager) (restored : SignedPreKey) (current : Z) (t : nat) : SignedPreKey :=
  SignedPreKey_generate (replacement_id m restored current) (identity m) (ce_random t 0).

Lemma reconcile_replaces index i k pk sg prev cur restored m d t :
  NoDup (item_id <$> pending_outbound m) ->
  pending_outbound m !! index = Some (PSignedPreKeyRotation i k pk sg) ->
  head (previous_spks m) = Some restored -> is_Some (stored_spk m) -> fail_persistence m = false ->
  ce_fault (S (S (S t))) = false -> uuid_to_string (ce_uuid (S t)) ∉ (outbox d).*1 ->
  replacement_id m restored cur < u32_max ->
  let item := rotation_item (ce_uuid (S t)) (replacement_key m restored cur t) in
  exists m' d', confirm_signed_prekey_rotated i false prev cur (mkClient m (d, t))
      = (Ok (Some (to_client_message item)), mkClient m' (d', S (S (S (S t)))))
    /\ stored_spk m' = Some (replacement_key m restored cur t)
    /\ pending_outbound m' = <[index := item]> (pending_outbound m) /\ fail_persistence m' = false.
Proof.
  intros Hn Hi Hre [cu Hcu] Hp Hf Hu Hm item.
  unfold confirm_signed_prekey_rotated, rm_bind, get_mgr. cbn [c_mgr].
  rewrite (rotation_position _ _ _ _ _ _ Hn Hi), Hi. cbn [andb].
  unfold reconcile_rejected_signed_prekey_rotation, rm_bind, check_persistence, rm_bind, get_mgr. cbn [c_mgr c_io].
  rewrite Hp. cbn [rm_ret c_mgr c_io]. rewrite Hre. cbn [ok_or rm_lift].
  rewrite checked_add_fits by (unfold replacement_id in Hm; lia). cbn [ok_or rm_lift].
  fold (replacement_id m restored cur). rewrite checked_add_fits by lia. cbn [ok_or rm_lift].
  unfold draw, new_message_id, draw, rm_bind. cbn [c_mgr c_io fst snd rm_ret].
  fold (replacement_key m restored cur t). fold item.
  rewrite Hcu, (bool_decide_eq_false_2 (Some cu = None)), andb_false_r by done. rewrite Hi. cbn [ok_or rm_lift].
  unfold CryptoMgr.now_secs, draw, rm_bind, modify_mgr, rm_try, store, store_io.
  cbn -[take drop replacement_key save_core_and_replace_outbound]. rewrite Hf.
  unfold save_core_and_replace_outbound, insert_outbox. rewrite bool_decide_eq_false_2.
  2: { cbn. intros (r & Hr1 & [_ Hr2]%list_elem_of_filter)%list_elem_of_fmap. apply Hu, list_elem_of_fmap. by exists r. }
  cbn -[take drop replacement_key]. eexists _, _. split; [done|]. done.
Qed.

(** The other connections neither remove the user nor rotate the key of the user. *)
Definition others_spare (u : string) : Prop :=
  forall t d, users (env_others t d) !! u = users d !! u /\ newest u (env_others t d) = newest u d.

(** The relay accepts it. *)
Lemma replacement_accepted u ik kid rng rid w cur :
  length (signing_key ik) = 32%nat -> length rng = 32%nat -> (forall t, env_fault t = false) ->
  others_spare u -> users (w_db w) !! u = Some (verifying_key ik) -> newest u (w_db w) = Some cur -> u32 cur -> cur < kid ->
  let spk := SignedPreKey_generate kid ik rng in
  exists w', handle_user_message sha256 u (to_client_message (rotation_item rid spk)) w
      = (Some (SignedPreKeyRotated rid true false kid), w')
    /\ newest u (w_db w') = Some kid
    /\ signed_prekeys (w_db w') !! (u, kid) = Some (mkSignedPreKeyRow (spk_public spk) (spk_signature spk)).
Proof.
  intros Hi Hr Hf Ho Hu Hn Hc Hlt spk.
  destruct (Ho (w_tick w) (w_db w)) as [Ho1 Ho2]. destruct (Ho (S (w_tick w)) (env_others (w_tick w) (w_db w))) as [Ho4 Ho3].
  unfold handle_user_message, rotation_item, to_client_message, handle_signed_prekey_rotation, validate_signed_prekey_rotation,
    decode_signed_prekey. rewrite !b64_roundtrip. cbn [ok_or].
  unfold sized. rewrite (x25519_public_32 rng Hr : length (spk_public spk) = 32%nat), Nat.eqb_refl. cbn [ok_or].
  rewrite (length_sign _ _ : length (spk_signature spk) = 64%nat), Nat.eqb_refl. cbn [ok_or].
  unfold h_bind, db_call, tick, h_bind. rewrite Hf. cbn [get_identity_key set_tick w_db]. rewrite Ho1, Hu.
  unfold verify_signed_prekey, sized. rewrite (ed25519_public_32 _ Hi : length (verifying_key ik) = 32%nat), Nat.eqb_refl.
  cbn [ok_or]. rewrite (ed25519_public_valid _ Hi : ed25519_from_bytes (verifying_key ik) = true). cbn [negb].
  rewrite (sign_verifies _ _ : ed25519_verify (verifying_key ik) (spk_public spk) (spk_signature spk) = true). cbn [negb h_ret].
  unfold store_signed_prekey_rotation, h_bind, db_call, tick, h_bind. rewrite Hf. cbn -[rotate_signed_prekey].
  destruct (rotate_newer u kid (spk_public spk) (spk_signature spk) (env_others (S (w_tick w)) (env_others (w_tick w) (w_db w))) cur) as (t & E & T1 & T2 & T3 & _);
    [rewrite Ho4, Ho1; by eauto|by rewrite Ho3, Ho2|done..|]. unfold spk in *. cbn in E, T1, T2, T3 |- *. rewrite E. eexists. split; [done|]. cbn. split; [|done].
  apply newest_is; cbn; [by eauto|]. intros j Hj.
  destruct (decide (j = kid)), (decide (j = cur)); try lia. rewrite T3 in Hj by done. by destruct Hj.
Qed.

(** The client takes the acceptance. *)
Lemma acceptance_confirmed index i kid pk sg m d t :
  NoDup (item_id <$> pending_outbound m) ->
  pending_outbound m !! index = Some (PSignedPreKeyRotation i kid pk sg) ->
  fail_persistence m = false -> ce_fault t = false ->
  exists m' d', confirm_signed_prekey_rotated i true false kid (mkClient m (d, t)) = (Ok None, mkClient m' (d', S t))
    /\ stored_spk m' = stored_spk m /\ pending_outbound m' = delete index (pending_outbound m).
Proof.
  intros Hn Hi Hp Hf. unfold confirm_signed_prekey_rotated, rm_bind, get_mgr. cbn [c_mgr].
  rewrite (rotation_position _ _ _ _ _ _ Hn Hi), Hi, Z.eqb_refl. cbn [andb].
  unfold confirm_accepted_signed_prekey_rotation, rm_bind, check_persistence, rm_bind, get_mgr. cbn [c_mgr c_io].
  rewrite Hp. unfold modify_mgr, rm_try, store, store_io. cbn -[take drop]. rewrite Hf.
  unfold save_core_and_delete_outbound. cbn -[take drop]. eexists _, _. split; [done|]. done.
Qed.

(** C15: A rejected rotation converges in one round trip.  When the relay refused a
    queued rotation and told the client its current key, the client replaces the
    rotation by one with a newer key; the relay accepts it, whatever the
    histories of the two sides were and whatever other connections do between
    its two calls (short of rotating the key of this user); and on that answer the rotation leaves the
    outbox, with the relay's current signed pre-key being the one whose secret
    the client holds as its own current one. *)
Theorem rotation_converges u index i k pk sg prev cur restored m d t w :
  client_inv (mkClient m (d, t)) ->
  pending_outbound m !! index = Some (PSignedPreKeyRotation i k pk sg) ->
  head (previous_spks m) = Some restored -> is_Some (stored_spk m) -> fail_persistence m = false ->
  (forall n, ce_fault n = false) -> (forall n, env_fault n = false) -> others_spare u -> keys_32 ->
  length (signing_key (identity m)) = 32%nat -> uuid_to_string (ce_uuid (S t)) ∉ (outbox d).*1 ->
  users (w_db w) !! u = Some (verifying_key (identity m)) -> newest u (w_db w) = Some cur -> u32 cur ->
  replacement_id m restored cur < u32_max ->
  exists msg rid spk c1 w1 c2,
    confirm_signed_prekey_rotated i false prev cur (mkClient m (d, t)) = (Ok (Some msg), c1)
    /\ handle_user_message sha256 u msg w = (Some (SignedPreKeyRotated rid true false (spk_key_id spk)), w1)
    /\ confirm_signed_prekey_rotated rid true false (spk_key_id spk) c1 = (Ok None, c2)
    /\ pending_outbound (c_mgr c2) = delete index (pending_outbound m)
    /\ stored_spk (c_mgr c2) = Some spk /\ spk_public spk = x25519_public (spk_secret spk)
    /\ newest u (w_db w1) = Some (spk_key_id spk)
    /\ signed_prekeys (w_db w1) !! (u, spk_key_id spk) = Some (mkSignedPreKeyRow (spk_public spk) (spk_signature spk)).
Proof.
  intros I Hi Hre Hcu Hp Hf Hsf Hos Hk Hik Hu Hus Hn Hc Hm. set (spk := replacement_key m restored cur t).
  assert (NoDup (item_id <$> pending_outbound m)) as Hnd by apply (ci_wf _ I).
  destruct (reconcile_replaces index i k pk sg prev cur restored m d t) as (m1 & d1 & E1 & Hs1 & Ho1 & Hp1); try done.
  destruct (replacement_accepted u (identity m) (replacement_id m restored cur) (ce_random t 0) (ce_uuid (S t)) w cur)
    as (w1 & E2 & Hn2 & Hr2); try done; [unfold replacement_id; lia|].
  destruct (confirm_signed_prekey_rotated_safe i false prev cur (mkClient m (d, t)) I) as (I1 & _).
  rewrite E1 in I1. assert (index < length (pending_outbound m))%nat as Hlt by by eapply lookup_lt_Some.
  destruct (acceptance_confirmed index (ce_uuid (S t)) (spk_key_id spk) (b64_encode (spk_public spk))
    (b64_encode (spk_signature spk)) m1 d1 (S (S (S (S t))))) as (m2 & d2 & E3 & Hs3 & Ho3); try done.
  { apply (ci_wf _ I1). }
  { rewrite Ho1. by apply list_lookup_insert_eq. }
  eexists _, (ce_uuid (S t)), spk, _, w1, _. split; [exact E1|]. split; [exact E2|]. split; [exact E3|]. cbn [c_mgr].
  split; [rewrite Ho3, Ho1, !delete_take_drop, take_insert_ge by done; by rewrite drop_insert_lt by lia|].
  split; [by rewrite Hs3|]. done.
Qed.
End Rotation.
