(* ===== verification/Directory.v ===== *)
(** * The relay as a directory of keys

    What the relay hands out for a user are keys that the user published: over
    any history of the database and with any other requests between the calls
    of [handle_fetch], a bundle is the identity key of the user, one of the
    signed pre-keys and at most one of the one-time pre-keys the user has
    registered, rotated to or uploaded. *)
From stdpp Require Import base numbers list strings gmap.
From S2P Require Import Prelude Consts Types Primitives Keys SqlDb DbUsers DbPrekeys DbQueue DbReceipts DbTrace DbLimits ServerWorld Handlers HandlerFacts CryptoMgrContact.
Local Open Scope Z_scope.
Local Open Scope cmp_scope.

(** The keys a user has published so far. *)
Record Published := mkPublished {
  pub_identity : IdentityKeyPair;
  pub_spks : list SignedPreKey;
  pub_opks : list Keys.OneTimePreKey;
}.

(** The rows for a key. *)
Definition spk_row (spk : SignedPreKey) : SignedPreKeyRow := mkSignedPreKeyRow (spk_public spk) (spk_signature spk).
Definition opk_pair (k : Keys.OneTimePreKey) : Z * bytes := (opk_key_id k, opk_public k).

Section Directory.
Context `{CryptoPrims}.

(** The tables hold, for the user, keys that were published and nothing else. *)
Record directory (u : string) (P : Published) (d : Db) : Prop := {
  dir_inv : exists handed, pk_inv handed d;
  dir_identity : users d !! u = Some (verifying_key (pub_identity P));
  dir_spks : forall k r, signed_prekeys d !! (u, k) = Some r ->
    exists spk, spk ∈ pub_spks P /\ k = spk_key_id spk /\ r = spk_row spk;
  dir_opks : forall k r, prekeys d !! (u, k) = Some r ->
    exists o, o ∈ pub_opks P /\ (k, p_public_key r) = opk_pair o;
}.

(** An operation that is the user's own publishes keys of [P]. *)
Definition publishes (u : string) (P : Published) (o : op) : Prop :=
  match o with
  | OpUpload _ v new => v = u -> forall r, r ∈ new -> exists k, k ∈ pub_opks P /\ r = opk_pair k
  | OpRotate v k pk sg => v = u -> exists spk, spk ∈ pub_spks P /\ k = spk_key_id spk /\ mkSignedPreKeyRow pk sg = spk_row spk
  | _ => True
  end.

Lemma rotate_rows v k pk sg d u j r :
  signed_prekeys (rotate_signed_prekey v k pk sg d).2 !! (u, j) = Some r ->
  signed_prekeys d !! (u, j) = Some r \/ (u = v /\ j = k /\ r = mkSignedPreKeyRow pk sg).
Proof.
  unfold rotate_signed_prekey, transaction, check_user_fk, modify. rm_unfold.
  destruct (ok_or _ _) as [c|]; simpl; [|by left].
  destruct (get_u32 c) as [cur|]; simpl; [|by left].
  destruct (signed_prekeys d !! (v, k)); simpl; [by left|].
  destruct (k <=? cur); simpl; [by left|].
  destruct (users d !! v) eqn:Hu; simpl; [|by left].
  intros [Hr _]%map_lookup_filter_Some. apply lookup_insert_Some in Hr as [[[= <- <-] <-]|[_ Hr]]; auto.
Qed.

(** A stored pre-key was there or is in the batch. *)
Lemma with_prekeys_row now v new t u k r :
  with_prekeys now v new t !! (u, k) = Some r -> t !! (u, k) = Some r \/ (u = v /\ (k, p_public_key r) ∈ new).
Proof.
  rewrite with_prekeys_lookup. destruct (t !! (u, k)); [by left|]. cbn. case_decide; [|done].
  destruct (list_find _ new) as [[i [k' pk]]|] eqn:E; [|done]. cbn. intros [= <-]. right. split; [done|].
  apply list_find_Some in E as (Hi & Hk & _). cbn in Hk |- *. subst k'. by eapply list_elem_of_lookup_2.
Qed.

Lemma directory_same u P d d' :
  users d' = users d -> signed_prekeys d' = signed_prekeys d -> prekeys d' = prekeys d ->
  (exists handed, pk_inv handed d') -> directory u P d -> directory u P d'.
Proof. intros E1 E2 E3 Hp []. split; rewrite ?E1, ?E2, ?E3; auto. Qed.

Context `{SqlPickLaws}.
Context (sha256 : bytes -> bytes).

Lemma exec_directory u P o d : publishes u P o -> directory u P d -> directory u P (exec sha256 o d).2.
Proof.
  intros Hpub D. pose proof (exec_handed sha256 o d (dir_inv _ _ _ D)) as Hp.
  destruct o; cbn [exec fst snd] in *.
  1,8-14: revert Hp; try frame; intros Hp; first [done|by apply (directory_same u P d)].
  - destruct (register_cases unixepoch r d) as [[_ E]|[(_ & _ & E)|(Hu & _ & hw & _ & _ & E)]]; rewrite E in Hp |- *; [done..|].
    destruct D as [_ Hi Hs Ho]. assert (u <> reg_user_id r) as Hne by congruence. split; [done|..]; cbn.
    + by rewrite lookup_insert_ne by done.
    + intros k row. rewrite lookup_insert_ne by congruence. apply Hs.
    + intros k row [Hr|[? _]]%with_prekeys_row; [by apply Ho|done].
  - destruct (dir_inv _ _ _ D) as [handed I].
    pose proof (upload_cases unixepoch user_id new MAX_PREKEYS_PER_USER d (proj1 (pk_users _ _ I user_id))) as Hc. cbv zeta in Hc.
    destruct Hc as [[res E]|(hw & m & _ & _ & _ & _ & res & E)]; rewrite E in Hp |- *; [done|].
    destruct D as [_ Hi Hs Ho]. split; [done..|]. cbn -[delete_expired]. intros k row [Hr|[-> Hr]]%with_prekeys_row.
    + cbn in Hr. apply map_lookup_filter_Some in Hr as [Hr _]. by apply Ho.
    + by apply Hpub.
  - destruct (rotate_frame user_id key_id public_key signature d) as [t E].
    pose proof (rotate_rows user_id key_id public_key signature d) as Hr. rewrite E in Hp, Hr |- *.
    destruct D as [_ Hi Hs Ho]. split; [done..| |done]. cbn in Hr |- *.
    intros k row [?|(-> & -> & ->)]%Hr; [by apply Hs|by apply Hpub].
  - pose proof (fetch_cases requester_id target_id now fetch_limits d) as Hc. cbv zeta in Hc.
    destruct Hc as [(res & E & _)|[[E _]|(k0 & row0 & _ & _ & _ & E)]]; rewrite E in Hp |- *; [done|..];
      destruct D as [_ Hi Hs Ho]; (split; [done..|]); intros k row; cbn.
    + intros [Hr _]%map_lookup_filter_Some. by apply Ho.
    + intros [_ Hr]%lookup_delete_Some. apply map_lookup_filter_Some in Hr as [Hr _]. by apply Ho.
  - destruct (enqueue_cases sha256 datetime_now request d)
      as [(r & E & _)|(_ & _ & _ & _ & _ & _ & _ & E)]; cbv zeta in E; rewrite E in Hp |- *; [done|].
    eapply directory_same; [..|exact Hp|exact D]; cbn; unfold claimed_db; by destruct (er_one_time_prekey_id request).
  - destruct (confirm_frame sender_id message_ids d) as (n & t & E & _). rewrite E in Hp |- *. by eapply directory_same; [..|exact D].
Qed.

Lemma run_directory u P ops d :
  Forall (publishes u P) ops -> directory u P d -> directory u P (run sha256 ops d).2.
Proof.
  intros Hops. revert d. induction Hops as [|o ops Ho _ IH]; intros d D; [done|].
  rewrite run_cons. cbn [snd]. by apply IH, exec_directory.
Qed.
End Directory.

(** ** Fetching a bundle *)

Section Fetch.
Context `{CryptoPrims, Codecs, Env, SqlPickLaws}.
Context (sha256 : bytes -> bytes).

(** What other connections do while a handler waits are operations, and those
    of the user's own clients publish keys of [P]. *)
Definition others_publish (u : string) (P : Published) : Prop :=
  forall t d, exists os, Forall (publishes u P) os /\ env_others t d = (run sha256 os d).2.

Lemma others_publish_alone `{!Alone} u P : others_publish u P.
Proof. intros t d. exists []. split; [done|]. by rewrite others_none. Qed.

Lemma at_call_directory u P w : others_publish u P -> directory u P (w_db w) -> directory u P (at_call w).
Proof. intros Ho D. unfold at_call. destruct (Ho (w_tick w) (w_db w)) as (os & Hos & ->). by apply run_directory. Qed.

Lemma stored_signed_prekey u d k r d' :
  get_signed_prekey u d = (Ok (Some (k, r)), d') -> signed_prekeys d !! (u, k) = Some r.
Proof.
  unfold get_signed_prekey. rm_unfold. destruct (max_of _) as [m|]; [|done].
  unfold get_u32. destruct (_ && _); [|done]. destruct (signed_prekeys d !! (u, m)) as [x|] eqn:E; [|done].
  by intros [= <- <- _].
Qed.

Lemma fetched_prekey u P r now d k pk d' :
  directory u P d -> fetch_for_requester r u now fetch_limits d = (Ok (Fetched k pk), d') ->
  exists o, o ∈ pub_opks P /\ (k, pk) = opk_pair o.
Proof.
  intros D E. pose proof (fetch_cases r u now fetch_limits d) as Hc. cbv zeta in Hc.
  destruct Hc as [(res & E' & Hn)|[[E' _]|(k0 & row & Hr & _ & _ & E')]]; rewrite E' in E; [|done|].
  - injection E as -> _. by destruct (Hn k pk).
  - injection E as <- <- _. cbn in Hr. apply map_lookup_filter_Some in Hr as [Hr _]. by apply (dir_opks _ _ _ D).
Qed.

Lemma answer_bundle_is v b w : (answer_bundle v b w).1 = PreKeyBundleResponse v b.
Proof.
  unfold answer_bundle, h_bind. destruct (db_call _ w) as [[r|e] w1]; [|done].
  destruct (r <? PREKEY_LOW_THRESHOLD); [by destruct (Registry.send_to _ _ w1)|done].
Qed.

(** A bundle that [handle_fetch] answers, with the database at its start in
    directory order. *)
Lemma fetch_published P uid req w v b :
  directory (as_str uid) P (w_db w) -> others_publish (as_str uid) P ->
  (handle_fetch req uid w).1 = PreKeyBundleResponse v b ->
  v = uid /\ exists spk opk, spk ∈ pub_spks P /\ (forall k, opk = Some k -> k ∈ pub_opks P)
    /\ b = wire_bundle (pub_identity P) spk opk.
Proof.
  intros D Ho. unfold handle_fetch. case_bool_decide; [done|].
  apply at_call_directory in D; [|done]. unfold h_bind at 1.
  destruct (db_call (fun _ => get_identity_key (as_str uid)) w) as [[[k|]|] w1] eqn:E1; [|done|done].
  apply db_call_ok in E1. injection E1 as Hk Hw1. rewrite (dir_identity _ _ _ D) in Hk. injection Hk as <-.
  rewrite Hw1 in D. clear Hw1. apply at_call_directory in D; [|done]. unfold h_bind at 1.
  destruct (db_call (fun _ => get_signed_prekey (as_str uid)) w1) as [[[[k r]|]|] w2] eqn:E2; [|done|done].
  apply db_call_ok in E2. pose proof (get_signed_prekey_read (as_str uid) (at_call w1)) as Hw2. rewrite E2 in Hw2. cbn in Hw2.
  apply stored_signed_prekey, (dir_spks _ _ _ D) in E2 as (spk & Hspk & -> & ->).
  rewrite <- Hw2 in D. clear Hw2. unfold h_bind at 1. destruct (ServerWorld.now_secs w2) as [now w3] eqn:E3.
  assert (w_db w3 = w_db w2) as Hw3 by (unfold ServerWorld.now_secs, h_bind, tick, h_ret in E3; by injection E3 as _ <-).
  rewrite <- Hw3 in D. apply at_call_directory in D; [|done]. unfold h_bind at 1.
  destruct (db_call (fun _ => fetch_for_requester req (as_str uid) now fetch_limits) w3) as [[res|] w4] eqn:E4; [|done].
  apply db_call_ok in E4. destruct res as [k pk| | |]; [| | |done]; rewrite answer_bundle_is; intros [= <- <-]; (split; [done|]).
  - destruct (fetched_prekey _ _ _ _ _ _ _ _ D E4) as (o & Hopk & [= -> ->]).
    exists spk, (Some o). split; [done|]. split; [|done]. by intros ? [= <-].
  - by exists spk, None.
  - by exists spk, None.
Qed.

(** C6: A bundle holds the keys its owner published.  Start from a database whose
    keys for the user are published ones (as after a registration) and take any
    history of operations, in which the user's own uploads and rotations are
    of published keys.  When the relay then answers a request for the keys of
    the user with a bundle, even with other requests between its four calls,
    the bundle is made of the identity key of the user, a published signed
    pre-key and at most one published one-time pre-key. *)
Theorem bundle_is_published P uid req ops d w v b :
  directory (as_str uid) P d -> Forall (publishes (as_str uid) P) ops -> w_db w = (run sha256 ops d).2 ->
  others_publish (as_str uid) P -> (handle_fetch req uid w).1 = PreKeyBundleResponse v b ->
  v = uid /\ exists spk opk, spk ∈ pub_spks P /\ (forall k, opk = Some k -> k ∈ pub_opks P)
    /\ b = wire_bundle (pub_identity P) spk opk.
Proof.
  intros D Hops Ew Ho. apply fetch_published; [|done]. rewrite Ew. by apply run_directory.
Qed.
End Fetch.
