(* ===== verification/EndToEnd.v ===== *)
(** * From the relay to the recipient's database

    The relay's database, the client of one user and the network between them
    as one transition system: the client takes turns with any input and is
    restarted at any moment; the relay executes the database operations of all
    its users in any order; what the client puts on its channel reaches the
    relay at any later time, any number of times, or never. *)
From stdpp Require Import base numbers list strings gmap.
From S2P Require Import Prelude Consts Types Primitives Keys X3dh Ratchet SqlDb DbUsers DbPrekeys DbQueue DbReceipts DbTrace DbLimits ServerWorld Handlers HandlerFacts CryptoStore CryptoMgr CryptoMgrInv CryptoMgrFacts CryptoMgrRecv CryptoMgrPrekeys CryptoMgrLedger CryptoMgrCrash ClientDb Verification ClientApp ClientInput ClientUi ClientNet ClientAppInv ClientAppRun.
Local Open Scope Z_scope.
Local Open Scope cmp_scope.

Section System.
Context `{CryptoPrims, Codecs, ClientEnv, TextArea, AppEnv, SqlPick}.
Context (sha256 : bytes -> bytes) (uid : UserId) (ik : IdentityKeyPair).

(** [sys_sent] is everything the client has put on its channel so far, and
    [sys_inputs] everything it was given. *)
Record System := mkSystem {
  sys_db : Db;
  sys_client : World;
  sys_sent : list ClientMessage;
  sys_inputs : list Input;
}.

(** The relay deletes messages of the user only on an acknowledgement that the
    user's client has sent ([handle_ack] on the user's own connection). *)
Definition relay_may (sent : list ClientMessage) (o : op) : Prop :=
  forall ids, o = OpDelete (as_str uid) ids ->
    exists i l, Ack i l ∈ sent /\ ids = uuid_to_string <$> l.

(** The requests of all connections are such: those of the user's connection are
    messages the client has sent. *)
Lemma request_permitted `{Env} sent v msg :
  (v = as_str uid -> msg ∈ sent) -> db_steps sha256 (relay_may sent) (handle_user_message sha256 v msg).
Proof.
  intros Hv. eapply steps_weaken; [|apply steps_user]. intros o Ho ids ->.
  destruct Ho as (Ev & i & l & -> & ->). exists i, l. split; [by apply Hv|done].
Qed.

(** The relay gives the row up by itself: it is too old, or is found invalid on
    delivery. *)
Definition discards (r : QueueRow) (o : op) : bool :=
  match o with OpDelete _ _ => false | _ => releases r o end.

(** Steps, with the database operations of the relay among them. *)
Inductive sys_run (s : System) : list op -> System -> Prop :=
| run_here : sys_run s [] s
| run_turn ops s' i :
    sys_run s ops s' -> parsed i ->
    let w := (step i (sys_client s')).2 in
    sys_run s ops (mkSystem (sys_db s') w (sys_sent s' ++ w_out w) (sys_inputs s' ++ [i]))
| run_restart ops s' connected server t w :
    sys_run s ops s' -> (w_tick (sys_client s') <= t)%nat ->
    boot uid ik connected server (w_disk (sys_client s')) (w_db (sys_client s')) t = Some w ->
    sys_run s ops (mkSystem (sys_db s') w (sys_sent s' ++ w_out w) (sys_inputs s'))
| run_relay ops s' o :
    sys_run s ops s' -> relay_may (sys_sent s') o ->
    sys_run s (ops ++ [o]) (mkSystem (DbTrace.exec sha256 o (sys_db s')).2 (sys_client s') (sys_sent s') (sys_inputs s')).

(** The client has just been started for the first time. *)
Definition sys_start (d : Db) (w : World) : System := mkSystem d w (w_out w) [].
End System.

Section NoLoss.
Context `{CryptoPrims, Codecs, !CodecLaws, ClientEnv, !KdfLaws, !SignatureLaws, TextArea, AppEnv, SqlPick, !SqlPickLaws}.
Context (sha256 : bytes -> bytes) (uid : UserId) (ik : IdentityKeyPair).

Lemma boot_keeps_history connected server d file t w i :
  file_ok uid ik file -> boot uid ik connected server d file t = Some w ->
  in_history file i -> in_history (w_db w) i.
Proof.
  intros Hf. unfold boot. destruct (load_or_generate ik (d, t)) as [[m|e] io]; [|done].
  set (c := if needs_registration m then _ else _). clearbody c.
  pose proof (open_file uid ik file (c_io c).2 Hf) as Ho. destruct (open (file, (c_io c).2)) as [r [file' t']].
  destruct Ho as (_ & _ & Hh & _). intros [= <-]. unfold initialized_app, rm_bind, get_app. cbn.
  destruct (is_err r); cbn; apply Hh.
Qed.

(** The client is in a state it can reach, and knows what it has acknowledged. *)
Definition sys_inv (s : System) : Prop :=
  app_reachable uid ik (sys_inputs s) (sys_client s)
  /\ forall i l x, Ack i l ∈ sys_sent s -> x ∈ l -> known (receipts (sys_inputs s)) (sys_client s) (uuid_to_string x).

(** What is known stays known through a turn and a restart. *)
Lemma turn_knows hist w i x :
  app_reachable uid ik hist w -> parsed i -> known (receipts hist) w x ->
  known (receipts (hist ++ [i])) (step i w).2 x.
Proof.
  intros Hr Hp Hk. destruct (turn_keeps uid ik hist w i) as [_ [X _]]; [done|by apply app_reachable_inv|done|].
  apply X. destruct Hk as [?|Hk]; [by left|right]. by apply receipts_snoc.
Qed.

Lemma sys_run_inv s ops s' : sys_inv s -> sys_run sha256 uid ik s ops s' -> sys_inv s'.
Proof.
  intros I Hrun. induction Hrun as [|ops s' i Hrun [Hr Hk] Hp|ops s' connected server t w Hrun [Hr Hk] Ht Eb|ops s' o Hrun IH Hm];
    [done| | |done].
  - assert (app_reachable uid ik (sys_inputs s' ++ [i]) (step i (sys_client s')).2) as Hr' by by apply ar_step.
    split; [done|]. cbn. intros j l x [Hj|Hj]%elem_of_app Hx; [by eapply turn_knows, Hk|].
    apply app_reachable_inv in Hr'. by eapply (ai_acks _ _ _ _ _ Hr').
  - assert (app_reachable uid ik (sys_inputs s') w) as Hr' by by eapply ar_restart.
    split; [done|]. cbn. intros j l x [Hj|Hj]%elem_of_app Hx.
    + apply app_reachable_inv in Hr. destruct (Hk j l x Hj Hx) as [Hh|Hh]; [left|by right].
      eapply boot_keeps_history; [apply (ai_file _ _ _ _ _ Hr)|done|done].
    + apply app_reachable_inv in Hr'. by eapply (ai_acks _ _ _ _ _ Hr').
Qed.

(** Where a message that was queued for the user is, by its id. *)
Definition held_at (r : QueueRow) (ops : list op) (s : System) : Prop :=
  (r ∈ message_queue (sys_db s))
  \/ in_history (w_db (sys_client s)) (q_message_id r)
  \/ (q_message_id r ∈ receipt_ids (sys_inputs s))
  \/ exists o, (o ∈ ops) /\ discards r o = true.

Lemma known_held r ops s :
  known (receipts (sys_inputs s)) (sys_client s) (q_message_id r) -> held_at r ops s.
Proof. intros [?|?]; unfold held_at; auto. Qed.

Lemma held_known r ops s :
  held_at r ops s -> (r ∈ message_queue (sys_db s))
  \/ known (receipts (sys_inputs s)) (sys_client s) (q_message_id r) \/ exists o, (o ∈ ops) /\ discards r o = true.
Proof. unfold held_at, known, receipts. tauto. Qed.

(** The relay releases a message of the user only when the client has it. *)
Lemma released_known r s o :
  sys_inv s -> relay_may uid (sys_sent s) o -> q_recipient_id r = as_str uid ->
  discards r o = false -> releases r o = true ->
  known (receipts (sys_inputs s)) (sys_client s) (q_message_id r).
Proof.
  intros [_ Hk] Hm Hu Ed Er. destruct o; cbn in Ed, Er; try congruence.
  apply andb_prop in Er as [E1%bool_decide_eq_true E2%bool_decide_eq_true].
  destruct (Hm message_ids) as (j & l & Hj & ->); [congruence|].
  apply list_elem_of_fmap in E2 as (x & Ex & Hx). rewrite Ex. by eapply Hk.
Qed.

(** A message that is held stays held: [ops] happened before [s]. *)
Lemma held_at_run s r ops ops' s' :
  sys_inv s -> q_recipient_id r = as_str uid -> held_at r ops s ->
  sys_run sha256 uid ik s ops' s' -> held_at r (ops ++ ops') s'.
Proof.
  intros I Hu Hs Hrun.
  induction Hrun as [|ops' s' i Hrun IH Hp|ops' s' connected server t w' Hrun IH Ht Eb|ops' s' o Hrun IH Hm].
  - by rewrite app_nil_r.
  - destruct (sys_run_inv _ _ _ I Hrun) as [Hr _].
    apply held_known in IH as [?|[Hk|?]]; [by left| |by right; right; right].
    apply known_held. cbn. by apply turn_knows.
  - destruct (sys_run_inv _ _ _ I Hrun) as [Hr _]. apply app_reachable_inv in Hr.
    destruct IH as [?|[Hh|?]]; [by left| |by right; right].
    right; left. cbn. eapply boot_keeps_history; [apply (ai_file _ _ _ _ _ Hr)|done|done].
  - destruct (sys_run_inv _ _ _ I Hrun) as [_ Hk].
    destruct IH as [Hin|[?|[?|(o' & Ho & Hd)]]]; [|by right; left|by right; right; left|right; right; right].
    + destruct (discards r o) eqn:Ed; [right; right; right; exists o; split; [set_solver|done]|].
      destruct (releases r o) eqn:Er; [|left; by apply exec_queued].
      apply known_held. cbn. by apply (released_known r s' o); [apply (sys_run_inv s ops')|..].
    + exists o'. split; [set_solver|done].
Qed.

Lemma start_inv d w : app_reachable uid ik [] w -> sys_inv (sys_start d w).
Proof. intros Hw. split; [done|]. intros i l x. apply app_reachable_inv in Hw. apply (ai_acks _ _ _ _ _ Hw). Qed.

(** The message is in the client's database: the history has a message of its id,
    received from its sender, with the text that the client's manager decrypted
    from an envelope of this id and sender. *)
Definition delivered (r : QueueRow) (s : System) : Prop :=
  exists log text, history_ok log (w_db (sys_client s))
    /\ ((q_message_id r, mkStored (q_sender_id r) DirReceived text) ∈ log)
    /\ decrypted uid ik (sys_inputs s) (sys_client s) (q_message_id r, mkStored (q_sender_id r) DirReceived text).

(** Another message took its id: one the user sent, or one of another peer. *)
Definition id_taken (r : QueueRow) (s : System) : Prop :=
  exists log m, history_ok log (w_db (sys_client s)) /\ ((q_message_id r, m) ∈ log)
    /\ (sm_direction m = DirSent \/ sm_peer_id m <> q_sender_id r).

(** Where a message that was queued for the user is. *)
Definition safe_at (r : QueueRow) (ops : list op) (s : System) : Prop :=
  (r ∈ message_queue (sys_db s))
  \/ delivered r s
  \/ id_taken r s
  \/ (q_message_id r ∈ receipt_ids (sys_inputs s))
  \/ exists o, (o ∈ ops) /\ discards r o = true.

Lemma held_safe r ops s : sys_inv s -> held_at r ops s -> safe_at r ops s.
Proof.
  intros [Hr _] [?|[Hh|?]]; [by left| |by right; right; right].
  destruct (stored_row uid ik _ _ _ Hr Hh) as (log & [p dir text] & Hl & Hin & Hd). cbn in Hd.
  destruct dir; [right; right; left; exists log, (mkStored p DirSent text); auto|].
  destruct (decide (p = q_sender_id r)) as [->|Hne].
  - right; left. exists log, text. auto.
  - right; right; left. exists log, (mkStored p DirReceived text). auto.
Qed.

(** C2: No message is lost between the relay and the client's database.  Take any
    state of the system in which a message is queued for the user.  However the
    system goes on (operations of all users at the relay in any order, any
    inputs to the client, failures of its stores, acknowledgements delayed,
    repeated or lost, the client killed and restarted at any moment), the
    message is still in the relay's queue; or it is in the client's message
    database, under its id and its sender, with the text that the client's
    manager decrypted from an envelope of this id and sender that was given to
    it; unless its id was not its own (the database already has another
    message under it, one that the user sent or one of another peer, or the client was
    given a read receipt under it), or the relay itself has discarded it as too old or
    invalid. *)
Theorem no_message_lost d w ops0 s r ops s' :
  app_reachable uid ik [] w ->
  sys_run sha256 uid ik (sys_start d w) ops0 s ->
  r ∈ message_queue (sys_db s) -> q_recipient_id r = as_str uid ->
  sys_run sha256 uid ik s ops s' -> safe_at r ops s'.
Proof.
  intros Hw H0' Hq Hu Hrun.
  assert (sys_inv s) as I by (by eapply sys_run_inv, H0'; apply start_inv).
  apply held_safe; [by eapply sys_run_inv|]. by apply (held_at_run s r [] ops s'); [..|left|].
Qed.
End NoLoss.
