(* ===== verification/Conversation.v ===== *)
(** * From the sender's draft to the recipient's database

    Two clients and the relay between them as one transition system: [System]
    of [EndToEnd] is the relay's database and the recipient's client, to which
    the sender's client and the relay's answers to it are added.  Both clients
    take turns with any input and are killed and restarted at any moment, the
    relay executes operations of all users in any order, and what either client
    puts on its channel is handled at any later time, any number of times, or
    never.  The relay handles a message by one database call, so the handler
    can be one step ([Alone]): what other connections do before that call they
    do before the step. *)
From stdpp Require Import base numbers list strings gmap.
From S2P Require Import Prelude Consts Types Primitives Keys X3dh Ratchet SqlDb DbUsers DbPrekeys DbQueue DbReceipts DbTrace DbLimits ServerWorld Handlers HandlerFacts CryptoStore CryptoMgr CryptoMgrInv CryptoMgrFacts CryptoMgrRecv CryptoMgrPrekeys CryptoMgrLedger CryptoMgrOutbox CryptoMgrCrash ClientDb Verification ClientApp ClientInput ClientUi ClientNet ClientAppInv ClientAppRun ClientAppSend EndToEnd.
Local Open Scope Z_scope.
Local Open Scope cmp_scope.

(** ** An id the relay does not know *)

(** No acceptance and no queued row has the id. *)
Definition unused (i : string) (d : Db) : Prop :=
  message_acceptances d !! i = None /\ i ∉ q_message_id <$> message_queue d.

(** The operation does not queue a message under the id. *)
Definition leaves_unused (i : string) (o : op) : Prop :=
  forall dt rq, o = OpEnqueue dt rq -> er_message_id rq <> i.

Section Unused.
Context `{SqlPickLaws}.
Context (sha256 : bytes -> bytes) (i : string).

Lemma unused_same d d' :
  message_queue d' = message_queue d -> message_acceptances d' = message_acceptances d -> unused i d -> unused i d'.
Proof. unfold unused. by intros -> ->. Qed.

Lemma unused_filter d (P : QueueRow -> Prop) `{!forall r, Decision (P r)} :
  unused i d -> i ∉ q_message_id <$> filter P (message_queue d).
Proof. intros [_ Hq] (r & -> & [_ Hr]%list_elem_of_filter)%list_elem_of_fmap. by apply Hq, list_elem_of_fmap_2. Qed.

Lemma exec_unused o d : leaves_unused i o -> unused i d -> unused i (DbTrace.exec sha256 o d).2.
Proof.
  intros Hn Hu. pose proof Hu as [Ha Hq]. destruct o; cbn [DbTrace.exec fst snd]; try frame; try done.
  - by eapply unused_same; [apply register_frame..|].
  - by eapply unused_same; [apply upload_frame..|].
  - pose proof (fetch_frame requester_id target_id now fetch_limits d) as [E1 E2].
    destruct (fetch_for_requester _ _ _ _ d). by apply (unused_same d).
  - destruct (enqueue_cases sha256 datetime_now request d)
      as [(r & E & _)|(_ & _ & _ & _ & _ & _ & _ & E)]; cbv zeta in E; rewrite E; [done|].
    specialize (Hn _ _ eq_refl). split; cbn.
    + by rewrite lookup_insert_ne.
    + rewrite fmap_app. intros [?|Hin]%elem_of_app; [done|]. case_bool_decide; [by apply elem_of_nil in Hin|].
      by apply list_elem_of_singleton in Hin as ->.
  - destruct (confirm_frame sender_id message_ids d) as (n & t & E & Hf). rewrite E. split; [|done]. cbn.
    pose proof (delete_acceptance_fold sender_id message_ids 0 (message_acceptances d)) as Hd.
    rewrite Hf in Hd. destruct Hd as (Hsub & _). by eapply lookup_weaken_None.
  - split; [done|]. cbn. rewrite delete_message_fold. by apply unused_filter.
  - split; [done|]. cbn. by apply unused_filter.
  - split; [done|]. cbn. by apply unused_filter.
Qed.
End Unused.

(** ** The sender's half *)

Section Sender.
Context `{CryptoPrims, Codecs, !CodecLaws, ClientEnv, !KdfLaws, !SignatureLaws, TextArea, AppEnv}.

Lemma registration_stays p user connected server : stays p (register_with_server user connected server).
Proof.
  unfold register_with_server, stays. pres_go (in_outbox p) (fun _ : Disk => True); apply register_stays.
Qed.

(** Starting again gives back the outbox. *)
Lemma boot_keeps_outbox uid ik hist w connected server t w' p :
  app_reachable uid ik hist w -> (w_tick w <= t)%nat ->
  boot uid ik connected server (w_disk w) (w_db w) t = Some w' ->
  in_outbox p (crypto (w_app w)) -> in_outbox p (crypto (w_app w')).
Proof.
  intros Hr Ht Eb Hp. apply app_reachable_inv in Hr as [I <- _ _ _ _ _ _ _ _ _]. revert Eb. unfold boot.
  destruct (load_or_generate _ _) as [[m|e] io] eqn:El; [|done].
  destruct (load_step _ _ _ _ m io I Ht El) as [I1 Rec]. destruct Rec as (_ & Hperm & _).
  assert (in_outbox p m) as H1' by (unfold in_outbox; by rewrite Hperm).
  set (c := if needs_registration m then _ else _).
  assert (in_outbox p (c_mgr c)) as H2'.
  { unfold c. destruct (needs_registration m); [|done]. by apply (registration_stays p _ connected server (mkClient m io)). }
  clearbody c. destruct (open _) as [r [file' t']]. intros [= <-].
  unfold initialized_app, rm_bind, get_app. cbn. by destruct (is_err r).
Qed.

(** A turn keeps the messages it is not told the fate of. *)
Lemma turn_keeps_outbox uid ik hist w i p :
  app_reachable uid ik hist w -> parsed i -> is_outgoing p = true -> ~ settled (hist ++ [i]) (item_id p) ->
  in_outbox p (crypto (w_app w)) -> in_outbox p (crypto (w_app (step i w).2)).
Proof.
  intros Hr Hi Hp Hn Hin. destruct (turn_keeps uid ik hist w i) as [_ (_ & _ & Ho)]; [done|by apply app_reachable_inv|done|].
  by apply Ho.
Qed.
End Sender.

(** ** Two clients and the relay *)

Section Net.
Context `{CryptoPrims, Codecs, ClientEnv, TextArea, AppEnv, SqlPick, Env}.
Context (sha256 : bytes -> bytes) (sender recipient : UserId) (sender_ik recipient_ik : IdentityKeyPair).

(** [n_sent] is what the sender's client has put on its channel, [n_told] what
    it was given, and [n_answers] what the relay has answered to its messages. *)
Record Net := mkNet {
  n_sys : System;
  n_sender : ClientApp.World;
  n_sent : list ClientMessage;
  n_told : list Input;
  n_answers : list ServerMessage;
}.

(** The relay's word on a message comes from the relay. *)
Definition heard (answers : list ServerMessage) (i : Input) : Prop :=
  forall m, i = IApp (EvServer m) ->
  match m with MessageSent _ | MessageRejected _ _ => m ∈ answers | _ => True end.

(** The database of the relay after a request. *)
Definition after_request (d : Db) (s : System) : System :=
  mkSystem d (sys_client s) (sys_sent s) (sys_inputs s).

(** Steps, with the database operations other than the sender's messages. *)
Inductive net_run (s : Net) : list op -> Net -> Prop :=
| net_here : net_run s [] s
| net_others ops s' ops' sys' :
    net_run s ops s' -> sys_run sha256 recipient recipient_ik (n_sys s') ops' sys' ->
    net_run s (ops ++ ops') (mkNet sys' (n_sender s') (n_sent s') (n_told s') (n_answers s'))
| net_request ops s' v i e (rw : ServerWorld.World) :
    net_run s ops s' -> SendMessage v i e ∈ n_sent s' -> ServerWorld.w_db rw = sys_db (n_sys s') ->
    let x := handle_send sha256 (as_str sender) v i e rw in
    net_run s ops (mkNet (after_request (ServerWorld.w_db x.2) (n_sys s')) (n_sender s') (n_sent s') (n_told s')
                     (n_answers s' ++ [x.1]))
| net_turn ops s' i :
    net_run s ops s' -> parsed i -> heard (n_answers s') i ->
    let w := (step i (n_sender s')).2 in
    net_run s ops (mkNet (n_sys s') w (n_sent s' ++ w_out w) (n_told s' ++ [i]) (n_answers s'))
| net_restart ops s' connected server t w :
    net_run s ops s' -> (w_tick (n_sender s') <= t)%nat ->
    boot sender sender_ik connected server (w_disk (n_sender s')) (ClientApp.w_db (n_sender s')) t = Some w ->
    net_run s ops (mkNet (n_sys s') w (n_sent s' ++ w_out w) (n_told s') (n_answers s')).

(** Both clients have just been started for the first time. *)
Definition net_start (d : Db) (ws wr : ClientApp.World) : Net :=
  mkNet (sys_start d wr) ws (w_out ws) [] [].

(** The row of the relay's queue that carries the message. *)
Definition carries (i : MessageId) (e : EncryptedEnvelope) (r : QueueRow) : Prop :=
  q_message_id r = uuid_to_string i /\ q_recipient_id r = as_str recipient
  /\ q_sender_id r = as_str sender /\ json_of_envelope e = Some (q_envelope r).

(** No other message has its id: the sender's client has put no other under
    this id on its channel, and nobody else queues one under it. *)
Definition unique_id (i : MessageId) (e : EncryptedEnvelope) (ops : list op) (s : Net) : Prop :=
  (forall v e', SendMessage v i e' ∈ n_sent s -> v = recipient /\ e' = e)
  /\ Forall (leaves_unused (uuid_to_string i)) ops.
End Net.

Section NetFacts.
Context `{CryptoPrims, Codecs, !CodecLaws, ClientEnv, !KdfLaws, !SignatureLaws, TextArea, AppEnv, SqlPick, !SqlPickLaws, Env, !Alone}.
Context (sha256 : bytes -> bytes) (sender recipient : UserId) (sender_ik recipient_ik : IdentityKeyPair).

Abbreviation run := (net_run sha256 sender recipient sender_ik recipient_ik).

Definition rejected (i : MessageId) (answers : list ServerMessage) : Prop :=
  exists why, MessageRejected i why ∈ answers.

(** The clients are in states they can reach, and the sender's was told nothing
    that the relay has not answered. *)
Definition net_inv (s : Net) : Prop :=
  app_reachable sender sender_ik (n_told s) (n_sender s) /\ sys_inv recipient recipient_ik (n_sys s)
  /\ forall i, settled (n_told s) i -> MessageSent i ∈ n_answers s \/ rejected i (n_answers s).

Lemma net_run_inv s ops s' : net_inv s -> run s ops s' -> net_inv s'.
Proof.
  intros I Hrun. induction Hrun as [|ops s' ops' sys' Hrun (Hw & Hs & Ht) Hsys|ops s' v i e rw Hrun (Hw & Hs & Ht) Hm Hd
    |ops s' i Hrun (Hw & Hs & Ht) Hp Hh|ops s' connected server t w Hrun (Hw & Hs & Ht) Hle Eb]; [done|..].
  - split; [done|]. split; [by eapply sys_run_inv|done].
  - split; [done|]. split; [done|]. intros j Hj. cbn. unfold rejected. destruct (Ht j Hj) as [?|[why ?]]; set_solver.
  - split; [by apply ar_step|]. split; [done|]. intros j. cbn. unfold settled, settled_ids.
    rewrite omap_app, elem_of_app. intros [Hj|Hj]; [by apply Ht|].
    destruct i as [| |[| | | | |m]| |]; cbn in Hj; try (by apply elem_of_nil in Hj).
    specialize (Hh _ eq_refl). destruct m; try (by apply elem_of_nil in Hj);
      apply list_elem_of_singleton in Hj as ->; [by left|right; by eexists].
  - split; [by eapply ar_restart|done].
Qed.

Lemma start_net_inv d ws wr :
  app_reachable sender sender_ik [] ws -> app_reachable recipient recipient_ik [] wr -> net_inv (net_start d ws wr).
Proof. intros Hs Hr. split; [done|]. split; [by apply start_inv|]. by intros i Hi%elem_of_nil. Qed.

Lemma sys_run_unused i s ops s' :
  Forall (leaves_unused i) ops -> unused i (sys_db s) -> sys_run sha256 recipient recipient_ik s ops s' ->
  unused i (sys_db s').
Proof.
  intros Hn Hu Hrun. induction Hrun as [| | |ops s' o Hrun IH Hm]; auto.
  apply Forall_app in Hn as [Hn [Ho _]%Forall_cons]. apply exec_unused; [done|by apply IH].
Qed.

(** A request leaves what is held held: it releases no row. *)
Lemma request_held r ops s v i e (rw : ServerWorld.World) :
  ServerWorld.w_db rw = sys_db s -> held_at r ops s ->
  held_at r ops (after_request (ServerWorld.w_db (handle_send sha256 (as_str sender) v i e rw).2) s).
Proof.
  intros Hd [Hq|Hs]; [left|by right]. destruct (db_steps_alone _ _ _ _ (steps_send sha256 (as_str sender) v i e rw)) as (os & Hos & ->).
  cbn. rewrite Hd. clear Hd. revert Hq. generalize (sys_db s). induction Hos as [|o os Ho _ IH]; intros d Hq; [done|].
  rewrite run_cons. cbn [snd]. apply IH, exec_queued; [done|]. destruct Ho as [_ Ho]. by destruct o.
Qed.

(** What the relay's answer to the message itself means, when it does not know
    the id. *)
Lemma request_accepts i e (rw : ServerWorld.World) :
  unused (uuid_to_string i) (ServerWorld.w_db rw) ->
  let x := handle_send sha256 (as_str sender) recipient i e rw in
  (exists r, carries sender recipient i e r /\ r ∈ message_queue (ServerWorld.w_db x.2))
  \/ ServerWorld.w_db x.2 = ServerWorld.w_db rw /\ x.1 <> MessageSent i.
Proof.
  intros [Ha Hq] x. pose proof (sent_means_accepted sha256 (as_str sender) recipient i e rw) as Hs.
  cbv zeta in Hs. rewrite others_none in Hs. fold x in Hs. clearbody x. destruct x as [m w']. cbn in *. destruct m; try (by right; split; [destruct Hs|]). left.
  destruct Hs as [-> (js & a & Hj & _ & _ & _ & _ & Hr)].
  destruct (Hr Ha Hq) as (n & t & Hin). eexists. by split; [|exact Hin].
Qed.

(** A request for another message answers about that message, and leaves the id
    unused. *)
Lemma request_other i v j e (rw : ServerWorld.World) :
  j <> i -> unused (uuid_to_string i) (ServerWorld.w_db rw) ->
  let x := handle_send sha256 (as_str sender) v j e rw in
  unused (uuid_to_string i) (ServerWorld.w_db x.2) /\ x.1 <> MessageSent i.
Proof.
  intros Hne Hu x. split.
  - unfold x. destruct (db_steps_alone _ _ _ _ (steps_send_id sha256 (as_str sender) v j e rw)) as (os & Hos & ->). revert Hu.
    generalize (ServerWorld.w_db rw). induction Hos as [|o os Ho _ IH]; intros d Hu; [done|].
    rewrite run_cons. cbn [snd]. apply IH, exec_unused; [|done].
    destruct Ho as (_ & dt & rq & -> & Ei). intros ?? [= <- <-]. rewrite Ei. by intros E%(inj uuid_to_string).
  - pose proof (sent_means_accepted sha256 (as_str sender) v j e rw) as Hs. cbv zeta in Hs.
    rewrite others_none in Hs. fold x in Hs. intros E. rewrite E in Hs. by destruct Hs as [-> _].
Qed.

(** The relay has not accepted the message, or it is held. *)
Definition relay_has (i : MessageId) (e : EncryptedEnvelope) (ops : list op) (s : Net) : Prop :=
  (unused (uuid_to_string i) (sys_db (n_sys s)) /\ MessageSent i ∉ n_answers s)
  \/ exists r, carries sender recipient i e r /\ held_at r ops (n_sys s).

Lemma relay_has_request i e ops s v j e' (rw : ServerWorld.World) :
  (j = i -> v = recipient /\ e' = e) -> ServerWorld.w_db rw = sys_db (n_sys s) -> relay_has i e ops s ->
  let x := handle_send sha256 (as_str sender) v j e' rw in
  relay_has i e ops (mkNet (after_request (ServerWorld.w_db x.2) (n_sys s)) (n_sender s) (n_sent s) (n_told s)
                       (n_answers s ++ [x.1])).
Proof.
  intros Hid Hd Hr x. unfold relay_has. cbn.
  destruct Hr as [[Hu Hn]|(r & Hc & Hs)]; [|right; exists r; split; [done|by apply request_held]].
  rewrite <- Hd in Hu. destruct (decide (j = i)) as [->|Hne].
  - destruct (Hid eq_refl) as [-> ->]. destruct (request_accepts i e rw Hu) as [(r & Hc & Hq)|[E Hx]].
    + right. exists r. split; [done|by left].
    + left. fold x in E, Hx. rewrite E. split; [done|]. set_solver.
  - destruct (request_other i v j e' rw Hne Hu) as [Hu' Hx]. left. fold x in Hu', Hx. split; [done|]. set_solver.
Qed.

(** The sender still has the message, or was answered. *)
Definition sender_has (p : PendingOutbound) (s : Net) : Prop :=
  in_outbox p (crypto (w_app (n_sender s)))
  \/ MessageSent (item_id p) ∈ n_answers s \/ rejected (item_id p) (n_answers s).

Lemma message_tracked i e s ops s' :
  let p := PMessage recipient i e in
  net_inv s -> sender_has p s -> relay_has i e [] s -> run s ops s' -> unique_id recipient i e ops s' ->
  sender_has p s' /\ relay_has i e ops s'.
Proof.
  intros p I Hp Hr Hrun.
  induction Hrun as [|ops s' ops' sys' Hrun IH Hsys|ops s' v j e' rw Hrun IH Hm Hd
    |ops s' inp Hrun IH Hpa Hh|ops s' connected server t w Hrun IH Hle Eb]; intros [Hq Hops]; [done|..];
    destruct (net_run_inv _ _ _ I Hrun) as (Hw & Hs & Ht).
  - apply Forall_app in Hops as [Hops Hops']. destruct IH as [IHp IHr]; [done|]. split; [done|].
    destruct IHr as [[Hu Hn]|(r & Hc & Hsafe)].
    + left. split; [|done]. by eapply sys_run_unused.
    + right. exists r. split; [done|]. cbn. eapply held_at_run; [exact Hs|apply Hc|done|done].
  - destruct IH as [IHp IHr]; [done|]. split.
    + destruct IHp as [?|[?|[why ?]]]; unfold sender_has, rejected; cbn; set_solver.
    + apply relay_has_request; [|done|done]. intros ->. by apply Hq.
  - destruct IH as [IHp IHr]; [split; [|done]; intros v e' Hin; apply (Hq v); cbn; set_solver|].
    split; [|done]. destruct IHp as [Hin|Ha]; [|by right].
    destruct (decide (i ∈ settled_ids (n_told s' ++ [inp]))) as [Hset|Hset].
    + right. assert (net_inv (mkNet (n_sys s') (step inp (n_sender s')).2
        (n_sent s' ++ w_out (step inp (n_sender s')).2) (n_told s' ++ [inp]) (n_answers s'))) as (_ & _ & Ht').
      { eapply (net_run_inv s'); [done|]. by apply (net_turn _ _ _ _ _ _ [] s' inp); [apply net_here|..]. }
      by apply Ht'.
    + left. cbn. by eapply turn_keeps_outbox.
  - destruct IH as [IHp IHr]; [split; [|done]; intros v e' Hin; apply (Hq v); cbn; set_solver|].
    split; [|done]. destruct IHp as [Hin|Ha]; [left|by right]. by eapply boot_keeps_outbox.
Qed.

End NetFacts.
