(* ===== verification/Introduction.v ===== *)
(** * The first message between two strangers

    The whole way of a first message: Bob has published keys at the relay,
    Alice's client is given a bundle, opens a session and sends; the relay
    queues the message; Bob logs in, is given it in a page, and his client
    decrypts it.  The theorem composes the directory ([Directory]), the two
    cryptographic managers ([CryptoMgrContact]), the handlers
    ([HandlerFacts]), the histories of the database ([DbLimits]) and the
    delivery ([Delivery]). *)
From stdpp Require Import base numbers list strings gmap.
From S2P Require Import Prelude Consts Types Primitives Keys X3dh Ratchet SqlDb DbUsers DbPrekeys DbQueue DbReceipts DbTrace DbLimits ServerWorld Handlers HandlerFacts Delivery CryptoStore CryptoMgr CryptoMgrContact ClientServer Directory Conversation.
Local Open Scope Z_scope.
Local Open Scope cmp_scope.

(** ** Registration publishes the keys *)

Section Registered.
Context `{CryptoPrims, Codecs, !CodecLaws, ClientEnv, Env, SqlPickLaws, !IdentityLaws, !SignatureLaws, !PublicKeyLaws}.
Context (sha256 : bytes -> bytes) (server_id : string).

(** The keys of a registration whose first draw is number [t]. *)
Definition registration_keys (ik : IdentityKeyPair) (t : nat) : Published :=
  mkPublished ik [registration_spk ik t] (registration_opks t).

Lemma registration_published ik t spk opk :
  keys_32 -> length (signing_key ik) = 32%nat ->
  spk ∈ pub_spks (registration_keys ik t) -> (forall k, opk = Some k -> k ∈ pub_opks (registration_keys ik t)) ->
  published ik spk opk.
Proof.
  intros Hk Hi Hs Ho. apply list_elem_of_singleton in Hs as ->.
  split; [done|]. split; [apply spk_generate_wf|]. split; [apply Hk|]. split; [apply length_sign|].
  intros k ->. destruct (list_elem_of_fmap_1 _ _ _ (Ho k eq_refl)) as (i & -> & _). split; [done|apply Hk].
Qed.

(** A registration the relay accepts leaves the directory with these keys. *)
Lemma registration_directory c uid ik t w :
  keys_32 -> length (signing_key ik) = 32%nat -> env_fault (w_tick w) = false ->
  relay_inv (at_call w) -> users (at_call w) !! as_str uid = None ->
  let x := handle_message sha256 server_id c (Session_new c) (registration_message uid ik t) w in
  x.1.1 = Some AuthSuccess /\ directory (as_str uid) (registration_keys ik t) (w_db x.2).
Proof.
  intros Hk Hi Hf I Hu x. destruct (ri_handed _ I) as [handed Hp].
  destruct (registration_accepted sha256 server_id handed c uid ik t w Hk Hi Hf Hp Hu) as (s' & w' & hw & E & _ & Ed & Hinv).
  unfold x. rewrite E. cbn [fst snd]. split; [done|]. rewrite Ed in *.
  assert (forall k, signed_prekeys (at_call w) !! (as_str uid, k) = None) as Hns.
  { intros k. apply eq_None_not_Some. intros [? Hs]%(ri_signed_users _ I). congruence. }
  assert (forall k, prekeys (at_call w) !! (as_str uid, k) = None) as Hno.
  { intros k. apply eq_None_not_Some. intros (h & Hh & _)%(pk_stored _ _ Hp).
    assert (is_Some (users (at_call w) !! as_str uid)) as [? ?] by (apply (pk_users _ _ Hp); eauto). congruence. }
  split.
  - by exists handed.
  - apply lookup_insert_eq.
  - cbn. intros k r [[[= <-] <-]|[_ Hr]]%lookup_insert_Some; [|by rewrite Hns in Hr].
    eexists. split; [by left|done].
  - cbn. intros k r [Hr|[_ Hr]]%with_prekeys_row; [by rewrite Hno in Hr|].
    by apply list_elem_of_fmap in Hr as (o & E' & Ho); exists o.
Qed.
End Registered.

(** ** The way of a first message *)

Section Introduction.
Context `{CryptoPrims, Codecs, !CodecLaws, !PublicKeyLaws, !DhLaws, !IdentityLaws, !KdfLaws, !AeadLaws, SqlPickLaws, Env}.
Context (EA EB : ClientEnv) (sha256 : bytes -> bytes).

(** The client that published [P] still holds the keys of the bundle [b], and is
    ready for the first message [i] of the peer. *)
Definition holds_bundle (P : Published) (b : PreKeyBundle) (peer : string) (i : MessageId) (c : Client) : Prop :=
  forall spk opk, spk ∈ pub_spks P -> (forall k, opk = Some k -> k ∈ pub_opks P) -> b = wire_bundle (pub_identity P) spk opk ->
    published (pub_identity P) spk opk /\ @awaits _ EB peer i spk opk c.

(** The row of a message the relay has answered [MessageSent] to, its id being
    unused when the call runs. *)
Lemma sent_row u v i e w w' :
  unused (uuid_to_string i) (env_others (S (S (w_tick w))) (w_db w)) ->
  handle_user_message sha256 u (SendMessage v i e) w = (Some (MessageSent i), w') ->
  exists r, r ∈ message_queue (w_db w') /\ q_message_id r = uuid_to_string i /\ q_recipient_id r = as_str v
    /\ q_sender_id r = u /\ json_of_envelope e = Some (q_envelope r).
Proof.
  intros [Ha Hq] E. unfold handle_user_message, h_bind, h_ret in E.
  pose proof (sent_means_accepted sha256 u v i e w) as Hs. cbv zeta in Hs.
  destruct (handle_send sha256 u v i e w) as [m w1]. injection E as -> ->. cbn in Hs.
  destruct Hs as [_ (js & a & Hj & _ & _ & _ & _ & Hr)].
  destruct (Hr Ha Hq) as (n & t & Hin). by exists (mkQueueRow n (uuid_to_string i) (as_str v) u js t).
Qed.

(** What a row is delivered as. *)
Lemma delivered_as v i e r m :
  UserId_new (q_sender_id r) = Ok v -> q_message_id r = uuid_to_string i -> json_of_envelope e = Some (q_envelope r) ->
  queued_row_to_inbound (queued_of r) = Ok m -> im_message_id m = i /\ im_sender_id m = v /\ im_envelope m = e.
Proof.
  intros Hv Hi Hj. unfold queued_row_to_inbound, queued_of. cbn [envelope_json sender_id message_id created_at].
  rewrite (envelope_roundtrip _ _ Hj), Hi, uuid_roundtrip, Hv. cbn.
  destruct (validate_queued_envelope e); [|done]. by intros [= <-].
Qed.

(** C12: A first message between two strangers arrives.  Bob has published keys at
    the relay (any history of the database may follow, in which his own uploads and
    rotations are of published keys); the relay answers Alice's request for his
    keys with a bundle; her client opens a session from it and encrypts her
    text; the relay, which does not know the id, answers [MessageSent]; any
    history follows that does not release the row; Bob, with at most 1,000
    messages queued when it ends, is given the queue while others write to him.
    Then some page holds a message of this id from Alice, and Bob's client,
    which still holds the keys of the bundle, decrypts exactly her text from
    it, has a session with her and has deleted the one-time pre-key of the
    bundle. *)
Theorem first_message_arrives alice bob i text P ops1 d0 w1 b cA cA1 cA2 out w2 w2' ops2 w3 c empty f cB :
  UserId_new (as_str alice) = Ok alice ->
  directory (as_str bob) P d0 -> Forall (publishes (as_str bob) P) ops1 -> others_publish sha256 (as_str bob) P ->
  w_db w1 = (run sha256 ops1 d0).2 -> (handle_fetch (as_str alice) bob w1).1 = PreKeyBundleResponse bob b ->
  (forall t n, length (@ce_random EA t n) = 32%nat) -> length (signing_key (identity (c_mgr cA))) = 32%nat ->
  utf8_valid (Z_of_byte <$> str_bytes text) = true ->
  @init_session_from_bundle _ _ EA (as_str bob) b cA = (Ok tt, cA1) ->
  @encrypt_message _ _ EA (as_str bob) bob i (str_bytes text) cA1 = (Ok out, cA2) ->
  unused (uuid_to_string i) (env_others (S (S (w_tick w2))) (w_db w2)) ->
  handle_user_message sha256 (as_str alice) out w2 = (Some (MessageSent i), w2') ->
  w_db w3 = (run sha256 ops2 (w_db w2')).2 ->
  (forall r, r ∈ message_queue (w_db w2') -> q_message_id r = uuid_to_string i -> q_recipient_id r = as_str bob ->
     forallb (fun o => negb (releases r o)) ops2 = true) ->
  (forall t, env_fault t = false) -> (forall t, env_alive t = true) -> arrivals_only (as_str bob) empty f ->
  json_size_message (QueuedMessages []) = Some empty -> valid_queue (as_str bob) empty f (message_queue (w_db w3)) ->
  let w4 := (deliver_queued_messages c (as_str bob) w3).2 in
  (length (rows_of (as_str bob) (message_queue (w_db w4))) <= 1000)%nat ->
  identity (c_mgr cB) = pub_identity P ->
  holds_bundle P b (as_str alice) i cB ->
  exists new m cB', pages_of c w4 = pages_of c w3 ++ new /\ m ∈ concat new
    /\ im_message_id m = i /\ im_sender_id m = alice
    /\ @decrypt_message_to_text _ _ EB (as_str alice) i (im_envelope m) CryptoError cB = (Ok (Pending text), cB')
    /\ is_Some (sessions (c_mgr cB') !! as_str alice)
    /\ (forall k, one_time_prekey b = Some k -> stored_opks (c_mgr cB') !! Types.key_id k = None).
Proof.
  intros Hal D Hops Hpub Ew1 Hf Hrng Hl Hutf Hinit Henc Hun Hsent Ew3 Hrel Hnf Hlive Harr He V w4 Hlen Hid Haw.
  destruct (fetch_published sha256 P bob (as_str alice) w1 bob b) as (_ & spk & opk & Hspk & Hopk & ->);
    [rewrite Ew1; by apply run_directory|done|done|].
  destruct (Haw spk opk Hspk Hopk eq_refl) as [Hp Hb]. rewrite <- Hid in Hp, Hinit.
  destruct (first_contact EA EB (as_str alice) (as_str bob) bob i text spk opk cA cA1 cA2 cB out)
    as (e & cB' & -> & Ed & Hs & Hk); [done..|].
  destruct (sent_row _ _ _ _ _ _ Hun Hsent) as (r & Hr & Hri & Hrb & Hra & Hre).
  pose proof (message_stays_queued sha256 ops2 _ r Hr (Hrel r Hr Hri Hrb)) as Hq. rewrite <- Ew3 in Hq.
  destruct (deliver_complete Hnf Hlive c (as_str bob) empty f Harr w3 He V) as (new & rest & Ep & Hc & Hrest & Hsteps).
  fold w4 in Ep, Hrest, Hsteps. cbn [app] in Hc, Hrest. rewrite <- Hrest, take_ge in Hc by done.
  assert (r ∈ rows_of (as_str bob) (message_queue (w_db w4))) as Hin.
  { destruct (arrivals_prefix _ _ _ Harr _ _ Hsteps V) as [l ->]. apply elem_of_app. left. by apply list_elem_of_filter. }
  destruct (vq_valid _ _ _ _ V r Hq Hrb) as [Hm _].
  destruct (delivered_as alice i e r (f r)) as (Hmi & Hms & Hme); [by rewrite Hra|done..|].
  exists new, (f r), cB'. split; [done|]. split; [rewrite Hc; by apply list_elem_of_fmap_2|].
  split; [done|]. split; [done|]. rewrite Hme. split; [done|]. split; [done|].
  intros k. destruct opk as [o|]; [|done]. intros [= <-]. by apply Hk.
Qed.
End Introduction.
