(* ===== verification/ClientDemo.v ===== *)
(** * Two clients at work

    Concrete clients over the executable primitives and codecs, on which the
    theorems of [CryptoMgrCrash] and [Verification] are instantiated: Bob
    registers, Alice writes to him, and a store call that fails on the way. *)
From stdpp Require Import base numbers list strings gmap.
From Stdlib Require Import Strings.Byte.
From S2P Require Import Prelude Consts Types Primitives Keys X3dh Ratchet SqlDb ServerWorld CryptoStore CryptoMgr CryptoMgrInv CryptoMgrFacts CryptoMgrRecv CryptoMgrPrekeys CryptoMgrEntry CryptoMgrCrash CryptoMgrContact ClientDb Verification.
Local Open Scope Z_scope.
Local Open Scope cmp_scope.

Module ClientDemo.
#[local] Existing Instance Toy.prims.
#[local] Existing Instance Toy.dh_laws.
#[local] Existing Instance Toy.identity_laws.
#[local] Existing Instance Toy.kdf_laws.
#[local] Existing Instance Toy.aead_laws.
#[local] Existing Instance Toy.signature_laws.
#[local] Existing Instance Toy.public_key_laws.
#[local] Existing Instance ToyServer.codecs.
#[local] Existing Instance ToyServer.codec_laws.

(** Store calls at the given times fail. *)
Definition env_failing (ts : list nat) : ClientEnv := {|
  ce_fault t := bool_decide (t ∈ ts);
  ce_clock t := 10000000 + Z.of_nat t;
  ce_random t n := repeat (byte_of_Z (1 + Z.of_nat t + Z.of_nat n)) 32;
  ce_uuid t := mkMessageId (Z.of_nat t);
|}.
Definition quiet : ClientEnv := env_failing [].
Definition faulty : ClientEnv := env_failing [8%nat].

Definition started (E : ClientEnv) (ik : IdentityKeyPair) : Client :=
  match @load_or_generate _ E ik (empty_disk, 0%nat) with
  | (Ok m, io) => mkClient m io
  | (Err _, io) => mkClient (fresh_manager ik) io
  end.

Definition alice_ik : IdentityKeyPair := mkIdentityKeyPair (repeat x03 32).
Definition bob_ik : IdentityKeyPair := mkIdentityKeyPair (repeat x05 32).
Definition spk : SignedPreKey := SignedPreKey_generate 0 bob_ik (repeat x07 32).
Definition opk : Keys.OneTimePreKey := OneTimePreKey_generate 2147483649 (repeat x08 32).

Definition alice : Client := started quiet alice_ik.
Definition bob : Client := (@exec _ _ quiet (ORegister spk [opk]) (started quiet bob_ik)).2.
Definition message_id : MessageId := mkMessageId 77.
Definition bob_user : UserId := mkUserId "bob".

Definition alice1 : Client :=
  (@init_session_from_bundle _ _ quiet "bob" (wire_bundle bob_ik spk (Some opk)) alice).2.
Definition sent := @encrypt_message _ _ quiet "bob" bob_user message_id (str_bytes "hello") alice1.
Definition envelope : EncryptedEnvelope :=
  match sent.1 with
  | Ok (SendMessage _ _ e) => e
  | _ => mkEnvelope 0 (HRatchet (mkRatchetHeader EmptyString 0 0)) EmptyString
  end.
Definition bob1 : Client := (@exec _ _ quiet (ODecrypt "alice" message_id envelope) bob).2.

Lemma started_reachable E ik :
  is_err (@load_or_generate _ E ik (empty_disk, 0%nat)).1 = false ->
  @reachable _ _ E ik (started E ik).
Proof.
  unfold started. destruct (@load_or_generate _ E ik (empty_disk, 0%nat)) as [[m|e] io] eqn:El; [|done].
  intros _. by eapply (@reach_start _ _ E).
Defined.

Lemma bob_reachable : @reachable _ _ quiet bob_ik bob.
Proof.
  unfold bob. apply (@reach_op _ _ quiet bob_ik (started quiet bob_ik) (ORegister spk [opk])); [by apply started_reachable; vm_compute|]. by split; vm_compute.
Defined.
Lemma envelope_counters : envelope_u32 envelope.
Proof. vm_compute. repeat split; intros E; discriminate E. Defined.
Lemma bob1_reachable : @reachable _ _ quiet bob_ik bob1.
Proof.
  unfold bob1. apply (@reach_op _ _ quiet bob_ik bob (ODecrypt "alice" message_id envelope)); [exact bob_reachable|].
  split; [vm_compute; reflexivity|exact envelope_counters].
Defined.
Lemma faulty_reachable : @reachable _ _ faulty bob_ik (started faulty bob_ik).
Proof. apply started_reachable. vm_compute. reflexivity. Defined.

Lemma client_memory_and_file_agree_witness : @client_inv _ quiet bob1.
Proof. apply (@client_memory_and_file_agree _ _ _ quiet _ _ bob_ik). exact bob1_reachable. Defined.

Lemma crash_safe_witness :
  exists m io, @load_or_generate _ quiet bob_ik ((c_io bob1).1, 40%nat) = (Ok m, io)
    /\ recovered (@high quiet io.2) (c_mgr bob1) m.
Proof.
  pose proof (@crash_safe _ _ _ quiet _ _ bob_ik bob1 40%nat bob1_reachable) as S.
  assert (((c_io bob1).2 <= 40)%nat) as Ht by (apply Nat.leb_le; vm_compute; reflexivity).
  specialize (S Ht).
  assert (is_err (@load_or_generate _ quiet bob_ik ((c_io bob1).1, 40%nat)).1 = false) as Hok
    by (vm_compute; reflexivity).
  destruct (@load_or_generate _ quiet bob_ik ((c_io bob1).1, 40%nat)) as [[m|e] io]; [|discriminate].
  exists m, io. split; [reflexivity|exact S].
Defined.

Lemma failed_operation_undone_witness :
  let c := started faulty bob_ik in
  let op := OQueueAck [message_id] in
  (@exec _ _ faulty op c).1 = false
  /\ durable (c_mgr (@exec _ _ faulty op c).2) = durable (c_mgr c)
  /\ pruned (@high faulty (c_io (@exec _ _ faulty op c).2).2) (processed_messages (c_mgr c))
       (processed_messages (c_mgr (@exec _ _ faulty op c).2)).
Proof.
  intros c op. assert ((@exec _ _ faulty op c).1 = false) as Hf by (vm_compute; reflexivity).
  split; [exact Hf|].
  destruct (@failed_operation_undone _ _ _ faulty _ _ bob_ik c op faulty_reachable I Hf) as (Hd & _ & _ & Hp & _).
  - discriminate.
  - split; [exact Hd|exact Hp].
Defined.

(** Bob has the text, confirms it, is killed and started again: a copy is then a
    duplicate. *)
Definition bob2 : Client := (@confirm_inbound_stored _ quiet "alice" message_id bob1).2.
Definition bob3 : Client :=
  match @load_or_generate _ quiet bob_ik ((c_io bob2).1, 40%nat) with
  | (Ok m, io) => mkClient m io
  | (Err _, io) => mkClient (fresh_manager bob_ik) io
  end.

Lemma bob3_later allowed : @later _ _ quiet bob_ik allowed bob2 bob3.
Proof.
  assert (is_err (@load_or_generate _ quiet bob_ik ((c_io bob2).1, 40%nat)).1 = false) as Hok by (vm_compute; reflexivity).
  unfold bob3. destruct (@load_or_generate _ quiet bob_ik ((c_io bob2).1, 40%nat)) as [[m|e] io] eqn:El; [|discriminate].
  apply (@later_restart _ _ quiet bob_ik allowed bob2 bob2 40%nat); [apply later_here| |exact El].
  apply Nat.leb_le. vm_compute. reflexivity.
Defined.

Lemma handoff_until_confirmed_witness :
  @decrypt_message_to_text _ _ quiet "alice" message_id envelope CryptoError bob1 = (Ok (Pending "hello"), bob1)
  /\ @decrypt_message_to_text _ _ quiet "alice" message_id envelope CryptoError bob3 = (Ok Duplicate, bob3).
Proof.
  assert (@decrypt_message_to_text _ _ quiet "alice" message_id envelope CryptoError bob
          = (Ok (Pending "hello"), bob1)) as E.
  { vm_compute. reflexivity. }
  assert (valid_peer "alice") as Hp by (vm_compute; reflexivity).
  assert (@confirm_inbound_stored _ quiet "alice" message_id bob1 = (Ok tt, bob2)) as Hc
    by (vm_compute; reflexivity).
  destruct (@handoff_until_confirmed _ _ _ quiet _ _ bob_ik bob "alice" message_id envelope "hello" bob1
    bob_reachable Hp envelope_counters E) as (ts & Hts & S).
  assert (10000000 <= ts) as Ht.
  { destruct Hts as [Hl|(n & _ & ->)]; [|cbn; lia]. vm_compute in Hl. discriminate Hl. }
  destruct (S bob1 (@later_here _ _ quiet bob_ik _ bob1)) as (S1 & S2).
  assert (@high quiet (c_io bob1).2 <= 10000000 /\ @high quiet (c_io bob3).2 <= 10000000) as [H1 H3]
    by (split; vm_compute; discriminate).
  split.
  - apply (S1 envelope eq_refl). lia.
  - apply (S2 bob2 bob3 envelope eq_refl Hc (bob3_later _)). lia.
Defined.

(** ** The message database *)

Definition alice_key : string := "AAAAAAAAAAAAAAAAAAAAAAAAAAAAAAAA".
Definition bob_key : string := "BBBBBBBBBBBBBBBBBBBBBBBBBBBBBBBB".
Definition opened : ClientDb * nat := (@open quiet (empty_client_db, 0%nat)).2.
Definition calls : list DbOp :=
  [DInsert "bob" DirSent "m1" "hi"; DSee "bob" bob_key; DInsert "carol" DirReceived "m2" "hey";
   DInsert "bob" DirReceived "m1" "again"; DInsert "bob" DirReceived "m3" "hello";
   DAction "bob" "confirm"; DOpen].
Definition after_calls := @db_run _ _ quiet "alice" alice_key calls opened.

Lemma opened_ok : @open quiet (empty_client_db, 0%nat) = (Ok tt, opened).
Proof. vm_compute. reflexivity. Defined.
Lemma after_calls_run :
  @db_run _ _ quiet "alice" alice_key calls opened = (after_calls.1, (after_calls.2.1, after_calls.2.2)).
Proof. unfold after_calls. destruct (db_run _ _ _ _) as [l [d t]]. reflexivity. Defined.

Lemma chat_history_is_log_witness :
  (@load_recent_messages quiet "bob" after_calls.2).1
    = Ok [mkStored "bob" DirSent "hi"; mkStored "bob" DirReceived "hello"]
  /\ (@list_conversation_peers quiet after_calls.2).1 = Ok ["bob"; "carol"].
Proof.
  destruct (@chat_history_is_log _ _ quiet "alice" alice_key calls 0%nat opened after_calls.1
    after_calls.2.1 after_calls.2.2 opened_ok after_calls_run) as (_ & Hl & Hp).
  assert (after_calls.1 = [("m1", mkStored "bob" DirSent "hi"); ("m2", mkStored "carol" DirReceived "hey");
                           ("m3", mkStored "bob" DirReceived "hello")]) as El by (vm_compute; reflexivity).
  specialize (Hl "bob" after_calls.2.2 eq_refl). specialize (Hp after_calls.2.2 eq_refl).
  rewrite El in Hl, Hp. destruct after_calls.2 as [d t]. cbn [fst snd] in Hl, Hp.
  rewrite Hl, Hp. split; reflexivity.
Defined.

Lemma verification_refines_trust_witness :
  exists tr, trust_rel "alice" alice_key tr after_calls.2.1 /\ trust_run "alice" alice_key calls ∅ tr.
Proof.
  destruct (@verification_refines_trust _ _ quiet "alice" alice_key calls 0%nat opened after_calls.1
    after_calls.2.1 after_calls.2.2 opened_ok after_calls_run) as (tr & R & Hr & _).
  exists tr. split; [exact R|exact Hr].
Defined.

Lemma verification_screen_witness :
  exists lines t, @handle_action _ _ quiet Empty_set "alice" alice_key "bob" "view" true after_calls.2
    = (Ok lines, (after_calls.2.1, t)) /\ outdated_line ∉ lines.
Proof.
  destruct (@verification_screen _ _ quiet "alice" alice_key calls 0%nat opened after_calls.1
    after_calls.2.1 after_calls.2.2 "bob" opened_ok after_calls_run) as (tr & _ & _ & S).
  destruct (S after_calls.2.2) as (lines & t & E & Ho & _). exists lines, t.
  destruct after_calls.2 as [d t0]. split; [exact E|exact Ho].
Defined.
End ClientDemo.
