(* ===== verification/AppDemo.v ===== *)
(** * A client application at work

    Concrete runs of the client application and of the client against the
    relay: Bob's client starts, registers, authenticates and receives a message
    of Alice; it answers; and it registers, logs in and rotates its signed
    pre-key against the relay.  The theorems of [ClientAppRun], [ClientAppSend],
    [ClientNet] and [ClientServer] are instantiated on them. *)
From stdpp Require Import base numbers list strings gmap.
From Stdlib Require Import Strings.Byte.
From S2P Require Import Prelude Consts Types Primitives Keys X3dh Ratchet SqlDb DbUsers DbPrekeys DbTrace ServerWorld Handlers CryptoStore CryptoMgr CryptoMgrInv CryptoMgrFacts CryptoMgrRecv CryptoMgrPrekeys CryptoMgrOutbox CryptoMgrCrash CryptoMgrContact ClientDb Verification ClientApp ClientInput ClientUi ClientNet ClientAppInv ClientAppRun ClientIdentity ClientAppSend ClientServer EndToEnd Conversation ClientDemo.
Local Open Scope Z_scope.
Local Open Scope cmp_scope.

Module AppDemo.
#[local] Existing Instance Toy.prims.
#[local] Existing Instance Toy.dh_laws.
#[local] Existing Instance Toy.identity_laws.
#[local] Existing Instance Toy.kdf_laws.
#[local] Existing Instance Toy.aead_laws.
#[local] Existing Instance Toy.signature_laws.
#[local] Existing Instance Toy.public_key_laws.
#[local] Existing Instance ToyServer.codecs.
#[local] Existing Instance ToyServer.codec_laws.
#[local] Existing Instance ToyServer.env.
#[local] Existing Instance ToyServer.alone.
#[local] Existing Instance PickFirst.pick_first.
#[local] Existing Instance PickFirst.pick_first_laws.
#[local] Existing Instance ClientDemo.quiet.

(** An editor of one line. *)
#[local] Instance editor : TextArea := {|
  text_area := string;
  ta_composer := "";
  ta_new_chat := "";
  ta_lines s := [s];
  ta_clear _ := "";
  ta_insert_str s a := (true, a +:+ s);
  ta_insert_newline a := a;
  ta_input k a := match code k with
                  | KChar c => (true, a +:+ String.string_of_list_byte [byte_of_Z c])
                  | _ => (false, a)
                  end;
|}.
#[local] Instance app_env : AppEnv := {|
  ae_instant t := Z.of_nat t;
  ids_json ids := Some (str_bytes (join "," ids));
  ids_of_json s := Some [s];
|}.

Definition bob_user : UserId := mkUserId "bob".
Definition alice_user : UserId := mkUserId "alice".
Definition bob_ik : IdentityKeyPair := ClientDemo.bob_ik.
Definition welcome (m : ClientMessage) : option ServerMessage := Some AuthSuccess.
Definition nobody : World :=
  mkWorld _ (App_new bob_user (fresh_manager bob_ik) false) empty_disk empty_client_db 0 [].
Definition booted : World := default nobody (boot bob_user bob_ik true welcome empty_disk empty_client_db 0).

(** Alice writes to the keys that Bob has published. *)
Definition published : SignedPreKey := default ClientDemo.spk (stored_spk (crypto (w_app booted))).
Definition alice1 : Client :=
  (init_session_from_bundle "bob" (wire_bundle bob_ik published (stored_opks (crypto (w_app booted)) !! 7))
     ClientDemo.alice).2.
Definition hello : EncryptedEnvelope :=
  match (encrypt_message "bob" bob_user ClientDemo.message_id (str_bytes "hello") alice1).1 with
  | Ok (SendMessage _ _ e) => e
  | _ => ClientDemo.envelope
  end.
Definition incoming : ServerMessage := IncomingMessage (mkInbound ClientDemo.message_id alice_user hello 5).

Definition inputs : list Input := [IApp EvAuthenticated; IApp (EvServer incoming)].
Definition received : World := (step (IApp (EvServer incoming)) (step (IApp EvAuthenticated) booted).2).2.
(** Bob types an answer. *)
Definition typed : World := (step (IEvent (EPaste "  hi ")) received).2.

Lemma booted_reachable : app_reachable bob_user bob_ik [] booted.
Proof.
  apply (ar_start bob_user bob_ik true welcome 0%nat). unfold booted.
  destruct (boot bob_user bob_ik true welcome empty_disk empty_client_db 0) as [w|] eqn:E; [reflexivity|].
  vm_compute in E. discriminate E.
Defined.
Lemma incoming_parsed : server_message_wf incoming.
Proof. split; [vm_compute; reflexivity|]. vm_compute. repeat split; intros E; discriminate E. Defined.
Lemma received_reachable : app_reachable bob_user bob_ik inputs received.
Proof.
  apply (ar_step bob_user bob_ik [IApp EvAuthenticated] _ (IApp (EvServer incoming))).
  - apply (ar_step bob_user bob_ik [] booted (IApp EvAuthenticated)); [exact booted_reachable|]. by intros m [=].
  - intros m [= <-]. exact incoming_parsed.
Defined.
Lemma typed_reachable : app_reachable bob_user bob_ik (inputs ++ [IEvent (EPaste "  hi ")]) typed.
Proof.
  unfold typed. apply ar_step; [exact received_reachable|]. by intros m [=].
Defined.

Lemma client_state_sound_witness :
  client_inv (mkClient (crypto (w_app typed)) (w_disk typed, w_tick typed)) /\ db (w_app typed) = true
  /\ exists log tr, NoDup log.*1 /\ history_ok log (w_db typed)
       /\ trust_rel "bob" (b64_encode (verifying_key bob_ik)) tr (w_db typed).
Proof.
  destruct (client_state_sound bob_user bob_ik _ typed typed_reachable) as (I & _ & Hd & _).
  assert (db (w_app typed) = true) as Ed by (vm_compute; reflexivity).
  split; [exact I|]. split; [exact Ed|exact (Hd Ed)].
Defined.

(** Bob's first start fails after the key was written, the second runs for that
    key whatever is drawn, and so does the third; Alice's is killed in the
    middle of writing hers. *)
Definition key_start (o : WriteOutcome) (rng : bytes) : IdentityStart := mkIdentityStart true true true o rng.
Definition second_start (p : Program) : Program :=
  start_program bob_user (key_start Written (replicate 32 "0"%byte)) true welcome 0 p.
Definition unsynced : Program := start_program bob_user (key_start SyncFails (signing_key bob_ik)) true welcome 0 not_installed.
Definition torn : Program := start_program bob_user (key_start (WriteStops 5) (signing_key bob_ik)) true welcome 0 not_installed.

Lemma unsynced_run : program_run bob_user not_installed [] (second_start unsynced).
Proof.
  apply pr_start; [apply pr_start; [apply pr_here|reflexivity|]|reflexivity|]; intros w Hw;
    vm_compute in Hw; discriminate Hw.
Defined.
Lemma torn_run : program_run bob_user not_installed [] torn.
Proof. apply pr_start; [apply pr_here|reflexivity|]. intros w Hw. discriminate Hw. Defined.
Lemma third_run : program_run bob_user (second_start unsynced) [] (start_program bob_user (key_start Written (replicate 32 "1"%byte)) true welcome 1000 (second_start unsynced)).
Proof.
  apply pr_start; [apply pr_here|reflexivity|]. intros w Hw.
  assert (bool_decide (default 0%nat (w_tick <$> p_last (second_start unsynced)) <= 1000)%nat = true) as Ht by (vm_compute; reflexivity).
  rewrite Hw in Ht. exact (bool_decide_eq_true_1 _ Ht).
Defined.

Lemma one_identity_witness :
  p_identity (start_program bob_user (key_start Written (replicate 32 "1"%byte)) true welcome 1000 (second_start unsynced))
  = Some (signing_key bob_ik)
  /\ p_last (second_start torn) = None.
Proof.
  split.
  - destruct (one_identity bob_user _ _ _ _ unsynced_run third_run) as (_ & Hk & _). apply Hk. vm_compute. reflexivity.
  - destruct (one_identity bob_user _ _ [] (second_start torn) torn_run) as (_ & _ & _ & Hn).
    + apply pr_start; [apply pr_here|reflexivity|]. intros w Hw. vm_compute in Hw. discriminate Hw.
    + apply (Hn (take 5 (signing_key bob_ik))); [reflexivity|]. vm_compute. discriminate.
Defined.

Lemma enter_keeps_or_sends_witness :
  trim (composer_text (w_app typed)) = "hi" /\ entered typed (handle_enter (E := string) typed).2.
Proof.
  split; [vm_compute; reflexivity|].
  exact (enter_keeps_or_sends bob_user bob_ik _ typed typed_reachable).
Defined.

Lemma reconnect_resends_witness :
  let w' := (handle_app_event EvAuthenticated typed).2 in
  length (outbox (w_disk typed)) = 2%nat
  /\ exists items fetches, w_out w' = w_out typed ++ (to_client_message <$> items) ++ fetches
     /\ (outbox (w_disk typed)).*2 ⊆+ items.
Proof.
  intros w'. split; [vm_compute; reflexivity|].
  destruct (reconnect_resends bob_user bob_ik _ typed typed_reachable)
    as (_ & items & rotation & fetches & Ho & _ & _ & _ & _ & Hs & _).
  exists items, fetches. split; [exact Ho|exact Hs].
Defined.

Lemma reconnects_witness :
  exists waits, pacing (run bob_user bob_ik [ConnectFails; NoChallenge; HelloFails]).1 = paced waits
    /\ waits !! 2%nat = Some 4.
Proof.
  destruct (reconnects bob_user bob_ik [ConnectFails; NoChallenge; HelloFails]) as [_ (waits & Ep & _ & Hw & _)].
  exists waits. split; [exact Ep|]. apply (Hw 2%nat).
  intros k [_ Hk]. destruct k as [|[|[|k]]]; [eexists; split; reflexivity..|lia].
Defined.

(** ** Against the relay *)

(** Alice's message is queued; Bob's client gets it, acknowledges it and the
    relay deletes it. *)
Definition row : QueueRow := mkQueueRow 1 (uuid_to_string ClientDemo.message_id) "bob" "alice" "" "".
Definition queued : Db := mkDb ∅ ∅ ∅ ∅ ∅ [] [row] ∅ 0 [].
Definition delete : op := OpDelete "bob" [uuid_to_string ClientDemo.message_id].
Definition taken : System :=
  let w := (step (IApp (EvServer incoming)) booted).2 in
  mkSystem queued w (w_out booted ++ w_out w) [IApp (EvServer incoming)].
Definition deleted : System :=
  mkSystem (DbTrace.exec (fun b => b) delete queued).2 (sys_client taken) (sys_sent taken) (sys_inputs taken).
Definition taken_ack : MessageId :=
  match head (sys_sent taken) with Some (Ack i _) => i | _ => mkMessageId 0 end.

Lemma deleted_run : sys_run (fun b => b) bob_user bob_ik (sys_start queued booted) [delete] deleted.
Proof.
  assert (head (sys_sent taken) = Some (Ack taken_ack [ClientDemo.message_id])) as Ha by (vm_compute; reflexivity).
  apply (run_relay (fun b => b) bob_user bob_ik (sys_start queued booted) [] taken delete).
  - apply (run_turn (fun b => b) bob_user bob_ik _ [] (sys_start queued booted) (IApp (EvServer incoming))).
    + apply run_here.
    + intros m [= <-]. exact incoming_parsed.
  - intros ids [= <-]. exists taken_ack, [ClientDemo.message_id]. split; [|reflexivity].
    destruct (sys_sent taken) as [|a l]; [discriminate Ha|]. injection Ha as ->. left.
Defined.

Lemma no_message_lost_witness :
  message_queue (sys_db deleted) = [] /\ safe_at bob_user bob_ik row [delete] deleted.
Proof.
  split; [vm_compute; reflexivity|].
  apply (no_message_lost (fun b => b) bob_user bob_ik queued booted [] (sys_start queued booted)).
  - exact booted_reachable.
  - apply run_here.
  - left.
  - reflexivity.
  - exact deleted_run.
Defined.

(** ** From Bob to Alice

    Bob presses Enter, the relay accepts his message and Bob's client is told. *)
Definition alice_booted : World :=
  default nobody (boot alice_user ClientDemo.alice_ik true welcome empty_disk empty_client_db 0).
Lemma alice_reachable : app_reachable alice_user ClientDemo.alice_ik [] alice_booted.
Proof.
  apply (ar_start alice_user ClientDemo.alice_ik true welcome 0%nat). unfold alice_booted.
  destruct (boot alice_user ClientDemo.alice_ik true welcome empty_disk empty_client_db 0) as [w|] eqn:E; [reflexivity|].
  vm_compute in E. discriminate E.
Defined.

Definition known_alice : Db := mkDb {["alice" := []]} ∅ ∅ ∅ ∅ [] [] ∅ 0 [].
Definition conversing : Net -> list op -> Net -> Prop :=
  net_run (fun b => b) bob_user alice_user bob_ik ClientDemo.alice_ik.
Definition turn (i : Input) (s : Net) : Net :=
  let w := (step i (n_sender s)).2 in
  mkNet (n_sys s) w (n_sent s ++ w_out w) (n_told s ++ [i]) (n_answers s).
Lemma turn_run i s0 s :
  conversing s0 [] s -> parsed i -> heard (n_answers s) i -> conversing s0 [] (turn i s).
Proof. intros Hs Hp Hh. exact (net_turn _ _ _ _ _ s0 [] s i Hs Hp Hh). Defined.

Definition met : Net := net_start known_alice booted alice_booted.
Definition pasted : Net := turn (IEvent (EPaste "hi")) (turn (IApp (EvServer incoming)) (turn (IApp EvAuthenticated) met)).
Definition entered_net : Net := turn (IEvent (EKey (mkKeyEvent KEnter MOD_NONE Press))) pasted.
Lemma met_entered : conversing met [] entered_net.
Proof.
  assert (forall e, parsed (IEvent e) /\ heard [] (IEvent e)) as He by (intros e; split; intros m [=]).
  apply turn_run; [|apply He..]. apply turn_run; [|apply He..]. apply turn_run.
  - apply turn_run; [apply net_here|by intros m [=]|by intros m [=]].
  - intros m [= <-]. exact incoming_parsed.
  - intros m [= <-]. exact I.
Defined.

(** What he sent. *)
Definition draft : MessageId * EncryptedEnvelope :=
  match last (n_sent entered_net) with
  | Some (SendMessage _ i e) => (i, e)
  | _ => (mkMessageId 0, hello)
  end.
Lemma draft_sent : last (n_sent entered_net) = Some (SendMessage alice_user draft.1 draft.2).
Proof. vm_compute. reflexivity. Defined.

Definition request (v : UserId) (i : MessageId) (e : EncryptedEnvelope) (s : Net) : Net :=
  let x := handle_send (fun b => b) "bob" v i e (ServerWorld.mkWorld (sys_db (n_sys s)) ∅ 1 ∅ ∅ 0) in
  mkNet (after_request (ServerWorld.w_db x.2) (n_sys s)) (n_sender s) (n_sent s) (n_told s) (n_answers s ++ [x.1]).
Lemma request_run v i e s0 s :
  conversing s0 [] s -> SendMessage v i e ∈ n_sent s -> conversing s0 [] (request v i e s).
Proof.
  intros Hs Hi. exact (net_request _ _ _ _ _ s0 [] s v i e (ServerWorld.mkWorld (sys_db (n_sys s)) ∅ 1 ∅ ∅ 0) Hs Hi eq_refl).
Defined.
Definition accepted_net : Net := request alice_user draft.1 draft.2 entered_net.
Definition told_net : Net := turn (IApp (EvServer (MessageSent draft.1))) accepted_net.

Lemma entered_told : conversing entered_net [] told_net.
Proof.
  apply turn_run.
  - apply request_run; [apply net_here|].
    pose proof draft_sent as Hl. apply last_Some in Hl as [l ->]. apply elem_of_app. right. left.
  - intros m [= <-]. exact I.
  - intros m [= <-]. assert (n_answers accepted_net = [MessageSent draft.1]) as Ea by (vm_compute; reflexivity).
    rewrite Ea. left.
Defined.

(** Everything Bob's client has put on its channel, by id. *)
Definition sent_as (m : ClientMessage) : option (UserId * MessageId * EncryptedEnvelope) :=
  match m with SendMessage v i e => Some (v, i, e) | _ => None end.
Lemma sent_as_in (l : list ClientMessage) v i e : SendMessage v i e ∈ l -> (v, i, e) ∈ omap sent_as l.
Proof. intros Hin. apply list_elem_of_omap. by eexists; split; [exact Hin|]. Defined.
Lemma draft_unique v e : SendMessage v draft.1 e ∈ n_sent told_net -> v = alice_user /\ e = draft.2.
Proof.
  assert (omap sent_as (n_sent told_net) = repeat (alice_user, draft.1, draft.2) 2) as Hall by (vm_compute; reflexivity).
  intros Hs%sent_as_in. rewrite Hall in Hs. revert Hs. generalize draft as x. clear Hall.
  intros x Hs. apply list_elem_of_In, repeat_spec in Hs. by injection Hs as -> ->.
Defined.

Lemma last_elem {A} (l : list A) x : last l = Some x -> x ∈ l.
Proof. intros [k ->]%last_Some. apply elem_of_app. right. left. Defined.
Lemma no_outgoing l t i e : existsb is_outgoing l = false -> PMessage t i e ∉ l.
Proof.
  intros Hf Hin%list_elem_of_In. assert (existsb is_outgoing l = true) as Ht; [|congruence].
  apply existsb_exists. by exists (PMessage t i e).
Defined.


Definition relay (d : Db) : ServerWorld.World := ServerWorld.mkWorld d ∅ 1 ∅ ∅ 0.
Definition sha (b : bytes) : bytes := b.
Lemma quiet_keys : keys_32.
Proof. intros t i. apply repeat_length. Defined.

Definition registered :=
  handle_message sha "srv" 3%nat (Session_new 3) (registration_message bob_user bob_ik 0) (relay empty_db).
Lemma registration_agrees_witness :
  authed_user registered.1.2 = Some "bob"
  /\ users (ServerWorld.w_db registered.2) !! "bob" = Some (verifying_key bob_ik)
  /\ exists c', register_with_server "bob" true (fun _ => registered.1.1)
                   (mkClient (fresh_manager bob_ik) (empty_disk, 0%nat)) = (Ok tt, c')
     /\ (forall k, p_public_key <$> prekeys (ServerWorld.w_db registered.2) !! ("bob", k)
                   = opk_public <$> stored_opks (c_mgr c') !! k).
Proof.
  destruct (registration_agrees sha "srv" ∅ 3%nat bob_user (fun _ => registered.1.1) (fresh_manager bob_ik)
    empty_disk 0%nat (relay empty_db)) as (Ha & Hu & c' & spk & Er & _ & _ & _ & Hk); try reflexivity.
  - exact quiet_keys.
  - exact pk_inv_empty.
  - split; [exact Ha|]. split; [exact Hu|]. exists c'. split; [exact Er|exact Hk].
Defined.

Definition known_bob : Db :=
  mkDb {["bob" := verifying_key bob_ik]} {[("bob", 5) := mkSignedPreKeyRow [] []]} ∅ {["bob" := 0]} ∅ [] [] ∅ 0 [].
Definition asked := handle_message sha "srv" 3%nat (Session_new 3) (AuthChallenge bob_user) (relay known_bob).
Lemma login_succeeds_witness :
  exists response, handle_auth_flow asked.1.1 bob_ik = Some response
    /\ (handle_message sha "srv" 3%nat asked.1.2 response asked.2).1.1 = Some AuthSuccess.
Proof.
  destruct (login_succeeds sha "srv" 3%nat bob_user bob_ik [ConnectFails] [] (relay known_bob) asked.2)
    as (response & Er & (Ea & _) & _); try reflexivity.
  - vm_compute. discriminate.
  - exists response. split; [exact Er|exact Ea].
Defined.

(** A clock on which the rotation is due at once. *)
Definition fast : ClientEnv := {|
  ce_fault _ := false;
  ce_clock t := 10000000 * Z.of_nat t;
  ce_random t n := repeat (byte_of_Z (1 + Z.of_nat t + Z.of_nat n)) 32;
  ce_uuid t := mkMessageId (Z.of_nat t);
|}.
Definition bob2 : Client :=
  (@exec _ _ fast ORotate (@exec _ _ fast (ORegister ClientDemo.spk []) (ClientDemo.started fast bob_ik)).2).2.
Definition rotation : PendingOutbound :=
  default (PAck (mkMessageId 0) []) (head (pending_outbound (c_mgr bob2))).

Lemma bob2_reachable : @reachable _ _ fast bob_ik bob2.
Proof.
  unfold bob2. apply reach_op; [apply reach_op|]; [apply ClientDemo.started_reachable; vm_compute; reflexivity| |].
  - split; vm_compute; [reflexivity|discriminate].
  - vm_compute. exact I.
Defined.

Lemma rotation_converges_witness :
  exists msg rid key_id c1 w1 c2,
    @confirm_signed_prekey_rotated _ _ fast (item_id rotation) false false 5 bob2 = (Ok (Some msg), c1)
    /\ handle_user_message sha "bob" msg (relay known_bob) = (Some (SignedPreKeyRotated rid true false key_id), w1)
    /\ @confirm_signed_prekey_rotated _ _ fast rid true false key_id c1 = (Ok None, c2)
    /\ newest "bob" (ServerWorld.w_db w1) = Some key_id.
Proof.
  assert (bob2 = mkClient (c_mgr bob2) ((c_io bob2).1, (c_io bob2).2)) as Eb by (vm_compute; reflexivity).
  assert (pending_outbound (c_mgr bob2) !! 0%nat = Some rotation) as Hi by (vm_compute; reflexivity).
  assert (is_rotation rotation = true) as Hrot by (vm_compute; reflexivity).
  assert (head (previous_spks (c_mgr bob2)) = Some ClientDemo.spk) as Hr by (vm_compute; reflexivity).
  assert (replacement_id (c_mgr bob2) ClientDemo.spk 5 < u32_max) as Hm by (apply Z.ltb_lt; vm_compute; reflexivity).
  assert (is_Some (stored_spk (c_mgr bob2))) as Hs by (apply (bool_decide_eq_true_1 _); vm_compute; reflexivity).
  assert (uuid_to_string (@ce_uuid fast (S (c_io bob2).2)) ∉ (outbox (c_io bob2).1).*1) as Hu
    by (apply (bool_decide_eq_true_1 _); vm_compute; reflexivity).
  destruct rotation as [| | | | |i k pk sg]; try discriminate Hrot. cbn [item_id].
  destruct (@rotation_converges _ _ _ fast _ _ _ _ _ sha "bob" 0%nat i k pk sg false 5 ClientDemo.spk (c_mgr bob2)
    (c_io bob2).1 (c_io bob2).2 (relay known_bob))
    as (msg & rid & spk & c1 & w1 & c2 & E1 & E2 & E3 & _ & _ & _ & En & _); try reflexivity.
  - rewrite <-Eb. exact (@client_memory_and_file_agree _ _ _ fast _ _ bob_ik bob2 bob2_reachable).
  - exact Hi.
  - exact Hs.
  - by split.
  - intros t j. apply repeat_length.
  - exact Hu.
  - split; vm_compute; discriminate.
  - exists msg, rid, (spk_key_id spk), c1, w1, c2. rewrite Eb. split; [exact E1|]. split; [exact E2|].
    split; [exact E3|exact En].
Defined.
End AppDemo.
