(* ===== verification/IntroDemo.v ===== *)
(** * Two strangers at work

    Bob registers at the relay, Alice asks for his keys, writes to him and he is
    given the message: the theorems of [Directory] and [Introduction] on a
    concrete run. *)
From stdpp Require Import base numbers list sorting strings gmap.
From Stdlib Require Import Strings.Byte.
From S2P Require Import Prelude Consts Types Primitives Keys X3dh Ratchet SqlDb DbUsers DbPrekeys DbQueue DbReceipts ServerWorld Handlers Delivery CryptoStore CryptoMgr CryptoMgrCrash CryptoMgrContact ClientNet ClientServer Conversation ClientDemo DbTrace DbLimits Directory Introduction.
Local Open Scope Z_scope.
Local Open Scope cmp_scope.

Module IntroDemo.
#[local] Existing Instance Toy.prims.
#[local] Existing Instance Toy.dh_laws.
#[local] Existing Instance Toy.identity_laws.
#[local] Existing Instance Toy.kdf_laws.
#[local] Existing Instance Toy.aead_laws.
#[local] Existing Instance Toy.signature_laws.
#[local] Existing Instance Toy.public_key_laws.
#[local] Existing Instance ToyServer.codecs.
#[local] Existing Instance ToyServer.codec_laws.
#[local] Existing Instance ToyServer.env.
#[local] Existing Instance ToyServer.alone.
#[local] Existing Instance PickFirst.pick_first.
#[local] Existing Instance PickFirst.pick_first_laws.
#[local] Existing Instance ClientDemo.quiet.

Definition alice : UserId := mkUserId "alice".
Definition bob : UserId := mkUserId "bob".
Definition bob_ik : IdentityKeyPair := ClientDemo.bob_ik.
Definition relay (d : Db) : World := mkWorld d ∅ 1 ∅ ∅ 0.
Definition sha (b : bytes) : bytes := b.

(** ** Bob's keys at the relay *)

Definition registered := handle_message sha "srv" 3%nat (Session_new 3) (registration_message bob bob_ik 0) (relay empty_db).
Definition bob_client : Client :=
  (register_with_server "bob" true (fun _ => registered.1.1) (mkClient (fresh_manager bob_ik) (empty_disk, 0%nat))).2.
Definition bob_keys : Published := registration_keys bob_ik 0.

Lemma drawn_keys : keys_32.
Proof. intros t i. apply repeat_length. Defined.

Lemma bob_published : directory "bob" bob_keys (w_db registered.2).
Proof.
  destruct (registration_directory sha "srv" 3%nat bob bob_ik 0 (relay empty_db)) as [_ D]; [exact drawn_keys|done|done| |done|exact D].
  exact relay_inv_empty.
Qed.

(** Alice registers too. *)
Definition joins : list op := [OpRegister 0 (mkRegistration "alice" (repeat x03 32) 0 [] [] [])].
Definition directory_world : World := relay (DbTrace.run sha joins (w_db registered.2)).2.
Definition fetched := handle_fetch "alice" bob directory_world.
Definition bundle : PreKeyBundle :=
  match fetched.1 with PreKeyBundleResponse _ b => b | _ => mkPreKeyBundle "" "" 0 "" None end.
Lemma bundle_fetched : (handle_fetch "alice" bob directory_world).1 = PreKeyBundleResponse bob bundle.
Proof. vm_compute. reflexivity. Defined.
Lemma directory_db : w_db directory_world = (DbTrace.run sha joins (w_db registered.2)).2.
Proof. reflexivity. Qed.
Lemma joins_publish : Forall (publishes "bob" bob_keys) joins.
Proof. by repeat constructor. Defined.

Lemma bundle_is_published_witness :
  exists spk opk, spk ∈ [registration_spk bob_ik 0] /\ (forall k, opk = Some k -> k ∈ registration_opks 0)
    /\ bundle = wire_bundle bob_ik spk opk.
Proof.
  destruct (bundle_is_published sha bob_keys bob "alice" joins (w_db registered.2) directory_world bob bundle)
    as [_ Hb]; [exact bob_published|exact joins_publish|exact directory_db| |exact bundle_fetched|exact Hb].
  exact (others_publish_alone sha "bob" bob_keys).
Defined.

(** ** Alice's message *)

Definition message_id : MessageId := mkMessageId 77.
Definition alice1 : Client := (init_session_from_bundle "bob" bundle ClientDemo.alice).2.
Definition sent := encrypt_message "bob" bob message_id (str_bytes "hello") alice1.
Definition request : ClientMessage := match sent.1 with Ok m => m | Err _ => Typing bob end.
Definition answered := handle_user_message sha "alice" request fetched.2.
(** She acknowledges, as if it were a message to her. *)
Definition meanwhile : list op := [OpDelete "alice" [uuid_to_string message_id]].
Definition evening : World := relay (DbTrace.run sha meanwhile (w_db answered.2)).2.
Lemma evening_db : w_db evening = (DbTrace.run sha meanwhile (w_db answered.2)).2.
Proof. reflexivity. Qed.
Definition inbound (r : QueueRow) : InboundMessage :=
  match queued_row_to_inbound (queued_of r) with Ok m => m | Err _ => mkInbound message_id bob ClientDemo.envelope 0 end.

(** The queue holds one row. *)
Definition row : QueueRow := default (mkQueueRow 0 "" "" "" "" "") (head (message_queue (w_db evening))).
Lemma evening_queue : message_queue (w_db evening) = [row].
Proof. vm_compute. reflexivity. Defined.
Lemma answered_queue : message_queue (w_db answered.2) = [row].
Proof. vm_compute. reflexivity. Defined.
Lemma evening_valid : valid_queue "bob" 20 inbound (message_queue (w_db evening)).
Proof.
  rewrite evening_queue. split.
  - change (StronglySorted Z.lt [q_rowid row]). repeat constructor.
  - intros r ->%list_elem_of_singleton. vm_compute. reflexivity.
  - intros r ->%list_elem_of_singleton _.
    split; [vm_compute; reflexivity|exists 10; split; [reflexivity|vm_compute; discriminate]].
Qed.

(** Bob's client still has its keys. *)
Lemma bob_holds : ((fun k => stored_opks (c_mgr bob_client) !! opk_key_id k) <$> registration_opks 0) = Some <$> registration_opks 0.
Proof. vm_compute. reflexivity. Defined.
Lemma all_held (m : gmap Z Keys.OneTimePreKey) (l : list Keys.OneTimePreKey) :
  ((fun k => m !! opk_key_id k) <$> l) = Some <$> l -> forall k, k ∈ l -> m !! opk_key_id k = Some k.
Proof.
  intros E k Hk. apply list_elem_of_lookup in Hk as [n Hn].
  apply (f_equal (fun l => l !! n)) in E. rewrite !list_lookup_fmap, Hn in E. by injection E.
Qed.
Lemma bob_awaits spk opk :
  spk ∈ pub_spks bob_keys -> (forall k, opk = Some k -> k ∈ pub_opks bob_keys) ->
  published bob_ik spk opk /\ awaits "alice" message_id spk opk bob_client.
Proof.
  intros Hs Ho. split; [by apply (registration_published bob_ik 0); [exact drawn_keys|..]|].
  apply list_elem_of_singleton in Hs as ->. split; [vm_compute; reflexivity| |vm_compute; reflexivity..].
  intros k ->. exact (all_held _ _ bob_holds k (Ho k eq_refl)).
Qed.

Lemma first_message_arrives_witness :
  exists new m cB', pages_of 0 (deliver_queued_messages 0 "bob" evening).2 = new /\ m ∈ concat new
    /\ im_sender_id m = alice
    /\ decrypt_message_to_text (E := CryptoError) "alice" message_id (im_envelope m) bob_client = (Ok (Pending "hello"), cB').
Proof.
  assert (exists out, encrypt_message "bob" bob message_id (str_bytes "hello") alice1 = (Ok out, sent.2) /\ request = out) as (out & Hs & Er).
  { exists request. split; [|reflexivity]. vm_compute. reflexivity. }
  destruct (first_message_arrives ClientDemo.quiet ClientDemo.quiet sha alice bob message_id "hello" bob_keys joins (w_db registered.2)
    directory_world bundle ClientDemo.alice alice1 sent.2 out fetched.2 answered.2 meanwhile evening 0%nat 20 inbound bob_client)
    as (new & m & cB' & Ep & Hm & _ & Ha & Ed & _).
  - reflexivity.
  - exact bob_published.
  - exact joins_publish.
  - exact (others_publish_alone sha "bob" bob_keys).
  - exact directory_db.
  - exact bundle_fetched.
  - exact drawn_keys.
  - reflexivity.
  - reflexivity.
  - vm_compute. reflexivity.
  - exact Hs.
  - split; [vm_compute; reflexivity|]. apply (bool_decide_unpack _). vm_compute. exact I.
  - rewrite <- Er. vm_compute. reflexivity.
  - exact evening_db.
  - intros r _ _ Hb. unfold meanwhile, releases. cbn [forallb]. rewrite Hb. reflexivity.
  - reflexivity.
  - reflexivity.
  - apply arrivals_alone.
  - reflexivity.
  - exact evening_valid.
  - vm_compute. repeat constructor.
  - vm_compute. reflexivity.
  - intros spk opk Hs' Ho _. by apply bob_awaits.
  - exists new, m, cB'. split; [exact Ep|]. split; [exact Hm|]. split; [exact Ha|exact Ed].
Defined.
End IntroDemo.
